(* ===== verification/_CoqProject ===== *)
-Q . S2P
Prelude.v
Prog.v
Strconv.v
Conditions.v
Meta.v
Registry.v
ScanJob.v
Filters.v
NodeScanJob.v
GoPath.v
Encoding.v
StorageTypes.v
Report.v
Effects.v
History.v
StatusUpdate.v
Messages.v
RegistryAuth.v
RegistryClient.v
VulnReportController.v
ScanJobController.v
RegistryScanRunner.v
NodeScanController.v
NodeScanRunner.v
ImageCatalog.v
CreateCatalog.v
CatalogRun.v
GenerateSBOM.v
GenerateNodeSBOM.v
ScanSBOM.v
NodeScanSBOM.v
FailureHandlers.v
Subscriber.v
Worker.v
NodeWorker.v
Sql.v
StorageEffects.v
StorageSample.v
Repository.v
Store.v
StoreEvents.v
Database.v
Pagination.v
StoreRefinement.v
StoreLiveness.v
StoreRaces.v
Watcher.v
WorkloadReport.v
WorkloadPopulate.v
WorkloadWatcher.v
WorkloadRegistry.v
WorkloadContributions.v
WorkloadReconcile.v
WorkloadScanController.v
WorkloadReports.v
WorkloadRescan.v
ImageWorkloads.v
Webhooks.v
Admission.v
Mcp.v
McpTools.v
StorageResources.v
ReportAdmission.v
StorageTables.v
Telemetry.v
Instrumentation.v
Messaging.v
ControllerCache.v
Queries.v
Startup.v
EntryPoints.v
TelemetrySetup.v
Interleaving.v
System.v
Completion.v
SystemSample.v
