(* ===== verification/Prelude.v ===== *)
(** * SBOMscanner

    A model of SBOMscanner ([src/], a Kubernetes operator in Go) and proofs of
    what makes it correct.  SBOMscanner catalogs the images of container
    registries and the file systems of cluster nodes, generates an SBOM for
    each with Trivy, scans it, and stores vulnerability reports.

    ** The program and its parts

    A _job_ (ScanJob for a registry, NodeScanJob for a node) is the unit of
    work.  A _runner_ in the controller process creates jobs when a scan is
    due; a _reconciler_ validates a pending job, freezes the configuration it
    runs under in an annotation, and publishes its first message; the
    _worker_ process consumes messages from NATS and runs a _handler_ for each.
    Registry: CreateCatalog lists the images and publishes one GenerateSBOM per
    image, GenerateSBOM stores an SBOM and publishes ScanSBOM, ScanSBOM stores
    a VulnerabilityReport, and the VulnerabilityReport reconciler counts the
    reports and completes the job.  Node: GenerateNodeSBOM stores a NodeSBOM
    and publishes ScanNodeSBOM, which stores the report and completes the job.
    A message that fails is redelivered with a growing delay; the last failure
    goes to a _failure handler_ that marks the job as failed.

    Workload scans close the loop from running pods: a reconciler turns the
    images of the pods of a namespace into match conditions of managed
    registries (which the registry pipeline then scans) and keeps a
    WorkloadScanReport for each workload; another lists on each Image the
    reports of the workloads that run it.  Images, SBOMs and reports live in an
    aggregated _storage API server_: a store over PostgreSQL, whose writes are
    announced on NATS to the watchers of every replica.  _Webhooks_ and an
    admission plugin of the storage guard what users may write.  An _MCP server_
    offers tools that read the reports and edit registries and jobs.  Every
    entry point of these processes is decorated with spans and metrics, and the
    trace of a job follows it through annotations and message headers.

    ** How Go is modelled

    - An error is a value of [error] (below): a leaf with its Kubernetes status
      reason, under [fmt.Errorf] wrappers; a panic is a leaf that nothing wraps.
      A fallible function returns [result].
    - Pure Go functions are functions.  Code that talks to its environment is a
      [prog] ([Prog.v]): an inductive tree of calls of the signature [Eff]
      ([Effects.v]: Kubernetes client, NATS, registry, Trivy, files, clock,
      metrics), so it terminates whatever the answers.  [run] executes it
      against an environment; [wp] quantifies over all answers.  The safety
      theorems are about the trace of every run against any environment, with
      no assumption on its answers.  The storage server is a [prog] over a
      signature of its own ([StorageEffects.v]: SQL statements, transactions,
      the version sequence, NATS, watch streams), and [Database.v] is an
      interpreter of it: tables of rows, one open transaction with READ
      COMMITTED visibility, and a script of the writes that other clients make
      between two statements.  SQL is abstract syntax with PostgreSQL's
      three-valued semantics ([Sql.v]).
    - A method that changes its receiver returns the new value; a variable that
      a retried closure assigns is part of the closure's result.
    - Third-party code is a class with its documented laws, each with an
      instance that shows the laws can hold: [StatusConditions]
      (apimachinery's conditions), [GoSort], [MapRange], [ControllerUtil],
      [CreateOrUpdater] (controller-runtime), [Retry] (client-go), [CEL],
      [Trivy], [Float64], [CreateOrPatcher], [Controllers] (metav1's owner
      references), [Resource] (the JSON form of a stored object), [Postgres]
      (the text of a jsonb value, the parsing of a text array), [Digests]
      (go-containerregistry), [Propagation] (OpenTelemetry's contexts and the
      W3C propagator), [NatsSubjects] (which subjects a filter matches),
      [Retrier] (retry-go); [JSON], [YAML], [GoTime], [Names], [MediaTypes],
      [X509], [LabelSelectors], [SelectorValidation], [TimeFormat] and
      [FloatText] are functions without laws.
    - Telemetry is a second signature beside that of the program ([instr] of
      [Telemetry.v]), so that what a decorator adds can be told from what the
      program does.  Starting a process ([Startup.v], [EntryPoints.v]), setting
      telemetry up ([TelemetrySetup.v]) and creating streams and consumers
      ([Messaging.v]) have signatures of their own.
    - Processes that run at the same time are a pool of programs
      ([Interleaving.v]): a step starts a program, makes one call of one of them,
      kills one, or changes the state behind them.  [System.v] instantiates it
      with every program of the controller and the worker and with an API
      server whose reads may be stale and whose calls may fail.  A history of
      such a pool also records what each program had been answered when it made
      a call, so that [Completion.v] can say why a job is complete.
    - Integers that cannot overflow (counters bounded by the size of a list, a
      time in nanoseconds) are [nat] or [Z]; SHA-256 works on 32-bit words
      ([Encoding.v]) and the backoff on rounded floating point ([Subscriber.v]).

    ** Files

    - [Prelude.v]: errors, results, strings, lists, automation.
    - [Prog.v]: programs, runs, [wp], loops, retry on conflict.
    - [Conditions.v], [Meta.v]: status conditions, object metadata, and the
      classes of apimachinery, sorting and time.
    - [Registry.v], [ScanJob.v], [NodeScanJob.v], [StorageTypes.v]: the types of
      [src/api] with their methods.
    - [Filters.v], [GoPath.v], [Encoding.v], [Report.v]: tag and platform
      filters and skip patterns ([src/internal/filters], [cel],
      [skippatterns]); Go's [path]; SHA-256 and hex; the conversion of Trivy
      reports ([src/internal/handlers/trivyreport]).
    - [Effects.v], [Messages.v]: the calls to the environment, how a trace is
      read, the payloads ([src/internal/handlers/messages.go]).
    - [History.v], [StatusUpdate.v]: the two patterns several components share,
      trimming the history of jobs and moving a job on under conflicts.
    - [src/internal/controller]: [ScanJobController.v],
      [VulnReportController.v], [RegistryScanRunner.v], [NodeScanController.v]
      (NodeScanJob, Node and NodeScanConfiguration reconcilers),
      [NodeScanRunner.v].
    - [src/internal/handlers]: [RegistryAuth.v] (registry_snapshot.go, cabundle,
      dockerauth), [RegistryClient.v], [ImageCatalog.v] and [CreateCatalog.v]
      (create_catalog.go: its pure functions and the handler) with
      [CatalogRun.v] (what a whole run of that handler does),
      [GenerateSBOM.v], [ScanSBOM.v] (with scan_sbom_helpers.go),
      [GenerateNodeSBOM.v], [NodeScanSBOM.v], [FailureHandlers.v].
    - [Subscriber.v] ([src/internal/messaging]), [Worker.v] and [NodeWorker.v]
      ([src/cmd/worker]: the handlers of the registry and of the node mode).
    - [src/internal/storage]: [Strconv.v] (Go's strconv), [Sql.v],
      [StorageEffects.v] and [StorageSample.v] (a concrete encoding for the
      examples) are its vocabulary; [Repository.v] (repository.go,
      generic_object_repository.go, list.go), [Store.v] (store.go),
      [Watcher.v] (watcher.go), [WorkloadReport.v]
      (workloadscanreport_repository.go), [WorkloadWatcher.v]
      (workloadscanreport_watcher.go, transform.go) translate it; the proofs
      are there and in [StoreEvents.v], [Pagination.v], [StoreRefinement.v],
      [StoreLiveness.v], [StoreRaces.v] and [WorkloadPopulate.v].
    - Workload scans ([src/internal/controller]): [WorkloadRegistry.v]
      (workloadscan_controller_registry.go), [WorkloadScanController.v]
      (workloadscan_controller.go and _report.go), [ImageWorkloads.v]
      (image_workloadscan_controller.go, indexer.go, the watch helpers); proofs
      in [WorkloadContributions.v], [WorkloadReconcile.v], [WorkloadReports.v]
      and [WorkloadRescan.v].
    - [src/internal/webhook]: [Webhooks.v], proofs in [Admission.v].
    - [src/internal/mcp]: [Mcp.v] (helpers.go: collecting, sorting and counting
      vulnerabilities), [McpTools.v] (tools.go, middlewares.go and server.go:
      every tool, which are registered, the rate limit, the authentication).
    - The storage API: [StorageResources.v] (strategies, validation, field
      selectors, the stores), [StorageTables.v] (table_convertor.go),
      [ReportAdmission.v] ([src/internal/apiserver/admission]).
    - [src/internal/telemetry]: [Telemetry.v] (nats.go, annotations.go; spans
      and metrics as calls), [TelemetrySetup.v] (otel.go, jobs.go, slog.go);
      [Instrumentation.v] (the instrumentation.go of the packages).
    - Processes: [Messaging.v] (publisher.go, the consumer of subscriber.go and
      the modes of [src/cmd/worker]), [ControllerCache.v] (the cache and the
      programs of [src/cmd/controller], transform.go), [Queries.v] (the fields
      lists may ask for: indexer.go, register.go and the markers of the types),
      [Startup.v] ([src/cmd/storage], [src/internal/cmdutil], migrations.go, the
      watchers' Setup and Start, [src/internal/apiserver]), [EntryPoints.v] (the
      main.go of every process, the set-up of controllers and webhooks, log
      levels).
    - The whole: [Interleaving.v] (pools of programs and their histories),
      [System.v] (all programs against one API server), [Completion.v] (why a job
      is complete), [SystemSample.v] (a run of the system).

    A definition has the name of the Go function it translates; a part of a
    long function (a loop body, a retried closure, the rest after the guards)
    has a name of its own, and is called where the Go code has it.

    ** What is proved

    - The system.  However its processes interleave, whatever fails, is stale or
      is killed: [completed_jobs_complete]: a job is complete because a
      catalog run was shown no image of its registry or because a pass was
      shown a report for every image; [reported_jobs_complete]: a job with a
      report for every image is completed by the next pass of the report
      reconciler against a healthy server; [system_completes_a_job]: a run from
      an empty cluster that completes one.
    - Jobs.  [lifecycle_refines_phases]: the conditions of a ScanJob implement a
      five-state machine; [lifecycle_timestamps]: its times.
    - Counting.  [requests_match_count]: the number of images a catalog run
      persists on the job is the number of images the registry showed it, and it
      asks for the SBOM of each;
      [report_progress], [completion_counted_once]: reports are counted
      towards it and complete the job exactly once.
    - Pipeline order.  [sbom_then_scan_request], [report_of_the_scan],
      [node_sbom_then_scan_request], [node_report_then_completion]: what is
      stored, from what, before the next message is sent; [pipeline_closed],
      [node_pipeline]: every message sent has a handler;
      [delivery_settled_once]: a delivery is acked or nacked once;
      [backoff_bounds]: the delay.
    - Guards.  [publish_only_valid], [snapshot_before_publish],
      [scan_only_when_due], [node_publish_only_valid],
      [node_scan_only_when_due], [stale_message_ignored].
    - Confinement.  [deletions_confined], [credentials_confined],
      [temporaries_removed_secrets_confined], [history_limit].
    - Data.  [rescan_merge], [targets_agree], [image_uid_unique],
      [workload_references_exact], [FilterByTag_spec], [Validate_sound],
      [Parse_spec], [conversion_complete], [summary_correct],
      [node_consumers_distinct].
    - The store.  [store_refines]: any sequence of creates, deletes and updates
      gives the results and the contents of an abstract map with versions;
      [announced_after_commit]: a write is announced once, after its commit,
      whatever fails; [versions_unique]; [update_returns]: an update returns
      once the conflicts stop; [pages_cover]: following the continue tokens
      ends and gives the unpaged list; [label_condition_selects]: what the SQL
      of a label selector selects; [key_roundtrip],
      [created_object_delivered]: what the watchers of a replica receive.
    - Workload scans.  [registries_follow_workloads]: the managed registries
      hold, for each namespace, exactly the images of its pods;
      [rescan_covers_new_images]: what is rescanned;
      [reports_follow_workloads], [workload_pass]: the reports, and every
      outcome of a pass; [population_correct], [workload_summary_correct]: what
      a report shows; [affected_workloads_notified], [image_lists_workloads],
      [report_change_reaches_images]: changes reach those they concern.
    - Admission.  [registry_admission_exact]: which creations, updates and
      deletions of a registry the webhook accepts;
      [workload_registries_admitted]: the controller's own registries are
      accepted; [only_service_account_vouches]: in every reachable state only
      the service account can have the worker read secrets of the installation
      namespace; [managed_report_protected]: a managed workload report is
      written by the controller only; [index_entries_bounded]: what validation
      accepts fits PostgreSQL's index; [webhook_agrees_with_reconciler].
    - Queries.  [field_condition_selects]: the SQL of a field selector selects
      what the selector matches; [listed_fields_known]: every list by a field is
      by one the cache indexes or the API server can select by;
      [tables_well_formed]: printed tables.
    - The MCP server.  [tools_change_what_is_asked]: without the credentials
      nothing is called, and a tool that succeeds made exactly the change it was
      asked for;
      [worst_first], [workload_counts_consistent]: what is reported.
    - Telemetry.  [instrumentation_transparent]: a decorated program makes the
      calls of the plain one and returns what it returns, in well-nested spans;
      [measured_once], [series_precreated]: the metrics; [trace_follows_job]: the
      span of whoever handles a message or an object is in the trace of whoever
      published it; [telemetry_whole]: set up whole or not at all.
    - Processes.  [work_queue_partitioned]: every subject a worker handles is in
      the stream and is given to that worker only; [cache_never_written_back]:
      what the cache strips or shares never reaches the API server;
      [storage_prepared], [client_ready]: what a process waits for and
      prepares, and that every connection of the pool verifies the host of the
      URI; [server_starts_ready]: nothing is served before every watcher
      listens; [processes_start_whole]: no process works before all it needs was
      set up, and its telemetry is shut down last; [level_roundtrip]: log levels.
    - Failures.  [failure_recorded_once]; and, as theorems, behaviours the code
      probably does not intend: [image_layers] (an index out of range),
      [shared_manifest_counted_twice], [failure_overrides_any_job],
      [trivy_home_kept_without_vex], [malformed_rescan_scans_all],
      [duplicate_conditions_disagree], [redelivery_restarts_job],
      [stale_update_never_returns], [update_lost], [watch_unfiltered],
      [deletion_not_replayed], [creation_missed], [lookup_failure_dropped],
      [creation_time_rewritten], [first_finding_decides],
      [untouched_update_rejected], [label_added_by_anyone],
      [completion_undone].

    ** Bounds

    Loops are over lists, the SHA-256 block loop has the length of its message
    as fuel, and [RetryOnConflict] makes some fixed number of attempts (five
    for [DefaultRetry]), over which the theorems quantify; a wait of a process
    makes at most twenty.  One loop of the
    program has no bound of its own, that of [GuaranteedUpdate], and takes
    fuel: [update_returns] says how much is enough for any run,
    [stale_update_never_returns] when none is.  [follow] of [Pagination.v], a
    client that reads all pages, takes fuel too, and [pages_cover] needs one
    turn more than there are objects.  The history limit (10) and the number of
    deliveries (5) are the constants of the source; row identifiers and limits
    are below 2^63 where it matters.

    ** Not modelled

    The text of log lines, the links between spans and the creation of metric
    instruments; the parsing of arguments by package flag; what controller-runtime's
    manager and the generic API server do with what they are given; generated code
    ([src/pkg/generated], deep copies: values are immutable here) and mocks; the
    loop of NATS around one delivery and the goroutines of the servers ([Startup.v]
    has what each of them is started with); methods of the store that return a
    constant.  The API server of [System.v] keeps scan jobs and vulnerability
    reports, the kinds by which a job is completed, and answers other kinds in any
    way.  Managed fields are not part of the metadata of an object here. *)

From stdpp Require Import prelude gmap strings list sorting.
From Stdlib Require Import ZArith Lia Ascii.

Open Scope string_scope.
Open Scope list_scope.

(** ** Go errors

    A Go [error] is a chain: a leaf made by [errors.New] or by the Kubernetes
    API machinery, and any number of [fmt.Errorf("...: %w", err)] wrappers
    around it.  [err_var] is a package-level error variable, compared by
    identity with [errors.Is].  [go_panic] is not an error value of the
    program but a run-time panic: it unwinds through every caller, so
    [errorf] does not wrap it. *)

Inductive StatusReason :=
| ReasonNotFound
| ReasonAlreadyExists
| ReasonConflict
| ReasonForbidden
| ReasonInvalid
| ReasonBadRequest
| ReasonInternalError
| ReasonOther.

Inductive error :=
| errors_New (msg : string)
| err_var (id : string)
| apierror (reason : StatusReason) (msg : string)
| fmt_Errorf (msg : string) (wrapped : error)
| go_panic (msg : string).

#[export] Instance StatusReason_eq_dec : EqDecision StatusReason.
Proof. solve_decision. Defined.
#[export] Instance error_eq_dec : EqDecision error.
Proof. solve_decision. Defined.

(** [fmt.Errorf(msg ++ ": %w", err)]. *)
Definition errorf (msg : string) (err : error) : error :=
  match err with
  | go_panic _ => err
  | _ => fmt_Errorf msg err
  end.

(** A run-time panic, which no caller turns into a value. *)
Definition is_panic (err : error) : bool :=
  match err with go_panic _ => true | _ => false end.

(** [err.Error()]. *)
Fixpoint Error (err : error) : string :=
  match err with
  | errors_New msg => msg
  | err_var id => id
  | apierror _ msg => msg
  | fmt_Errorf msg e => msg +:+ ": " +:+ Error e
  | go_panic msg => msg
  end.

(** [apierrors.ReasonForError]: the reason of the first API status in the chain. *)
Fixpoint ReasonForError (err : error) : option StatusReason :=
  match err with
  | apierror r _ => Some r
  | fmt_Errorf _ e => ReasonForError e
  | _ => None
  end.

Definition IsNotFound (err : error) : bool :=
  bool_decide (ReasonForError err = Some ReasonNotFound).
Definition IsAlreadyExists (err : error) : bool :=
  bool_decide (ReasonForError err = Some ReasonAlreadyExists).
Definition IsConflict (err : error) : bool :=
  bool_decide (ReasonForError err = Some ReasonConflict).

(** [errors.Is(err, target)] for a package-level error variable. *)
Fixpoint errors_Is (err : error) (target : string) : bool :=
  match err with
  | err_var id => bool_decide (id = target)
  | fmt_Errorf _ e => errors_Is e target
  | _ => false
  end.

(** The multiple return value [(A, error)]. *)
Inductive result (A : Type) :=
| Ok (a : A)
| Err (e : error).
Arguments Ok {A} _.
Arguments Err {A} _.

Definition is_ok {A} (r : result A) : bool :=
  match r with Ok _ => true | Err _ => false end.

Lemma IsNotFound_errorf msg e : IsNotFound (errorf msg e) = IsNotFound e.
Proof. by destruct e. Qed.
Lemma IsConflict_errorf msg e : IsConflict (errorf msg e) = IsConflict e.
Proof. by destruct e. Qed.
Lemma IsNotFound_not_conflict e : IsNotFound e = true → IsConflict e = false.
Proof.
  unfold IsNotFound, IsConflict. intros H%bool_decide_eq_true.
  apply bool_decide_eq_false. congruence.
Qed.

(** ** Go strings *)

Definition Str (c : ascii) : string := String c EmptyString.

(** The verb [%q]: Go's quoted form of a string.  Bytes of non-ASCII
    (printable) runes are kept as they are. *)
Definition hex_digit (n : nat) : string :=
  Str (ascii_of_nat (if Nat.ltb n 10 then 48 + n else 87 + n)%nat).
Definition escape (c : ascii) : string :=
  let n := nat_of_ascii c in
  match n with
  | 34%nat | 92%nat => String "\" (Str c)
  | 7%nat => "\a" | 8%nat => "\b" | 9%nat => "\t" | 10%nat => "\n" | 11%nat => "\v"
  | 12%nat => "\f" | 13%nat => "\r"
  | _ => if Nat.ltb n 32 || Nat.eqb n 127
         then "\x" +:+ hex_digit (n / 16) +:+ hex_digit (n mod 16)
         else Str c
  end.
Definition dquote : ascii := ascii_of_nat 34.
Fixpoint escaped (s : string) : string :=
  match s with
  | EmptyString => EmptyString
  | String c s' => escape c +:+ escaped s'
  end.
Definition quote (s : string) : string := Str dquote +:+ escaped s +:+ Str dquote.

(** [strings.HasPrefix] and [strings.CutPrefix]. *)
Fixpoint CutPrefix (s prefix : string) {struct prefix} : option string :=
  match prefix, s with
  | EmptyString, _ => Some s
  | String p prefix', String c s' =>
      if bool_decide (p = c) then CutPrefix s' prefix' else None
  | String _ _, EmptyString => None
  end.
Definition HasPrefix (s prefix : string) : bool :=
  match CutPrefix s prefix with Some _ => true | None => false end.
Definition TrimPrefix (s prefix : string) : string :=
  match CutPrefix s prefix with Some r => r | None => s end.

(** [strings.CutSuffix]. *)
Fixpoint CutSuffix (s suffix : string) : option string :=
  if bool_decide (s = suffix) then Some EmptyString
  else match s with
       | EmptyString => None
       | String c s' => match CutSuffix s' suffix with
                        | Some r => Some (String c r)
                        | None => None
                        end
       end.

(** [strings.TrimSpace], on the ASCII white space of [unicode.IsSpace]. *)
Definition is_space (c : ascii) : bool :=
  let n := N_of_ascii c in
  ((9 <=? n) && (n <=? 13) || (n =? 32))%N.
Fixpoint TrimLeft (s : string) : string :=
  match s with
  | String c s' => if is_space c then TrimLeft s' else s
  | EmptyString => EmptyString
  end.
Definition TrimSpace (s : string) : string :=
  String.rev (TrimLeft (String.rev (TrimLeft s))).

(** [strings.Split(s, sep)] for a one-byte separator. *)
Fixpoint split_byte (sep : ascii) (s : string) : list string :=
  match s with
  | EmptyString => [EmptyString]
  | String c s' =>
      if bool_decide (c = sep) then EmptyString :: split_byte sep s'
      else match split_byte sep s' with
           | [] => [Str c]
           | w :: ws => String c w :: ws
           end
  end.

(** [strings.Join]. *)
Fixpoint join (sep : string) (l : list string) : string :=
  match l with
  | [] => ""
  | [x] => x
  | x :: l' => x +:+ sep +:+ join sep l'
  end.

Lemma CutPrefix_Some s prefix r : CutPrefix s prefix = Some r ↔ s = prefix +:+ r.
Proof.
  revert s. induction prefix as [|p prefix IH]; intros s; simpl.
  - split; [by intros [= ->]|by intros ->].
  - destruct s as [|c s]; [split; done|].
    case_bool_decide as Hpc.
    + subst. rewrite IH. split; [by intros ->|by intros [= ->]].
    + split; [done|]. intros [= -> _]. done.
Qed.

Lemma CutPrefix_app prefix r : CutPrefix (prefix +:+ r) prefix = Some r.
Proof. by apply CutPrefix_Some. Qed.

Lemma string_app_cons c (s1 s2 : string) : String c s1 +:+ s2 = String c (s1 +:+ s2).
Proof. done. Qed.

Lemma string_app_nil_r (s : string) : s +:+ "" = s.
Proof. induction s as [|c s IH]; [done|]. by rewrite string_app_cons, IH. Qed.

Lemma string_app_assoc (s1 s2 s3 : string) : s1 +:+ s2 +:+ s3 = (s1 +:+ s2) +:+ s3.
Proof. induction s1 as [|c s1 IH]; [done|]. by rewrite !string_app_cons, IH. Qed.

Lemma CutSuffix_Some s suffix r : CutSuffix s suffix = Some r → s = r +:+ suffix.
Proof.
  revert r. induction s as [|c s IH]; intros r; simpl.
  - case_bool_decide as Hs; [|done]. intros [= <-]. by subst.
  - case_bool_decide as Hs; [intros [= <-]; by subst|].
    destruct (CutSuffix s suffix) as [r'|]; [|done].
    intros [= <-]. rewrite string_app_cons. f_equal. by apply IH.
Qed.

(** ** Sorting

    [sort.Strings], [slices.Sort] on strings: the byte-wise order is total
    and antisymmetric, so the result does not depend on the algorithm. *)
Definition sort_Strings : list string → list string := merge_sort String.le.

Lemma sort_Strings_perm l : sort_Strings l ≡ₚ l.
Proof. apply merge_sort_Permutation. Qed.

Lemma sort_Strings_sorted l : StronglySorted String.le (sort_Strings l).
Proof. apply StronglySorted_merge_sort; apply _. Qed.

Lemma sort_Strings_unique l1 l2 : l1 ≡ₚ l2 → sort_Strings l1 = sort_Strings l2.
Proof.
  intros Hp. apply (StronglySorted_unique String.le); [apply sort_Strings_sorted..|].
  by rewrite !sort_Strings_perm.
Qed.

Lemma elem_of_sort_Strings l x : x ∈ sort_Strings l ↔ x ∈ l.
Proof. by rewrite sort_Strings_perm. Qed.

#[export] Instance sort_Strings_Proper : Proper ((≡ₚ) ==> (=)) sort_Strings.
Proof. intros l1 l2. apply sort_Strings_unique. Qed.

(** ** Association lists *)

Definition assoc {A} (k : string) (m : list (string * A)) : option A :=
  snd <$> List.find (λ p, bool_decide (p.1 = k)) m.

Lemma assoc_elem {A} k (x : A) l : NoDup l.*1 → (k, x) ∈ l → assoc k l = Some x.
Proof.
  unfold assoc. induction l as [|[k' x'] l IH]; cbn; [by intros _ ?%elem_of_nil|].
  intros [Hk Hnd]%NoDup_cons [[= <- <-]|Hin]%elem_of_cons; [by rewrite bool_decide_eq_true_2|].
  case_bool_decide as Hkk; [|by apply IH]. subst. destruct Hk. apply list_elem_of_fmap. by exists (k, x).
Qed.

Lemma assoc_is_Some {A} k (l : list (string * A)) : is_Some (assoc k l) ↔ k ∈ l.*1.
Proof.
  unfold assoc. induction l as [|[k' x] l IH]; cbn; [split; [intros [? [=]]|by intros ?%elem_of_nil]|].
  rewrite elem_of_cons. case_bool_decide; naive_solver.
Qed.

(** ** First occurrences

    What a loop keeps that skips the elements whose key it has seen. *)
Section firsts.
Context {A K : Type} `{!EqDecision K, !Countable K}.

Fixpoint firsts (key : A → K) (seen : gset K) (l : list A) : list A :=
  match l with
  | [] => []
  | x :: l' => if bool_decide (key x ∈ seen) then firsts key seen l' else x :: firsts key ({[key x]} ∪ seen) l'
  end.

Lemma elem_of_firsts key seen l x : x ∈ firsts key seen l → x ∈ l ∧ key x ∉ seen.
Proof.
  revert seen. induction l as [|y l IH]; intros seen; cbn [firsts]; [by intros ?%elem_of_nil|].
  case_bool_decide; [intros [??]%IH; split; [by right|done]|].
  intros [->|[? Hn]%IH]%elem_of_cons; [split; [by left|done]|]. split; [by right|set_solver].
Qed.

Lemma firsts_keys key seen l k : k ∈ key <$> firsts key seen l ↔ k ∈ key <$> l ∧ k ∉ seen.
Proof.
  revert seen. induction l as [|y l IH]; intros seen; cbn [firsts]; [set_solver|].
  case_bool_decide; cbn; rewrite !elem_of_cons, IH; [naive_solver|].
  rewrite not_elem_of_union, not_elem_of_singleton. destruct (decide (k = key y)); naive_solver.
Qed.

Lemma firsts_NoDup key seen l : NoDup (key <$> firsts key seen l).
Proof.
  revert seen. induction l as [|y l IH]; intros seen; cbn [firsts]; [constructor|].
  case_bool_decide; [apply IH|]. cbn. constructor; [|apply IH]. rewrite firsts_keys. set_solver.
Qed.
End firsts.

(** A coarser key keeps fewer elements. *)
Lemma firsts_sublist {A K K'} `{!EqDecision K, !Countable K, !EqDecision K', !Countable K'} (key : A → K) (key' : A → K')
    (seen : gset K) (seen' : gset K') (l : list A) :
  (∀ x y, key x = key y → key' x = key' y) →
  (∀ x, x ∈ l → key x ∈ seen → key' x ∈ seen') →
  firsts key' seen' l `sublist_of` firsts key seen l.
Proof.
  intros Hk. revert seen seen'. induction l as [|x l IH]; intros seen seen' Hs; [done|]. cbn [firsts].
  assert (∀ y, y ∈ l → key y ∈ seen → key' y ∈ seen') as Hl by (intros y Hy; apply Hs; by right).
  assert (key x ∈ seen → key' x ∈ seen') as Hx by (apply Hs; by left).
  case_bool_decide as H'; case_bool_decide as H; [by apply IH| |tauto|].
  - apply sublist_cons, IH. intros y Hy. rewrite elem_of_union, elem_of_singleton. intros [Heq|]; [|by apply Hl].
    by rewrite (Hk _ _ Heq).
  - apply sublist_skip, IH. intros y Hy. rewrite !elem_of_union, !elem_of_singleton. intros [Heq|]; [left; by apply Hk|right; by apply Hl].
Qed.

(** ** Automation *)

(** Case analysis on the next [match] or [if] of the goal, with its equation. *)
Ltac split_match :=
  repeat (case_match; simplify_eq/=; try done).

Create HintDb sbom.
#[export] Hint Rewrite IsNotFound_errorf IsConflict_errorf : sbom.
#[export] Hint Resolve sort_Strings_perm sort_Strings_sorted : sbom.
