(* ===== verification/Prog.v ===== *)
(** * Effectful Go code as programs over a signature of effects

    A handler, reconciler or runner of the program is a tree of calls to its
    environment (the Kubernetes API server, the message broker, the registry,
    the clock, Trivy): [Vis e k] performs the call [e] and goes on with [k]
    applied to the answer.  The tree is inductive, so every path through it
    is finite: a Go function that is a [prog] terminates whatever the
    environment answers.

    [run] executes a program against an environment (a state and a function
    answering every call) and returns the trace of the calls with their
    answers; [wp] quantifies over every answer an environment allowed by
    [legal] may give.  [wp_run] relates the two, so a safety property proved
    with [wp] holds of every execution. *)

From stdpp Require Import prelude gmap strings list.
From S2P Require Import Prelude.

Inductive prog (E : Type → Type) (R : Type) : Type :=
| Ret (r : R)
| Vis {A : Type} (e : E A) (k : A → prog E R).
Arguments Ret {E R} r.
Arguments Vis {E R A} e k.

Section prog.
Context {E : Type → Type}.

Fixpoint pbind {A B} (k : A → prog E B) (p : prog E A) : prog E B :=
  match p with
  | Ret a => k a
  | Vis e k' => Vis e (λ x, pbind k (k' x))
  end.

#[export] Instance prog_ret : MRet (prog E) := λ A a, Ret a.
#[export] Instance prog_bind : MBind (prog E) := λ A B k p, pbind k p.

Definition trigger {A} (e : E A) : prog E A := Vis e Ret.

(** An observation: a call and the answer it got. *)
Inductive obs : Type := | Ev {A : Type} (e : E A) (a : A).
Definition trace := list obs.

(** An environment answers a call and moves to its next state. *)
Definition handler (W : Type) := ∀ A, E A → W → A * W.

Fixpoint run {W R} (h : handler W) (p : prog E R) (w : W) : trace * R * W :=
  match p with
  | Ret r => ([], r, w)
  | Vis e k =>
      let '(a, w') := h _ e w in
      let '(tr, r, w'') := run h (k a) w' in
      (Ev e a :: tr, r, w'')
  end.

Definition run_trace {W R} (h : handler W) (p : prog E R) (w : W) : trace :=
  (run h p w).1.1.
Definition run_result {W R} (h : handler W) (p : prog E R) (w : W) : R :=
  (run h p w).1.2.
Definition run_state {W R} (h : handler W) (p : prog E R) (w : W) : W :=
  (run h p w).2.

(** Running a sequence. *)
Lemma run_bind {W A B} (h : handler W) (p : prog E A) (k : A → prog E B) w tr a w' :
  run h p w = (tr, a, w') →
  run h (p ≫= k) w = (tr ++ run_trace h (k a) w', run_result h (k a) w', run_state h (k a) w').
Proof.
  unfold run_trace, run_result, run_state. revert w tr a w'.
  induction p as [r|A' e k' IH]; intros w tr a w'; cbn.
  { intros [= <- <- <-]. by destruct (run h (k r) w) as [[??]?]. }
  destruct (h A' e w) as [x w1]. destruct (run h (k' x) w1) as [[tr1 a1] w2] eqn:Hr. intros [= <- <- <-].
  change (pbind k (k' x)) with (k' x ≫= k). by rewrite (IH x w1 tr1 a1 w2 Hr).
Qed.

(** Answers an environment may give. *)
Definition legality := ∀ A, E A → A → Prop.
Definition any_answer : legality := λ _ _ _, True.
Definition lawful {W} (legal : legality) (h : handler W) : Prop :=
  ∀ A (e : E A) w, legal A e (h A e w).1.

Fixpoint wp {R} (legal : legality) (p : prog E R) (tr : trace) (Q : trace → R → Prop) : Prop :=
  match p with
  | Ret r => Q tr r
  | Vis e k => ∀ a, legal _ e a → wp legal (k a) (tr ++ [Ev e a]) Q
  end.

Lemma wp_mono {R} legal (p : prog E R) tr (Q Q' : trace → R → Prop) :
  (∀ tr r, Q tr r → Q' tr r) → wp legal p tr Q → wp legal p tr Q'.
Proof.
  intros HQ. revert tr. induction p as [r|A e k IH]; intros tr; simpl; [apply HQ|].
  intros Hp a Ha. by apply IH, Hp.
Qed.

Lemma wp_true {R} legal (p : prog E R) tr : wp legal p tr (λ _ _, True).
Proof. revert tr. induction p as [r|A e k IH]; intros tr; simpl; [done|]. intros a _. apply IH. Qed.

Lemma wp_bind {A B} legal (p : prog E A) (k : A → prog E B) tr Q :
  wp legal (p ≫= k) tr Q ↔ wp legal p tr (λ tr' a, wp legal (k a) tr' Q).
Proof.
  revert tr. induction p as [r|A' e k' IH]; intros tr; simpl; [done|].
  split; intros H a Ha; apply IH, H, Ha.
Qed.

(** The bind rule with an intermediate assertion. *)
Lemma wp_cut {A B} legal (p : prog E A) (k : A → prog E B) tr (M : trace → A → Prop) Q :
  wp legal p tr M →
  (∀ tr' a, M tr' a → wp legal (k a) tr' Q) →
  wp legal (p ≫= k) tr Q.
Proof. intros Hp Hk. apply wp_bind. by eapply wp_mono, Hp. Qed.

(** What a program does does not depend on the trace before it. *)
Lemma wp_shift {R} legal (p : prog E R) tr0 tr Q :
  wp legal p (tr0 ++ tr) Q ↔ wp legal p tr (λ ext r, Q (tr0 ++ ext) r).
Proof.
  revert tr. induction p as [r|A e k IH]; intros tr; simpl; [done|].
  split; intros H a Ha; specialize (H a Ha); [apply IH; by rewrite app_assoc|].
  rewrite <- app_assoc. by apply IH.
Qed.

Lemma wp_frame {R} legal (p : prog E R) tr (Q Q' : trace → R → Prop) :
  wp legal p [] Q → (∀ ext r, Q ext r → Q' (tr ++ ext) r) → wp legal p tr Q'.
Proof.
  intros Hp HQ. rewrite <- (app_nil_r tr). apply wp_shift. by eapply wp_mono, Hp.
Qed.

(** Sequencing, each part analysed from the empty trace. *)
Lemma wp_seq {A B} legal (p : prog E A) (k : A → prog E B) (M : trace → A → Prop) Q :
  wp legal p [] M →
  (∀ ext a, M ext a → wp legal (k a) [] (λ ext' r, Q (ext ++ ext') r)) →
  wp legal (p ≫= k) [] Q.
Proof.
  intros Hp Hk. eapply wp_cut; [exact Hp|]. intros tr a HM.
  eapply wp_frame; [by apply Hk|done].
Qed.

Lemma wp_conj {R} legal (p : prog E R) tr (Q1 Q2 : trace → R → Prop) :
  wp legal p tr Q1 → wp legal p tr Q2 → wp legal p tr (λ tr r, Q1 tr r ∧ Q2 tr r).
Proof.
  revert tr. induction p as [r|A e k IH]; intros tr; simpl; [done|].
  intros H1 H2 a Ha. by apply IH; [apply H1|apply H2].
Qed.

Lemma wp_run {W R} legal (h : handler W) (p : prog E R) tr w Q :
  lawful legal h → wp legal p tr Q →
  Q (tr ++ run_trace h p w) (run_result h p w).
Proof.
  intros Hh. unfold run_trace, run_result.
  revert tr w. induction p as [r|A e k IH]; intros tr w; simpl.
  { by rewrite app_nil_r. }
  intros Hp. pose proof (Hh _ e w) as Ha. destruct (h A e w) as [a w'].
  specialize (IH a (tr ++ [Ev e a]) w').
  destruct (run h (k a) w') as [[tr' r] w'']. simpl in *.
  rewrite <- app_assoc in IH. by apply IH, Hp.
Qed.

Lemma lawful_any {W} (h : handler W) : lawful any_answer h.
Proof. done. Qed.

Lemma wp_run_any {W R} (h : handler W) (p : prog E R) w Q :
  wp any_answer p [] Q → Q (run_trace h p w) (run_result h p w).
Proof. apply (wp_run _ h p []), lawful_any. Qed.

(** The runs of a program: the traces it can leave, with their results. *)
Inductive runs {R} : prog E R → trace → R → Prop :=
| runs_Ret r : runs (Ret r) [] r
| runs_Vis {A} (e : E A) k a tr r : runs (k a) tr r → runs (Vis e k) (Ev e a :: tr) r.

Lemma wp_runs {R} legal (p : prog E R) : wp legal p [] (runs p).
Proof.
  induction p as [r|A e k IH]; simpl; [constructor|]. intros a _.
  eapply (wp_frame legal (k a) [_]); [apply IH|]. intros ext r Hr. by constructor.
Qed.

(** Whatever is proved of all runs of a program holds of each. *)
Lemma runs_wp {R} (p : prog E R) tr r (Q : trace → R → Prop) : runs p tr r → wp any_answer p [] Q → Q tr r.
Proof.
  intros Hr. cut (∀ pre, wp any_answer p pre Q → Q (pre ++ tr) r); [intros H' Hw; by apply (H' [])|].
  induction Hr as [r|A' e k a tr r Hr IH]; intros pre Hw; [by rewrite app_nil_r|].
  specialize (IH (pre ++ [Ev e a])). rewrite <- app_assoc in IH. by apply IH, Hw.
Qed.

(** A property of every call that does not depend on the answers. *)
Fixpoint calls (P : ∀ A, E A → Prop) {R} (p : prog E R) : Prop :=
  match p with
  | Ret _ => True
  | Vis e k => P _ e ∧ ∀ a, calls P (k a)
  end.
Definition obs_call (P : ∀ A, E A → Prop) (o : obs) : Prop :=
  match o with Ev e _ => P _ e end.

Lemma calls_bind P {A B} (p : prog E A) (k : A → prog E B) :
  calls P p → (∀ a, calls P (k a)) → calls P (p ≫= k).
Proof.
  intros Hp Hk. induction p as [r|A' e k' IH]; simpl; [apply Hk|].
  destruct Hp as [He Hp]. split; [done|]. intros a. apply IH, Hp.
Qed.

Lemma calls_mono (P P' : ∀ A, E A → Prop) {R} (p : prog E R) :
  (∀ A e, P A e → P' A e) → calls P p → calls P' p.
Proof. intros HP. induction p as [|A e k IH]; simpl; [done|].
  intros [He Hk]. split; [by apply HP|]. intros a. by apply IH. Qed.

Lemma calls_wp P {R} legal (p : prog E R) tr :
  calls P p → Forall (obs_call P) tr → wp legal p tr (λ tr' _, Forall (obs_call P) tr').
Proof.
  revert tr. induction p as [r|A e k IH]; intros tr; simpl; [done|].
  intros [He Hk] Htr a _. apply IH; [apply Hk|].
  apply Forall_app; split; [done|]. by constructor.
Qed.

Lemma calls_run P {W R} (h : handler W) (p : prog E R) w :
  calls P p → Forall (obs_call P) (run_trace h p w).
Proof.
  intros Hp. apply (wp_run_any h p w (λ tr _, Forall (obs_call P) tr)).
  by apply calls_wp.
Qed.

(** A sub-program all of whose calls satisfy [P] extends the trace by such
    calls only. *)
Lemma wp_calls P {R} legal (p : prog E R) tr :
  calls P p →
  wp legal p tr (λ tr' _, ∃ ext, tr' = tr ++ ext ∧ Forall (obs_call P) ext).
Proof.
  intros Hp. cut (∀ ext, Forall (obs_call P) ext →
    wp legal p (tr ++ ext) (λ tr' _, ∃ ext, tr' = tr ++ ext ∧ Forall (obs_call P) ext)).
  { intros H. specialize (H []). rewrite app_nil_r in H. by apply H. }
  induction p as [r|A e k IH]; intros ext Hext; simpl; [by eauto|].
  intros a _. destruct Hp as [He Hk]. rewrite <- app_assoc. apply IH; [apply Hk|].
  apply Forall_app; split; [done|]. by constructor.
Qed.

(** Both at once: the calls of [p] and its postcondition. *)
Lemma wp_calls_post P {R} legal (p : prog E R) tr (Q : R → Prop) :
  calls P p → wp legal p tr (λ _ r, Q r) →
  wp legal p tr (λ tr' r, (∃ ext, tr' = tr ++ ext ∧ Forall (obs_call P) ext) ∧ Q r).
Proof. intros Hp HQ. apply wp_conj; [by apply wp_calls|done]. Qed.

Lemma omap_calls P {B} (f : obs → option B) (ext : trace) :
  (∀ A (e : E A) (a : A), P A e → f (Ev e a) = None) →
  Forall (obs_call P) ext → omap f ext = [].
Proof.
  intros Hf. induction 1 as [|[A e a] ext Hx _ IH]; [done|]. cbn. by rewrite (Hf A e a Hx).
Qed.

Lemma omap_within {B} (f : obs → option B) x (pre tr post : trace) :
  x ∈ omap f tr → x ∈ omap f (pre ++ tr ++ post).
Proof. rewrite !omap_app, !elem_of_app. auto. Qed.

(** ** Loops

    [for_each body s l] runs [body] on the elements of [l] in order,
    threading the loop state; the first [Err] leaves the loop (the early
    [return] of the enclosing function). *)
Fixpoint for_each {S X} (body : S → X → prog E (result S)) (s : S) (l : list X)
  : prog E (result S) :=
  match l with
  | [] => Ret (Ok s)
  | x :: l' =>
      r ← body s x;
      match r with
      | Ok s' => for_each body s' l'
      | Err e => Ret (Err e)
      end
  end.

Lemma calls_for_each P {S X} (body : S → X → prog E (result S)) s l :
  (∀ s x, x ∈ l → calls P (body s x)) → calls P (for_each body s l).
Proof.
  revert s. induction l as [|x l IH]; intros s Hb; simpl; [done|].
  apply calls_bind; [apply Hb; set_solver|]. intros [s'|e]; [|done].
  apply IH. set_solver.
Qed.

(** The loop rule: an invariant of the trace and the state, indexed by the
    elements already visited. *)
Lemma wp_for_each {S X} legal (body : S → X → prog E (result S))
    (I : list X → trace → S → Prop) (Q : trace → result S → Prop) l :
  (∀ pre x rest tr s, l = pre ++ x :: rest → I pre tr s →
     wp legal (body s x) tr (λ tr' r,
       match r with Ok s' => I (pre ++ [x]) tr' s' | Err e => Q tr' (Err e) end)) →
  (∀ tr s, I l tr s → Q tr (Ok s)) →
  ∀ tr s, I [] tr s → wp legal (for_each body s l) tr Q.
Proof.
  intros Hbody Hend.
  cut (∀ rest pre tr s, l = pre ++ rest → I pre tr s →
         wp legal (for_each body s rest) tr Q).
  { intros H tr s. by apply (H l []). }
  induction rest as [|x rest IH]; intros pre tr s Hl HI; simpl.
  { rewrite app_nil_r in Hl. subst. by apply Hend. }
  eapply wp_cut; [by eapply Hbody|]. intros tr' [s'|e] H; simpl; [|done].
  apply (IH (pre ++ [x])); [|done]. by rewrite <- app_assoc.
Qed.

(** A loop whose body may also return from the enclosing function: [inl] is
    that early return, [inr] goes on with the next element. *)
Fixpoint for_ret {R S X} (body : S → X → prog E (R + S)) (s : S) (l : list X) : prog E (R + S) :=
  match l with
  | [] => Ret (inr s)
  | x :: l' =>
      r ← body s x;
      match r with
      | inl r => Ret (inl r)
      | inr s' => for_ret body s' l'
      end
  end.

Lemma calls_for_ret P {R S X} (body : S → X → prog E (R + S)) s l :
  (∀ s x, x ∈ l → calls P (body s x)) → calls P (for_ret body s l).
Proof.
  revert s. induction l as [|x l IH]; intros s Hb; simpl; [done|].
  apply calls_bind; [apply Hb; set_solver|]. intros [r|s']; [done|].
  apply IH. set_solver.
Qed.

Lemma wp_for_ret {R S X} legal (body : S → X → prog E (R + S))
    (I : list X → trace → S → Prop) (Q : trace → R + S → Prop) l :
  (∀ pre x rest tr s, l = pre ++ x :: rest → I pre tr s →
     wp legal (body s x) tr (λ tr' r,
       match r with inr s' => I (pre ++ [x]) tr' s' | inl r => Q tr' (inl r) end)) →
  (∀ tr s, I l tr s → Q tr (inr s)) →
  ∀ tr s, I [] tr s → wp legal (for_ret body s l) tr Q.
Proof.
  intros Hbody Hend.
  cut (∀ rest pre tr s, l = pre ++ rest → I pre tr s →
         wp legal (for_ret body s rest) tr Q).
  { intros H tr s. by apply (H l []). }
  induction rest as [|x rest IH]; intros pre tr s Hl HI; simpl.
  { rewrite app_nil_r in Hl. subst. by apply Hend. }
  eapply wp_cut; [by eapply Hbody|]. intros tr' [r|s'] H; simpl; [done|].
  apply (IH (pre ++ [x])); [|done]. by rewrite <- app_assoc.
Qed.

End prog.

Arguments obs : clear implicits.
Arguments trace : clear implicits.
Arguments handler : clear implicits.
Arguments legality : clear implicits.

(** [x <- f(); if err != nil { return fmt.Errorf(w, err) }]: the error path
    of a call returns from the enclosing function. *)
Definition try_bind {E A B} (p : prog E (result A)) (w : error → error)
    (k : A → prog E (result B)) : prog E (result B) :=
  r ← p; match r with Ok a => k a | Err e => Ret (Err (w e)) end.

Notation "x ←? p 'wrap' w ; k" := (try_bind p w (λ x, k))
  (at level 20, p at level 100, w at level 100, k at level 200, only parsing).
Notation "'check' p 'wrap' w ; k" := (try_bind p w (λ _, k))
  (at level 20, p at level 100, w at level 100, k at level 200, only parsing).

Lemma calls_try {E} P {A B} (p : prog E (result A)) w (k : A → prog E (result B)) :
  calls P p → (∀ a, calls P (k a)) → calls P (try_bind p w k).
Proof. intros Hp Hk. apply calls_bind; [done|]. intros [a|e]; simpl; auto. Qed.

Lemma wp_try {E A B} legal (p : prog E (result A)) w (k : A → prog E (result B)) tr Q :
  wp legal p tr (λ tr' r, match r with
                          | Ok a => wp legal (k a) tr' Q
                          | Err e => Q tr' (Err (w e))
                          end) →
  wp legal (try_bind p w k) tr Q.
Proof. intros H. eapply wp_cut; [exact H|]. by intros tr' [a|e]. Qed.

Lemma wp_try_seq {E A B} legal (p : prog E (result A)) w (k : A → prog E (result B))
    (M : trace E → result A → Prop) Q :
  wp legal p [] M →
  (∀ ext a, M ext (Ok a) → wp legal (k a) [] (λ ext' r, Q (ext ++ ext') r)) →
  (∀ ext e, M ext (Err e) → Q ext (Err (w e))) →
  wp legal (try_bind p w k) [] Q.
Proof.
  intros Hp Hk He. apply wp_try. eapply wp_mono; [|exact Hp]. intros tr [a|e] HM; [|by apply He].
  eapply wp_frame; [by apply Hk|done].
Qed.

(** Parts of which only the kind of the calls matters. *)
Lemma wp_skip {E A B} P legal (p : prog E A) (k : A → prog E B) Q :
  calls P p →
  (∀ ext a, Forall (obs_call P) ext → wp legal (k a) [] (λ ext' r, Q (ext ++ ext') r)) →
  wp legal (p ≫= k) [] Q.
Proof. intros Hp Hk. eapply wp_seq; [by apply (calls_wp P)|]. intros ext a Hext. by apply Hk. Qed.

Lemma wp_try_skip {E A B} P legal (p : prog E (result A)) w (k : A → prog E (result B)) Q :
  calls P p →
  (∀ ext a, Forall (obs_call P) ext → wp legal (k a) [] (λ ext' r, Q (ext ++ ext') r)) →
  (∀ ext e, Forall (obs_call P) ext → Q ext (Err (w e))) →
  wp legal (try_bind p w k) [] Q.
Proof. intros Hp Hk He. eapply wp_try_seq; [by apply (calls_wp P)|done|done]. Qed.

(** The same for a postcondition that a prefix of such calls does not change. *)
Section closed.
Context {E : Type → Type} (P : ∀ A, E A → Prop) {B : Type} (Q : trace E → B → Prop).
Context (Hprefix : ∀ pre tr r, Forall (obs_call P) pre → Q tr r → Q (pre ++ tr) r).

Lemma wp_closed_bind {A} legal (p : prog E A) (k : A → prog E B) :
  calls P p → (∀ a, wp legal (k a) [] Q) → wp legal (p ≫= k) [] Q.
Proof using Type*.
  intros Hp Hk. eapply wp_skip; [done|]. intros ext a Hext. eapply wp_mono; [|apply Hk]. auto.
Qed.
End closed.

Lemma wp_closed_try {E A B} P (Q : trace E → result B → Prop) legal (p : prog E (result A)) w
    (k : A → prog E (result B)) :
  (∀ pre tr r, Forall (obs_call P) pre → Q tr r → Q (pre ++ tr) r) →
  (∀ tr e, Forall (obs_call P) tr → Q tr (Err e)) →
  calls P p → (∀ a, wp legal (k a) [] Q) → wp legal (try_bind p w k) [] Q.
Proof.
  intros Hpre Herr Hp Hk. eapply wp_try_skip; [done| |auto].
  intros ext a Hext. eapply wp_mono; [|apply Hk]. auto.
Qed.

(** ** Retrying on conflict

    [retry.RetryOnConflict(retry.DefaultRetry, fn)] of client-go: it runs [fn]
    again as long as it fails with a conflict, up to the steps of the backoff,
    and returns its last error.  [attempts n fn] is that behaviour with [n]
    further attempts; the interface only promises some number of them. *)
Section retry.
Context {E : Type → Type}.

Fixpoint attempts {A} (n : nat) (fn : prog E (result A)) : prog E (result A) :=
  r ← fn;
  match r with
  | Ok a => Ret (Ok a)
  | Err e =>
      if IsConflict e then
        match n with
        | O => Ret (Err e)
        | S n' => attempts n' fn
        end
      else Ret (Err e)
  end.
End retry.

Class Retry := {
  RetryOnConflict : ∀ {E : Type → Type} {A}, prog E (result A) → prog E (result A);
  RetryOnConflict_spec : ∀ {E : Type → Type} {A} (fn : prog E (result A)),
    ∃ n, RetryOnConflict fn = attempts n fn
}.

(** client-go's [DefaultRetry] has five steps. *)
Definition DefaultRetry : Retry.
Proof.
  refine {| RetryOnConflict := λ E A fn, attempts 4 fn |}. intros. by exists 4.
Defined.

Section retry_rules.
Context `{!Retry} {E : Type → Type}.

Lemma calls_retry P {A} (fn : prog E (result A)) :
  calls P fn → calls P (RetryOnConflict fn).
Proof.
  intros Hfn. destruct (RetryOnConflict_spec fn) as [n ->].
  induction n as [|n IH]; simpl; apply calls_bind; try done;
    intros [a|e]; simpl; try case_match; simpl; done.
Qed.

(** The invariant rule: every attempt starts from a trace in [I]; a
    conflict re-establishes [I]; the last result satisfies [Q]. *)
Lemma wp_retry {A} legal (fn : prog E (result A)) (I : trace E → Prop)
    (Q : trace E → result A → Prop) tr :
  I tr →
  (∀ tr, I tr → wp legal fn tr (λ tr' r,
     Q tr' r ∧ ∀ e, r = Err e → IsConflict e = true → I tr')) →
  wp legal (RetryOnConflict fn) tr Q.
Proof.
  intros HI Hfn. destruct (RetryOnConflict_spec fn) as [n ->].
  revert tr HI. induction n as [|n IH]; intros tr HI; simpl;
    (eapply wp_cut; [by apply Hfn|]); intros tr' [a|e] [HQ Hc]; simpl; try done;
    case_match; simpl; naive_solver.
Qed.
End retry_rules.

(** Proves [calls P p] for a program made of the combinators above. *)
Ltac calls_step :=
  lazymatch goal with
  | |- calls _ (Ret _) => exact I
  | |- calls _ (trigger _) => split; [|intros ?; exact I]
  | |- calls _ (try_bind _ _ _) => apply calls_try; [|intros ?]
  | |- calls _ (_ ≫= _) => apply calls_bind; [|intros ?]
  | |- calls _ (for_each _ _ _) => apply calls_for_each; intros ? ? _
  | |- calls _ (for_ret _ _ _) => apply calls_for_ret; intros ? ? _
  | |- calls _ (RetryOnConflict _) => apply calls_retry
  | |- calls _ (match ?r with _ => _ end) => destruct r eqn:?
  | |- calls _ (let _ := _ in _) => cbv zeta
  end.
