(* ===== verification/Strconv.v ===== *)
(** * Decimal numbers

    The functions of Go's [strconv] that the storage uses for resource versions
    and continue tokens: [ParseInt] and [ParseUint] in base 10 and 64 bits,
    [FormatInt] and [FormatUint]. *)

From stdpp Require Import prelude strings pretty.
From Stdlib Require Import Ascii ZArith Lia.
From S2P Require Import Prelude.
Open Scope Z_scope.

Definition digit (c : ascii) : option Z :=
  let n := Z.of_nat (nat_of_ascii c) in
  if bool_decide (48 ≤ n) && bool_decide (n ≤ 57) then Some (n - 48) else None.

Fixpoint digits (acc : Z) (s : string) : option Z :=
  match s with
  | EmptyString => Some acc
  | String c s' => match digit c with Some d => digits (acc * 10 + d) s' | None => None end
  end.

Definition syntax_error (s : string) : error := errors_New ("parsing " +:+ quote s +:+ ": invalid syntax").
Definition range_error (s : string) : error := errors_New ("parsing " +:+ quote s +:+ ": value out of range").

Definition magnitude (s : string) : option Z :=
  match s with EmptyString => None | _ => digits 0 s end.

(** [strconv.ParseUint(s, 10, 64)]. *)
Definition ParseUint (s : string) : result Z :=
  match magnitude s with
  | None => Err (syntax_error s)
  | Some n => if bool_decide (n < 2 ^ 64) then Ok n else Err (range_error s)
  end.

(** [strconv.ParseInt(s, 10, 64)]. *)
Definition ParseInt (s : string) : result Z :=
  let '(neg, rest) :=
    match s with
    | String "+" rest => (false, rest)
    | String "-" rest => (true, rest)
    | _ => (false, s)
    end in
  match magnitude rest with
  | None => Err (syntax_error s)
  | Some n =>
      if neg then if bool_decide (n ≤ 2 ^ 63) then Ok (- n) else Err (range_error s)
      else if bool_decide (n < 2 ^ 63) then Ok n else Err (range_error s)
  end.

(** [strconv.FormatInt(n, 10)] and [strconv.FormatUint(n, 10)]. *)
Definition FormatInt (n : Z) : string := pretty n.

(** ** Round trips *)

Lemma digit_char n : (n < 10)%N → digit (pretty_N_char n) = Some (Z.of_N n).
Proof.
  intros Hn. assert (n = 0 ∨ n = 1 ∨ n = 2 ∨ n = 3 ∨ n = 4 ∨ n = 5 ∨ n = 6 ∨ n = 7 ∨ n = 8 ∨ n = 9)%N as Hcases by lia.
  repeat (destruct Hcases as [->|Hcases]; [reflexivity|]). by subst.
Qed.

Lemma digits_go x s : digits 0 (pretty_N_go x s) = digits (Z.of_N x) s.
Proof.
  revert s. induction (N.lt_wf_0 x) as [x _ IH]; intros s.
  destruct (decide (0 < x)%N) as [Hx|Hx].
  - rewrite pretty_N_go_step by done. rewrite IH by (apply N.div_lt; lia). cbn.
    rewrite digit_char by (apply N.mod_lt; lia). f_equal.
    pose proof (N.div_mod x 10 ltac:(lia)). lia.
  - assert (x = 0)%N as -> by lia. by rewrite pretty_N_go_0.
Qed.

Lemma magnitude_pretty (x : N) : magnitude (pretty x) = Some (Z.of_N x).
Proof.
  unfold pretty, pretty_N. case_decide as Hx; [by subst|].
  assert (∃ c s, pretty_N_go x "" = String c s) as (c & s & Hcs).
  { assert (∀ y t c', ∃ c s, pretty_N_go y (String c' t) = String c s) as Hgo.
    { intros y. induction (N.lt_wf_0 y) as [y _ IH]; intros t c'. destruct (decide (0 < y)%N).
      - rewrite pretty_N_go_step by done. apply IH, N.div_lt; lia.
      - assert (y = 0)%N as -> by lia. rewrite pretty_N_go_0. eauto. }
    rewrite pretty_N_go_step by lia. apply Hgo. }
  unfold magnitude. rewrite Hcs, <- Hcs. apply (digits_go x "").
Qed.

Lemma pretty_N_digit (x : N) : ∀ c s, pretty x = String c s → is_Some (digit c).
Proof.
  intros c s Hp. pose proof (magnitude_pretty x) as Hm. rewrite Hp in Hm. cbn in Hm.
  destruct (digit c); [eauto|done].
Qed.

Lemma pretty_Z_nonneg n : 0 ≤ n → FormatInt n = pretty (Z.to_N n).
Proof. intros Hn. unfold FormatInt, pretty at 1, pretty_Z. by destruct n. Qed.

Lemma ParseUint_FormatInt n : 0 ≤ n < 2 ^ 64 → ParseUint (FormatInt n) = Ok n.
Proof.
  intros Hn. unfold ParseUint. rewrite pretty_Z_nonneg, magnitude_pretty, Z2N.id by lia.
  by rewrite bool_decide_true by lia.
Qed.

Lemma ParseInt_FormatInt n : 0 ≤ n < 2 ^ 63 → ParseInt (FormatInt n) = Ok n.
Proof.
  intros Hn. unfold ParseInt. rewrite pretty_Z_nonneg by lia.
  pose proof (magnitude_pretty (Z.to_N n)) as Hm. pose proof (pretty_N_digit (Z.to_N n)) as Hd.
  rewrite Z2N.id in Hm by lia. revert Hm Hd. generalize (pretty (Z.to_N n)). intros s Hm Hd.
  assert ((match s with
    | String "+" rest => (false, rest)
    | String "-" rest => (true, rest)
    | _ => (false, s)
    end) = (false, s)) as ->.
  { destruct s as [|c s]; [done|]. destruct (Hd c s eq_refl) as [d Hdc].
    destruct c as [[] [] [] [] [] [] [] []]; first [done | vm_compute in Hdc; discriminate]. }
  by rewrite Hm, bool_decide_true by lia.
Qed.

Lemma FormatInt_inj m n : 0 ≤ m → 0 ≤ n → FormatInt m = FormatInt n → m = n.
Proof.
  intros Hm Hn. rewrite !pretty_Z_nonneg by done. intros Heq.
  apply (f_equal magnitude) in Heq. rewrite !magnitude_pretty, !Z2N.id in Heq by done. by injection Heq.
Qed.

Lemma FormatInt_nonempty n : 0 ≤ n → FormatInt n ≠ "".
Proof.
  intros Hn Heq. rewrite pretty_Z_nonneg in Heq by done.
  pose proof (magnitude_pretty (Z.to_N n)) as Hm. by rewrite Heq in Hm.
Qed.
