(* ===== verification/Conditions.v ===== *)
(** * Status conditions

    [metav1.Condition] and the two functions of [k8s.io/apimachinery/pkg/api/meta]
    the API types call.  They are third-party code: [StatusConditions] states
    their documented behaviour, [meta_conditions] is an instance of it.  The
    field [LastTransitionTime] is written and read by that library alone and
    is left out. *)

From stdpp Require Import prelude strings list.
From S2P Require Import Prelude.

Inductive ConditionStatus := ConditionTrue | ConditionFalse | ConditionUnknown.

#[export] Instance ConditionStatus_eq_dec : EqDecision ConditionStatus.
Proof. solve_decision. Defined.

Record Condition := {
  c_Type : string;
  c_Status : ConditionStatus;
  c_Reason : string;
  c_Message : string;
  c_ObservedGeneration : Z
}.

#[export] Instance Condition_eq_dec : EqDecision Condition.
Proof. solve_decision. Defined.

(** "SetStatusCondition sets the corresponding condition in conditions to
    newCondition: if the condition of the specified type already exists, all
    fields of the existing condition are updated; otherwise newCondition is
    appended."  "FindStatusCondition finds the conditionType in conditions." *)
Class StatusConditions := {
  SetStatusCondition : list Condition → Condition → list Condition;
  FindStatusCondition : list Condition → string → option Condition;
  Find_nil : ∀ t, FindStatusCondition [] t = None;
  Find_Set_eq : ∀ cs c, FindStatusCondition (SetStatusCondition cs c) (c_Type c) = Some c;
  Find_Set_ne : ∀ cs c t, c_Type c ≠ t →
    FindStatusCondition (SetStatusCondition cs c) t = FindStatusCondition cs t
}.

(** ** An instance *)

Fixpoint set_condition (cs : list Condition) (c : Condition) : list Condition :=
  match cs with
  | [] => [c]
  | c' :: cs' =>
      if bool_decide (c_Type c' = c_Type c) then c :: cs' else c' :: set_condition cs' c
  end.

Fixpoint find_condition (cs : list Condition) (t : string) : option Condition :=
  match cs with
  | [] => None
  | c :: cs' => if bool_decide (c_Type c = t) then Some c else find_condition cs' t
  end.

#[export] Instance meta_conditions : StatusConditions.
Proof.
  refine {| SetStatusCondition := set_condition; FindStatusCondition := find_condition |}.
  - done.
  - intros cs c. induction cs as [|c' cs IH]; simpl; [by rewrite bool_decide_true|].
    case_bool_decide as H; simpl; [by rewrite bool_decide_true|].
    by rewrite bool_decide_false.
  - intros cs c t Ht. induction cs as [|c' cs IH]; simpl; [by rewrite bool_decide_false|].
    case_bool_decide as H; simpl; [|by rewrite IH].
    by rewrite bool_decide_false, bool_decide_false by congruence.
Defined.

(** ** Derived facts *)

Section conditions.
Context `{!StatusConditions}.

(** [Find] after [Set], for condition types that can be compared. *)
Lemma Find_Set cs c t :
  FindStatusCondition (SetStatusCondition cs c) t =
  if bool_decide (c_Type c = t) then Some c else FindStatusCondition cs t.
Proof. case_bool_decide; [subst; apply Find_Set_eq|by apply Find_Set_ne]. Qed.

(** [cond != nil && cond.Status == metav1.ConditionTrue]. *)
Definition condition_true (cs : list Condition) (t : string) : bool :=
  match FindStatusCondition cs t with
  | None => false
  | Some c => bool_decide (c_Status c = ConditionTrue)
  end.

Lemma condition_true_Set cs c t :
  condition_true (SetStatusCondition cs c) t =
  if bool_decide (c_Type c = t) then bool_decide (c_Status c = ConditionTrue)
  else condition_true cs t.
Proof. unfold condition_true. rewrite Find_Set. by case_bool_decide. Qed.
End conditions.

#[export] Hint Rewrite @Find_Set @condition_true_Set : sbom.
