(* ===== verification/Meta.v ===== *)
(** * Object metadata and the API interfaces every resource shares

    [metav1.ObjectMeta], the labels of [src/api/labels.go], the interface
    [ConditionedJob] of [src/api/v1alpha1/job.go], and the interfaces of the
    third-party functions the program applies to metadata.  A Go map is a
    [gmap]: a nil map and an empty map answer every lookup alike, and the code
    allocates a nil map before writing to it. *)

From stdpp Require Import prelude gmap strings list sorting.
From S2P Require Import Prelude.

Record OwnerReference := {
  or_APIVersion : string;
  or_Kind : string;
  or_Name : string;
  or_UID : string;
  or_Controller : bool
}.

#[export] Instance OwnerReference_eq_dec : EqDecision OwnerReference.
Proof. solve_decision. Defined.

(** Times are nanoseconds since the epoch; a nil [*metav1.Time] is [None]. *)
Record ObjectMeta := {
  om_Name : string;
  om_GenerateName : string;
  om_Namespace : string;
  om_UID : string;
  om_ResourceVersion : string;
  om_Generation : Z;
  om_CreationTimestamp : Z;
  om_DeletionTimestamp : option Z;
  om_Labels : gmap string string;
  om_Annotations : gmap string string;
  om_OwnerReferences : list OwnerReference
}.

#[export] Instance ObjectMeta_eq_dec : EqDecision ObjectMeta.
Proof. solve_decision. Defined.

(** The zero value, with the fields a composite literal of the program sets. *)
Definition new_meta (name generateName namespace : string)
    (labels annotations : gmap string string) : ObjectMeta := {|
  om_Name := name; om_GenerateName := generateName; om_Namespace := namespace;
  om_UID := ""; om_ResourceVersion := ""; om_Generation := 0;
  om_CreationTimestamp := 0; om_DeletionTimestamp := None;
  om_Labels := labels; om_Annotations := annotations; om_OwnerReferences := []
|}.

Definition with_Labels (ls : gmap string string) (m : ObjectMeta) : ObjectMeta := {|
  om_Name := om_Name m; om_GenerateName := om_GenerateName m; om_Namespace := om_Namespace m;
  om_UID := om_UID m; om_ResourceVersion := om_ResourceVersion m;
  om_Generation := om_Generation m; om_CreationTimestamp := om_CreationTimestamp m;
  om_DeletionTimestamp := om_DeletionTimestamp m;
  om_Labels := ls; om_Annotations := om_Annotations m;
  om_OwnerReferences := om_OwnerReferences m
|}.

Definition with_Annotations (an : gmap string string) (m : ObjectMeta) : ObjectMeta := {|
  om_Name := om_Name m; om_GenerateName := om_GenerateName m; om_Namespace := om_Namespace m;
  om_UID := om_UID m; om_ResourceVersion := om_ResourceVersion m;
  om_Generation := om_Generation m; om_CreationTimestamp := om_CreationTimestamp m;
  om_DeletionTimestamp := om_DeletionTimestamp m;
  om_Labels := om_Labels m; om_Annotations := an;
  om_OwnerReferences := om_OwnerReferences m
|}.

Definition with_OwnerReferences (os : list OwnerReference) (m : ObjectMeta) : ObjectMeta := {|
  om_Name := om_Name m; om_GenerateName := om_GenerateName m; om_Namespace := om_Namespace m;
  om_UID := om_UID m; om_ResourceVersion := om_ResourceVersion m;
  om_Generation := om_Generation m; om_CreationTimestamp := om_CreationTimestamp m;
  om_DeletionTimestamp := om_DeletionTimestamp m;
  om_Labels := om_Labels m; om_Annotations := om_Annotations m;
  om_OwnerReferences := os
|}.

(** [m[k]] of a Go [map[string]string]: the zero value when the key is absent. *)
Definition map_get (m : gmap string string) (k : string) : string := default "" (m !! k).

(** [types.NamespacedName] / [client.ObjectKey]. *)
Record NamespacedName := { nn_Namespace : string; nn_Name : string }.

#[export] Instance NamespacedName_eq_dec : EqDecision NamespacedName.
Proof. solve_decision. Defined.

Definition key_of (m : ObjectMeta) : NamespacedName :=
  {| nn_Namespace := om_Namespace m; nn_Name := om_Name m |}.

(** src/api/labels.go *)
Definition LabelManagedByKey := "app.kubernetes.io/managed-by".
Definition LabelManagedByValue := "sbomscanner".
Definition LabelPartOfKey := "app.kubernetes.io/part-of".
Definition LabelPartOfValue := "sbomscanner".
Definition LabelWorkloadScanKey := "sbomscanner.kubewarden.io/workloadscan".
Definition LabelWorkloadScanValue := "true".

(** The label map literal every handler gives the objects it creates, with
    the workload-scan label copied from the registry when it carries it. *)
Definition managed_labels (registryLabels : gmap string string) : gmap string string :=
  let labels : gmap string string :=
    <[LabelManagedByKey := LabelManagedByValue]>
    (<[LabelPartOfKey := LabelPartOfValue]> ∅) in
  if bool_decide (map_get registryLabels LabelWorkloadScanKey = LabelWorkloadScanValue)
  then <[LabelWorkloadScanKey := LabelWorkloadScanValue]> labels
  else labels.

(** ** Jobs that report their lifecycle through conditions

    The Go interface [ConditionedJob]. *)
Class ConditionedJob (J : Type) := {
  job_IsScheduled : J → bool;
  job_IsInProgress : J → bool;
  job_IsComplete : J → bool;
  job_IsFailed : J → bool
}.

(** [telemetry.JobFinished]. *)
Definition JobFinished {J} `{!ConditionedJob J} (job : J) : bool :=
  job_IsComplete job || job_IsFailed job.

(** [telemetry.jobResult]. *)
Definition jobResult {J} `{!ConditionedJob J} (job : J) : string :=
  if job_IsFailed job then "failed" else "complete".

(** ** Interfaces of library functions *)

(** [time.Parse(time.RFC3339Nano, s)]. *)
Class GoTime := { time_Parse : string → option Z }.

(** [controllerutil.SetControllerReference(owner, obj, scheme)]: it fails when
    another controller already owns the object, and touches nothing but the
    owner references. *)
Class ControllerUtil := {
  SetControllerReference : string → ObjectMeta → ObjectMeta → result ObjectMeta;
  SetControllerReference_frame : ∀ kind owner m m',
    SetControllerReference kind owner m = Ok m' →
    ∃ os, m' = with_OwnerReferences os m
}.

(** [sort.Slice] / [slices.SortFunc]: not stable, so only a sorted permutation
    is promised, for a comparison that is a strict weak order. *)
Class StrictWeakOrder {A} (less : A → A → bool) : Prop := {
  swo_irrefl : ∀ x, less x x = false;
  swo_trans : ∀ x y z, less x y = true → less y z = true → less x z = true;
  swo_incomp : ∀ x y z, less x y = false → less y z = false → less x z = false
}.

Class GoSort := {
  sort_Slice : ∀ {A}, (A → A → bool) → list A → list A;
  sort_Slice_perm : ∀ {A} (less : A → A → bool) l, sort_Slice less l ≡ₚ l;
  sort_Slice_sorted : ∀ {A} (less : A → A → bool) l, StrictWeakOrder less →
    StronglySorted (λ x y, less y x = false) (sort_Slice less l)
}.

(** Comparing by an integer key is a strict weak order. *)
Lemma key_order {A} (f : A → Z) : StrictWeakOrder (λ x y, bool_decide (f x < f y)%Z).
Proof. split; intros *; rewrite ?bool_decide_eq_true, ?bool_decide_eq_false; lia. Qed.

(** ** Instances *)

Section insertion.
Context {A : Type} (less : A → A → bool).
Fixpoint insert_by (x : A) (l : list A) : list A :=
  match l with
  | [] => [x]
  | y :: l' => if less x y then x :: l else y :: insert_by x l'
  end.
Fixpoint insertion_sort (l : list A) : list A :=
  match l with [] => [] | x :: l' => insert_by x (insertion_sort l') end.

Lemma insert_by_perm x l : insert_by x l ≡ₚ x :: l.
Proof.
  induction l as [|y l IH]; simpl; [done|]. case_match; [done|].
  rewrite IH. apply Permutation_swap.
Qed.
Lemma insertion_sort_perm l : insertion_sort l ≡ₚ l.
Proof. induction l as [|x l IH]; simpl; [done|]. by rewrite insert_by_perm, IH. Qed.

Context `{!StrictWeakOrder less}.
Lemma less_asym x y : less x y = true → less y x = false.
Proof.
  intros Hxy. destruct (less y x) eqn:Hyx; [|done].
  pose proof (swo_trans x y x Hxy Hyx). by rewrite swo_irrefl in *.
Qed.
Lemma insert_by_sorted x l :
  StronglySorted (λ x y, less y x = false) l →
  StronglySorted (λ x y, less y x = false) (insert_by x l).
Proof.
  induction 1 as [|y l Hl IH Hy]; simpl; [by repeat constructor|].
  destruct (less x y) eqn:Hxy.
  - constructor; [by constructor|]. constructor; [by apply less_asym|].
    eapply Forall_impl; [exact Hy|]. intros z Hz; simpl.
    eapply swo_incomp; [exact Hz|]. by apply less_asym.
  - constructor; [done|]. rewrite insert_by_perm. by constructor.
Qed.
Lemma insertion_sort_sorted l : StronglySorted (λ x y, less y x = false) (insertion_sort l).
Proof. induction l as [|x l IH]; simpl; [constructor|]. by apply insert_by_sorted. Qed.
End insertion.

Definition insertion_GoSort : GoSort :=
  {| sort_Slice := @insertion_sort; sort_Slice_perm := @insertion_sort_perm;
     sort_Slice_sorted := λ A less l H, insertion_sort_sorted less l |}.

(** Metadata owned by nobody else gets the new owner. *)
Definition append_owner (kind : string) (owner m : ObjectMeta) : result ObjectMeta :=
  if existsb (λ r, or_Controller r && negb (bool_decide (or_UID r = om_UID owner)))
       (om_OwnerReferences m)
  then Err (errors_New "already owned")
  else Ok (with_OwnerReferences
             [{| or_APIVersion := ""; or_Kind := kind; or_Name := om_Name owner;
                 or_UID := om_UID owner; or_Controller := true |}] m).

Definition append_ControllerUtil : ControllerUtil.
Proof.
  refine {| SetControllerReference := append_owner |}.
  unfold append_owner. intros kind owner m m'. case_match; [done|]. intros [= <-]. eauto.
Defined.

(** ** Derived facts *)

Section controller_util.
Context `{!ControllerUtil}.
Lemma SetControllerReference_keeps kind owner m m' :
  SetControllerReference kind owner m = Ok m' →
  om_Name m' = om_Name m ∧ om_Namespace m' = om_Namespace m ∧ om_UID m' = om_UID m ∧
  om_Labels m' = om_Labels m ∧ om_Annotations m' = om_Annotations m.
Proof. intros [os ->]%SetControllerReference_frame. done. Qed.
End controller_util.

Section sort.
Context `{!GoSort}.
Lemma length_sort_Slice {A} (less : A → A → bool) l : length (sort_Slice less l) = length l.
Proof. by rewrite sort_Slice_perm. Qed.
Lemma elem_of_sort_Slice {A} (less : A → A → bool) l x : x ∈ sort_Slice less l ↔ x ∈ l.
Proof. by rewrite sort_Slice_perm. Qed.
End sort.

#[export] Hint Resolve key_order : sbom.
