(* ===== verification/Registry.v ===== *)
(** * Registries

    [src/api/v1alpha1/registry_types.go]: the Registry resource, its
    repositories with their match conditions, and the operations on it. *)

From stdpp Require Import prelude gmap strings list.
From S2P Require Import Prelude Meta Conditions.

Definition AnnotationRescanRequestedKeyPrefix := "sbomscanner.kubewarden.io/rescan-requested-".
Definition CatalogTypeNoCatalog := "NoCatalog".
Definition CatalogTypeOCIDistribution := "OCIDistribution".
Definition MatchOperatorAnd := "And".
Definition MatchOperatorOr := "Or".

Record MatchCondition := {
  mc_Name : string;
  mc_Expression : string;
  mc_Labels : gmap string string
}.

Record Repository := {
  rp_Name : string;
  rp_MatchConditions : list MatchCondition;
  rp_MatchOperator : string
}.

Record Platform := {
  pl_Architecture : string;
  pl_OS : string;
  pl_Variant : string
}.

(** src/api/v1alpha1/cabundle_types.go *)
Record CABundleKeySelector := { ks_Name : string; ks_Key : string }.
Record CABundleSource := {
  cb_ConfigMap : option CABundleKeySelector;
  cb_Secret : option CABundleKeySelector
}.

(** [ScanInterval] is a [*metav1.Duration] in nanoseconds. *)
Record RegistrySpec := {
  rs_URI : string;
  rs_CatalogType : string;
  rs_Repositories : list Repository;
  rs_AuthSecret : string;
  rs_ScanInterval : option Z;
  rs_CABundle : string;
  rs_CABundleRef : option CABundleSource;
  rs_Insecure : bool;
  rs_Platforms : list Platform
}.

Record Registry := {
  rg_Meta : ObjectMeta;
  rg_Spec : RegistrySpec;
  rg_Conditions : list Condition
}.

#[export] Instance MatchCondition_eq_dec : EqDecision MatchCondition.
Proof. solve_decision. Defined.
#[export] Instance Repository_eq_dec : EqDecision Repository.
Proof. solve_decision. Defined.
#[export] Instance Platform_eq_dec : EqDecision Platform.
Proof. solve_decision. Defined.
#[export] Instance CABundleKeySelector_eq_dec : EqDecision CABundleKeySelector.
Proof. solve_decision. Defined.
#[export] Instance CABundleSource_eq_dec : EqDecision CABundleSource.
Proof. solve_decision. Defined.
#[export] Instance RegistrySpec_eq_dec : EqDecision RegistrySpec.
Proof. solve_decision. Defined.
#[export] Instance Registry_eq_dec : EqDecision Registry.
Proof. solve_decision. Defined.

Definition rg_Name (r : Registry) := om_Name (rg_Meta r).
Definition rg_Namespace (r : Registry) := om_Namespace (rg_Meta r).

(** [registry.Spec.Repositories = rs]. *)
Definition with_Repositories (rs : list Repository) (r : Registry) : Registry := {|
  rg_Meta := rg_Meta r;
  rg_Spec := {|
    rs_URI := rs_URI (rg_Spec r); rs_CatalogType := rs_CatalogType (rg_Spec r);
    rs_Repositories := rs; rs_AuthSecret := rs_AuthSecret (rg_Spec r);
    rs_ScanInterval := rs_ScanInterval (rg_Spec r); rs_CABundle := rs_CABundle (rg_Spec r);
    rs_CABundleRef := rs_CABundleRef (rg_Spec r); rs_Insecure := rs_Insecure (rg_Spec r);
    rs_Platforms := rs_Platforms (rg_Spec r) |};
  rg_Conditions := rg_Conditions r
|}.

(** [targetRepository.MatchConditions = mcs]. *)
Definition with_MatchConditions (mcs : list MatchCondition) (r : Repository) : Repository :=
  {| rp_Name := rp_Name r; rp_MatchConditions := mcs; rp_MatchOperator := rp_MatchOperator r |}.

Definition with_rg_Meta (m : ObjectMeta) (r : Registry) : Registry :=
  {| rg_Meta := m; rg_Spec := rg_Spec r; rg_Conditions := rg_Conditions r |}.

(** [Platform.String]. *)
Definition Platform_String (p : Platform) : string :=
  let platform := pl_OS p +:+ "/" +:+ pl_Architecture p in
  if bool_decide (pl_Variant p = "") then platform
  else platform +:+ "/" +:+ pl_Variant p.

(** [name.DefaultRegistry] of go-containerregistry. *)
Definition DefaultRegistry := "index.docker.io".

(** [Registry.GetRepository]: the first repository named [repo], or, on Docker
    Hub, named [repo] without its [library/] prefix. *)
Definition GetRepository (r : Registry) (repo : string) : option Repository :=
  let short := if bool_decide (rs_URI (rg_Spec r) = DefaultRegistry)
               then TrimPrefix repo "library/" else repo in
  List.find (λ rp, bool_decide (rp_Name rp = repo) || bool_decide (rp_Name rp = short))
    (rs_Repositories (rg_Spec r)).

(** [Registry.IsPrivate]. *)
Definition IsPrivate (r : Registry) : bool :=
  negb (bool_decide (rs_AuthSecret (rg_Spec r) = "")).

(** [Registry.IsManagedByWorkloadScan]. *)
Definition IsManagedByWorkloadScan (r : Registry) : bool :=
  bool_decide (map_get (om_Labels (rg_Meta r)) LabelManagedByKey = LabelManagedByValue) &&
  bool_decide (map_get (om_Labels (rg_Meta r)) LabelWorkloadScanKey = LabelWorkloadScanValue).

(** A repository selected by a targeted scan
    ([ScanJobRepository] of [src/api/v1alpha1/scanjob_types.go]). *)
Record ScanJobRepository := {
  sr_Name : string;
  sr_MatchConditions : list string
}.

(** [RescanRequest]. *)
Record RescanRequest := { rr_Repositories : list ScanJobRepository }.

#[export] Instance ScanJobRepository_eq_dec : EqDecision ScanJobRepository.
Proof. solve_decision. Defined.

(** ** Facts *)

Lemma GetRepository_elem r repo rp :
  GetRepository r repo = Some rp → rp ∈ rs_Repositories (rg_Spec r).
Proof. intros H%List.find_some. apply list_elem_of_In, H. Qed.

(** Off Docker Hub the repository found has the name asked for. *)
Lemma GetRepository_name r repo rp :
  rs_URI (rg_Spec r) ≠ DefaultRegistry →
  GetRepository r repo = Some rp → rp_Name rp = repo.
Proof.
  unfold GetRepository. intros Hne. rewrite bool_decide_false by done.
  intros [_ [H|H]%orb_true_iff]%List.find_some; by apply bool_decide_eq_true in H.
Qed.

Lemma GetRepository_None r repo rp :
  GetRepository r repo = None → rp ∈ rs_Repositories (rg_Spec r) → rp_Name rp ≠ repo.
Proof.
  unfold GetRepository. intros Hn Hin%list_elem_of_In.
  pose proof (List.find_none _ _ Hn _ Hin) as [H _]%orb_false_iff.
  by apply bool_decide_eq_false in H.
Qed.
