(* ===== verification/ScanJob.v ===== *)
(** * ScanJobs

    [src/api/v1alpha1/scanjob_types.go]: the ScanJob resource and its life
    cycle, reported as four status conditions. *)

From stdpp Require Import prelude gmap strings list.
From S2P Require Import Prelude Meta Conditions Registry.

Definition LabelScanJobUIDKey := "sbomscanner.kubewarden.io/scanjob-uid".
Definition AnnotationScanJobRegistryKey := "sbomscanner.kubewarden.io/registry".
Definition AnnotationScanJobCreationTimestampKey := "sbomscanner.kubewarden.io/creation-timestamp".
Definition AnnotationScanJobTriggerKey := "sbomscanner.kubewarden.io/trigger".

Definition ConditionScanJobTypeScheduled := "Scheduled".
Definition ConditionScanJobTypeInProgress := "InProgress".
Definition ConditionScanJobTypeComplete := "Complete".
Definition ConditionScanJobTypeFailed := "Failed".

Definition ReasonScanJobPending := "Pending".
Definition ReasonScanJobScheduled := "Scheduled".
Definition ReasonScanJobInProgress := "InProgress".
Definition ReasonScanJobCatalogCreationInProgress := "CatalogCreationInProgress".
Definition ReasonScanJobSBOMGenerationInProgress := "SBOMGenerationInProgress".
Definition ReasonScanJobImageScanInProgress := "ImageScanInProgress".
Definition ReasonScanJobComplete := "Complete".
Definition ReasonScanJobFailed := "Failed".
Definition ReasonScanJobNoImagesToScan := "NoImagesToScan".
Definition ReasonScanJobAllImagesScanned := "AllImagesScanned".
Definition ReasonScanJobRegistryNotFound := "RegistryNotFound".
Definition ReasonScanJobRepositoryNotFound := "RepositoryNotFound".
Definition ReasonScanJobMatchConditionNotFound := "MatchConditionNotFound".
Definition ReasonScanJobInternalError := "InternalError".

Definition messageScanJobPending := "ScanJob is pending".
Definition messageScanJobScheduled := "ScanJob is scheduled".
Definition messageScanJobInProgress := "ScanJob is in progress".
Definition messageScanJobCompleted := "ScanJob completed successfully".
Definition messageScanJobFailed := "ScanJob failed".

Record ScanJobSpec := {
  sp_Registry : string;
  sp_Repositories : list ScanJobRepository
}.

Record ScanJobStatus := {
  ss_Conditions : list Condition;
  ss_ImagesCount : Z;
  ss_ScannedImagesCount : Z;
  ss_StartTime : option Z;
  ss_CompletionTime : option Z
}.

Record ScanJob := {
  sj_Meta : ObjectMeta;
  sj_Spec : ScanJobSpec;
  sj_Status : ScanJobStatus
}.

#[export] Instance ScanJobSpec_eq_dec : EqDecision ScanJobSpec.
Proof. solve_decision. Defined.
#[export] Instance ScanJobStatus_eq_dec : EqDecision ScanJobStatus.
Proof. solve_decision. Defined.
#[export] Instance ScanJob_eq_dec : EqDecision ScanJob.
Proof. solve_decision. Defined.

Definition sj_Name (s : ScanJob) := om_Name (sj_Meta s).
Definition sj_Namespace (s : ScanJob) := om_Namespace (sj_Meta s).
Definition sj_UID (s : ScanJob) := om_UID (sj_Meta s).

(** Assignments to the fields of the status and of the metadata. *)
Definition with_Conditions (cs : list Condition) (s : ScanJob) : ScanJob := {|
  sj_Meta := sj_Meta s; sj_Spec := sj_Spec s;
  sj_Status := {| ss_Conditions := cs; ss_ImagesCount := ss_ImagesCount (sj_Status s);
    ss_ScannedImagesCount := ss_ScannedImagesCount (sj_Status s);
    ss_StartTime := ss_StartTime (sj_Status s);
    ss_CompletionTime := ss_CompletionTime (sj_Status s) |} |}.
Definition with_StartTime (t : option Z) (s : ScanJob) : ScanJob := {|
  sj_Meta := sj_Meta s; sj_Spec := sj_Spec s;
  sj_Status := {| ss_Conditions := ss_Conditions (sj_Status s);
    ss_ImagesCount := ss_ImagesCount (sj_Status s);
    ss_ScannedImagesCount := ss_ScannedImagesCount (sj_Status s);
    ss_StartTime := t; ss_CompletionTime := ss_CompletionTime (sj_Status s) |} |}.
Definition with_CompletionTime (t : option Z) (s : ScanJob) : ScanJob := {|
  sj_Meta := sj_Meta s; sj_Spec := sj_Spec s;
  sj_Status := {| ss_Conditions := ss_Conditions (sj_Status s);
    ss_ImagesCount := ss_ImagesCount (sj_Status s);
    ss_ScannedImagesCount := ss_ScannedImagesCount (sj_Status s);
    ss_StartTime := ss_StartTime (sj_Status s); ss_CompletionTime := t |} |}.
Definition with_counts (images scanned : Z) (s : ScanJob) : ScanJob := {|
  sj_Meta := sj_Meta s; sj_Spec := sj_Spec s;
  sj_Status := {| ss_Conditions := ss_Conditions (sj_Status s);
    ss_ImagesCount := images; ss_ScannedImagesCount := scanned;
    ss_StartTime := ss_StartTime (sj_Status s);
    ss_CompletionTime := ss_CompletionTime (sj_Status s) |} |}.
Definition with_sj_Meta (m : ObjectMeta) (s : ScanJob) : ScanJob :=
  {| sj_Meta := m; sj_Spec := sj_Spec s; sj_Status := sj_Status s |}.

(** [GetCreationTimestampFromAnnotation]. *)
Definition GetCreationTimestampFromAnnotation `{!GoTime} (s : ScanJob) : Z :=
  match om_Annotations (sj_Meta s) !! AnnotationScanJobCreationTimestampKey with
  | Some timestampStr =>
      match time_Parse timestampStr with
      | Some timestamp => timestamp
      | None => om_CreationTimestamp (sj_Meta s)
      end
  | None => om_CreationTimestamp (sj_Meta s)
  end.

Section lifecycle.
Context `{!StatusConditions}.

(** [meta.SetStatusCondition(&s.Status.Conditions, metav1.Condition{...})]. *)
Definition set_cond (type : string) (status : ConditionStatus) (reason message : string)
    (s : ScanJob) : ScanJob :=
  with_Conditions
    (SetStatusCondition (ss_Conditions (sj_Status s))
       {| c_Type := type; c_Status := status; c_Reason := reason; c_Message := message;
          c_ObservedGeneration := om_Generation (sj_Meta s) |}) s.

Definition InitializeConditions (s : ScanJob) : ScanJob :=
  let s := with_Conditions [] s in
  let s := set_cond ConditionScanJobTypeScheduled ConditionUnknown
             ReasonScanJobPending messageScanJobPending s in
  let s := set_cond ConditionScanJobTypeInProgress ConditionUnknown
             ReasonScanJobPending messageScanJobPending s in
  let s := set_cond ConditionScanJobTypeComplete ConditionUnknown
             ReasonScanJobPending messageScanJobPending s in
  set_cond ConditionScanJobTypeFailed ConditionUnknown
             ReasonScanJobPending messageScanJobPending s.

Definition MarkScheduled (reason message : string) (s : ScanJob) : ScanJob :=
  let s := set_cond ConditionScanJobTypeScheduled ConditionTrue reason message s in
  let s := set_cond ConditionScanJobTypeInProgress ConditionFalse
             ReasonScanJobScheduled messageScanJobScheduled s in
  let s := set_cond ConditionScanJobTypeComplete ConditionFalse
             ReasonScanJobScheduled messageScanJobScheduled s in
  set_cond ConditionScanJobTypeFailed ConditionFalse
             ReasonScanJobScheduled messageScanJobScheduled s.

(** [now] is the value of [metav1.Now()] in the operations that read the clock. *)
Definition MarkInProgress (now : Z) (reason message : string) (s : ScanJob) : ScanJob :=
  let s := match ss_StartTime (sj_Status s) with
           | None => with_StartTime (Some now) s
           | Some _ => s
           end in
  let s := set_cond ConditionScanJobTypeScheduled ConditionFalse
             ReasonScanJobInProgress messageScanJobInProgress s in
  let s := set_cond ConditionScanJobTypeInProgress ConditionTrue reason message s in
  let s := set_cond ConditionScanJobTypeComplete ConditionFalse
             ReasonScanJobInProgress messageScanJobInProgress s in
  set_cond ConditionScanJobTypeFailed ConditionFalse
             ReasonScanJobInProgress messageScanJobInProgress s.

Definition MarkComplete (now : Z) (reason message : string) (s : ScanJob) : ScanJob :=
  let s := with_CompletionTime (Some now) s in
  let s := set_cond ConditionScanJobTypeScheduled ConditionFalse
             ReasonScanJobComplete messageScanJobCompleted s in
  let s := set_cond ConditionScanJobTypeInProgress ConditionFalse
             ReasonScanJobComplete messageScanJobCompleted s in
  let s := set_cond ConditionScanJobTypeComplete ConditionTrue reason message s in
  set_cond ConditionScanJobTypeFailed ConditionFalse
             ReasonScanJobComplete messageScanJobCompleted s.

Definition MarkFailed (now : Z) (reason message : string) (s : ScanJob) : ScanJob :=
  let s := with_CompletionTime (Some now) s in
  let s := set_cond ConditionScanJobTypeScheduled ConditionFalse
             ReasonScanJobFailed messageScanJobFailed s in
  let s := set_cond ConditionScanJobTypeInProgress ConditionFalse
             ReasonScanJobFailed messageScanJobFailed s in
  let s := set_cond ConditionScanJobTypeComplete ConditionFalse
             ReasonScanJobFailed messageScanJobFailed s in
  set_cond ConditionScanJobTypeFailed ConditionTrue reason message s.

Definition IsScheduled (s : ScanJob) : bool :=
  condition_true (ss_Conditions (sj_Status s)) ConditionScanJobTypeScheduled.
Definition IsInProgress (s : ScanJob) : bool :=
  condition_true (ss_Conditions (sj_Status s)) ConditionScanJobTypeInProgress.
Definition IsComplete (s : ScanJob) : bool :=
  condition_true (ss_Conditions (sj_Status s)) ConditionScanJobTypeComplete.
Definition IsFailed (s : ScanJob) : bool :=
  condition_true (ss_Conditions (sj_Status s)) ConditionScanJobTypeFailed.
Definition IsPending (s : ScanJob) : bool :=
  negb (IsScheduled s) && negb (IsInProgress s) && negb (IsComplete s) && negb (IsFailed s).

#[export] Instance ScanJob_job : ConditionedJob ScanJob := {|
  job_IsScheduled := IsScheduled; job_IsInProgress := IsInProgress;
  job_IsComplete := IsComplete; job_IsFailed := IsFailed |}.
End lifecycle.

(** ** The life cycle as a state machine

    The abstract machine has five phases; the conditions implement it. *)

Inductive Phase := Pending | Scheduled | InProgress | Complete | Failed.

#[export] Instance Phase_eq_dec : EqDecision Phase.
Proof. solve_decision. Defined.

Inductive JobOp :=
| OpInitialize
| OpScheduled (reason message : string)
| OpInProgress (now : Z) (reason message : string)
| OpComplete (now : Z) (reason message : string)
| OpFailed (now : Z) (reason message : string).

Definition op_phase (op : JobOp) : Phase :=
  match op with
  | OpInitialize => Pending
  | OpScheduled _ _ => Scheduled
  | OpInProgress _ _ _ => InProgress
  | OpComplete _ _ _ => Complete
  | OpFailed _ _ _ => Failed
  end.

Section lifecycle_facts.
Context `{!StatusConditions}.

Definition exec (s : ScanJob) (op : JobOp) : ScanJob :=
  match op with
  | OpInitialize => InitializeConditions s
  | OpScheduled r m => MarkScheduled r m s
  | OpInProgress now r m => MarkInProgress now r m s
  | OpComplete now r m => MarkComplete now r m s
  | OpFailed now r m => MarkFailed now r m s
  end.

(** The five predicates of a job agree with a single phase. *)
Definition in_phase (p : Phase) (s : ScanJob) : Prop :=
  IsPending s = bool_decide (p = Pending) ∧
  IsScheduled s = bool_decide (p = Scheduled) ∧
  IsInProgress s = bool_decide (p = InProgress) ∧
  IsComplete s = bool_decide (p = Complete) ∧
  IsFailed s = bool_decide (p = Failed).

Lemma condition_true_set_cond t st r m s t' :
  condition_true (ss_Conditions (sj_Status (set_cond t st r m s))) t' =
  if bool_decide (t = t') then bool_decide (st = ConditionTrue)
  else condition_true (ss_Conditions (sj_Status s)) t'.
Proof. apply condition_true_Set. Qed.

Lemma condition_true_nil t s :
  condition_true (ss_Conditions (sj_Status (with_Conditions [] s))) t = false.
Proof. unfold condition_true. simpl. by rewrite Find_nil. Qed.

Lemma exec_phase s op : in_phase (op_phase op) (exec s op).
Proof.
  destruct op; simpl; unfold in_phase, IsPending, IsScheduled, IsInProgress, IsComplete,
    IsFailed, InitializeConditions, MarkScheduled, MarkInProgress, MarkComplete, MarkFailed;
  rewrite !condition_true_set_cond; split_and!;
  repeat (case_bool_decide; try done); by rewrite ?condition_true_nil.
Qed.

(** The image counts are not part of the phase. *)
Lemma in_phase_with_counts p images scanned s :
  in_phase p s → in_phase p (with_counts images scanned s).
Proof. done. Qed.

Lemma set_cond_frame t st r m s :
  sj_Meta (set_cond t st r m s) = sj_Meta s ∧ sj_Spec (set_cond t st r m s) = sj_Spec s ∧
  ss_StartTime (sj_Status (set_cond t st r m s)) = ss_StartTime (sj_Status s) ∧
  ss_CompletionTime (sj_Status (set_cond t st r m s)) = ss_CompletionTime (sj_Status s) ∧
  ss_ImagesCount (sj_Status (set_cond t st r m s)) = ss_ImagesCount (sj_Status s) ∧
  ss_ScannedImagesCount (sj_Status (set_cond t st r m s)) =
    ss_ScannedImagesCount (sj_Status s).
Proof. done. Qed.

(** No operation touches the metadata, the spec or the image counts. *)
Lemma exec_frame s op :
  sj_Meta (exec s op) = sj_Meta s ∧ sj_Spec (exec s op) = sj_Spec s ∧
  ss_ImagesCount (sj_Status (exec s op)) = ss_ImagesCount (sj_Status s) ∧
  ss_ScannedImagesCount (sj_Status (exec s op)) = ss_ScannedImagesCount (sj_Status s).
Proof.
  destruct op; try done.
  simpl; unfold MarkInProgress. by destruct (ss_StartTime (sj_Status s)).
Qed.

(** The start time is the clock of the first [MarkInProgress]. *)
Lemma exec_StartTime s op :
  ss_StartTime (sj_Status (exec s op)) =
  match ss_StartTime (sj_Status s), op with
  | None, OpInProgress now _ _ => Some now
  | t, _ => t
  end.
Proof.
  destruct op; simpl; unfold MarkInProgress;
    destruct (ss_StartTime (sj_Status s)) eqn:Ht; by rewrite <- ?Ht.
Qed.

Lemma exec_CompletionTime s op :
  ss_CompletionTime (sj_Status (exec s op)) =
  match op with
  | OpComplete now _ _ | OpFailed now _ _ => Some now
  | _ => ss_CompletionTime (sj_Status s)
  end.
Proof.
  destruct op; simpl; try done. unfold MarkInProgress.
  by destruct (ss_StartTime (sj_Status s)).
Qed.

Definition run_ops (s : ScanJob) (ops : list JobOp) : ScanJob := fold_left exec ops s.

(** What a job that finished must record: it has a completion time. *)
Definition completion_recorded (s : ScanJob) : Prop :=
  JobFinished s = true → is_Some (ss_CompletionTime (sj_Status s)).

Lemma exec_completion_recorded s op : completion_recorded (exec s op).
Proof.
  unfold completion_recorded, JobFinished. simpl.
  destruct (exec_phase s op) as (_ & _ & _ & -> & ->). rewrite exec_CompletionTime.
  destruct op; simpl; try done; intros _; eauto.
Qed.

(** [C7] The four conditions implement the five-phase machine: whatever the
    initial conditions of the job (also none, or contradictory ones), after
    any non-empty sequence of life-cycle operations exactly one of
    [IsPending], [IsScheduled], [IsInProgress], [IsComplete] and [IsFailed]
    holds, and it is the phase of the last operation. *)
Theorem lifecycle_refines_phases (s : ScanJob) (ops : list JobOp) (op : JobOp) :
  in_phase (op_phase op) (run_ops s (ops ++ [op])).
Proof. unfold run_ops. rewrite fold_left_app. apply exec_phase. Qed.

(** Timestamps along the life cycle of a job that starts without them:
    the start time is the clock of the first [MarkInProgress] and never
    moves again, and a job that is complete or failed has a completion time. *)
Theorem lifecycle_timestamps (s : ScanJob) (pre post : list JobOp) (now : Z)
    (reason message : string)
    (Hstart : ss_StartTime (sj_Status s) = None)
    (Hfirst : Forall (λ op, op_phase op ≠ InProgress) pre) :
  ss_StartTime (sj_Status (run_ops s (pre ++ OpInProgress now reason message :: post)))
    = Some now ∧
  completion_recorded (run_ops s (pre ++ OpInProgress now reason message :: post)).
Proof.
  unfold run_ops. rewrite fold_left_app. simpl. split.
  - assert (ss_StartTime (sj_Status (fold_left exec pre s)) = None) as Hpre.
    { revert s Hstart. induction Hfirst as [|op pre Hop _ IH]; intros s Hs; simpl; [done|].
      apply IH. rewrite exec_StartTime, Hs. by destruct op. }
    assert (∀ t, ss_StartTime (sj_Status t) = Some now →
                 ss_StartTime (sj_Status (fold_left exec post t)) = Some now) as Hpost.
    { induction post as [|op post IH]; intros t Ht; simpl; [done|].
      apply IH. by rewrite exec_StartTime, Ht. }
    apply Hpost.
    pose proof (exec_StartTime (fold_left exec pre s) (OpInProgress now reason message)) as Hn.
    by rewrite Hpre in Hn.
  - destruct post as [|op post] using rev_ind; [apply (exec_completion_recorded _ (OpInProgress now reason message))|].
    rewrite fold_left_app. apply exec_completion_recorded.
Qed.
End lifecycle_facts.

(** A pending job, for the witnesses. *)
Definition new_ScanJob (m : ObjectMeta) (registry : string) (repos : list ScanJobRepository) : ScanJob :=
  {| sj_Meta := m;
     sj_Spec := {| sp_Registry := registry; sp_Repositories := repos |};
     sj_Status := {| ss_Conditions := []; ss_ImagesCount := 0; ss_ScannedImagesCount := 0;
                     ss_StartTime := None; ss_CompletionTime := None |} |}.

Definition sample_job : ScanJob :=
  new_ScanJob (new_meta "job" "" "default" ∅ ∅) "registry" [].

(** [lifecycle_timestamps] on a concrete input. *)
Lemma lifecycle_timestamps_witness :
  ss_StartTime (sj_Status (run_ops sample_job
    ([OpInitialize; OpScheduled "r" "m"] ++ OpInProgress 7 "r" "m" ::
     [OpInProgress 8 "r" "m"; OpComplete 9 "r" "m"]))) = Some 7%Z.
Proof.
  apply (lifecycle_timestamps sample_job [OpInitialize; OpScheduled "r" "m"]).
  - reflexivity.
  - repeat constructor; discriminate.
Defined.
