(* ===== verification/Filters.v ===== *)
(** * Filters: which images and paths are scanned

    [src/internal/filters/platform.go], [src/internal/filters/tag.go],
    [src/internal/cel/tag.go] and [src/internal/skippatterns/skippatterns.go]. *)

From stdpp Require Import prelude gmap strings list.
From S2P Require Import Prelude Meta Conditions Registry.

(** ** Platforms *)

(** [filters.IsPlatformAllowed]. *)
Definition platform_matches (os architecture variant : string) (allowed : Platform) : bool :=
  if bool_decide (pl_Variant allowed = "")
  then bool_decide (os = pl_OS allowed) && bool_decide (architecture = pl_Architecture allowed)
  else bool_decide (os = pl_OS allowed) && bool_decide (architecture = pl_Architecture allowed)
       && bool_decide (variant = pl_Variant allowed).

Definition IsPlatformAllowed (os architecture variant : string)
    (allowedPlatforms : list Platform) : bool :=
  if bool_decide (os = "unknown") && bool_decide (architecture = "unknown") then false
  else match allowedPlatforms with
       | [] => true
       | _ => existsb (platform_matches os architecture variant) allowedPlatforms
       end.

(** ** Tag expressions

    The CEL environment of cel-go, as the evaluator uses it. *)
Inductive celValue := celBool (b : bool) | celOther.

Class CEL := {
  celAst : Type;
  celProgram : Type;
  env_Compile : string → result celAst;
  env_EstimateCost : celAst → result Z;
  ast_OutputIsBool : celAst → bool;
  env_Program : celAst → Z → result celProgram;
  prg_Eval : celProgram → string → result celValue
}.

Definition tagEvaluatorCostLimit : Z := 100.

Section tag_evaluator.
Context `{!CEL}.

(** [TagEvaluator.compile]. *)
Definition compile (expression : string) : result celAst :=
  match env_Compile expression with
  | Err e => Err (errorf "failed to compile expression" e)
  | Ok ast =>
      match env_EstimateCost ast with
      | Err e => Err (errorf "failed to estimate expression cost" e)
      | Ok max =>
          if bool_decide (tagEvaluatorCostLimit < max)%Z
          then Err (errors_New "expression cost exceeds limit")
          else Ok ast
      end
  end.

(** [TagEvaluator.Evaluate]. *)
Definition Evaluate (expression tag : string) : result bool :=
  match compile expression with
  | Err e => Err e
  | Ok ast =>
      match env_Program ast tagEvaluatorCostLimit with
      | Err e => Err (errorf "failed to create CEL program" e)
      | Ok prg =>
          match prg_Eval prg tag with
          | Err e => Err (errorf "failed to evaluate expression" e)
          | Ok (celBool b) => Ok b
          | Ok celOther => Err (errors_New "expression did not evaluate to a boolean")
          end
      end
  end.

(** [TagEvaluator.Validate]. *)
Definition Validate (expression : string) : result unit :=
  match compile expression with
  | Err e => Err e
  | Ok ast => if ast_OutputIsBool ast then Ok tt else Err (errors_New "must evaluate to bool")
  end.

(** [filters.FilterByTag]: the loop over the match conditions, with the
    operator already defaulted. *)
Fixpoint filter_loop (op : string) (mcs : list MatchCondition) (tag : string) : result bool :=
  match mcs with
  | [] => Ok (bool_decide (op = MatchOperatorAnd))
  | mc :: mcs' =>
      match Evaluate (mc_Expression mc) tag with
      | Err e => Err (errorf ("cannot evaluate expression " +:+ quote (mc_Name mc)) e)
      | Ok allowed =>
          if bool_decide (op = MatchOperatorAnd) then
            if negb allowed then Ok false else filter_loop op mcs' tag
          else if bool_decide (op = MatchOperatorOr) then
            if allowed then Ok true else filter_loop op mcs' tag
          else filter_loop op mcs' tag
      end
  end.

Definition FilterByTag (repository : option Repository) (tag : string) : result bool :=
  match repository with
  | None => Ok true
  | Some repository =>
      match rp_MatchConditions repository with
      | [] => Ok true
      | mcs =>
          let op := rp_MatchOperator repository in
          let op := if bool_decide (op = "") then MatchOperatorAnd else op in
          filter_loop op mcs tag
      end
  end.

(** A condition accepts a tag. *)
Definition accepts (tag : string) (mc : MatchCondition) : Prop :=
  Evaluate (mc_Expression mc) tag = Ok true.
Definition rejects (tag : string) (mc : MatchCondition) : Prop :=
  Evaluate (mc_Expression mc) tag = Ok false.

Lemma filter_loop_And mcs tag :
  filter_loop MatchOperatorAnd mcs tag = Ok true ↔ Forall (accepts tag) mcs.
Proof.
  induction mcs as [|mc mcs IH]; simpl; [by split|].
  rewrite Forall_cons, <- IH. unfold accepts at 1.
  destruct (Evaluate (mc_Expression mc) tag) as [[]|e]; simpl; intuition congruence.
Qed.

Lemma filter_loop_Or mcs tag :
  filter_loop MatchOperatorOr mcs tag = Ok true ↔
  ∃ pre mc post, mcs = pre ++ mc :: post ∧ Forall (rejects tag) pre ∧ accepts tag mc.
Proof.
  induction mcs as [|mc mcs IH]; simpl.
  { split; [done|]. by intros ([]&?&?&?&_). }
  unfold accepts, rejects in *.
  destruct (Evaluate (mc_Expression mc) tag) as [[]|e] eqn:He; simpl.
  - split; [|done]. intros _. exists [], mc, mcs. eauto.
  - rewrite IH. split.
    + intros (pre&mc'&post&->&Hpre&Hmc). exists (mc :: pre), mc', post. auto.
    + intros ([|mc0 pre]&mc'&post&Heq&Hpre&Hmc); simplify_eq/=; [congruence|].
      apply Forall_cons in Hpre as [_ Hpre]. eauto 6.
  - split; [done|].
    intros ([|mc0 pre]&mc'&post&Heq&Hpre&Hmc); simplify_eq/=; [congruence|].
    apply Forall_cons in Hpre as [? _]. congruence.
Qed.

Lemma filter_loop_Or_false mcs tag :
  filter_loop MatchOperatorOr mcs tag = Ok false ↔ Forall (rejects tag) mcs.
Proof.
  induction mcs as [|mc mcs IH]; simpl; [by split|].
  rewrite Forall_cons, <- IH. unfold rejects at 1.
  destruct (Evaluate (mc_Expression mc) tag) as [[]|e]; simpl; intuition congruence.
Qed.

(** Tag filtering: a repository without conditions accepts every tag;
    with the [And] operator, or none set, a tag passes exactly when every
    condition evaluates to true; with [Or] it passes exactly when some
    condition evaluates to true and all the ones before it to false, and is
    rejected exactly when all evaluate to false.  Conditions after the
    deciding one are not evaluated, so their errors do not matter. *)
Theorem FilterByTag_spec (repository : Repository) (tag : string) :
  (rp_MatchConditions repository = [] → FilterByTag (Some repository) tag = Ok true) ∧
  (rp_MatchOperator repository = "" ∨ rp_MatchOperator repository = MatchOperatorAnd →
     (FilterByTag (Some repository) tag = Ok true ↔
        Forall (accepts tag) (rp_MatchConditions repository))) ∧
  (rp_MatchOperator repository = MatchOperatorOr → rp_MatchConditions repository ≠ [] →
     (FilterByTag (Some repository) tag = Ok true ↔
        ∃ pre mc post, rp_MatchConditions repository = pre ++ mc :: post ∧
          Forall (rejects tag) pre ∧ accepts tag mc) ∧
     (FilterByTag (Some repository) tag = Ok false ↔
        Forall (rejects tag) (rp_MatchConditions repository))).
Proof.
  unfold FilterByTag. destruct (rp_MatchConditions repository) as [|mc mcs] eqn:Hmcs.
  - split_and!; [done| |done]. intros _. by rewrite Forall_nil.
  - split_and!; [done| |].
    + intros [-> | ->]; rewrite ?bool_decide_true by done; apply filter_loop_And.
    + intros -> _. split; [apply filter_loop_Or|apply filter_loop_Or_false].
Qed.

(** A validated expression compiles within the cost limit, so evaluating it
    never fails in [compile]. *)
Lemma Validate_compile expression :
  Validate expression = Ok tt →
  ∃ ast, compile expression = Ok ast ∧ ast_OutputIsBool ast = true ∧
    ∃ max, env_EstimateCost ast = Ok max ∧ (max ≤ tagEvaluatorCostLimit)%Z.
Proof.
  unfold Validate. destruct (compile expression) as [ast|e] eqn:Hc; [|done].
  destruct (ast_OutputIsBool ast) eqn:Hb; [|done]. intros _. exists ast. split_and!; [done..|].
  unfold compile in Hc. repeat (case_match; simplify_eq/=).
  apply bool_decide_eq_false in H2. eexists. split; [done|]. lia.
Qed.

(** What the admission webhook accepts, the catalog can run: an expression that
    passes [Validate] compiles under the cost limit, and evaluating it on any
    tag yields a boolean or an error of the CEL runtime; it never fails
    because the expression is malformed, too expensive or not boolean,
    given that cel-go programs of boolean type evaluate to booleans. *)
Theorem Validate_sound (expression tag : string)
    (Hsound : ∀ ast prg v, ast_OutputIsBool ast = true →
      env_Program ast tagEvaluatorCostLimit = Ok prg → prg_Eval prg tag = Ok v → v ≠ celOther)
    (Hvalid : Validate expression = Ok tt) :
  (∃ b, Evaluate expression tag = Ok b) ∨
  (∃ ast e, env_Program ast tagEvaluatorCostLimit = Err e ∧
     Evaluate expression tag = Err (errorf "failed to create CEL program" e)) ∨
  (∃ prg e, prg_Eval prg tag = Err e ∧
     Evaluate expression tag = Err (errorf "failed to evaluate expression" e)).
Proof.
  destruct (Validate_compile _ Hvalid) as (ast & Hc & Hb & _).
  unfold Evaluate. rewrite Hc.
  destruct (env_Program ast tagEvaluatorCostLimit) as [prg|e] eqn:Hp; [|eauto 7].
  destruct (prg_Eval prg tag) as [[b|]|e] eqn:Hv; [by eauto| |by eauto 7].
  by destruct (Hsound ast prg celOther).
Qed.
End tag_evaluator.

(** ** Skip patterns *)

Record ParseResult := { SkipDirs : list string; SkipFiles : list string }.

(** [skippatterns.Parse]. *)
Definition parse_step (result : ParseResult) (p : string) : ParseResult :=
  let p := TrimSpace p in
  if bool_decide (p = "") then result
  else match CutSuffix p "/" with
       | Some dir => {| SkipDirs := SkipDirs result ++ [dir]; SkipFiles := SkipFiles result |}
       | None => {| SkipDirs := SkipDirs result; SkipFiles := SkipFiles result ++ [p] |}
       end.
Definition Parse (patterns : list string) : ParseResult :=
  fold_left parse_step patterns {| SkipDirs := []; SkipFiles := [] |}.

(** The patterns Parse keeps: trimmed, and not blank. *)
Definition significant (patterns : list string) : list string :=
  filter (λ p, p ≠ "") (TrimSpace <$> patterns).

Lemma Parse_snoc ps p : Parse (ps ++ [p]) = parse_step (Parse ps) p.
Proof. unfold Parse. by rewrite fold_left_app. Qed.

Lemma significant_snoc ps p :
  significant (ps ++ [p]) =
  significant ps ++ (if bool_decide (TrimSpace p = "") then [] else [TrimSpace p]).
Proof.
  unfold significant. rewrite fmap_app, filter_app. f_equal. simpl.
  rewrite filter_cons, filter_nil. case_bool_decide; [by rewrite decide_False by tauto|by rewrite decide_True].
Qed.

(** Skip patterns are classified without loss: the directories are, in
    order, the trimmed non-blank patterns that end with a slash, with exactly
    that slash removed; the files are the other ones, unchanged and in order. *)
Theorem Parse_spec (patterns : list string) :
  (λ d, d +:+ "/") <$> SkipDirs (Parse patterns) =
    filter (λ p, is_Some (CutSuffix p "/")) (significant patterns) ∧
  SkipFiles (Parse patterns) =
    filter (λ p, ¬ is_Some (CutSuffix p "/")) (significant patterns).
Proof.
  induction patterns as [|p ps IH] using rev_ind; [done|].
  rewrite Parse_snoc, significant_snoc, !filter_app. destruct IH as [IHd IHf].
  unfold parse_step. case_bool_decide as Hp; [by rewrite !filter_nil, !app_nil_r|].
  rewrite !filter_cons, !filter_nil.
  destruct (CutSuffix (TrimSpace p) "/") as [d|] eqn:Hd.
  - rewrite decide_True by eauto. rewrite decide_False by (intros []; eauto).
    cbn [SkipDirs SkipFiles]. rewrite fmap_app, IHd, IHf, app_nil_r. split; [|done].
    f_equal. cbn. f_equal. symmetry. by apply CutSuffix_Some.
  - rewrite decide_False by (by intros []). rewrite decide_True by (by intros []).
    cbn [SkipDirs SkipFiles]. by rewrite IHd, IHf, app_nil_r.
Qed.

(** The same, as lists. *)
Lemma Parse_lists (patterns : list string) :
  SkipDirs (Parse patterns) = omap (λ p, CutSuffix p "/") (significant patterns) ∧
  SkipFiles (Parse patterns) = filter (λ p, CutSuffix p "/" = None) (significant patterns).
Proof.
  induction patterns as [|p ps [IHd IHf]] using rev_ind; [done|].
  rewrite Parse_snoc, significant_snoc, omap_app, filter_app. unfold parse_step.
  case_bool_decide; [by rewrite filter_nil, !app_nil_r|]. rewrite filter_cons, filter_nil. cbn.
  destruct (CutSuffix (TrimSpace p) "/") as [d|]; cbn; by rewrite IHd, IHf, ?app_nil_r.
Qed.

(** ** Witness *)

(** A CEL environment that knows the expressions [true] and [tag == "v1"]. *)
Definition toy_CEL : CEL := {|
  celAst := bool; celProgram := bool;
  env_Compile := λ s, if bool_decide (s = "true") then Ok true
                      else if bool_decide (s = "v1") then Ok false
                      else Err (errors_New "syntax error");
  env_EstimateCost := λ _, Ok 1%Z;
  ast_OutputIsBool := λ _, true;
  env_Program := λ ast _, Ok ast;
  prg_Eval := λ prg tag, Ok (celBool (prg || bool_decide (tag = "v1")))
|}.

Lemma Validate_sound_witness :
  let H := toy_CEL in
  (∃ b, Evaluate "v1" "v1" = Ok b) ∨
  (∃ ast e, env_Program ast tagEvaluatorCostLimit = Err e ∧
     Evaluate "v1" "v1" = Err (errorf "failed to create CEL program" e)) ∨
  (∃ prg e, prg_Eval prg "v1" = Err e ∧
     Evaluate "v1" "v1" = Err (errorf "failed to evaluate expression" e)).
Proof.
  intros H. apply (@Validate_sound toy_CEL "v1" "v1").
  - intros ast prg v _ _ Hv. simpl in Hv. by injection Hv as <-.
  - reflexivity.
Defined.

(** Classification on the inputs of the project's own test. *)
Example Parse_example :
  Parse ["  node_modules/  "; "  *.log  "; "	"; "**/vendor/"; "/tmp"] =
  {| SkipDirs := ["node_modules"; "**/vendor"]; SkipFiles := ["*.log"; "/tmp"] |}.
Proof. reflexivity. Qed.
