(* ===== verification/NodeScanJob.v ===== *)
(** * NodeScanJobs

    [src/api/v1alpha1/nodescanjob_types.go]: the NodeScanJob resource, with
    the life cycle of a ScanJob on its own conditions and messages. *)

From stdpp Require Import prelude gmap strings list.
From S2P Require Import Prelude Meta Conditions.

Definition LabelNodeScanJobUIDKey := "sbomscanner.kubewarden.io/nodescanjob-uid".
Definition AnnotationNodeScanJobCreationTimestampKey := "sbomscanner.kubewarden.io/creation-timestamp".
Definition AnnotationNodeScanJobTriggerKey := "sbomscanner.kubewarden.io/trigger".
Definition AnnotationNodeScanJobNodeScanConfigurationKey := "sbomscanner.kubewarden.io/nodescanconfiguration".

Definition ConditionNodeScanJobTypeScheduled := "Scheduled".
Definition ConditionNodeScanJobTypeInProgress := "InProgress".
Definition ConditionNodeScanJobTypeComplete := "Complete".
Definition ConditionNodeScanJobTypeFailed := "Failed".

Definition ReasonNodeScanJobInProgress := "InProgress".
Definition ReasonNodeScanJobConfigurationMissing := "NodeScanConfigurationMissing".
Definition ReasonNodeScanJobNodeNotFound := "NodeNotFound".
Definition ReasonNodeScanJobNotMatching := "NodeNotMatching".
Definition ReasonNodeScanJobPending := "Pending".
Definition ReasonNodeScanJobSBOMGenerationInProgress := "SBOMGenerationInProgress".
Definition ReasonNodeScanJobScheduled := "Scheduled".
Definition ReasonNodeScanJobComplete := "Complete".
Definition ReasonNodeScanJobFailed := "Failed".

Definition messageNodeScanJobPending := "NodeScanJob is pending".
Definition messageNodeScanJobScheduled := "NodeScanJob is scheduled".
Definition messageNodeScanJobInProgress := "NodeScanJob is in progress".
Definition messageNodeScanJobCompleted := "NodeScanJob completed successfully".
Definition messageNodeScanJobFailed := "NodeScanJob failed".

Record NodeScanJobSpec := { np_NodeName : string }.

Record NodeScanJobStatus := {
  ns_Conditions : list Condition;
  ns_StartTime : option Z;
  ns_CompletionTime : option Z
}.

Record NodeScanJob := {
  nj_Meta : ObjectMeta;
  nj_Spec : NodeScanJobSpec;
  nj_Status : NodeScanJobStatus
}.

#[export] Instance NodeScanJobSpec_eq_dec : EqDecision NodeScanJobSpec.
Proof. solve_decision. Defined.
#[export] Instance NodeScanJobStatus_eq_dec : EqDecision NodeScanJobStatus.
Proof. solve_decision. Defined.
#[export] Instance NodeScanJob_eq_dec : EqDecision NodeScanJob.
Proof. solve_decision. Defined.

Definition nj_Name (s : NodeScanJob) := om_Name (nj_Meta s).
Definition nj_UID (s : NodeScanJob) := om_UID (nj_Meta s).

(** Assignments to the fields of the status and of the metadata. *)
Definition with_Conditions (cs : list Condition) (s : NodeScanJob) : NodeScanJob := {|
  nj_Meta := nj_Meta s; nj_Spec := nj_Spec s;
  nj_Status := {| ns_Conditions := cs; ns_StartTime := ns_StartTime (nj_Status s);
    ns_CompletionTime := ns_CompletionTime (nj_Status s) |} |}.
Definition with_StartTime (t : option Z) (s : NodeScanJob) : NodeScanJob := {|
  nj_Meta := nj_Meta s; nj_Spec := nj_Spec s;
  nj_Status := {| ns_Conditions := ns_Conditions (nj_Status s);
    ns_StartTime := t; ns_CompletionTime := ns_CompletionTime (nj_Status s) |} |}.
Definition with_CompletionTime (t : option Z) (s : NodeScanJob) : NodeScanJob := {|
  nj_Meta := nj_Meta s; nj_Spec := nj_Spec s;
  nj_Status := {| ns_Conditions := ns_Conditions (nj_Status s);
    ns_StartTime := ns_StartTime (nj_Status s); ns_CompletionTime := t |} |}.
Definition with_nj_Meta (m : ObjectMeta) (s : NodeScanJob) : NodeScanJob :=
  {| nj_Meta := m; nj_Spec := nj_Spec s; nj_Status := nj_Status s |}.

(** [GetCreationTimestampFromAnnotation]. *)
Definition GetCreationTimestampFromAnnotation `{!GoTime} (s : NodeScanJob) : Z :=
  match om_Annotations (nj_Meta s) !! AnnotationNodeScanJobCreationTimestampKey with
  | Some timestampStr =>
      match time_Parse timestampStr with
      | Some timestamp => timestamp
      | None => om_CreationTimestamp (nj_Meta s)
      end
  | None => om_CreationTimestamp (nj_Meta s)
  end.

Section lifecycle.
Context `{!StatusConditions}.

(** [meta.SetStatusCondition(&s.Status.Conditions, metav1.Condition{...})]. *)
Definition set_cond (type : string) (status : ConditionStatus) (reason message : string)
    (s : NodeScanJob) : NodeScanJob :=
  with_Conditions
    (SetStatusCondition (ns_Conditions (nj_Status s))
       {| c_Type := type; c_Status := status; c_Reason := reason; c_Message := message;
          c_ObservedGeneration := om_Generation (nj_Meta s) |}) s.

Definition InitializeConditions (s : NodeScanJob) : NodeScanJob :=
  let s := with_Conditions [] s in
  let s := set_cond ConditionNodeScanJobTypeScheduled ConditionUnknown
             ReasonNodeScanJobPending messageNodeScanJobPending s in
  let s := set_cond ConditionNodeScanJobTypeInProgress ConditionUnknown
             ReasonNodeScanJobPending messageNodeScanJobPending s in
  let s := set_cond ConditionNodeScanJobTypeComplete ConditionUnknown
             ReasonNodeScanJobPending messageNodeScanJobPending s in
  set_cond ConditionNodeScanJobTypeFailed ConditionUnknown
             ReasonNodeScanJobPending messageNodeScanJobPending s.

Definition MarkScheduled (reason message : string) (s : NodeScanJob) : NodeScanJob :=
  let s := set_cond ConditionNodeScanJobTypeScheduled ConditionTrue reason message s in
  let s := set_cond ConditionNodeScanJobTypeInProgress ConditionFalse
             ReasonNodeScanJobScheduled messageNodeScanJobScheduled s in
  let s := set_cond ConditionNodeScanJobTypeComplete ConditionFalse
             ReasonNodeScanJobScheduled messageNodeScanJobScheduled s in
  set_cond ConditionNodeScanJobTypeFailed ConditionFalse
             ReasonNodeScanJobScheduled messageNodeScanJobScheduled s.

(** [now] is the value of [metav1.Now()] in the operations that read the clock. *)
Definition MarkInProgress (now : Z) (reason message : string) (s : NodeScanJob) : NodeScanJob :=
  let s := match ns_StartTime (nj_Status s) with
           | None => with_StartTime (Some now) s
           | Some _ => s
           end in
  let s := set_cond ConditionNodeScanJobTypeScheduled ConditionFalse
             ReasonNodeScanJobInProgress messageNodeScanJobInProgress s in
  let s := set_cond ConditionNodeScanJobTypeInProgress ConditionTrue reason message s in
  let s := set_cond ConditionNodeScanJobTypeComplete ConditionFalse
             ReasonNodeScanJobInProgress messageNodeScanJobInProgress s in
  set_cond ConditionNodeScanJobTypeFailed ConditionFalse
             ReasonNodeScanJobInProgress messageNodeScanJobInProgress s.

Definition MarkComplete (now : Z) (reason message : string) (s : NodeScanJob) : NodeScanJob :=
  let s := with_CompletionTime (Some now) s in
  let s := set_cond ConditionNodeScanJobTypeScheduled ConditionFalse
             ReasonNodeScanJobComplete messageNodeScanJobCompleted s in
  let s := set_cond ConditionNodeScanJobTypeInProgress ConditionFalse
             ReasonNodeScanJobComplete messageNodeScanJobCompleted s in
  let s := set_cond ConditionNodeScanJobTypeComplete ConditionTrue reason message s in
  set_cond ConditionNodeScanJobTypeFailed ConditionFalse
             ReasonNodeScanJobComplete messageNodeScanJobCompleted s.

Definition MarkFailed (now : Z) (reason message : string) (s : NodeScanJob) : NodeScanJob :=
  let s := with_CompletionTime (Some now) s in
  let s := set_cond ConditionNodeScanJobTypeScheduled ConditionFalse
             ReasonNodeScanJobFailed messageNodeScanJobFailed s in
  let s := set_cond ConditionNodeScanJobTypeInProgress ConditionFalse
             ReasonNodeScanJobFailed messageNodeScanJobFailed s in
  let s := set_cond ConditionNodeScanJobTypeComplete ConditionFalse
             ReasonNodeScanJobFailed messageNodeScanJobFailed s in
  set_cond ConditionNodeScanJobTypeFailed ConditionTrue reason message s.

Definition IsScheduled (s : NodeScanJob) : bool :=
  condition_true (ns_Conditions (nj_Status s)) ConditionNodeScanJobTypeScheduled.
Definition IsInProgress (s : NodeScanJob) : bool :=
  condition_true (ns_Conditions (nj_Status s)) ConditionNodeScanJobTypeInProgress.
Definition IsComplete (s : NodeScanJob) : bool :=
  condition_true (ns_Conditions (nj_Status s)) ConditionNodeScanJobTypeComplete.
Definition IsFailed (s : NodeScanJob) : bool :=
  condition_true (ns_Conditions (nj_Status s)) ConditionNodeScanJobTypeFailed.
Definition IsPending (s : NodeScanJob) : bool :=
  negb (IsScheduled s) && negb (IsInProgress s) && negb (IsComplete s) && negb (IsFailed s).

#[export] Instance NodeScanJob_job : ConditionedJob NodeScanJob := {|
  job_IsScheduled := IsScheduled; job_IsInProgress := IsInProgress;
  job_IsComplete := IsComplete; job_IsFailed := IsFailed |}.
End lifecycle.

(** ** The phase an operation leaves the job in *)

Section node_lifecycle_facts.
Context `{!StatusConditions}.

Lemma node_condition_set_cond t st r m s t' :
  condition_true (ns_Conditions (nj_Status (set_cond t st r m s))) t' =
  if bool_decide (t = t') then bool_decide (st = ConditionTrue)
  else condition_true (ns_Conditions (nj_Status s)) t'.
Proof. apply condition_true_Set. Qed.

Lemma node_condition_nil t s :
  condition_true (ns_Conditions (nj_Status (with_Conditions [] s))) t = false.
Proof. unfold condition_true. simpl. by rewrite Find_nil. Qed.

(** The four predicates, as one tuple: scheduled, in progress, complete, failed. *)
Definition node_flags (s : NodeScanJob) : bool * bool * bool * bool :=
  (IsScheduled s, IsInProgress s, IsComplete s, IsFailed s).

Ltac node_phase :=
  unfold node_flags, IsScheduled, IsInProgress, IsComplete, IsFailed;
  rewrite !node_condition_set_cond; repeat (case_bool_decide; try done);
  by rewrite ?node_condition_nil.

Lemma node_flags_Initialize s :
  node_flags (InitializeConditions s) = (false, false, false, false).
Proof. unfold InitializeConditions. node_phase. Qed.
Lemma node_flags_Scheduled r m s : node_flags (MarkScheduled r m s) = (true, false, false, false).
Proof. unfold MarkScheduled. node_phase. Qed.
Lemma node_flags_InProgress now r m s :
  node_flags (MarkInProgress now r m s) = (false, true, false, false).
Proof. unfold MarkInProgress. node_phase. Qed.
Lemma node_flags_Complete now r m s :
  node_flags (MarkComplete now r m s) = (false, false, true, false).
Proof. unfold MarkComplete. node_phase. Qed.
Lemma node_flags_Failed now r m s :
  node_flags (MarkFailed now r m s) = (false, false, false, true).
Proof. unfold MarkFailed. node_phase. Qed.
End node_lifecycle_facts.
