(* ===== verification/GoPath.v ===== *)
(** * The package [path] of the Go standard library

    [path.Clean] and [path.Join], as the catalog, the report conversion and
    the node scanner use them, and [strings.Split] with a longer separator. *)

From stdpp Require Import prelude strings list.
From Stdlib Require Import Ascii.
From S2P Require Import Prelude.

Definition slash : ascii := "/"%char.

(** One path element on the (reversed) stack of elements kept so far. *)
Definition clean_step (rooted : bool) (stack : list string) (elem : string) : list string :=
  if bool_decide (elem = "") || bool_decide (elem = ".") then stack
  else if bool_decide (elem = "..") then
    match stack with
    | x :: stack' => if bool_decide (x = "..") then ".." :: stack else stack'
    | [] => if rooted then [] else [".."]
    end
  else elem :: stack.

Definition path_Clean (p : string) : string :=
  if bool_decide (p = "") then "."
  else
    let rooted := HasPrefix p "/" in
    let out := join "/" (reverse (fold_left (clean_step rooted) (split_byte slash p) [])) in
    if rooted then "/" +:+ out
    else if bool_decide (out = "") then "." else out.

Definition path_Join (elems : list string) : string :=
  match filter (λ e, e ≠ "") elems with
  | [] => ""
  | es => path_Clean (join "/" es)
  end.

(** [strings.Split(s, sep)] for a non-empty separator: [skip] bytes of the
    separator just matched remain to be passed over. *)
Fixpoint split_go (sep : string) (cur : string) (skip : nat) (s : string) : list string :=
  match s with
  | EmptyString => [cur]
  | String c s' =>
      match skip with
      | S n => split_go sep cur n s'
      | O => if HasPrefix s sep
             then cur :: split_go sep "" (pred (String.length sep)) s'
             else split_go sep (cur +:+ Str c) O s'
      end
  end.
Definition strings_Split (s sep : string) : list string := split_go sep "" O s.

(** ** Facts *)

(** An element that names something: no separator, not the current or the
    parent directory. *)
Definition proper_element (e : string) : Prop := e ≠ "" ∧ e ≠ "." ∧ e ≠ "..".

Lemma clean_step_rooted stack elem :
  Forall proper_element stack → Forall proper_element (clean_step true stack elem).
Proof.
  intros Hst. unfold clean_step. case_bool_decide; [done|]. simpl.
  case_bool_decide; [done|]. simpl. case_bool_decide as Hdd.
  - destruct stack as [|x st]; [done|]. apply Forall_cons in Hst as [[_ [_ Hx]] Hst].
    by rewrite bool_decide_false.
  - constructor; [by split_and!|done].
Qed.

Lemma clean_elements_rooted es stack :
  Forall proper_element stack → Forall proper_element (fold_left (clean_step true) es stack).
Proof.
  revert stack. induction es as [|e es IH]; intros stack Hst; simpl; [done|].
  by apply IH, clean_step_rooted.
Qed.

(** Cleaning a rooted path yields a rooted path whose elements are all proper:
    it cannot climb above the root. *)
Lemma path_Clean_rooted p :
  HasPrefix p "/" = true →
  ∃ es, Forall proper_element es ∧ path_Clean p = "/" +:+ join "/" es.
Proof.
  intros Hr. unfold path_Clean. rewrite bool_decide_false by (by intros ->).
  rewrite Hr. eexists. split; [|done].
  apply Forall_reverse, clean_elements_rooted, Forall_nil_2.
Qed.

Lemma join_cons sep x l : l ≠ [] → join sep (x :: l) = x +:+ sep +:+ join sep l.
Proof. by destruct l. Qed.

Lemma split_go_nonempty sep cur skip s : split_go sep cur skip s ≠ [].
Proof.
  revert cur skip. induction s as [|c s IH]; intros cur skip; simpl; [done|].
  destruct skip; [case_match; [done|apply IH]|apply IH].
Qed.

Lemma string_length_app s1 s2 : String.length (s1 +:+ s2) = (String.length s1 + String.length s2)%nat.
Proof. induction s1 as [|c s1 IH]; [done|]. rewrite string_app_cons. simpl. by rewrite IH. Qed.

Lemma split_go_skip sep cur pre s :
  split_go sep cur (String.length pre) (pre +:+ s) = split_go sep cur 0 s.
Proof. induction pre as [|c pre IH]; [done|]. rewrite string_app_cons. simpl. apply IH. Qed.

Lemma split_go_join_n n sep cur s :
  (String.length s ≤ n)%nat → sep ≠ "" → join sep (split_go sep cur 0 s) = cur +:+ s.
Proof.
  intros Hn Hsep. revert cur s Hn. induction n as [|n IH]; intros cur s Hn.
  { destruct s; [|simpl in Hn; lia]. by rewrite string_app_nil_r. }
  destruct s as [|c s]; [by rewrite string_app_nil_r|]. simpl.
  destruct (HasPrefix (String c s) sep) eqn:Hp.
  - unfold HasPrefix in Hp. destruct (CutPrefix (String c s) sep) as [r|] eqn:Hc; [|done].
    apply CutPrefix_Some in Hc. destruct sep as [|p sep]; [done|].
    rewrite string_app_cons in Hc. injection Hc as -> ->.
    rewrite join_cons by apply split_go_nonempty. simpl pred.
    rewrite split_go_skip, IH; [done|].
    simpl in Hn. rewrite string_length_app in Hn. lia.
  - rewrite IH by (simpl in Hn; lia).
    by rewrite <- string_app_assoc.
Qed.

(** Joining what [strings.Split] produced gives the string back. *)
Lemma join_strings_Split s sep : sep ≠ "" → join sep (strings_Split s sep) = s.
Proof. intros Hsep. unfold strings_Split. by rewrite (split_go_join_n (String.length s)). Qed.

Lemma split_byte_nonempty c s : split_byte c s ≠ [].
Proof. destruct s; simpl; [done|]. repeat case_match; done. Qed.

(** A string without the separator is a single element, and splitting
    undoes joining such strings. *)
Fixpoint no_byte (c : ascii) (s : string) : bool :=
  match s with
  | EmptyString => true
  | String d s' => negb (bool_decide (d = c)) && no_byte c s'
  end.

Lemma split_byte_app c s r :
  no_byte c s = true → split_byte c (s +:+ String c r) = s :: split_byte c r.
Proof.
  induction s as [|d s IH]; intros Hs.
  { change ("" +:+ String c r) with (String c r). simpl. by rewrite bool_decide_true. }
  simpl in Hs. apply andb_true_iff in Hs as [Hd Hs]. apply negb_true_iff in Hd.
  rewrite string_app_cons. simpl. by rewrite Hd, IH.
Qed.

Lemma split_byte_single c s : no_byte c s = true → split_byte c s = [s].
Proof.
  induction s as [|d s IH]; simpl; [done|]. intros [Hd Hs]%andb_true_iff.
  apply negb_true_iff in Hd. by rewrite Hd, IH.
Qed.

Lemma split_byte_join c l :
  l ≠ [] → Forall (λ s, no_byte c s = true) l → split_byte c (join (Str c) l) = l.
Proof.
  intros Hne Hl. induction Hl as [|s l Hs Hl IH]; [done|]. destruct l as [|s' l].
  { by apply split_byte_single. }
  rewrite join_cons by done.
  change (Str c +:+ join (Str c) (s' :: l)) with (String c (join (Str c) (s' :: l))).
  rewrite split_byte_app by done. by rewrite IH.
Qed.

(** ** Cutting at a delimiter *)

Lemma no_byte_app c s t : no_byte c (s +:+ t) = no_byte c s && no_byte c t.
Proof.
  induction s as [|d s IH]; [done|]. rewrite string_app_cons. simpl. by rewrite IH, andb_assoc.
Qed.

(** The first delimiter is determined when the left parts have none. *)
Lemma cut_first c (s s' t t' : string) :
  no_byte c s = true → no_byte c s' = true →
  s +:+ String c t = s' +:+ String c t' → s = s' ∧ t = t'.
Proof.
  revert s'. induction s as [|d s IH]; intros [|d' s'] Hs Hs'; rewrite ?string_app_cons.
  - by intros [= ->].
  - simpl in Hs'. intros [= -> _]. by rewrite bool_decide_true in Hs'.
  - simpl in Hs. intros [= -> _]. by rewrite bool_decide_true in Hs.
  - simpl in Hs, Hs'. apply andb_true_iff in Hs as [_ Hs], Hs' as [_ Hs'].
    intros [= -> Heq]. by destruct (IH _ Hs Hs' Heq) as [-> ->].
Qed.

(** The last delimiter is determined when the right parts have none. *)
Lemma cut_last c (s s' t t' : string) :
  no_byte c t = true → no_byte c t' = true →
  s +:+ String c t = s' +:+ String c t' → s = s' ∧ t = t'.
Proof.
  intros Ht Ht'. revert s'. induction s as [|d s IH]; intros [|d' s']; rewrite ?string_app_cons.
  - by intros [= ->].
  - intros [= -> Heq]. change ("" +:+ String d' t) with (String d' t) in Heq.
    subst t. rewrite no_byte_app in Ht. simpl in Ht. rewrite bool_decide_true in Ht by done.
    simpl in Ht. by rewrite andb_false_r in Ht.
  - intros [= -> Heq]. subst t'. rewrite no_byte_app in Ht'. simpl in Ht'.
    rewrite bool_decide_true in Ht' by done. simpl in Ht'. by rewrite andb_false_r in Ht'.
  - intros [= -> Heq]. by destruct (IH _ Heq) as [-> ->].
Qed.

(** What follows the last delimiter (everything, when there is none). *)
Fixpoint after_last (c : ascii) (s : string) : string :=
  match s with
  | EmptyString => EmptyString
  | String d s' => if no_byte c s' then (if bool_decide (d = c) then s' else s) else after_last c s'
  end.

Lemma after_last_split c s :
  no_byte c (after_last c s) = true ∧
  (s = after_last c s ∨ ∃ p, s = p +:+ String c (after_last c s)).
Proof.
  induction s as [|d s [IHn IHs]]; simpl; [by split; [|left]|].
  destruct (no_byte c s) eqn:Hs.
  - case_bool_decide as Hd; [subst; split; [done|right; by exists ""]|].
    simpl. rewrite bool_decide_false, Hs by done. by split; [|left].
  - split; [done|]. right. destruct IHs as [IHs|[p IHs]].
    + rewrite <- IHs in IHn. congruence.
    + exists (String d p). rewrite string_app_cons. by f_equal.
Qed.

Lemma CutSuffix_app s t : CutSuffix (s +:+ t) t = Some s.
Proof.
  induction s as [|c s IH].
  - change ("" +:+ t) with t. destruct t; cbn; by rewrite bool_decide_true.
  - rewrite string_app_cons. cbn [CutSuffix]. rewrite bool_decide_false; [by rewrite IH|].
    intros Heq. apply (f_equal String.length) in Heq. cbn in Heq. rewrite string_length_app in Heq. lia.
Qed.
