(* ===== verification/Encoding.v ===== *)
(** * Encodings of the standard library

    [encoding/hex], [encoding/base64] (standard alphabet, padded) and
    [crypto/sha256], as the catalog uses them to name images and to store the
    commands of their layers.  All are executable; the examples are the test
    vectors of the standards. *)

From stdpp Require Import prelude strings list.
From Stdlib Require Import ZArith Lia Ascii.
From S2P Require Import Prelude.

Open Scope Z_scope.

(** The bytes of a string, as integers between 0 and 255. *)
Fixpoint bytes (s : string) : list Z :=
  match s with
  | EmptyString => []
  | String c s' => Z.of_nat (nat_of_ascii c) :: bytes s'
  end.

Definition byte_char (b : Z) : ascii := ascii_of_nat (Z.to_nat (b mod 256)).

(** ** Hexadecimal *)

Definition hex_char (n : Z) : ascii := byte_char (if n <? 10 then 48 + n else 87 + n).

Fixpoint hex_EncodeToString (bs : list Z) : string :=
  match bs with
  | [] => EmptyString
  | b :: bs' => String (hex_char (b / 16)) (String (hex_char (b mod 16)) (hex_EncodeToString bs'))
  end.

(** ** Base64 *)

Definition base64_char (n : Z) : ascii :=
  byte_char (if n <? 26 then 65 + n else if n <? 52 then 71 + n else if n <? 62 then n - 4
             else if n =? 62 then 43 else 47).

Fixpoint base64_bytes (bs : list Z) : string :=
  match bs with
  | [] => EmptyString
  | [a] =>
      String (base64_char (a / 4)) (String (base64_char (a mod 4 * 16)) "==")
  | [a; b] =>
      String (base64_char (a / 4)) (String (base64_char (a mod 4 * 16 + b / 16))
        (String (base64_char (b mod 16 * 4)) "="))
  | a :: b :: c :: bs' =>
      String (base64_char (a / 4)) (String (base64_char (a mod 4 * 16 + b / 16))
        (String (base64_char (b mod 16 * 4 + c / 64)) (String (base64_char (c mod 64))
          (base64_bytes bs'))))
  end.

Definition base64_EncodeToString (s : string) : string := base64_bytes (bytes s).

(** ** SHA-256, on 32-bit words *)

Module Sha256.

Definition wrap (x : Z) : Z := x mod 2 ^ 32.
Definition rotr (n x : Z) : Z := Z.lor (Z.shiftr x n) (wrap (Z.shiftl x (32 - n))).

(** The constants are the first 32 bits of the fractional parts of the cube
    roots of the first 64 primes, and the initial state those of the square
    roots of the first eight. *)
Definition divides (p n : Z) : bool := n mod p =? 0.
Definition primes : list Z :=
  filter (λ n, existsb (λ p, divides (Z.of_nat p) n && (Z.of_nat p <? n)) (seq 2 310) = false)
    (Z.of_nat <$> seq 2 310).

(** The integer cube root of [n], bit by bit. *)
Definition cube_root (n : Z) : Z :=
  fold_left (λ r b, let r' := r + 2 ^ b in if r' * r' * r' <=? n then r' else r)
    (Z.of_nat <$> rev (seq 0 36)) 0.

Definition K : list Z := Eval vm_compute in (λ p, wrap (cube_root (p * 2 ^ 96))) <$> take 64 primes.

(** The eight working variables. *)
Record state := { va : Z; vb : Z; vc : Z; vd : Z; ve : Z; vf : Z; vg : Z; vh : Z }.

Definition root_bits (n : nat) : Z := wrap (Z.sqrt (default 0 (primes !! n) * 2 ^ 64)).

Definition initial : state := Eval vm_compute in {|
  va := root_bits 0; vb := root_bits 1; vc := root_bits 2; vd := root_bits 3;
  ve := root_bits 4; vf := root_bits 5; vg := root_bits 6; vh := root_bits 7 |}.

Definition round (s : state) (kw : Z * Z) : state :=
  let S1 := Z.lxor (Z.lxor (rotr 6 (ve s)) (rotr 11 (ve s))) (rotr 25 (ve s)) in
  let ch := Z.lxor (Z.land (ve s) (vf s)) (Z.land (Z.lxor (ve s) (2 ^ 32 - 1)) (vg s)) in
  let t1 := wrap (vh s + S1 + ch + kw.1 + kw.2) in
  let S0 := Z.lxor (Z.lxor (rotr 2 (va s)) (rotr 13 (va s))) (rotr 22 (va s)) in
  let maj := Z.lxor (Z.lxor (Z.land (va s) (vb s)) (Z.land (va s) (vc s))) (Z.land (vb s) (vc s)) in
  let t2 := wrap (S0 + maj) in
  {| va := wrap (t1 + t2); vb := va s; vc := vb s; vd := vc s;
     ve := wrap (vd s + t1); vf := ve s; vg := vf s; vh := vg s |}.

Definition add (s t : state) : state := {|
  va := wrap (va s + va t); vb := wrap (vb s + vb t); vc := wrap (vc s + vc t);
  vd := wrap (vd s + vd t); ve := wrap (ve s + ve t); vf := wrap (vf s + vf t);
  vg := wrap (vg s + vg t); vh := wrap (vh s + vh t) |}.

(** The message schedule, newest word first, extended [n] times. *)
Fixpoint schedule (n : nat) (ws : list Z) : list Z :=
  match n with
  | O => ws
  | S n' =>
      let w i := nth i ws 0 in
      let s0 := Z.lxor (Z.lxor (rotr 7 (w 14%nat)) (rotr 18 (w 14%nat))) (Z.shiftr (w 14%nat) 3) in
      let s1 := Z.lxor (Z.lxor (rotr 17 (w 1%nat)) (rotr 19 (w 1%nat))) (Z.shiftr (w 1%nat) 10) in
      schedule n' (wrap (w 15%nat + s0 + w 6%nat + s1) :: ws)
  end.

Fixpoint words (bs : list Z) : list Z :=
  match bs with
  | a :: b :: c :: d :: bs' => (((a * 256 + b) * 256 + c) * 256 + d) :: words bs'
  | _ => []
  end.

Definition compress (s : state) (block : list Z) : state :=
  let ws := rev (schedule 48 (rev (words block))) in
  add s (fold_left round (zip K ws) s).

(** [n] bytes of [x], most significant first. *)
Fixpoint big_endian (n : nat) (x : Z) : list Z :=
  match n with O => [] | S n' => big_endian n' (x / 256) ++ [x mod 256] end.

Definition pad (bs : list Z) : list Z :=
  let len := Z.of_nat (length bs) in
  bs ++ [0x80] ++ repeat 0 (Z.to_nat ((55 - len) mod 64)) ++ big_endian 8 (len * 8).

Fixpoint blocks (fuel : nat) (s : state) (bs : list Z) : state :=
  match fuel with
  | O => s
  | S fuel' =>
      match bs with
      | [] => s
      | _ => blocks fuel' (compress s (take 64 bs)) (drop 64 bs)
      end
  end.

Definition words_of (s : state) : list Z := [va s; vb s; vc s; vd s; ve s; vf s; vg s; vh s].

(** One block of fuel per 64 bytes is enough, so the length is. *)
Definition Sum (bs : list Z) : list Z :=
  let padded := pad bs in
  words_of (blocks (length padded) initial padded) ≫= big_endian 4.

Lemma big_endian_length n x : length (big_endian n x) = n.
Proof. revert x. induction n as [|n IH]; intros x; simpl; [done|]. rewrite length_app, IH. simpl. lia. Qed.

Lemma Sum_length bs : length (Sum bs) = 32%nat.
Proof. unfold Sum. cbn [words_of mbind list_bind]. by rewrite !length_app, !big_endian_length. Qed.

End Sha256.

Definition sha256_hex (s : string) : string := hex_EncodeToString (Sha256.Sum (bytes s)).

Lemma hex_length bs : String.length (hex_EncodeToString bs) = (2 * length bs)%nat.
Proof. induction bs as [|b bs IH]; simpl; [done|]. rewrite IH. lia. Qed.

Lemma sha256_hex_length s : String.length (sha256_hex s) = 64%nat.
Proof. unfold sha256_hex. by rewrite hex_length, Sha256.Sum_length. Qed.

Example sha256_abc : sha256_hex "abc" =
  "ba7816bf8f01cfea414140de5dae2223b00361a396177a9cb410ff61f20015ad".
Proof. vm_compute. reflexivity. Qed.
Example sha256_two_blocks :
  sha256_hex "abcdbcdecdefdefgefghfghighijhijkijkljklmklmnlmnomnopnopq" =
  "248d6a61d20638b8e5c026930c3e6039a33ce45964ff2167f6ecedd419db06c1".
Proof. vm_compute. reflexivity. Qed.
Example base64_vectors :
  base64_EncodeToString "f" = "Zg==" ∧ base64_EncodeToString "fo" = "Zm8=" ∧
  base64_EncodeToString "foobar" = "Zm9vYmFy".
Proof. vm_compute. done. Qed.
