(* ===== verification/StorageTypes.v ===== *)
(** * The storage API types

    [src/api/storage/v1alpha1]: images, SBOMs, vulnerability reports and
    their summaries. *)

From stdpp Require Import prelude gmap strings list.
From S2P Require Import Prelude Meta.

Record ImageMetadata := {
  im_Registry : string;
  im_RegistryURI : string;
  im_Repository : string;
  im_Tag : string;
  im_Platform : string;
  im_Digest : string;
  im_IndexDigest : string
}.

Record ImageLayer := {
  il_Command : string;
  il_Digest : string;
  il_DiffID : string
}.

Record ImageWorkloadScanReports := { iw_Name : string; iw_Namespace : string }.

Record Image := {
  img_Meta : ObjectMeta;
  img_ImageMetadata : ImageMetadata;
  img_Layers : list ImageLayer;
  img_WorkloadScanReports : list ImageWorkloadScanReports
}.

(** The SPDX document is the raw bytes of a [runtime.RawExtension]. *)
Record SBOM := {
  sb_Meta : ObjectMeta;
  sb_ImageMetadata : ImageMetadata;
  sb_SPDX : string
}.

Definition SeverityCritical := "CRITICAL".
Definition SeverityHigh := "HIGH".
Definition SeverityMedium := "MEDIUM".
Definition SeverityLow := "LOW".
Definition SeverityUnknown := "UNKNOWN".

Definition ClassOSPackages := "os-pkgs".
Definition ClassLangPackages := "lang-pkgs".
Definition ClassBinary := "binary".

Record CVSS := { cv_V3Vector : string; cv_V3Score : string }.
Record VEXStatus := { vs_Repository : string; vs_Status : string; vs_Statement : string }.

Record Vulnerability := {
  v_CVE : string;
  v_Title : string;
  v_PackageName : string;
  v_PackagePath : string;
  v_PURL : string;
  v_InstalledVersion : string;
  v_FixedVersions : list string;
  v_DiffID : string;
  v_Description : string;
  v_Severity : string;
  v_SeveritySource : string;
  v_References : list string;
  v_CVSS : gmap string CVSS;
  v_CWEs : list string;
  v_Suppressed : bool;
  v_VEXStatus : option VEXStatus
}.

Record Result := {
  r_Target : string;
  r_Class : string;
  r_Type : string;
  r_Vulnerabilities : list Vulnerability
}.

(** The counters are Go [int]s. *)
Record Summary := {
  s_Critical : Z;
  s_High : Z;
  s_Medium : Z;
  s_Low : Z;
  s_Unknown : Z;
  s_Suppressed : Z
}.

Record Report := { rep_Summary : Summary; rep_Results : list Result }.

Record VulnerabilityReport := {
  vr_Meta : ObjectMeta;
  vr_ImageMetadata : ImageMetadata;
  vr_Report : Report
}.

(** Nodes. *)
Record NodeMetadata := { nm_Name : string; nm_Platform : string }.

Record NodeSBOM := { nb_Meta : ObjectMeta; nb_NodeMetadata : NodeMetadata; nb_SPDX : string }.

Record NodeVulnerabilityReport := {
  nv_Meta : ObjectMeta;
  nv_NodeMetadata : NodeMetadata;
  nv_Report : Report
}.

(** Workload scan reports; [Spec] and [Status] hold one list each. *)
Inductive ScanStatus := ScanStatusWaitingForScan | ScanStatusScanInProgress | ScanStatusScanComplete.

Record ImageRef := { ir_Registry : string; ir_Namespace : string; ir_Repository : string; ir_Tag : string }.
Record ContainerRef := { cr_Name : string; cr_ImageRef : ImageRef }.
Record ContainerStatus := { cs_Name : string; cs_ScanStatus : ScanStatus }.
Record WorkloadScanVulnerabilityReport := {
  wv_Name : string;
  wv_Namespace : string;
  wv_ImageMetadata : ImageMetadata;
  wv_Report : Report
}.
Record ContainerResult := { ct_Name : string; ct_VulnerabilityReports : list WorkloadScanVulnerabilityReport }.

Record WorkloadScanReport := {
  ws_Meta : ObjectMeta;
  ws_Spec_Containers : list ContainerRef;
  ws_Status_ContainerStatuses : list ContainerStatus;
  ws_Summary : Summary;
  ws_Containers : list ContainerResult
}.

#[export] Instance ImageMetadata_eq_dec : EqDecision ImageMetadata.
Proof. solve_decision. Defined.
#[export] Instance ImageLayer_eq_dec : EqDecision ImageLayer.
Proof. solve_decision. Defined.
#[export] Instance ImageWorkloadScanReports_eq_dec : EqDecision ImageWorkloadScanReports.
Proof. solve_decision. Defined.
#[export] Instance Image_eq_dec : EqDecision Image.
Proof. solve_decision. Defined.
#[export] Instance SBOM_eq_dec : EqDecision SBOM.
Proof. solve_decision. Defined.

#[export] Instance ImageRef_eq_dec : EqDecision ImageRef.
Proof. solve_decision. Defined.
#[export] Instance ImageRef_countable : Countable ImageRef.
Proof.
  apply (inj_countable' (λ r, (ir_Registry r, ir_Namespace r, ir_Repository r, ir_Tag r))
    (λ '(a, b, c, d), {| ir_Registry := a; ir_Namespace := b; ir_Repository := c; ir_Tag := d |})).
  by intros [].
Defined.
#[export] Instance ContainerRef_eq_dec : EqDecision ContainerRef.
Proof. solve_decision. Defined.
#[export] Instance ScanStatus_eq_dec : EqDecision ScanStatus.
Proof. solve_decision. Defined.

Definition img_Name (i : Image) := om_Name (img_Meta i).
Definition img_Namespace (i : Image) := om_Namespace (img_Meta i).

Definition empty_Summary : Summary :=
  {| s_Critical := 0; s_High := 0; s_Medium := 0; s_Low := 0; s_Unknown := 0; s_Suppressed := 0 |}.

(** [Summary.Add]. *)
Definition Summary_Add (s : Summary) (v : Vulnerability) : Summary :=
  if v_Suppressed v then
    {| s_Critical := s_Critical s; s_High := s_High s; s_Medium := s_Medium s;
       s_Low := s_Low s; s_Unknown := s_Unknown s; s_Suppressed := s_Suppressed s + 1 |}
  else if bool_decide (v_Severity v = SeverityCritical) then
    {| s_Critical := s_Critical s + 1; s_High := s_High s; s_Medium := s_Medium s;
       s_Low := s_Low s; s_Unknown := s_Unknown s; s_Suppressed := s_Suppressed s |}
  else if bool_decide (v_Severity v = SeverityHigh) then
    {| s_Critical := s_Critical s; s_High := s_High s + 1; s_Medium := s_Medium s;
       s_Low := s_Low s; s_Unknown := s_Unknown s; s_Suppressed := s_Suppressed s |}
  else if bool_decide (v_Severity v = SeverityMedium) then
    {| s_Critical := s_Critical s; s_High := s_High s; s_Medium := s_Medium s + 1;
       s_Low := s_Low s; s_Unknown := s_Unknown s; s_Suppressed := s_Suppressed s |}
  else if bool_decide (v_Severity v = SeverityLow) then
    {| s_Critical := s_Critical s; s_High := s_High s; s_Medium := s_Medium s;
       s_Low := s_Low s + 1; s_Unknown := s_Unknown s; s_Suppressed := s_Suppressed s |}
  else
    {| s_Critical := s_Critical s; s_High := s_High s; s_Medium := s_Medium s;
       s_Low := s_Low s; s_Unknown := s_Unknown s + 1; s_Suppressed := s_Suppressed s |}.

(** [NewSummaryFromResults]. *)
Definition NewSummaryFromResults (results : list Result) : Summary :=
  fold_left (λ s r, fold_left Summary_Add (r_Vulnerabilities r) s) results empty_Summary.

(** ** What the summary counts *)

Definition count (P : Vulnerability → bool) (vs : list Vulnerability) : Z :=
  Z.of_nat (length (List.filter P vs)).

Definition has_severity (sev : string) (v : Vulnerability) : bool :=
  negb (v_Suppressed v) && bool_decide (v_Severity v = sev).
Definition known_severity (sev : string) : bool :=
  bool_decide (sev ∈ ["CRITICAL"; "HIGH"; "MEDIUM"; "LOW"]).

(** The summary of a list of vulnerabilities, by counting. *)
Definition summary_of (vs : list Vulnerability) : Summary := {|
  s_Critical := count (has_severity "CRITICAL") vs;
  s_High := count (has_severity "HIGH") vs;
  s_Medium := count (has_severity "MEDIUM") vs;
  s_Low := count (has_severity "LOW") vs;
  s_Unknown := count (λ v, negb (v_Suppressed v) && negb (known_severity (v_Severity v))) vs;
  s_Suppressed := count v_Suppressed vs
|}.

Lemma count_snoc P vs v :
  count P (vs ++ [v]) = (count P vs + if P v then 1 else 0)%Z.
Proof.
  unfold count. rewrite List.filter_app, length_app. simpl.
  destruct (P v); simpl; lia.
Qed.

Lemma summary_of_snoc vs v : summary_of (vs ++ [v]) = Summary_Add (summary_of vs) v.
Proof.
  unfold summary_of, Summary_Add, has_severity, known_severity. rewrite !count_snoc.
  destruct (v_Suppressed v); cbn -[Z.add count bool_decide]; [f_equal; lia|].
  unfold SeverityCritical, SeverityHigh, SeverityMedium, SeverityLow.
  assert (∀ sev, sev ∈ ["CRITICAL"; "HIGH"; "MEDIUM"; "LOW"] ↔
    sev = "CRITICAL" ∨ sev = "HIGH" ∨ sev = "MEDIUM" ∨ sev = "LOW") as Hk by set_solver.
  repeat case_bool_decide; try congruence; try (rewrite Hk in *; tauto); cbn -[Z.add count]; f_equal; lia.
Qed.

Lemma fold_Summary_Add vs vs' :
  fold_left Summary_Add vs' (summary_of vs) = summary_of (vs ++ vs').
Proof.
  revert vs. induction vs' as [|v vs' IH]; intros vs; simpl; [by rewrite app_nil_r|].
  by rewrite <- summary_of_snoc, IH, <- app_assoc.
Qed.

Definition all_vulnerabilities (results : list Result) : list Vulnerability :=
  concat (r_Vulnerabilities <$> results).

Lemma NewSummaryFromResults_counts results :
  NewSummaryFromResults results = summary_of (all_vulnerabilities results).
Proof.
  unfold NewSummaryFromResults, all_vulnerabilities.
  change empty_Summary with (summary_of []).
  cut (∀ vs, fold_left (λ s r, fold_left Summary_Add (r_Vulnerabilities r) s) results
               (summary_of vs) = summary_of (vs ++ concat (r_Vulnerabilities <$> results))).
  { intros H. apply (H []). }
  induction results as [|r results IH]; intros vs; simpl; [by rewrite app_nil_r|].
  rewrite fold_Summary_Add, IH. by rewrite <- app_assoc.
Qed.

(** Every vulnerability is counted exactly once. *)
Lemma summary_of_total vs :
  let s := summary_of vs in
  (s_Critical s + s_High s + s_Medium s + s_Low s + s_Unknown s + s_Suppressed s)%Z
    = Z.of_nat (length vs).
Proof.
  induction vs as [|v vs IH] using rev_ind; [done|].
  rewrite summary_of_snoc, length_app. simpl in *. unfold Summary_Add.
  repeat case_match; cbn -[Z.add count]; cbn -[Z.add count] in IH; lia.
Qed.

(** A report's summary counts its results: each severity counter is the
    number of non-suppressed vulnerabilities of that severity, [Unknown] takes
    every severity outside the four known ones, [Suppressed] counts the
    suppressed ones whatever their severity, and together the counters add up
    to the number of vulnerabilities in the report. *)
Theorem summary_correct (results : list Result) :
  NewSummaryFromResults results = summary_of (all_vulnerabilities results) ∧
  let s := NewSummaryFromResults results in
  (s_Critical s + s_High s + s_Medium s + s_Low s + s_Unknown s + s_Suppressed s)%Z
    = Z.of_nat (length (all_vulnerabilities results)).
Proof.
  split; [apply NewSummaryFromResults_counts|].
  rewrite NewSummaryFromResults_counts. apply summary_of_total.
Qed.
