(* ===== verification/Report.v ===== *)
(** * Converting Trivy reports

    [src/internal/handlers/trivyreport/trivy.go].  Trivy's own types and the
    [encoding/gob] round trip through which a suppressed finding is read are
    not code of the repository: [Trivy] holds the float type of a CVSS score
    with its formatting and the two halves of that round trip. *)

From stdpp Require Import prelude gmap strings list.
From Stdlib Require Import Ascii.
From S2P Require Import Prelude Meta GoPath StorageTypes.

Record trivyVulnerability (Score : Type) := {
  tv_VulnerabilityID : string;
  tv_Title : string;
  tv_PkgName : string;
  tv_PkgPath : string;
  tv_PURL : string;
  tv_InstalledVersion : string;
  tv_FixedVersion : string;
  tv_DiffID : string;
  tv_Description : string;
  tv_Severity : string;
  tv_SeveritySource : string;
  tv_References : list string;
  tv_CVSS : gmap string (Score * string);
  tv_CweIDs : list string
}.
Arguments tv_VulnerabilityID {Score}. Arguments tv_Title {Score}.
Arguments tv_PkgName {Score}. Arguments tv_PkgPath {Score}.
Arguments tv_PURL {Score}. Arguments tv_InstalledVersion {Score}.
Arguments tv_FixedVersion {Score}. Arguments tv_DiffID {Score}.
Arguments tv_Description {Score}. Arguments tv_Severity {Score}.
Arguments tv_SeveritySource {Score}. Arguments tv_References {Score}.
Arguments tv_CVSS {Score}. Arguments tv_CweIDs {Score}.

Class Trivy := {
  Score : Type;
  FormatFloat : Score → string;
  Finding : Type;
  gob_Encode : Finding → result string;
  gob_Decode : string → result (trivyVulnerability Score)
}.

Definition FindingTypeVulnerability := "vulnerability".
Definition GoBinary := "gobinary".
Definition RustBinary := "rustbinary".

Section trivy.
Context `{!Trivy}.

Record ModifiedFinding := {
  mf_Type : string;
  mf_Status : string;
  mf_Statement : string;
  mf_Source : string;
  mf_Finding : Finding
}.

Record trivyResult := {
  tr_Target : string;
  tr_Class : string;
  tr_Type : string;
  tr_Vulnerabilities : list (trivyVulnerability Score);
  tr_ModifiedFindings : list ModifiedFinding
}.

Definition newResult (trivyRes : trivyResult) : Result := {|
  r_Target := tr_Target trivyRes;
  r_Class := if bool_decide (tr_Type trivyRes = GoBinary) ||
                bool_decide (tr_Type trivyRes = RustBinary)
             then ClassBinary else tr_Class trivyRes;
  r_Type := tr_Type trivyRes;
  r_Vulnerabilities := []
|}.

Definition fixPath (inputPath : string) : string :=
  if bool_decide (inputPath = "") then "" else path_Join ["/"; inputPath].

Definition getFixedVersions (input : string) : list string :=
  if bool_decide (input = "") then [] else strings_Split input ", ".

Definition newCVSS (trivyCVSS : gmap string (Score * string)) : gmap string CVSS :=
  (λ '(score, vector), {| cv_V3Vector := vector; cv_V3Score := FormatFloat score |})
    <$> trivyCVSS.

(** The fields [Suppressed] and [VEXStatus] are set by the caller. *)
Definition newVulnerability (trivyVuln : trivyVulnerability Score)
    (suppressed : bool) (vex : option VEXStatus) : Vulnerability := {|
  v_CVE := tv_VulnerabilityID trivyVuln;
  v_Title := tv_Title trivyVuln;
  v_PackageName := tv_PkgName trivyVuln;
  v_PackagePath := fixPath (tv_PkgPath trivyVuln);
  v_PURL := tv_PURL trivyVuln;
  v_InstalledVersion := tv_InstalledVersion trivyVuln;
  v_FixedVersions := getFixedVersions (tv_FixedVersion trivyVuln);
  v_DiffID := tv_DiffID trivyVuln;
  v_Description := tv_Description trivyVuln;
  v_Severity := tv_Severity trivyVuln;
  v_SeveritySource := tv_SeveritySource trivyVuln;
  v_References := tv_References trivyVuln;
  v_CVSS := newCVSS (tv_CVSS trivyVuln);
  v_CWEs := tv_CweIDs trivyVuln;
  v_Suppressed := suppressed;
  v_VEXStatus := vex
|}.

Definition decodeTrivyFinding (trivyVuln : ModifiedFinding)
  : result (trivyVulnerability Score) :=
  match gob_Encode (mf_Finding trivyVuln) with
  | Err e => Err (errorf "unable to encode finding" e)
  | Ok bytes =>
      match gob_Decode bytes with
      | Err e => Err (errorf "unable to decode finding" e)
      | Ok v => Ok v
      end
  end.

(** The regular expression [https?://[^\s)]+] and [FindString]: the leftmost
    match, which the classes make the longest one too. *)
Definition url_char (c : ascii) : bool :=
  negb (bool_decide (c = "009"%char) || bool_decide (c = "010"%char) ||
        bool_decide (c = "012"%char) || bool_decide (c = "013"%char) ||
        bool_decide (c = " "%char) || bool_decide (c = ")"%char)).
Fixpoint take_url (s : string) : string :=
  match s with
  | String c s' => if url_char c then String c (take_url s') else ""
  | EmptyString => ""
  end.
Definition match_url (s : string) : option string :=
  match CutPrefix s "http" with
  | None => None
  | Some r =>
      let '(scheme, r) := match CutPrefix r "s" with
                          | Some r' => ("https", r') | None => ("http", r) end in
      match CutPrefix r "://" with
      | None => None
      | Some rest => if bool_decide (take_url rest = "") then None
                     else Some (scheme +:+ "://" +:+ take_url rest)
      end
  end.
Fixpoint extractURLRegex (input : string) : string :=
  match match_url input with
  | Some m => m
  | None => match input with
            | EmptyString => ""
            | String _ input' => extractURLRegex input'
            end
  end.

Definition newVEXStatus (trivyVEXStat : ModifiedFinding) : VEXStatus := {|
  vs_Repository := extractURLRegex (mf_Source trivyVEXStat);
  vs_Status := mf_Status trivyVEXStat;
  vs_Statement := mf_Statement trivyVEXStat
|}.

(** The loop over the suppressed findings of a result. *)
Fixpoint suppressed_loop (findings : list ModifiedFinding) : result (list Vulnerability) :=
  match findings with
  | [] => Ok []
  | f :: fs =>
      if negb (bool_decide (mf_Type f = FindingTypeVulnerability)) then suppressed_loop fs
      else match decodeTrivyFinding f with
           | Err e => Err (errorf "error reding trivy findings" e)
           | Ok v =>
               match suppressed_loop fs with
               | Err e => Err e
               | Ok vs => Ok (newVulnerability v true (Some (newVEXStatus f)) :: vs)
               end
           end
  end.

Definition with_Vulnerabilities (vs : list Vulnerability) (r : Result) : Result :=
  {| r_Target := r_Target r; r_Class := r_Class r; r_Type := r_Type r;
     r_Vulnerabilities := vs |}.

Fixpoint NewResultsFromTrivyReport (trivyResults : list trivyResult) : result (list Result) :=
  match trivyResults with
  | [] => Ok []
  | trivyRes :: rest =>
      let vulns := (λ v, newVulnerability v false None) <$> tr_Vulnerabilities trivyRes in
      match suppressed_loop (tr_ModifiedFindings trivyRes) with
      | Err e => Err e
      | Ok suppressed =>
          match NewResultsFromTrivyReport rest with
          | Err e => Err e
          | Ok results =>
              Ok (with_Vulnerabilities (vulns ++ suppressed) (newResult trivyRes) :: results)
          end
      end
  end.

(** ** Facts *)

Lemma fixPath_rooted p :
  p ≠ "" → ∃ es, Forall proper_element es ∧ fixPath p = "/" +:+ join "/" es.
Proof.
  intros Hp. unfold fixPath. rewrite bool_decide_false by done.
  unfold path_Join. rewrite !filter_cons, filter_nil.
  rewrite !decide_True by done. by apply path_Clean_rooted.
Qed.

Lemma getFixedVersions_join input : join ", " (getFixedVersions input) = input.
Proof.
  unfold getFixedVersions. case_bool_decide as Hi; [by subst|]. by apply join_strings_Split.
Qed.

(** A URL of a text: the whole of [http://] or [https://] and what follows it,
    when the text has one. *)
Definition url_of (url text : string) : Prop :=
  (∃ pre post, text = pre +:+ url +:+ post) ∧
  (url = "" ∨ ∃ rest, rest ≠ "" ∧ (url = "http://" +:+ rest ∨ url = "https://" +:+ rest)).

Lemma take_url_prefix s : ∃ post, s = take_url s +:+ post.
Proof.
  induction s as [|c s [post IH]]; [by exists ""|]. cbn. destruct (url_char c); [|by exists (String c s)].
  exists post. exact (f_equal (String c) IH).
Qed.

Lemma match_url_Some s m :
  match_url s = Some m →
  (∃ post, s = m +:+ post) ∧ ∃ rest, rest ≠ "" ∧ (m = "http://" +:+ rest ∨ m = "https://" +:+ rest).
Proof.
  unfold match_url. destruct (CutPrefix s "http") as [r|] eqn:Hr; [|done]. apply CutPrefix_Some in Hr as ->.
  assert (∀ scheme r', match CutPrefix r' "://" with
      | Some rest => if bool_decide (take_url rest = "") then None else Some (scheme +:+ "://" +:+ take_url rest)
      | None => None end = Some m →
    ∃ rest post, rest ≠ "" ∧ m = scheme +:+ "://" +:+ rest ∧ r' = "://" +:+ rest +:+ post) as Hm.
  { intros scheme r'. destruct (CutPrefix r' "://") as [rest|] eqn:Hc; [|done]. apply CutPrefix_Some in Hc as ->.
    case_bool_decide; [done|]. intros [= <-]. destruct (take_url_prefix rest) as [post Hp].
    exists (take_url rest), post. split_and!; [done|done|]. by rewrite <- Hp. }
  destruct (CutPrefix r "s") as [r'|] eqn:Hs.
  - apply CutPrefix_Some in Hs as ->. intros (rest & post & Hne & -> & ->)%Hm.
    split; [exists post; by rewrite <- !string_app_assoc|]. exists rest. split; [done|by right].
  - intros (rest & post & Hne & -> & ->)%Hm. split; [exists post; by rewrite <- !string_app_assoc|]. exists rest. split; [done|by left].
Qed.

Lemma extractURLRegex_url input : url_of (extractURLRegex input) input.
Proof.
  induction input as [|c input [(pre & post & IH) Hu]].
  { split; [by exists "", ""|by left]. }
  cbn [extractURLRegex]. destruct (match_url (String c input)) as [m|] eqn:Hm.
  - apply match_url_Some in Hm as [[post' ->] Hrest]. split; [by exists "", post'|by right].
  - split; [|done]. exists (String c pre), post. exact (f_equal (String c) IH).
Qed.

(** ** What a conversion keeps *)

(** A vulnerability with every field Trivy gave: the package path is rooted, the
    fixed versions are split, a score is formatted. *)
Record same_finding (tv : trivyVulnerability Score) (v : Vulnerability) : Prop := {
  sf_CVE : v_CVE v = tv_VulnerabilityID tv;
  sf_Title : v_Title v = tv_Title tv;
  sf_PackageName : v_PackageName v = tv_PkgName tv;
  sf_PackagePath : tv_PkgPath tv = "" ∧ v_PackagePath v = "" ∨
    tv_PkgPath tv ≠ "" ∧ v_PackagePath v = path_Join ["/"; tv_PkgPath tv] ∧
    ∃ es, Forall proper_element es ∧ v_PackagePath v = "/" +:+ join "/" es;
  sf_PURL : v_PURL v = tv_PURL tv;
  sf_InstalledVersion : v_InstalledVersion v = tv_InstalledVersion tv;
  sf_FixedVersions : join ", " (v_FixedVersions v) = tv_FixedVersion tv;
  sf_DiffID : v_DiffID v = tv_DiffID tv;
  sf_Description : v_Description v = tv_Description tv;
  sf_Severity : v_Severity v = tv_Severity tv;
  sf_SeveritySource : v_SeveritySource v = tv_SeveritySource tv;
  sf_References : v_References v = tv_References tv;
  sf_CVSS : ∀ source, v_CVSS v !! source =
    match tv_CVSS tv !! source with
    | Some (score, vector) => Some {| cv_V3Vector := vector; cv_V3Score := FormatFloat score |}
    | None => None
    end;
  sf_CWEs : v_CWEs v = tv_CweIDs tv
}.

(** A detected vulnerability is live and has no VEX status. *)
Definition detected_as (tv : trivyVulnerability Score) (v : Vulnerability) : Prop :=
  same_finding tv v ∧ v_Suppressed v = false ∧ v_VEXStatus v = None.

(** A suppressed one is what the finding reads back as, with the status and the
    statement of the finding and the URL of its source. *)
Definition readable (f : ModifiedFinding) (tv : trivyVulnerability Score) : Prop :=
  ∃ bytes, gob_Encode (mf_Finding f) = Ok bytes ∧ gob_Decode bytes = Ok tv.
Definition suppressed_as (f : ModifiedFinding) (v : Vulnerability) : Prop :=
  (∃ tv, readable f tv ∧ same_finding tv v) ∧ v_Suppressed v = true ∧
  ∃ vex, v_VEXStatus v = Some vex ∧ vs_Status vex = mf_Status f ∧ vs_Statement vex = mf_Statement f ∧
    url_of (vs_Repository vex) (mf_Source f).

(** The findings Trivy marked as modified vulnerabilities. *)
Definition modified (fs : list ModifiedFinding) : list ModifiedFinding := filter (λ f, mf_Type f = "vulnerability") fs.
Definition vulnerability_findings (r : trivyResult) : list ModifiedFinding := modified (tr_ModifiedFindings r).

Record converted (tr : trivyResult) (r : Result) : Prop := {
  cvt_Target : r_Target r = tr_Target tr;
  cvt_Type : r_Type r = tr_Type tr;
  cvt_Class : r_Class r = if bool_decide (tr_Type tr ∈ ["gobinary"; "rustbinary"]) then "binary" else tr_Class tr;
  cvt_Vulnerabilities : ∃ found suppressed, r_Vulnerabilities r = found ++ suppressed ∧
    Forall2 detected_as (tr_Vulnerabilities tr) found ∧ Forall2 suppressed_as (vulnerability_findings tr) suppressed
}.

Lemma newVulnerability_same tv b vex : same_finding tv (newVulnerability tv b vex).
Proof.
  split; try done.
  - destruct (decide (tv_PkgPath tv = "")) as [He|Hne]; [left; split; [done|]; cbn; rewrite He; reflexivity|right]. split; [done|].
    split; [|by apply fixPath_rooted]. cbn. unfold fixPath. by rewrite bool_decide_false.
  - apply getFixedVersions_join.
  - intros source. cbn. unfold newCVSS. rewrite lookup_fmap. by destruct (tv_CVSS tv !! source) as [[]|].
Qed.

Lemma decodeTrivyFinding_readable f tv : decodeTrivyFinding f = Ok tv ↔ readable f tv.
Proof.
  unfold decodeTrivyFinding, readable. split.
  - destruct (gob_Encode (mf_Finding f)) as [bytes|]; [|done]. destruct (gob_Decode bytes) as [tv'|] eqn:Hd; [|done].
    intros [= <-]. eauto.
  - by intros (bytes & -> & ->).
Qed.

Lemma suppressed_loop_spec fs :
  match suppressed_loop fs with
  | Ok vs => Forall2 suppressed_as (modified fs) vs
  | Err _ => ∃ f, f ∈ modified fs ∧ ∀ tv, ~ readable f tv
  end.
Proof.
  unfold modified. induction fs as [|f fs IH]; cbn [suppressed_loop]; [constructor|].
  rewrite filter_cons. change FindingTypeVulnerability with "vulnerability". case_bool_decide as Ht; cbn [negb].
  - rewrite decide_True by done. destruct (decodeTrivyFinding f) as [tv|] eqn:Hd.
    + apply decodeTrivyFinding_readable in Hd. destruct (suppressed_loop fs) as [vs|].
      * constructor; [|done]. split; [exists tv; split; [done|apply newVulnerability_same]|]. split; [done|].
        eexists. split_and!; [done..|]. apply extractURLRegex_url.
      * destruct IH as (f' & Hf & Hn). exists f'. split; [by right|done].
    + exists f. split; [by left|]. intros tv Hr%decodeTrivyFinding_readable. congruence.
  - rewrite decide_False by done. exact IH.
Qed.

Lemma results_spec trs :
  match NewResultsFromTrivyReport trs with
  | Ok results => Forall2 converted trs results
  | Err _ => ∃ tr f, tr ∈ trs ∧ f ∈ vulnerability_findings tr ∧ ∀ tv, ~ readable f tv
  end.
Proof.
  induction trs as [|tr trs IH]; cbn [NewResultsFromTrivyReport]; [constructor|].
  pose proof (suppressed_loop_spec (tr_ModifiedFindings tr)) as Hs.
  destruct (suppressed_loop _) as [sup|]; [|destruct Hs as (f & ? & ?); exists tr, f; split_and!; [by left|done..]].
  destruct (NewResultsFromTrivyReport trs) as [results|].
  2: { destruct IH as (tr' & f & ? & ? & ?). exists tr', f. split_and!; [by right|done..]. }
  constructor; [|done]. split; [done|done| |].
  - cbn. unfold GoBinary, RustBinary. rewrite <- bool_decide_or. change ClassBinary with "binary".
    erewrite bool_decide_ext; [reflexivity|]. rewrite !elem_of_cons, elem_of_nil. tauto.
  - eexists _, sup. split; [done|]. split; [|done]. apply Forall2_fmap_r, Forall_Forall2_diag, Forall_true.
    intros tv. split; [apply newVulnerability_same|done].
Qed.

(** ** Counting *)

Definition count_all {A} (P : A → bool) (l : list A) : Z := Z.of_nat (length (List.filter P l)).
Definition detected (trs : list trivyResult) : list (trivyVulnerability Score) := concat (tr_Vulnerabilities <$> trs).
Definition of_severity (sev : string) (trs : list trivyResult) : Z :=
  count_all (λ tv, bool_decide (tv_Severity tv = sev)) (detected trs).

Lemma count_related {A} (R : A → Vulnerability → Prop) (P : Vulnerability → bool) (Q : A → bool) l vs :
  Forall2 R l vs → (∀ x v, R x v → P v = Q x) → count P vs = count_all Q l.
Proof.
  intros Hl HPQ. unfold count, count_all. induction Hl as [|x v l vs Hx _ IH]; [done|]. cbn.
  rewrite (HPQ x v Hx). destruct (Q x); cbn; lia.
Qed.

Lemma count_app P vs vs' : count P (vs ++ vs') = (count P vs + count P vs')%Z.
Proof. unfold count. rewrite List.filter_app, length_app. lia. Qed.
Lemma count_all_app {A} (P : A → bool) l l' : count_all P (l ++ l') = (count_all P l + count_all P l')%Z.
Proof. unfold count_all. rewrite List.filter_app, length_app. lia. Qed.

Lemma converted_count (P : Vulnerability → bool) (Q : trivyVulnerability Score → bool) (b : bool) trs results :
  Forall2 converted trs results →
  (∀ tv v, detected_as tv v → P v = Q tv) → (∀ f v, suppressed_as f v → P v = b) →
  count P (all_vulnerabilities results) =
    (count_all Q (detected trs) + count_all (λ _, b) (concat (vulnerability_findings <$> trs)))%Z.
Proof.
  intros Hc HQ Hb. unfold all_vulnerabilities, detected.
  induction Hc as [|tr r trs results [_ _ _ (found & sup & Hr & Hf & Hs)] _ IH]; [done|].
  rewrite !fmap_cons. cbn [concat]. rewrite Hr, !count_app, !count_all_app, IH.
  rewrite (count_related _ _ _ _ _ Hf HQ), (count_related _ _ (λ _, b) _ _ Hs Hb). lia.
Qed.

Lemma count_all_none {A} (l : list A) : count_all (λ _, false) l = 0%Z.
Proof. unfold count_all. by induction l. Qed.
Lemma count_all_every {A} (l : list A) : count_all (λ _, true) l = Z.of_nat (length l).
Proof. unfold count_all. f_equal. induction l as [|x l IH]; [done|]. cbn. by f_equal. Qed.

(** The counts of the live and of the suppressed vulnerabilities. *)
Lemma converted_live (S : string → bool) (P : Vulnerability → bool) trs results :
  Forall2 converted trs results → (∀ v, P v = negb (v_Suppressed v) && S (v_Severity v)) →
  count P (all_vulnerabilities results) = count_all (λ tv, S (tv_Severity tv)) (detected trs).
Proof.
  intros Hc HP. rewrite (converted_count P (λ tv, S (tv_Severity tv)) false trs results Hc).
  - rewrite count_all_none. lia.
  - intros tv v (Hsame & Hs & _). by rewrite HP, Hs, (sf_Severity _ _ Hsame).
  - intros f v (_ & Hs & _). by rewrite HP, Hs.
Qed.

Lemma converted_severity sev trs results :
  Forall2 converted trs results → count (has_severity sev) (all_vulnerabilities results) = of_severity sev trs.
Proof. intros Hc. pose (S s := bool_decide (s = sev)). by apply (converted_live S). Qed.

Lemma converted_suppressed trs results :
  Forall2 converted trs results →
  count v_Suppressed (all_vulnerabilities results) = Z.of_nat (length (concat (vulnerability_findings <$> trs))).
Proof.
  intros Hc. rewrite (converted_count v_Suppressed (λ _, false) true trs results Hc).
  - rewrite count_all_none, count_all_every. lia.
  - by intros tv v (_ & Hs & _).
  - by intros f v (_ & Hs & _).
Qed.


End trivy.

(** ** An example *)

#[local] Instance toy_Trivy : Trivy := {|
  Score := string; FormatFloat := id;
  Finding := trivyVulnerability string;
  gob_Encode := λ f, Ok (tv_VulnerabilityID f);
  gob_Decode := λ s, Ok {| tv_VulnerabilityID := s; tv_Title := ""; tv_PkgName := "";
    tv_PkgPath := "a/../../etc"; tv_PURL := ""; tv_InstalledVersion := "";
    tv_FixedVersion := "1.0, 2.0"; tv_DiffID := ""; tv_Description := "";
    tv_Severity := "HIGH"; tv_SeveritySource := ""; tv_References := []; tv_CVSS := ∅;
    tv_CweIDs := [] |}
|}.

Definition toy_vuln : trivyVulnerability Score :=
  {| tv_VulnerabilityID := "CVE-1"; tv_Title := ""; tv_PkgName := "";
     tv_PkgPath := "a/../../etc"; tv_PURL := ""; tv_InstalledVersion := "";
     tv_FixedVersion := "1.0, 2.0"; tv_DiffID := ""; tv_Description := "";
     tv_Severity := "HIGH"; tv_SeveritySource := ""; tv_References := []; tv_CVSS := ∅;
     tv_CweIDs := [] |}.

Definition toy_results : list (@trivyResult toy_Trivy) :=
  [{| tr_Target := "debian"; tr_Class := "os-pkgs"; tr_Type := "debian";
      tr_Vulnerabilities := [toy_vuln];
      tr_ModifiedFindings :=
        [{| mf_Type := "vulnerability"; mf_Status := "not_affected"; mf_Statement := "";
            mf_Source := "VEX Repository: hub (https://hub.example/vex)";
            mf_Finding := (toy_vuln : @Finding toy_Trivy) |};
         {| mf_Type := "secret"; mf_Status := ""; mf_Statement := ""; mf_Source := "";
            mf_Finding := (toy_vuln : @Finding toy_Trivy) |}] |}].

Example conversion_example :
  match @NewResultsFromTrivyReport toy_Trivy toy_results with
  | Ok results => (λ r, (r_Target r, (λ v, (v_CVE v, v_Severity v, v_Suppressed v)) <$> r_Vulnerabilities r)) <$> results
  | Err _ => []
  end = [("debian", [("CVE-1", "HIGH", false); ("CVE-1", "HIGH", true)])].
Proof. reflexivity. Qed.
Example extractURL_example :
  extractURLRegex "VEX Repository: hub (https://hub.example/vex)" = "https://hub.example/vex".
Proof. reflexivity. Qed.
Example fixPath_example : fixPath "a/../../etc" = "/etc".
Proof. reflexivity. Qed.
