(* ===== verification/Effects.v ===== *)
(** * What the program asks of its environment

    The calls a handler, reconciler or runner makes outside its own code: the
    Kubernetes API server (through controller-runtime's client), NATS, the
    container registry (through go-containerregistry), Trivy and the file
    system, the clock, and the metrics.  Their answers are whatever the
    environment gives; no theorem assumes an answer it does not name.

    Third-party values are records of what the program reads from them: a
    method call on such a value is a field. *)

From stdpp Require Import prelude gmap strings list.
From Stdlib Require Import QArith.
From S2P Require Import Prelude Prog Meta Conditions Registry ScanJob NodeScanJob StorageTypes.

(** ** Kubernetes objects *)

Record Secret := { sec_Meta : ObjectMeta; sec_Type : string; sec_Data : gmap string string }.
Record ConfigMap := {
  cm_Meta : ObjectMeta;
  cm_Data : gmap string string;
  cm_BinaryData : gmap string string
}.
(** [src/api/v1alpha1/vexhub_types.go] *)
Record VEXHub := { vh_Meta : ObjectMeta; vh_URL : string; vh_Enabled : bool }.

(** [metav1.LabelSelector]. *)
Record LabelSelectorRequirement := { lr_Key : string; lr_Operator : string; lr_Values : list string }.
Record LabelSelector := {
  ls_MatchLabels : gmap string string;
  ls_MatchExpressions : list LabelSelectorRequirement
}.

(** [metav1.LabelSelectorAsSelector], the selector being its [Matches]. *)
Class LabelSelectors := {
  LabelSelectorAsSelector : LabelSelector → result (gmap string string → bool)
}.

(** [src/api/v1alpha1/nodescanconfiguration_types.go] *)
Record NodeScanConfigurationSpec := {
  nc_Enabled : bool;
  nc_NodeSelector : option LabelSelector;
  nc_ScanInterval : option Z;
  nc_SkipPatterns : option (list string);
  nc_Platforms : list Platform
}.
Record NodeScanConfiguration := { nc_Meta : ObjectMeta; nc_Spec : NodeScanConfigurationSpec }.

Definition NodeScanConfigurationName := "default".
Definition AnnotationNodeRescanRequested := "sbomscanner.kubewarden.io/node-rescan-requested".

(** The part of a [corev1.Node] the program reads. *)
Record Node := { nd_Meta : ObjectMeta; nd_OperatingSystem : string; nd_Architecture : string }.

(** [src/api/v1alpha1/workloadscanconfiguration_types.go] *)
Record WorkloadScanConfigurationSpec := {
  wc_Enabled : bool;
  wc_NamespaceSelector : option LabelSelector;
  wc_ArtifactsNamespace : string;
  wc_ScanInterval : option Z;
  wc_ScanOnChange : bool;
  wc_AuthSecret : string;
  wc_CABundle : string;
  wc_CABundleRef : option CABundleSource;
  wc_Insecure : bool;
  wc_Platforms : list Platform
}.
Record WorkloadScanConfiguration := { wc_Meta : ObjectMeta; wc_Spec : WorkloadScanConfigurationSpec }.

Definition WorkloadScanConfigurationName := "default".

(** The part of a [corev1.Pod] the program reads. *)
Record Container := { pc_Name : string; pc_Image : string }.
Record PodSpec := { ps_InitContainers : list Container; ps_Containers : list Container }.
Record Pod := { pod_Meta : ObjectMeta; pod_Spec : PodSpec }.

Inductive kind :=
| KScanJob
| KNodeScanJob
| KRegistry
| KImage
| KSBOM
| KVulnerabilityReport
| KVulnerabilityReportMeta (* fetched as PartialObjectMetadata *)
| KVEXHub
| KSecret
| KConfigMap
| KNode
| KNodeScanConfiguration
| KNodeSBOM
| KNodeVulnerabilityReport
| KWorkloadScanConfiguration
| KWorkloadScanReport
| KPod
(* fetched as PartialObjectMetadata *)
| KNamespaceMeta
| KReplicaSetMeta
| KJobMeta.

#[export] Instance kind_eq_dec : EqDecision kind.
Proof. solve_decision. Defined.

Definition obj (k : kind) : Type :=
  match k with
  | KScanJob => ScanJob
  | KNodeScanJob => NodeScanJob
  | KRegistry => Registry
  | KImage => Image
  | KSBOM => SBOM
  | KVulnerabilityReport => VulnerabilityReport
  | KVulnerabilityReportMeta => ObjectMeta
  | KVEXHub => VEXHub
  | KSecret => Secret
  | KConfigMap => ConfigMap
  | KNode => Node
  | KNodeScanConfiguration => NodeScanConfiguration
  | KNodeSBOM => NodeSBOM
  | KNodeVulnerabilityReport => NodeVulnerabilityReport
  | KWorkloadScanConfiguration => WorkloadScanConfiguration
  | KWorkloadScanReport => WorkloadScanReport
  | KPod => Pod
  | KNamespaceMeta | KReplicaSetMeta | KJobMeta => ObjectMeta
  end.

Inductive ListOption :=
| InNamespace (namespace : string)
| MatchingFields (index value : string)
| MatchingLabels (key value : string)
| MatchingLabelsSelector (selector : LabelSelector)
| Limit (n : Z).

(** Field indexes used in list calls. *)
Definition IndexScanJobSpecRegistry := "spec.registry".
Definition IndexScanJobMetadataUID := "metadata.uid".
Definition IndexNodeScanJobSpecNodeName := "spec.nodeName".
Definition IndexNodeMetadataName := "nodeMetadata.name".
Definition IndexImageMetadataRegistry := "imageMetadata.registry".
Definition IndexImageMetadataComposite := "imageMetadata.composite".
Definition IndexWorkloadScanReportImageRef := "spec.containers.imageRef.composite".
Definition IndexImageMetadataDigest := "imageMetadata.digest".

(** [apierrors.NewNotFound]. *)
Definition NewNotFound (resource name : string) : error :=
  apierror ReasonNotFound (resource +:+ ".sbomscanner.kubewarden.io " +:+ quote name +:+ " not found").

Definition skipReasonJobNotFound := "job_not_found".
Definition skipReasonUIDMismatch := "uid_mismatch".
Definition skipReasonJobFailed := "job_failed".
Definition skipReasonJobFinished := "job_finished".
Definition skipReasonObjectNotFound := "object_not_found".

(** ** go-containerregistry *)

(** [name.Reference] and [name.Repository]. *)
Record Reference := {
  ref_Name : string;
  ref_String : string;
  ref_ContextName : string;
  ref_RegistryStr : string;
  ref_RepositoryStr : string;
  ref_Identifier : string
}.
Record NameRepository := { nr_Name : string; nr_RepositoryStr : string }.

(** Parsers of package [name]; the flag is the option [name.Insecure]. *)
Class Names := {
  ParseReference : bool → string → result Reference;
  NewRegistry : bool → string → result string; (* registry.Name() *)
  NewRepository : bool → string → result NameRepository;
  NewDigest : bool → string → result string; (* ref.Name() *)
  NewTag : bool → string → result string;
  TagString : NameRepository → string → string (* repo.Tag(tag).String() *)
}.

(** [cranev1.Platform], [cranev1.History], [cranev1.Layer]. *)
Record CranePlatform := {
  cp_OS : string;
  cp_Architecture : string;
  cp_Variant : string;
  cp_String : string
}.
Record History := { h_CreatedBy : string; h_EmptyLayer : bool }.
Record Layer := { ly_Digest : result string; ly_DiffID : result string }.

Record Manifest := {
  mn_ArtifactType : string;
  mn_ConfigMediaType : string;
  mn_LayerMediaTypes : list string
}.
Record IndexEntry := { ie_Digest : string; ie_Platform : option CranePlatform }.
Record IndexManifest := { ix_ArtifactType : string; ix_Manifests : list IndexEntry }.

Record ConfigFile := { cf_History : list History; cf_Platform : option CranePlatform }.

(** [cranev1.Image] and [cranev1.ImageIndex]. *)
Record CraneImage := {
  ci_MediaType : result string;
  ci_Manifest : result (option Manifest);
  ci_ConfigFile : result ConfigFile;
  ci_Digest : result string;
  ci_Layers : result (list Layer)
}.
Record CraneIndex := {
  cx_IndexManifest : result IndexManifest;
  cx_Digest : result string
}.

(** [remote.Descriptor]: the two parsers applied to its manifest bytes, and
    its view as an index. *)
Record Descriptor := {
  ds_MediaType : string;
  ds_ParseIndexManifest : result IndexManifest;
  ds_ParseManifest : result Manifest;
  ds_ImageIndex : result CraneIndex
}.

(** [types.MediaType] predicates. *)
Class MediaTypes := {
  mt_IsIndex : string → bool;
  mt_IsImage : string → bool;
  mt_IsConfig : string → bool;
  mt_IsLayer : string → bool
}.

(** The part of an [http.Transport] the program sets. *)
Record Transport := { tp_InsecureSkipVerify : bool; tp_RootCAs : option string }.

(** ** Calls *)

Inductive Eff : Type → Type :=
(* Kubernetes client *)
| KGet (k : kind) (key : NamespacedName) : Eff (result (obj k))
| KList (k : kind) (opts : list ListOption) : Eff (result (list (obj k)))
| KCreate (k : kind) (o : obj k) : Eff (result (obj k))
| KUpdate (k : kind) (o : obj k) : Eff (result (obj k))
| KStatusUpdate (k : kind) (o : obj k) : Eff (result (obj k))
| KPatch (k : kind) (base o : obj k) : Eff (result (obj k))
| KDelete (k : kind) (o : obj k) : Eff (result unit)
| KDeleteAllOf (k : kind) : Eff (result unit)
(* messaging *)
| MsgInProgress : Eff (result unit)
| MsgMetadata : Eff (result Z) (* NumDelivered *)
| MsgAck : Eff (result unit)
| MsgNak : Eff (result unit)
| MsgNakWithDelay (delay : Z) : Eff (result unit)
| RandFloat64 : Eff Q
| PublishMsg (subject messageID data : string) : Eff (result unit)
(* clock and randomness *)
| Now : Eff Z
| NewUUID : Eff string
(* metrics, span attributes and the fields of the trace context *)
| TraceFields : Eff (list (string * string))
| CountTick (runner result : string) : Eff unit
| CountScanJob (result source : string) : Eff unit
| CountNodeScanJob (result : string) : Eff unit
| CountImageScanned (registry : string) (ok : bool) : Eff unit
| RecordSkipReason (reason : string) : Eff unit
(* registry *)
| DefaultTransportIsHTTP : Eff bool
| NewPuller (t : Transport) : Eff (result unit)
| RemoteCatalog (t : Transport) (registry : string) : Eff (result (list (result (list string))))
| RemoteTags (t : Transport) (repository : string) : Eff (result (list (result (list string))))
| RemoteGet (t : Transport) (ref : string) : Eff (result Descriptor)
| RemoteImage (t : Transport) (ref : string) : Eff (result CraneImage)
| RemoteIndexImage (t : Transport) (index : CraneIndex) (digest : string) : Eff (result CraneImage)
| NewTagEvaluator : Eff (result unit)
(* docker configuration files *)
| DockerLoadConfig (data : string) : Eff (result unit)
| DockerGetCredentials (store server : string) : Eff (result (string * string))
| DockerStoreCredentials (store file server user password : string) : Eff (result unit)
| DockerSave (file : string) : Eff (result unit)
(* Trivy, files and the process environment *)
| TrivyExecute (args : list string) : Eff (result unit)
| OsCreateTemp (dir pattern : string) : Eff (result string)
| OsMkdirTemp (dir pattern : string) : Eff (result string)
| OsMkdirAll (dir : string) : Eff (result unit)
| OsWrite (file data : string) : Eff (result unit)
| OsWriteFile (file data : string) : Eff (result unit)
| OsClose (file : string) : Eff (result unit)
| OsReadAll (file : string) : Eff (result string)
| OsRemove (file : string) : Eff (result unit)
| OsRemoveAll (dir : string) : Eff (result unit)
| OsSetenv (name value : string) : Eff (result unit)
| OsUnsetenv (name : string) : Eff (result unit).

Abbreviation go := (prog Eff).

(** ** Ranging over Go maps and sets

    The order of [for k := range m] is not specified: it is some permutation
    of the keys, possibly another one each time. *)
Class MapRange := {
  range : ∀ {K : Type}, nat → list K → list K;
  range_perm : ∀ {K : Type} n (l : list K), range n l ≡ₚ l
}.

Definition insertion_order : MapRange.
Proof. refine {| range := λ _ _ l, l |}. done. Defined.

(** ** JSON

    [json.Marshal] and [json.Unmarshal] at one type. *)
Class JSON (T : Type) := {
  Marshal : T → result string;
  Unmarshal : string → result T
}.

(** ** Creating or updating an object

    [controllerutil.CreateOrUpdate] of controller-runtime: it fetches the
    object; one that does not exist is created, after [mutate]; one that does
    is updated with what [mutate] makes of it, unless that changes nothing.
    An error of [mutate] ends it before anything is written. *)
Definition create_or_update_spec (k : kind) (key : NamespacedName) (o : obj k)
    (mutate : obj k → result (obj k)) (p : prog Eff (result unit)) : Prop :=
  wp any_answer p [] (λ tr r,
    ∃ answer rest, tr = Ev (KGet k key) answer :: rest ∧
      match answer with
      | Ok existing =>
          match mutate existing with
          | Err _ => rest = [] ∧ is_ok r = false
          | Ok v =>
              (rest = [] ∧ r = Ok tt ∧ v = existing) ∨
              ∃ a, rest = [Ev (KUpdate k v) a] ∧ is_ok r = is_ok a
          end
      | Err e =>
          if IsNotFound e then
            match mutate o with
            | Err _ => rest = [] ∧ is_ok r = false
            | Ok v => ∃ a, rest = [Ev (KCreate k v) a] ∧ is_ok r = is_ok a
            end
          else rest = [] ∧ is_ok r = false
      end).

Class CreateOrUpdater := {
  CreateOrUpdate : ∀ (k : kind), NamespacedName → obj k → (obj k → result (obj k)) → prog Eff (result unit);
  CreateOrUpdate_ok : ∀ k key o mutate,
    create_or_update_spec k key o mutate (CreateOrUpdate k key o mutate)
}.

(** An instance that updates whatever it finds. *)
Definition write_always (k : kind) (key : NamespacedName) (o : obj k) (mutate : obj k → result (obj k))
  : prog Eff (result unit) :=
  r ← trigger (KGet k key);
  match r with
  | Ok existing =>
      match mutate existing with
      | Err e => Ret (Err e)
      | Ok v => a ← trigger (KUpdate k v); Ret (match a with Ok _ => Ok tt | Err e => Err e end)
      end
  | Err e =>
      if IsNotFound e then
        match mutate o with
        | Err e => Ret (Err e)
        | Ok v => a ← trigger (KCreate k v); Ret (match a with Ok _ => Ok tt | Err e => Err e end)
        end
      else Ret (Err e)
  end.

Definition plain_CreateOrUpdater : CreateOrUpdater.
Proof.
  refine {| CreateOrUpdate := write_always |}. intros k key o mutate answer _.
  destruct answer as [existing|e]; cbn.
  - destruct (mutate existing) as [v|e] eqn:Hm; cbn.
    + intros [a|e] _; cbn; eexists _, _; (split; [reflexivity|]); cbn; rewrite Hm; right; eauto.
    + eexists _, _; (split; [reflexivity|]). cbn. by rewrite Hm.
  - destruct (IsNotFound e) eqn:He; cbn.
    + destruct (mutate o) as [v|e'] eqn:Hm; cbn.
      * intros [a|e'] _; cbn; eexists _, _; (split; [reflexivity|]); cbn; rewrite He; cbn; rewrite ?Hm; eauto.
      * eexists _, _; (split; [reflexivity|]). cbn. rewrite He. by rewrite ?Hm.
    + eexists _, _; (split; [reflexivity|]). cbn. by rewrite He.
Defined.

(** ** Kinds of calls *)

(** Calls that change the state of the cluster. *)
Definition writes {A} (e : Eff A) : bool :=
  match e with
  | KCreate _ _ | KUpdate _ _ | KStatusUpdate _ _ | KPatch _ _ _ | KDelete _ _ | KDeleteAllOf _ => true
  | _ => false
  end.

Definition publishes {A} (e : Eff A) : bool :=
  match e with PublishMsg _ _ _ => true | _ => false end.

Definition runs_trivy {A} (e : Eff A) : bool :=
  match e with TrivyExecute _ => true | _ => false end.

(** A call that neither changes the cluster nor sends a message nor runs Trivy. *)
Definition harmless A (e : Eff A) : Prop :=
  writes e = false ∧ publishes e = false ∧ runs_trivy e = false.

Definition quiet (tr : trace Eff) : Prop := Forall (obs_call harmless) tr.

#[export] Hint Unfold harmless : sbom.

(** A call that neither changes the cluster nor sends a message. *)
Definition reads_only A (e : Eff A) : Prop := writes e = false ∧ publishes e = false.

(** Calls that handle credentials: reading a Secret or a ConfigMap, and the
    docker configuration of the process. *)
Definition secretive {A} (e : Eff A) : bool :=
  match e with
  | KGet KSecret _ | KGet KConfigMap _ | OsSetenv _ _ | OsUnsetenv _ | OsRemoveAll _
  | DockerLoadConfig _ | DockerGetCredentials _ _ | DockerStoreCredentials _ _ _ _ _ | DockerSave _ => true
  | _ => false
  end.

Definition plain A (e : Eff A) : Prop := reads_only A e ∧ secretive e = false.

(** ** Recording the end of a job

    [telemetry.JobMetrics] of [src/internal/telemetry/jobs.go]. *)
Section job_metrics.
Context `{!StatusConditions}.

Definition scanJobSource (s : ScanJob) : string :=
  if bool_decide (map_get (om_Labels (sj_Meta s)) LabelWorkloadScanKey = LabelWorkloadScanValue)
  then "workload" else "registry".

Definition RecordScanJobFinished (s : ScanJob) : go unit :=
  if negb (JobFinished s) then Ret tt
  else trigger (CountScanJob (jobResult s) (scanJobSource s)).

Definition RecordNodeScanJobFinished (s : NodeScanJob) : go unit :=
  if negb (JobFinished s) then Ret tt
  else trigger (CountNodeScanJob (jobResult s)).
End job_metrics.

(** ** The trace context of an object

    [telemetry.InjectAnnotations] of [src/internal/telemetry/annotations.go]:
    the propagator sets its fields through [annotationsCarrier], which
    prefixes them with the domain of the program. *)
Definition annotationDomain := "sbomscanner.kubewarden.io/".

Definition carrier_Set (annotations : gmap string string) (field : string * string)
  : gmap string string :=
  <[annotationDomain +:+ field.1 := field.2]> annotations.

Definition InjectAnnotations (annotations : gmap string string) : go (gmap string string) :=
  fields ← trigger TraceFields;
  Ret (fold_left carrier_Set fields annotations).

(** An environment in which every call that can fail does; for witnesses. *)
Definition refuse : handler Eff unit := λ A e w,
  (match e in Eff A return A with
   | KGet _ _ | KList _ _ | KCreate _ _ | KUpdate _ _ | KStatusUpdate _ _ | KPatch _ _ _
   | KDelete _ _ | KDeleteAllOf _ | MsgInProgress | MsgMetadata | MsgAck | MsgNak | MsgNakWithDelay _ | PublishMsg _ _ _ | NewPuller _ | RemoteCatalog _ _
   | RemoteTags _ _ | NewTagEvaluator | RemoteGet _ _ | RemoteImage _ _ | RemoteIndexImage _ _ _
   | DockerLoadConfig _ | DockerGetCredentials _ _ | DockerStoreCredentials _ _ _ _ _ | DockerSave _
   | TrivyExecute _ | OsCreateTemp _ _ | OsMkdirTemp _ _ | OsMkdirAll _ | OsWrite _ _ | OsWriteFile _ _ | OsClose _
   | OsReadAll _ | OsRemove _ | OsRemoveAll _ | OsSetenv _ _ | OsUnsetenv _ =>
       Err (errors_New "refused")
   | Now => 0%Z
   | RandFloat64 => 0%Q
   | NewUUID => ""
   | TraceFields => []
   | DefaultTransportIsHTTP => true
   | CountTick _ _ | CountScanJob _ _ | CountNodeScanJob _ | CountImageScanned _ _
   | RecordSkipReason _ => tt
   end, w).

(** ** Reading a trace

    Projections of an observation; [omap] of one over a trace is the list of
    the calls of that kind, in order, with their answers. *)

(** A value indexed by a kind, at another kind when they are the same. *)
Definition cast_kind {P : kind → Type} (k k' : kind) : P k → option (P k') :=
  match k as k, k' as k' return P k → option (P k') with
  | KScanJob, KScanJob => Some
  | KNodeScanJob, KNodeScanJob => Some
  | KRegistry, KRegistry => Some
  | KImage, KImage => Some
  | KSBOM, KSBOM => Some
  | KVulnerabilityReport, KVulnerabilityReport => Some
  | KVulnerabilityReportMeta, KVulnerabilityReportMeta => Some
  | KVEXHub, KVEXHub => Some
  | KSecret, KSecret => Some
  | KConfigMap, KConfigMap => Some
  | KNode, KNode => Some
  | KNodeScanConfiguration, KNodeScanConfiguration => Some
  | KNodeSBOM, KNodeSBOM => Some
  | KNodeVulnerabilityReport, KNodeVulnerabilityReport => Some
  | KWorkloadScanConfiguration, KWorkloadScanConfiguration => Some
  | KWorkloadScanReport, KWorkloadScanReport => Some
  | KPod, KPod => Some
  | KNamespaceMeta, KNamespaceMeta => Some
  | KReplicaSetMeta, KReplicaSetMeta => Some
  | KJobMeta, KJobMeta => Some
  | _, _ => λ _, None
  end.
Arguments cast_kind {P} !k !k' / _.

Lemma cast_kind_refl {P : kind → Type} k (x : P k) : cast_kind k k x = Some x.
Proof. by destruct k. Qed.

Section projections.
Context (k : kind).

Definition ev_get (o : obs Eff) : option (NamespacedName * result (obj k)) :=
  match o with
  | Ev e a =>
      match e in Eff A return A → option (NamespacedName * result (obj k)) with
      | KGet k' key => λ a, match cast_kind (P:=λ k, result (obj k)) k' k a with
                       | Some r => Some (key, r) | None => None end
      | _ => λ _, None
      end a
  end.

Definition ev_list (o : obs Eff) : option (list ListOption * result (list (obj k))) :=
  match o with
  | Ev e a =>
      match e in Eff A return A → option (list ListOption * result (list (obj k))) with
      | KList k' opts => λ a, match cast_kind (P:=λ k, result (list (obj k))) k' k a with
                       | Some r => Some (opts, r) | None => None end
      | _ => λ _, None
      end a
  end.

Definition ev_create (o : obs Eff) : option (obj k * result (obj k)) :=
  match o with
  | Ev e a =>
      match e in Eff A return A → option (obj k * result (obj k)) with
      | KCreate k' o => λ a, cast_kind (P:=λ k, obj k * result (obj k))%type k' k (o, a)
      | _ => λ _, None
      end a
  end.

Definition ev_update (o : obs Eff) : option (obj k * result (obj k)) :=
  match o with
  | Ev e a =>
      match e in Eff A return A → option (obj k * result (obj k)) with
      | KUpdate k' o => λ a, cast_kind (P:=λ k, obj k * result (obj k))%type k' k (o, a)
      | _ => λ _, None
      end a
  end.

Definition ev_status (o : obs Eff) : option (obj k * result (obj k)) :=
  match o with
  | Ev e a =>
      match e in Eff A return A → option (obj k * result (obj k)) with
      | KStatusUpdate k' o => λ a, cast_kind (P:=λ k, obj k * result (obj k))%type k' k (o, a)
      | _ => λ _, None
      end a
  end.

Definition ev_patch (o : obs Eff) : option (obj k * obj k * result (obj k)) :=
  match o with
  | Ev e a =>
      match e in Eff A return A → option (obj k * obj k * result (obj k)) with
      | KPatch k' base o => λ a, cast_kind (P:=λ k, obj k * obj k * result (obj k))%type k' k (base, o, a)
      | _ => λ _, None
      end a
  end.

Definition ev_delete (o : obs Eff) : option (obj k * result unit) :=
  match o with
  | Ev e a =>
      match e in Eff A return A → option (obj k * result unit) with
      | KDelete k' o => λ a, cast_kind (P:=λ k, obj k * result unit)%type k' k (o, a)
      | _ => λ _, None
      end a
  end.

End projections.

Abbreviation ev_status_update := (ev_status KScanJob).
Abbreviation ev_list_scanjobs := (ev_list KScanJob).
Abbreviation ev_list_reports := (ev_list KVulnerabilityReportMeta).

Definition ev_publish (o : obs Eff) : option (string * string * string * result unit) :=
  match o with
  | Ev e a =>
      match e in Eff A return A → option (string * string * string * result unit) with
      | PublishMsg s i d => λ a, Some (s, i, d, a)
      | _ => λ _, None
      end a
  end.

(** A ScanJob the API server answered with. *)
Definition seen_job (o : obs Eff) : option ScanJob :=
  match ev_get KScanJob o with
  | Some (_, Ok j) => Some j
  | _ => match ev_status KScanJob o with Some (_, Ok j) => Some j | _ => None end
  end.

(** The namespace a Secret or a ConfigMap was read from. *)
Definition ev_secret_namespace (o : obs Eff) : option string :=
  match o with
  | Ev e _ => match e with
              | KGet KSecret key | KGet KConfigMap key => Some (nn_Namespace key)
              | _ => None
              end
  end.

(** A successful change of the docker configuration of the process. *)
Definition ev_docker_config (o : obs Eff) : option string :=
  match o with
  | Ev e a => match e in Eff A return A → option string with
              | OsSetenv name value => λ a, if is_ok a then Some value else None
              | _ => λ _, None
              end a
  end.

(** Temporary files made and removed, what was read, and the runs of Trivy. *)
Definition ev_create_temp (o : obs Eff) : option string :=
  match o with
  | Ev e a => match e in Eff A return A → option string with
              | OsCreateTemp _ _ => λ a, match a with Ok f => Some f | Err _ => None end
              | _ => λ _, None
              end a
  end.
Definition ev_mkdir_temp (o : obs Eff) : option string :=
  match o with
  | Ev e a => match e in Eff A return A → option string with
              | OsMkdirTemp _ _ => λ a, match a with Ok f => Some f | Err _ => None end
              | _ => λ _, None
              end a
  end.
Definition ev_write (o : obs Eff) : option (string * string * result unit) :=
  match o with
  | Ev e a => match e in Eff A return A → option (string * string * result unit) with
              | OsWrite f d | OsWriteFile f d => λ a, Some (f, d, a)
              | _ => λ _, None
              end a
  end.
Definition ev_remove (o : obs Eff) : option string :=
  match o with Ev e _ => match e with OsRemove f => Some f | _ => None end end.
Definition ev_remove_all (o : obs Eff) : option string :=
  match o with Ev e _ => match e with OsRemoveAll f => Some f | _ => None end end.
Definition ev_read_all (o : obs Eff) : option (string * result string) :=
  match o with
  | Ev e a => match e in Eff A return A → option (string * result string) with
              | OsReadAll f => λ a, Some (f, a)
              | _ => λ _, None
              end a
  end.
Definition ev_trivy (o : obs Eff) : option (list string * result unit) :=
  match o with
  | Ev e a => match e in Eff A return A → option (list string * result unit) with
              | TrivyExecute args => λ a, Some (args, a)
              | _ => λ _, None
              end a
  end.

Definition ev_now (o : obs Eff) : option Z :=
  match o with
  | Ev e a => match e in Eff A return A → option Z with Now => λ a, Some a | _ => λ _, None end a
  end.

Definition ev_skip (o : obs Eff) : option string :=
  match o with Ev e _ => match e with RecordSkipReason r => Some r | _ => None end end.

Definition ev_count (o : obs Eff) : option (string * string) :=
  match o with
  | Ev e _ => match e with CountScanJob r s => Some (r, s) | _ => None end
  end.

(** The number of writes to the cluster. *)
Definition is_write (o : obs Eff) : bool := match o with Ev e _ => writes e end.

(** Runs the calls of a program that is not a loop, one answer at a time. *)
Ltac wp_step :=
  lazymatch goal with
  | |- wp _ (try_bind _ _ _) _ _ => apply wp_try
  | |- wp _ (_ ≫= _) _ _ => apply wp_bind
  | |- wp _ (trigger _) _ _ => intros ? _; cbn beta iota zeta
  | |- wp _ (Ret _) _ _ => cbn [wp]
  | |- wp _ (if ?b then _ else _) _ _ => destruct b eqn:?
  | |- wp _ (match ?r with Ok _ => _ | Err _ => _ end) _ _ => destruct r as [?|?] eqn:?
  | |- match ?r with Ok _ => _ | Err _ => _ end => destruct r as [?|?] eqn:?
  | |- wp _ (match ?r with _ => _ end) _ _ => destruct r eqn:?
  end.
Ltac wp_steps := repeat wp_step.

(** Turns a statement about the trace and the result of a run into a [wp]. *)
Ltac wp_start :=
  cbv zeta;
  match goal with
  | |- context [run_trace ?h ?p ?w] =>
      pattern (run_trace h p w), (run_result h p w);
      match goal with
      | |- ?P _ _ => refine (wp_run_any h p w P _)
      end; cbv beta
  end.

(** ** Objects the API server has

    What a successful [CreateOrUpdate] leaves in the trace: the object was
    created, updated, or already there as wanted. *)
Section in_store.
Context (k : kind) (meta : obj k → ObjectMeta) (key : NamespacedName).

Inductive in_store (v : obj k) (tr : trace Eff) : Prop :=
| Created_now a :
    key_of (meta v) = key → (v, Ok a) ∈ omap (ev_create k) tr → in_store v tr
| Updated_now old a :
    (key, Ok old) ∈ omap (ev_get k) tr → key_of (meta v) = key_of (meta old) →
    (v, Ok a) ∈ omap (ev_update k) tr → in_store v tr
| Already_there : (key, Ok v) ∈ omap (ev_get k) tr → in_store v tr.

Lemma in_store_app v pre tr post : in_store v tr → in_store v (pre ++ tr ++ post).
Proof.
  intros [a Hk Ha|old a Ho Hk Ha|Ha];
    [eapply Created_now|eapply Updated_now|eapply Already_there]; eauto using omap_within.
Qed.

(** Its calls: the object is fetched and then written at most once. *)
Definition store_call A (e : Eff A) : Prop :=
  match e with KGet k' _ | KCreate k' _ | KUpdate k' _ => k' = k | _ => False end.

Lemma CreateOrUpdate_stores `{!CreateOrUpdater} (good : obj k → Prop) o mutate :
  key_of (meta o) = key →
  (∀ base v, mutate base = Ok v → key_of (meta v) = key_of (meta base) ∧ good v) →
  wp any_answer (CreateOrUpdate k key o mutate) [] (λ tr r,
    Forall (obs_call store_call) tr ∧ (is_ok r = true → ∃ v, good v ∧ in_store v tr)).
Proof.
  intros Ho Hm. eapply wp_mono; [|apply CreateOrUpdate_ok]. intros tr r (answer & rest & -> & Hcase).
  assert (∀ b : bool, b = false → b = true → ∃ v, good v ∧ in_store v (Ev (KGet k key) answer :: rest)) as Hno
    by (by intros [] ?).
  destruct answer as [existing|e]; [|destruct (IsNotFound e)].
  - destruct (mutate existing) as [v|e] eqn:Hf.
    + destruct (Hm _ _ Hf) as [Hk Hv].
      destruct Hcase as [(-> & -> & ->)|(a & -> & Hr)]; (split; [by repeat constructor|]).
      * intros _. exists existing. split; [done|]. apply Already_there. cbn. rewrite cast_kind_refl. by left.
      * intros Hok. rewrite Hok in Hr. destruct a as [a|e]; [|done]. exists v. split; [done|].
        eapply (Updated_now _ _ existing a); cbn; rewrite ?cast_kind_refl; [by left|done|by left].
    + destruct Hcase as [-> Hr]. split; [by repeat constructor|]. by apply Hno.
  - destruct (mutate o) as [v|e'] eqn:Hf.
    + destruct (Hm _ _ Hf) as [Hk Hv]. destruct Hcase as (a & -> & Hr). split; [by repeat constructor|].
      intros Hok. rewrite Hok in Hr. destruct a as [a|e']; [|done]. exists v. split; [done|].
      eapply (Created_now _ _ a); cbn; rewrite ?cast_kind_refl; [congruence|by left].
    + destruct Hcase as [-> Hr]. split; [by repeat constructor|]. by apply Hno.
  - destruct Hcase as [-> Hr]. split; [by repeat constructor|]. by apply Hno.
Qed.
End in_store.
