(* ===== verification/History.v ===== *)
(** * Limiting the history of jobs

    [cleanupOldScanJobs] of [src/internal/controller/scanjob_controller.go] and
    [cleanupOldNodeScanJobs] of [nodescanjob_controller.go] are one function on
    two kinds of jobs: list the jobs of one registry or node, and delete the
    oldest ones beyond a limit. *)

From stdpp Require Import prelude gmap strings list sorting.
From S2P Require Import Prelude Prog Meta Conditions Registry ScanJob NodeScanJob StorageTypes Effects.

Definition scanJobsHistoryLimit : nat := 10.

Section history.
Context `{!GoSort} (k : kind) (older : obj k → obj k → bool) (failure : obj k → string).
Context (opts : list ListOption) (listError : string).

Definition delete_one (_ : unit) (job : obj k) : go (result unit) :=
  check trigger (KDelete k job) wrap errorf (failure job);
  Ret (Ok tt).

Definition cleanup_history : go (result unit) :=
  items ←? trigger (KList k opts) wrap errorf listError;
  if bool_decide (length items ≤ scanJobsHistoryLimit)%nat then Ret (Ok tt)
  else
    let items := sort_Slice older items in
    let toDelete := (length items - scanJobsHistoryLimit)%nat in
    for_each delete_one tt (take toDelete items).

(** ** Facts *)

Definition deleted (tr : trace Eff) : list (obj k) := (omap (ev_delete k) tr).*1.

Lemma deleted_app tr tr' : deleted (tr ++ tr') = deleted tr ++ deleted tr'.
Proof. unfold deleted. by rewrite omap_app, fmap_app. Qed.
Lemma deleted_one job a : deleted [Ev (KDelete k job) a] = [job].
Proof. unfold deleted. cbn. by rewrite cast_kind_refl. Qed.

(** The loop deletes the jobs it is given, in order, until one deletion
    fails, and does nothing else. *)
Lemma delete_all_spec (jobs : list (obj k)) :
  wp any_answer (for_each delete_one tt jobs) [] (λ tr res,
    (∃ rest, jobs = deleted tr ++ rest ∧ (res = Ok tt → rest = [])) ∧
    Forall (obs_call (λ A e, match e with KDelete _ _ => True | _ => False end)) tr).
Proof.
  apply wp_conj; [|apply calls_wp; [|constructor]].
  2: { apply calls_for_each. intros [] x _. by apply calls_try. }
  apply (wp_for_each _ _ (λ pre tr _, deleted tr = pre)); [| |done].
  - intros pre x rest tr [] Hjobs Hd. unfold delete_one.
    apply wp_try. intros [[]|e] _; cbn [wp]; rewrite deleted_app, deleted_one, Hd; [done|].
    exists rest. split; [|done]. by rewrite Hjobs, <- app_assoc.
  - intros tr [] Hd. exists []. by rewrite Hd, app_nil_r.
Qed.

Definition history_call A (e : Eff A) : Prop :=
  match e with KList k' _ | KDelete k' _ => k' = k | _ => False end.

Lemma cleanup_history_calls : calls history_call cleanup_history.
Proof.
  unfold cleanup_history. apply calls_try; [done|]. intros items. case_match; [done|].
  apply calls_for_each. intros [] x _. by apply calls_try.
Qed.

Context `{!StrictWeakOrder older}.

(** A sorted list cut anywhere: nothing before the cut is newer than what
    is after it. *)
Lemma oldest_first items del kept :
  sort_Slice older items = del ++ kept →
  items ≡ₚ del ++ kept ∧ ∀ d x, d ∈ del → x ∈ kept → older x d = false.
Proof using Type*.
  intros Hs. split; [by rewrite <- Hs, sort_Slice_perm|]. intros d x Hd Hx.
  pose proof (sort_Slice_sorted older items _) as Hsorted. rewrite Hs in Hsorted.
  by eapply StronglySorted_app_1_elem_of in Hsorted.
Qed.

(** What is left after a clean-up of [items]. *)
Definition trimmed (items : list (obj k)) (tr : trace Eff) (res : result unit) : Prop :=
  ∃ kept,
    items ≡ₚ deleted tr ++ kept ∧
    (∀ d x, d ∈ deleted tr → x ∈ kept → older x d = false) ∧
    (scanJobsHistoryLimit `min` length items ≤ length kept)%nat ∧
    (res = Ok tt → length kept = (scanJobsHistoryLimit `min` length items)%nat).

Lemma cleanup_history_spec :
  wp any_answer cleanup_history [] (λ tr res,
    ∃ answer, omap (ev_list k) tr = [(opts, answer)] ∧
      match answer with
      | Err _ => length tr = 1%nat ∧ is_ok res = false
      | Ok items => trimmed items tr res
      end).
Proof using Type*.
  unfold cleanup_history. apply wp_try. intros [items|e] _; cbn [wp app].
  2: { exists (Err e). cbn. by rewrite cast_kind_refl. }
  case_bool_decide as Hlen; cbn [wp].
  - exists (Ok items). cbn. rewrite cast_kind_refl. split; [done|]. exists items.
    unfold deleted. cbn -[Nat.min]. split_and!; [done|set_solver|lia|]. intros _. lia.
  - eapply wp_frame; [apply delete_all_spec|]. intros ext res [(rest & Hjobs & Hok) Hcalls].
    exists (Ok items). split.
    { rewrite omap_app. cbn. rewrite cast_kind_refl.
      erewrite (omap_calls _ (ev_list k) ext); [done| |exact Hcalls]. intros A e a. by destruct e. }
    rewrite length_sort_Slice in Hjobs.
    pose proof (take_drop (length items - scanJobsHistoryLimit) (sort_Slice older items)) as Hs.
    pose proof (f_equal length Hjobs) as Hl.
    rewrite length_take, length_sort_Slice, length_app in Hl.
    rewrite Hjobs, <- app_assoc in Hs. symmetry in Hs.
    exists (rest ++ drop (length items - scanJobsHistoryLimit) (sort_Slice older items)).
    destruct (oldest_first _ _ _ Hs) as [Hp Ho].
    rewrite deleted_app. cbn [app]. split; [exact Hp|]. split; [exact Ho|].
    rewrite length_app, length_drop, length_sort_Slice. split; [lia|]. intros ->%Hok. cbn [length]. lia.
Qed.
End history.
