(* ===== verification/StatusUpdate.v ===== *)
(** * Updating the status of a job

    What the handlers do when they move a job on: fetch it, mark it, update its
    status, and start again when another writer was faster
    ([retry.RetryOnConflict] around a closure, in
    [src/internal/handlers/scanjob_failure.go], [nodescanjob_failure.go],
    [generate_node_sbom.go] and [node_scan_sbom.go]). *)

From stdpp Require Import prelude gmap strings list.
From S2P Require Import Prelude Prog Meta Conditions ScanJob NodeScanJob StorageTypes Effects.

Section status_update.
Context `{!Retry} (k : kind) `{!ConditionedJob (obj k)}.
Context (mark : Z → obj k → obj k).
Context (key : NamespacedName) (getError : string).

(** The closure that is retried.  Its result is what it leaves in the
    variables of the enclosing function: whether the job it read had already
    finished ([wasFinished], where the caller has it), and the job as the API
    server answered the update. *)
Definition update_once : go (result (bool * obj k)) :=
  job ←? trigger (KGet k key) wrap errorf getError;
  let wasFinished := JobFinished job in
  now ← trigger Now;
  updated ←? trigger (KStatusUpdate k (mark now job)) wrap (λ e, e);
  Ret (Ok (wasFinished, updated)).

(** ** Facts *)

(** One attempt, by its calls. *)
Inductive attempt : trace Eff → result (bool * obj k) → Prop :=
| Not_read e : attempt [Ev (KGet k key) (Err e)] (Err (errorf getError e))
| Not_written job now e :
    attempt [Ev (KGet k key) (Ok job); Ev Now now; Ev (KStatusUpdate k (mark now job)) (Err e)] (Err e)
| Written job now updated :
    attempt [Ev (KGet k key) (Ok job); Ev Now now; Ev (KStatusUpdate k (mark now job)) (Ok updated)]
      (Ok (JobFinished job, updated)).

(** The attempts of a run: all but the last ended in a conflict. *)
Inductive attempted : trace Eff → result (bool * obj k) → Prop :=
| Last tr r : attempt tr r → attempted tr r
| Again tr e tr' r :
    attempt tr (Err e) → IsConflict e = true → attempted tr' r → attempted (tr ++ tr') r.

Lemma update_once_attempt : wp any_answer update_once [] attempt.
Proof. unfold update_once. cbv zeta. wp_steps; subst; constructor. Qed.

Lemma retry_attempted : wp any_answer (RetryOnConflict update_once) [] attempted.
Proof.
  destruct (RetryOnConflict_spec update_once) as [n ->].
  induction n as [|n IH]; cbn [attempts]; (eapply wp_seq; [apply update_once_attempt|]);
    intros tr [a|e] Htr; cbn [wp]; rewrite ?app_nil_r; try (by apply Last);
    destruct (IsConflict e) eqn:He; cbn [wp]; rewrite ?app_nil_r; try (by apply Last).
  eapply wp_mono; [|exact IH]. intros tr' r Hr. by eapply Again.
Qed.

(** Every write is a job just read, marked. *)
Lemma attempted_writes tr r :
  attempted tr r →
  Forall (λ wa, ∃ job now, (key, Ok job) ∈ omap (ev_get k) tr ∧ wa.1 = mark now job) (omap (ev_status k) tr).
Proof.
  assert (∀ tr r, attempt tr r →
    Forall (λ wa, ∃ job now, (key, Ok job) ∈ omap (ev_get k) tr ∧ wa.1 = mark now job) (omap (ev_status k) tr))
    as Hone.
  { intros tr' r' [e|job now e|job now updated]; cbn; rewrite ?cast_kind_refl; repeat constructor;
      exists job, now; (split; [by left|done]). }
  induction 1 as [tr r Htr|tr e tr' r Htr _ _ IH]; [by eapply Hone|].
  rewrite !omap_app. apply Forall_app. split.
  - eapply Forall_impl; [by eapply Hone|]. intros wa (job & now & ? & ?). exists job, now. set_solver.
  - eapply Forall_impl; [exact IH|]. intros wa (job & now & ? & ?). exists job, now. set_solver.
Qed.

(** Nothing but these calls. *)
Lemma attempted_calls tr r :
  attempted tr r →
  Forall (obs_call (λ A e, match e with KGet _ _ | KStatusUpdate _ _ | Now => True | _ => False end)) tr.
Proof.
  induction 1 as [tr r []|tr e tr' r [] _ _ IH]; cbn; by repeat constructor.
Qed.

(** The last attempt of a run that succeeds. *)
Lemma attempted_Ok tr wasFinished updated :
  attempted tr (Ok (wasFinished, updated)) →
  ∃ pre job now, wasFinished = JobFinished job ∧
    Forall (λ wa, is_ok wa.2 = false) (omap (ev_status k) pre) ∧
    tr = pre ++ [Ev (KGet k key) (Ok job); Ev Now now; Ev (KStatusUpdate k (mark now job)) (Ok updated)].
Proof.
  remember (Ok (wasFinished, updated)) as r eqn:Hr.
  induction 1 as [tr r Htr|tr e tr' r Htr _ _ IH]; subst.
  - inversion Htr; subst. by eexists [], _, _.
  - destruct IH as (pre & job & now & -> & Hpre & ->); [done|].
    exists (tr ++ pre), job, now. rewrite <- app_assoc. split_and!; [done| |done].
    rewrite omap_app. apply Forall_app. split; [|done].
    inversion Htr; subst; cbn; rewrite ?cast_kind_refl; by repeat constructor.
Qed.

Lemma attempted_Err tr e :
  attempted tr (Err e) → Forall (λ wa, is_ok wa.2 = false) (omap (ev_status k) tr).
Proof.
  assert (∀ tr e, attempt tr (Err e) → Forall (λ wa, is_ok wa.2 = false) (omap (ev_status k) tr)) as Hone.
  { intros tr' e'. inversion 1; subst; cbn; rewrite ?cast_kind_refl; by repeat constructor. }
  remember (Err e) as r eqn:Hr. induction 1 as [tr r Htr|tr e' tr' r Htr _ _ IH]; subst; [by eapply Hone|].
  rewrite omap_app. apply Forall_app. split; [by eapply Hone|auto].
Qed.

(** The API server answered that there is no such job. *)
Definition gone (tr : trace Eff) : Prop :=
  (∃ key e, (key, Err e) ∈ omap (ev_get k) tr ∧ IsNotFound e = true) ∨
  (∃ job e, (job, Err e) ∈ omap (ev_status k) tr ∧ IsNotFound e = true).

Lemma attempted_gone tr e :
  attempted tr (Err e) → IsNotFound e = true → gone tr.
Proof.
  assert (∀ tr e, attempt tr (Err e) → IsNotFound e = true → gone tr) as Hone.
  { intros tr' e'. inversion 1; subst; intros He; rewrite ?IsNotFound_errorf in He; unfold gone; cbn; rewrite ?cast_kind_refl.
    - left. eexists _, _. split; [by left|done].
    - right. eexists _, _. split; [by left|done]. }
  remember (Err e) as r eqn:Hr. induction 1 as [tr r Htr|tr e' tr' r Htr _ _ IH]; subst; [by eapply Hone|].
  intros [(key' & e0 & Hin & He0)|(job & e0 & Hin & He0)]%IH; [left|right|done];
    eexists _, _; rewrite omap_app, elem_of_app; eauto.
Qed.

(** The first thing a run does. *)
Lemma attempted_first tr r :
  attempted tr r →
  (∃ e tr', tr = Ev (KGet k key) (Err e) :: tr') ∨
  ∃ job now a rest, tr = Ev (KGet k key) (Ok job) :: Ev Now now :: Ev (KStatusUpdate k (mark now job)) a :: rest.
Proof.
  assert (∀ tr r rest, attempt tr r →
    (∃ e tr', tr ++ rest = Ev (KGet k key) (Err e) :: tr') ∨
    ∃ job now a rest', tr ++ rest = Ev (KGet k key) (Ok job) :: Ev Now now :: Ev (KStatusUpdate k (mark now job)) a :: rest').
  { intros tr' r' rest []; cbn; [left|right|right]; eauto 10. }
  intros [tr0 ? Htr|? ? ? ? Htr _ _]; [rewrite <- (app_nil_r tr0)|]; eauto.
Qed.
End status_update.
