(* ===== verification/Messages.v ===== *)
(** * Messages

    [src/internal/handlers/messages.go]: the payloads that connect the
    controller, the catalog, the SBOM generation and the scan. *)

From stdpp Require Import prelude strings.
From S2P Require Import Prelude Effects.

Definition GenerateSBOMSubject := "sbomscanner.sbom.generate".
Definition ScanSBOMSubject := "sbomscanner.sbom.scan".
Definition CreateCatalogSubject := "sbomscanner.catalog.create".
Definition GenerateNodeSBOMSubject := "sbomscanner.nodesbom.generate".
Definition ScanNodeSBOMSubject := "sbomscanner.nodesbom.scan".

Record ObjectRef := { o_Name : string; o_Namespace : string; o_UID : string }.
Record BaseMessage := { bm_ScanJob : ObjectRef }.
Record CreateCatalogMessage := { ccm_ScanJob : ObjectRef }.
Record GenerateSBOMMessage := { gsm_ScanJob : ObjectRef; gsm_Image : ObjectRef }.
Record ScanSBOMMessage := { ssm_ScanJob : ObjectRef; ssm_SBOM : ObjectRef }.
Record NodeBaseMessage := { nbm_NodeScanJob : ObjectRef }.
Record GenerateNodeSBOMMessage := { gnm_NodeScanJob : ObjectRef; gnm_Node : ObjectRef }.
Record ScanNodeSBOMMessage := { snm_NodeScanJob : ObjectRef; snm_NodeSBOM : ObjectRef }.

#[export] Instance ObjectRef_eq_dec : EqDecision ObjectRef.
Proof. solve_decision. Defined.
