(* ===== verification/RegistryAuth.v ===== *)
(** * What the worker reads to reach a registry

    [src/internal/handlers/registry_snapshot.go] (the Registry a ScanJob
    carries), [src/internal/handlers/cabundle/cabundle.go] (its CA bundle) and
    [src/internal/handlers/dockerauth/auth.go] (its credentials).  A Registry
    managed by the workload scan lives in a namespace of a user, so its
    secrets are read from the namespace of the installation. *)

From stdpp Require Import prelude gmap strings list.
From S2P Require Import Prelude Prog Meta Conditions Registry ScanJob NodeScanJob StorageTypes GoPath Effects.

(** [x509.NewCertPool().AppendCertsFromPEM]. *)
Class X509 := { AppendCertsFromPEM : string → bool }.

Definition CABundleDefaultKey := "ca.crt".
Definition SecretTypeDockerConfigJson := "kubernetes.io/dockerconfigjson".
Definition DockerConfigJsonKey := ".dockerconfigjson".
Definition DefaultAuthKey := "https://index.docker.io/v1/".

(** The namespace the secrets of a registry are read from. *)
Definition secrets_namespace (registry : Registry) (installationNamespace : string) : string :=
  if IsManagedByWorkloadScan registry then installationNamespace else rg_Namespace registry.

(** ** The snapshot *)

Section snapshot.
Context `{!JSON Registry}.

Definition registryFromScanJob (scanJob : ScanJob) : result Registry :=
  let job := sj_Namespace scanJob +:+ "/" +:+ sj_Name scanJob in
  match om_Annotations (sj_Meta scanJob) !! AnnotationScanJobRegistryKey with
  | None => Err (errors_New ("scan job " +:+ job +:+ " does not have a registry annotation"))
  | Some registryData =>
      match Unmarshal registryData with
      | Err e => Err (errorf ("cannot unmarshal registry data from scan job " +:+ job) e)
      | Ok registry =>
          if negb (bool_decide (rg_Namespace registry = sj_Namespace scanJob))
             || negb (bool_decide (rg_Name registry = sp_Registry (sj_Spec scanJob)))
          then Err (errors_New ("registry annotation of scan job " +:+ job +:+ " refers to registry " +:+
                      rg_Namespace registry +:+ "/" +:+ rg_Name registry +:+ ", expected " +:+
                      sj_Namespace scanJob +:+ "/" +:+ sp_Registry (sj_Spec scanJob)))
          else Ok registry
      end
  end.

Lemma registryFromScanJob_Ok scanJob registry :
  registryFromScanJob scanJob = Ok registry →
  rg_Namespace registry = sj_Namespace scanJob ∧ rg_Name registry = sp_Registry (sj_Spec scanJob).
Proof.
  unfold registryFromScanJob. repeat (case_match; simplify_eq; try done). intros [= ->].
  match goal with Hb : _ || _ = false |- _ => apply orb_false_iff in Hb as [H1 H2] end.
  apply negb_false_iff, bool_decide_eq_true in H1. by apply negb_false_iff, bool_decide_eq_true in H2.
Qed.
(** The registry of a job is the one of the snapshot it carries. *)
Definition snapshot_of (job : ScanJob) (registry : Registry) : Prop :=
  ∃ data, om_Annotations (sj_Meta job) !! "sbomscanner.kubewarden.io/registry" = Some data ∧ Unmarshal data = Ok registry ∧
    rg_Namespace registry = sj_Namespace job ∧ rg_Name registry = sp_Registry (sj_Spec job).

Lemma registry_snapshot job registry : registryFromScanJob job = Ok registry → snapshot_of job registry.
Proof.
  intros Hr. destruct (registryFromScanJob_Ok _ _ Hr) as [Hns Hn]. revert Hr. unfold registryFromScanJob.
  destruct (om_Annotations _ !! _) as [data|] eqn:Hd; [|done]. destruct (Unmarshal data) as [registry'|] eqn:Hu; [|done].
  case_match; [done|]. intros [= <-]. by exists data.
Qed.
End snapshot.

(** ** The CA bundle *)

Section cabundle.
Context `{!X509}.

Definition validate (bundle : string) : result string :=
  if negb (AppendCertsFromPEM bundle)
  then Err (errors_New "CA bundle does not contain any valid PEM-encoded certificate")
  else Ok bundle.

Definition keyOrDefault (key : string) : string :=
  if bool_decide (key = "") then CABundleDefaultKey else key.

Definition readConfigMapKey (selector : CABundleKeySelector) (namespace : string)
  : go (result string) :=
  let key := keyOrDefault (ks_Key selector) in
  let name := namespace +:+ "/" +:+ ks_Name selector in
  configMap ←? trigger (KGet KConfigMap {| nn_Namespace := namespace; nn_Name := ks_Name selector |})
    wrap errorf ("cannot get CA bundle ConfigMap " +:+ name);
  match cm_Data configMap !! key with
  | Some value => Ret (Ok value)
  | None =>
      match cm_BinaryData configMap !! key with
      | Some value => Ret (Ok value)
      | None => Ret (Err (errors_New ("CA bundle ConfigMap " +:+ name +:+ " has no key " +:+ quote key)))
      end
  end.

Definition readSecretKey (selector : CABundleKeySelector) (namespace : string)
  : go (result string) :=
  let key := keyOrDefault (ks_Key selector) in
  let name := namespace +:+ "/" +:+ ks_Name selector in
  secret ←? trigger (KGet KSecret {| nn_Namespace := namespace; nn_Name := ks_Name selector |})
    wrap errorf ("cannot get CA bundle Secret " +:+ name);
  match sec_Data secret !! key with
  | Some value => Ret (Ok value)
  | None => Ret (Err (errors_New ("CA bundle Secret " +:+ name +:+ " has no key " +:+ quote key)))
  end.

Definition readRef (ref : CABundleSource) (namespace : string) : go (result string) :=
  match cb_ConfigMap ref with
  | Some selector => readConfigMapKey selector namespace
  | None =>
      match cb_Secret ref with
      | Some selector => readSecretKey selector namespace
      | None => Ret (Err (errors_New "caBundleRef must reference either a ConfigMap or a Secret"))
      end
  end.

(** A nil bundle is the empty string. *)
Definition Resolve (registry : Registry) (installationNamespace : string) : go (result string) :=
  if negb (bool_decide (rs_CABundle (rg_Spec registry) = ""))
  then Ret (validate (rs_CABundle (rg_Spec registry)))
  else
    match rs_CABundleRef (rg_Spec registry) with
    | None => Ret (Ok "")
    | Some ref =>
        let namespace := if IsManagedByWorkloadScan registry
                         then installationNamespace else rg_Namespace registry in
        r ← readRef ref namespace;
        match r with
        | Err e => Ret (Err e)
        | Ok bundle => Ret (validate bundle)
        end
    end.
End cabundle.

(** ** The credentials *)

Definition createDockerConfigJSON (serverAddress data : string) : go (result string) :=
  check trigger (DockerLoadConfig data) wrap errorf "failed to load docker config";
  let store := serverAddress in
  let serverAddress :=
    if bool_decide (serverAddress = DefaultRegistry) then DefaultAuthKey else serverAddress in
  authConfig ←? trigger (DockerGetCredentials store serverAddress)
    wrap errorf "failed to get credentials from store";
  dockerConfig ←? trigger (OsMkdirTemp "" "dockerconfig-*")
    wrap errorf "failed to create temporary dockerconfig dir";
  let filename := path_Join [dockerConfig; "config.json"] in
  check trigger (DockerStoreCredentials store filename serverAddress authConfig.1 authConfig.2)
    wrap errorf "failed to store credentials";
  check trigger (DockerSave filename) wrap errorf "failed to save docker config";
  Ret (Ok dockerConfig).

Definition BuildDockerConfigForRegistry (registry : Registry) (installationNamespace : string)
  : go (result string) :=
  let secretNamespace := if IsManagedByWorkloadScan registry
                         then installationNamespace else rg_Namespace registry in
  let name := rs_AuthSecret (rg_Spec registry) in
  authSecret ←? trigger (KGet KSecret {| nn_Namespace := secretNamespace; nn_Name := name |})
    wrap errorf ("cannot get Secret " +:+ name);
  if negb (bool_decide (sec_Type authSecret = SecretTypeDockerConfigJson))
  then Ret (Err (errors_New ("secret is not of type " +:+ SecretTypeDockerConfigJson)))
  else
    dockerConfig ←? createDockerConfigJSON (rs_URI (rg_Spec registry))
                      (map_get (sec_Data authSecret) DockerConfigJsonKey)
      wrap errorf "cannot create dockerconfig file";
    check trigger (OsSetenv "DOCKER_CONFIG" dockerConfig) wrap errorf "cannot set DOCKER_CONFIG env";
    Ret (Ok dockerConfig).

(** ** Confinement *)

(** Secrets and ConfigMaps are read from one namespace only, and nothing is
    written to the cluster. *)
Definition reads_from (ns : string) A (e : Eff A) : Prop :=
  match e with
  | KGet KSecret key | KGet KConfigMap key => nn_Namespace key = ns
  | _ => writes e = false ∧ publishes e = false
  end.

Lemma Resolve_confined `{!X509} registry installationNamespace :
  calls (reads_from (secrets_namespace registry installationNamespace))
    (Resolve registry installationNamespace).
Proof.
  unfold Resolve. case_match; [done|]. case_match; [|done].
  apply calls_bind; [|intros []; done]. unfold readRef. fold (secrets_namespace registry installationNamespace).
  repeat case_match; try done; apply calls_try; try done; intros; by repeat case_match.
Qed.

Lemma BuildDockerConfig_confined registry installationNamespace :
  calls (reads_from (secrets_namespace registry installationNamespace))
    (BuildDockerConfigForRegistry registry installationNamespace).
Proof.
  unfold BuildDockerConfigForRegistry. apply calls_try; [done|]. intros. case_match; [done|].
  apply calls_try; [|by intros; apply calls_try].
  unfold createDockerConfigJSON. repeat (apply calls_try; [done|]; intros); done.
Qed.
