(* ===== verification/RegistryClient.v ===== *)
(** * The registry client

    [src/internal/handlers/registry/client.go]: the catalog of a registry, the
    tags of a repository, and the details of an image.  The client is its
    transport. *)

From stdpp Require Import prelude gmap strings list.
From S2P Require Import Prelude Prog Meta Conditions Registry ScanJob NodeScanJob StorageTypes GoPath Effects.

Definition ErrNotContainerImage := "not a container image".
Definition ErrNoPlatform := "no platform found".

Record ImageDetails := {
  id_Digest : string;
  id_Layers : list Layer;
  id_History : list History;
  id_Platform : CranePlatform
}.

(** The pages an iterator yields, up to the first error. *)
Fixpoint pages (err : error → error) (f : string → string) (ps : list (result (list string)))
  : result (list string) :=
  match ps with
  | [] => Ok []
  | Err e :: _ => Err (err e)
  | Ok xs :: ps' =>
      match pages err f ps' with
      | Ok rest => Ok ((f <$> xs) ++ rest)
      | Err e => Err e
      end
  end.

Section client.
Context (transport : Transport).

Definition Catalog (registry : string) : go (result (list string)) :=
  check trigger (NewPuller transport) wrap errorf "cannot create puller";
  catalogger ←? trigger (RemoteCatalog transport registry)
    wrap errorf ("cannot create catalogger for " +:+ registry);
  Ret (pages (errorf ("cannot iterate over repository " +:+ registry +:+ " contents"))
         (λ repo, path_Join [registry; repo]) catalogger).

Context `{!Names}.

Definition ListRepositoryContents (repo : NameRepository) : go (result (list string)) :=
  check trigger (NewPuller transport) wrap errorf "cannot create puller";
  lister ←? trigger (RemoteTags transport (nr_Name repo))
    wrap errorf ("cannot create lister for repository " +:+ nr_Name repo);
  Ret (pages (errorf "cannot iterate over repository contents") (TagString repo) lister).

Definition GetDescriptor (ref : Reference) : go (result Descriptor) :=
  desc ←? trigger (RemoteGet transport (ref_Name ref))
    wrap errorf ("cannot fetch descriptor for " +:+ quote (ref_String ref));
  Ret (Ok desc).

Context `{!MediaTypes}.

Definition IsContainerImageManifest (mediaType : string) (manifest : option Manifest) : bool :=
  match manifest with
  | None => false
  | Some manifest =>
      if negb (mt_IsImage mediaType) then false
      else if negb (bool_decide (mn_ArtifactType manifest = "")) then false
      else if negb (mt_IsConfig (mn_ConfigMediaType manifest)) then false
      else forallb mt_IsLayer (mn_LayerMediaTypes manifest)
  end.

Definition IsContainerImage (desc : Descriptor) : result bool :=
  if mt_IsIndex (ds_MediaType desc) then
    match ds_ParseIndexManifest desc with
    | Err e => Err (errorf "cannot parse index manifest" e)
    | Ok indexManifest =>
        if negb (bool_decide (ix_ArtifactType indexManifest = "")) then Ok false else Ok true
    end
  else if negb (mt_IsImage (ds_MediaType desc)) then Ok false
  else
    match ds_ParseManifest desc with
    | Err e => Err (errorf "cannot parse manifest" e)
    | Ok manifest => Ok (IsContainerImageManifest (ds_MediaType desc) (Some manifest))
    end.

Definition imageDetails (img : CraneImage) (platform : option CranePlatform) (label : string)
  : result ImageDetails :=
  match ci_MediaType img with
  | Err e => Err (errorf ("cannot read media type for " +:+ label) e)
  | Ok mediaType =>
  match ci_Manifest img with
  | Err e => Err (errorf ("cannot read manifest for " +:+ label) e)
  | Ok manifest =>
  if negb (IsContainerImageManifest mediaType manifest)
  then Err (errorf label (err_var ErrNotContainerImage))
  else
  match ci_ConfigFile img with
  | Err e => Err (errorf ("cannot read config for " +:+ label) e)
  | Ok cfgFile =>
  match ci_Digest img with
  | Err e => Err (errorf ("cannot compute image digest for " +:+ label) e)
  | Ok imageDigest =>
  match (match platform with Some p => Some p | None => cf_Platform cfgFile end) with
  | None => Err (errorf label (err_var ErrNoPlatform))
  | Some platform =>
  match ci_Layers img with
  | Err e => Err (errorf ("cannot read layers for " +:+ label) e)
  | Ok layers =>
      Ok {| id_History := cf_History cfgFile; id_Layers := layers; id_Platform := platform;
            id_Digest := imageDigest |}
  end end end end end end.

(** [digest] is the string form of the hash. *)
Definition GetImageDetailsFromIndex (imageIndex : CraneIndex) (digest : string)
    (platform : CranePlatform) : go (result ImageDetails) :=
  img ←? trigger (RemoteIndexImage transport imageIndex digest)
    wrap errorf ("cannot get image by digest " +:+ digest);
  Ret (imageDetails img (Some platform) digest).

(** Every caller passes a nil platform. *)
Definition GetImageDetails (ref : Reference) : go (result ImageDetails) :=
  img ←? trigger (RemoteImage transport (ref_Name ref))
    wrap errorf ("cannot fetch image " +:+ quote (ref_String ref));
  Ret (imageDetails img None (ref_Name ref)).

(** ** Facts *)

(** The calls of the client only reach the registry. *)
Definition registry_call A (e : Eff A) : Prop :=
  match e with
  | NewPuller t | RemoteCatalog t _ | RemoteTags t _ | RemoteGet t _ | RemoteImage t _
  | RemoteIndexImage t _ _ => t = transport
  | _ => False
  end.

Lemma Catalog_calls registry : calls registry_call (Catalog registry).
Proof. unfold Catalog. repeat (apply calls_try; [done|]; intros); done. Qed.
Lemma ListRepositoryContents_calls repo : calls registry_call (ListRepositoryContents repo).
Proof. unfold ListRepositoryContents. repeat (apply calls_try; [done|]; intros); done. Qed.
Lemma GetDescriptor_calls ref : calls registry_call (GetDescriptor ref).
Proof. unfold GetDescriptor. repeat (apply calls_try; [done|]; intros); done. Qed.
Lemma GetImageDetailsFromIndex_calls ix d p : calls registry_call (GetImageDetailsFromIndex ix d p).
Proof. unfold GetImageDetailsFromIndex. repeat (apply calls_try; [done|]; intros); done. Qed.
Lemma GetImageDetails_calls ref : calls registry_call (GetImageDetails ref).
Proof. unfold GetImageDetails. repeat (apply calls_try; [done|]; intros); done. Qed.

(** A page iterator that yields no error gives every element of every page,
    in order; otherwise nothing is kept. *)
Lemma pages_Ok err f ps xs :
  pages err f ps = Ok xs →
  ∃ yss, ps = Ok <$> yss ∧ xs = f <$> concat yss.
Proof.
  revert xs. induction ps as [|[ys|e] ps IH]; intros xs; simpl; [|destruct (pages err f ps)|]; try done.
  - intros [= <-]. by exists [].
  - intros [= <-]. destruct (IH _ eq_refl) as (yss & -> & ->). exists (ys :: yss).
    split; [done|]. simpl. by rewrite fmap_app.
Qed.

(** What the allow list of [IsContainerImageManifest] admits. *)
Lemma IsContainerImageManifest_spec mediaType m :
  IsContainerImageManifest mediaType (Some m) = true ↔
  mt_IsImage mediaType = true ∧ mn_ArtifactType m = "" ∧
  mt_IsConfig (mn_ConfigMediaType m) = true ∧
  ∀ l, l ∈ mn_LayerMediaTypes m → mt_IsLayer l = true.
Proof.
  unfold IsContainerImageManifest.
  assert (forallb mt_IsLayer (mn_LayerMediaTypes m) = true ↔
          ∀ l, l ∈ mn_LayerMediaTypes m → mt_IsLayer l = true) as Hl.
  { rewrite forallb_forall. by setoid_rewrite list_elem_of_In. }
  destruct (mt_IsImage mediaType), (bool_decide _) eqn:Ha, (mt_IsConfig _); simpl;
    rewrite ?bool_decide_eq_true, ?bool_decide_eq_false in Ha; rewrite ?Hl; intuition congruence.
Qed.

Lemma imageDetails_Ok img platform label d :
  imageDetails img platform label = Ok d →
  ∃ mediaType m cfg, ci_MediaType img = Ok mediaType ∧ ci_Manifest img = Ok (Some m) ∧
    IsContainerImageManifest mediaType (Some m) = true ∧ ci_ConfigFile img = Ok cfg ∧
    ci_Digest img = Ok (id_Digest d) ∧ ci_Layers img = Ok (id_Layers d) ∧
    id_History d = cf_History cfg ∧
    (if platform is Some p then id_Platform d = p else cf_Platform cfg = Some (id_Platform d)).
Proof.
  unfold imageDetails. intros Hd.
  repeat (case_match; simplify_eq; try done);
  match goal with Hb : negb (IsContainerImageManifest _ ?m) = false |- _ =>
    apply negb_false_iff in Hb; destruct m as [m|]; [|done] end;
  eexists _, _, _; split_and!; done.
Qed.
End client.
