(* ===== verification/VulnReportController.v ===== *)
(** * The VulnerabilityReport reconciler

    [src/internal/controller/vulnerabilityreport_controller.go]: it counts the
    reports of a ScanJob and moves the job to in-progress or complete. *)

From stdpp Require Import prelude gmap strings list.
From S2P Require Import Prelude Prog Meta Conditions Registry ScanJob NodeScanJob StorageTypes Effects.
Import ScanJob.

Section controller.
Context `{!StatusConditions}.

(** The update of the job computed from the number of its reports. *)
Definition progress (now : Z) (scanned : nat) (scanJob : ScanJob) : ScanJob :=
  let scanJob := with_counts (ss_ImagesCount (sj_Status scanJob)) (Z.of_nat scanned) scanJob in
  let wasFailed := IsFailed scanJob in
  if negb wasFailed then
    if bool_decide (ss_ScannedImagesCount (sj_Status scanJob) = ss_ImagesCount (sj_Status scanJob))
    then MarkComplete now ReasonScanJobAllImagesScanned "All images scanned successfully" scanJob
    else MarkInProgress now ReasonScanJobImageScanInProgress "Image scan in progress" scanJob
  else scanJob.

Definition Reconcile (req : NamespacedName) : go (result unit) :=
  r ← trigger (KGet KVulnerabilityReportMeta req);
  match r with
  | Err e =>
      if negb (IsNotFound e)
      then Ret (Err (errorf "unable to fetch the VulnerabilityReport" e))
      else Ret (Ok tt)
  | Ok vulnerabilityReport =>
      match om_DeletionTimestamp vulnerabilityReport with
      | Some _ => Ret (Ok tt)
      | None =>
          match om_Labels vulnerabilityReport !! LabelScanJobUIDKey with
          | None => Ret (Ok tt)
          | Some scanJobUID =>
              scanJobs ←? trigger (KList KScanJob [MatchingFields IndexScanJobMetadataUID scanJobUID])
                wrap errorf ("failed to get ScanJob by UID " +:+ scanJobUID);
              match scanJobs with
              | [] => Ret (Ok tt)
              | scanJob :: _ =>
                  if IsComplete scanJob then Ret (Ok tt)
                  else
                    reports ←? trigger (KList KVulnerabilityReportMeta
                                 [InNamespace (nn_Namespace req);
                                  MatchingLabels LabelScanJobUIDKey scanJobUID])
                      wrap errorf "failed to list VulnerabilityReports";
                    now ← trigger Now;
                    let wasFailed := IsFailed scanJob in
                    let scanJob := progress now (length reports) scanJob in
                    updated ←? trigger (KStatusUpdate KScanJob scanJob)
                      wrap errorf "failed to update ScanJob status";
                    _ ← (if negb wasFailed then RecordScanJobFinished updated else Ret tt);
                    Ret (Ok tt)
              end
          end
      end
  end.

(** ** Facts *)

Lemma progress_failed now n s :
  IsFailed s = true → progress now n s = with_counts (ss_ImagesCount (sj_Status s)) (Z.of_nat n) s.
Proof. intros Hf. unfold progress. change (IsFailed (with_counts _ _ s)) with (IsFailed s). by rewrite Hf. Qed.

Lemma progress_phase now n s :
  IsFailed s = false →
  in_phase (if bool_decide (Z.of_nat n = ss_ImagesCount (sj_Status s)) then Complete else InProgress)
    (progress now n s).
Proof.
  intros Hf. unfold progress. change (IsFailed (with_counts _ _ s)) with (IsFailed s).
  rewrite Hf. cbn [negb sj_Status with_counts ss_ScannedImagesCount ss_ImagesCount].
  case_bool_decide.
  - apply (exec_phase _ (OpComplete now _ _)).
  - apply (exec_phase _ (OpInProgress now _ _)).
Qed.

(** What it leaves of the job. *)
Lemma progress_meta now n j : sj_Meta (progress now n j) = sj_Meta j.
Proof. unfold progress. repeat case_match; try done. unfold MarkInProgress; by destruct (ss_StartTime _). Qed.
Lemma progress_spec now n j : sj_Spec (progress now n j) = sj_Spec j.
Proof. unfold progress. repeat case_match; try done. unfold MarkInProgress; by destruct (ss_StartTime _). Qed.
Lemma progress_counts now n j : ss_ImagesCount (sj_Status (progress now n j)) = ss_ImagesCount (sj_Status j).
Proof. unfold progress. repeat case_match; try done. unfold MarkInProgress; by destruct (ss_StartTime _). Qed.
Lemma progress_scanned now n j : ss_ScannedImagesCount (sj_Status (progress now n j)) = Z.of_nat n.
Proof. unfold progress. repeat case_match; try done. unfold MarkInProgress; by destruct (ss_StartTime _). Qed.

(** The job a trace shows the reconciler working on. *)
Definition fetched_job (tr : trace Eff) : option ScanJob :=
  match omap ev_list_scanjobs tr with
  | (_, Ok (j :: _)) :: _ => Some j
  | _ => None
  end.

(** [C6] Progress of a ScanJob, whatever the API server answers: the
    reconciler writes at most one object, the status of the ScanJob with the
    UID that the report it was called for carries as a label, and one if the
    reports could be listed; it writes nothing for a job that is already
    complete, and nothing when the report is being deleted or has no such
    label.  The reports it counts are those of the namespace of the request
    that carry the same label.  The job keeps its metadata, its
    specification and its number of images, and its scanned images are the
    reports counted; a failed job keeps its conditions; otherwise the job
    becomes complete exactly when the reports are as many as its images,
    and in progress when they are not. *)
Theorem report_progress {W} (h : handler Eff W) (w : W) (req : NamespacedName) :
  let tr := run_trace h (Reconcile req) w in
  length (List.filter is_write tr) = length (omap ev_status_update tr) ∧
  (length (omap ev_status_update tr) ≤ 1)%nat ∧
  (∀ opts reports, (opts, Ok reports) ∈ omap ev_list_reports tr → length (omap ev_status_update tr) = 1%nat) ∧
  ∀ written answer, (written, answer) ∈ omap ev_status_update tr →
    ∃ report uid job others reports,
      omap (ev_get KVulnerabilityReportMeta) tr = [(req, Ok report)] ∧
      om_DeletionTimestamp report = None ∧
      om_Labels report !! "sbomscanner.kubewarden.io/scanjob-uid" = Some uid ∧
      omap ev_list_scanjobs tr = [([MatchingFields "metadata.uid" uid], Ok (job :: others))] ∧
      IsComplete job = false ∧
      omap ev_list_reports tr =
        [([InNamespace (nn_Namespace req); MatchingLabels "sbomscanner.kubewarden.io/scanjob-uid" uid], Ok reports)] ∧
      sj_Meta written = sj_Meta job ∧ sj_Spec written = sj_Spec job ∧
      ss_ImagesCount (sj_Status written) = ss_ImagesCount (sj_Status job) ∧
      ss_ScannedImagesCount (sj_Status written) = Z.of_nat (length reports) ∧
      (IsFailed job = true →
         ss_Conditions (sj_Status written) = ss_Conditions (sj_Status job)) ∧
      (IsFailed job = false →
         in_phase (if bool_decide (Z.of_nat (length reports) = ss_ImagesCount (sj_Status job))
                   then Complete else InProgress) written).
Proof.
  wp_start. unfold Reconcile.
  wp_steps; (try unfold RecordScanJobFinished; wp_steps);
    (split; [done|split; [cbn; lia|split; [cbn; set_solver|]]]); intros written answer Hin; cbn in Hin;
    rewrite ?elem_of_nil in Hin; try done.
  all: apply list_elem_of_singleton in Hin; simplify_eq.
  all: eexists _, _, _, _, _; split_and!; try done.
  all: try apply progress_meta; try apply progress_spec; try apply progress_counts; try apply progress_scanned.
  all: try (intros Hf; by rewrite progress_failed).
  all: try (intros Hf; by apply progress_phase).
Qed.

(** Completions are counted once, by the writer that persists them:
    the reconciler increments the job counter only after a successful status
    update, only if the job it read was neither complete nor failed, and
    only if the persisted job is finished; and at most once. *)
Theorem completion_counted_once {W} (h : handler Eff W) (w : W) (req : NamespacedName) :
  let tr := run_trace h (Reconcile req) w in
  (length (omap ev_count tr) ≤ 1)%nat ∧
  (omap ev_count tr ≠ [] →
     ∃ job written persisted,
       fetched_job tr = Some job ∧ JobFinished job = false ∧
       omap ev_status_update tr = [(written, Ok persisted)] ∧
       JobFinished persisted = true ∧
       omap ev_count tr = [(jobResult persisted, scanJobSource persisted)]).
Proof.
  wp_start. unfold Reconcile.
  wp_steps; (try unfold RecordScanJobFinished; wp_steps);
    (split; [cbn; lia|]); cbn; try done; intros _.
  all: eexists _, _, _; split_and!; try done.
  all: try by apply negb_false_iff.
  all: unfold JobFinished; cbn; apply orb_false_iff; split; [done|by apply negb_true_iff].
Qed.
End controller.
