(* ===== verification/ScanJobController.v ===== *)
(** * The ScanJob reconciler

    [src/internal/controller/scanjob_controller.go]: a pending job is
    validated, given a snapshot of its Registry, published for the catalog
    and marked scheduled; old jobs of the registry are deleted first. *)

From stdpp Require Import prelude gmap strings list sorting.
From S2P Require Import Prelude Prog Meta Conditions Registry ScanJob NodeScanJob StorageTypes Effects History Messages.
Import ScanJob.

(** [validateScanJobTargets]: the reason and the error, or [None]. *)
Fixpoint check_conditions (repository : Repository) (target : ScanJobRepository)
    (registryName : string) (names : list string) : option (string * error) :=
  match names with
  | [] => None
  | n :: ns =>
      if existsb (λ mc, bool_decide (mc_Name mc = n)) (rp_MatchConditions repository)
      then check_conditions repository target registryName ns
      else Some (ReasonScanJobMatchConditionNotFound,
                 errors_New ("match condition " +:+ quote n +:+ " is not declared on repository " +:+
                   quote (sr_Name target) +:+ " of registry " +:+ quote registryName))
  end.

Fixpoint validate_targets (registry : Registry) (targets : list ScanJobRepository)
  : option (string * error) :=
  match targets with
  | [] => None
  | target :: ts =>
      match GetRepository registry (sr_Name target) with
      | None => Some (ReasonScanJobRepositoryNotFound,
                      errors_New ("repository " +:+ quote (sr_Name target) +:+
                        " is not declared on registry " +:+ quote (rg_Name registry)))
      | Some repository =>
          match check_conditions repository target (rg_Name registry) (sr_MatchConditions target) with
          | Some e => Some e
          | None => validate_targets registry ts
          end
      end
  end.

Definition validateScanJobTargets (scanJob : ScanJob) (registry : Registry)
  : option (string * error) :=
  validate_targets registry (sp_Repositories (sj_Spec scanJob)).

Section controller.
Context `{!StatusConditions, !GoTime, !GoSort, !ControllerUtil}.
Context `{!JSON Registry, !JSON CreateCatalogMessage}.

(** [ti.Before(tj)] on the creation timestamps. *)
Definition older (a b : ScanJob) : bool :=
  bool_decide (GetCreationTimestampFromAnnotation a < GetCreationTimestampFromAnnotation b)%Z.

Definition cleanupOldScanJobs (currentScanJob : ScanJob) : go (result unit) :=
  cleanup_history KScanJob older (λ scanJob, "failed to delete old ScanJob " +:+ sj_Name scanJob)
    [InNamespace (sj_Namespace currentScanJob);
     MatchingFields IndexScanJobSpecRegistry (sp_Registry (sj_Spec currentScanJob))]
    ("failed to list ScanJobs for registry " +:+ sp_Registry (sj_Spec currentScanJob)).

(** [reconcileScanJob] works on the job in place: it returns the job as it
    left it, and its error. *)
Definition reconcileScanJob (scanJob : ScanJob) : go (ScanJob * result unit) :=
  c ← cleanupOldScanJobs scanJob;
  match c with
  | Err e => Ret (scanJob, Err (errorf "failed to cleanup old ScanJobs" e))
  | Ok _ =>
  let registryName := sp_Registry (sj_Spec scanJob) in
  r ← trigger (KGet KRegistry {| nn_Namespace := sj_Namespace scanJob; nn_Name := registryName |});
  match r with
  | Err e =>
      if IsNotFound e then
        now ← trigger Now;
        Ret (MarkFailed now ReasonScanJobRegistryNotFound
               ("Registry " +:+ registryName +:+ " not found") scanJob, Ok tt)
      else Ret (scanJob, Err (errorf ("unable to get Registry " +:+ registryName) e))
  | Ok registry =>
  match validateScanJobTargets scanJob registry with
  | Some (reason, err) =>
      now ← trigger Now;
      Ret (MarkFailed now reason (Error err) scanJob, Ok tt)
  | None =>
  match om_Annotations (sj_Meta scanJob) !! AnnotationScanJobRegistryKey with
  | None =>
      match Marshal registry with
      | Err e => Ret (scanJob, Err (errorf "failed to marshal registry data" e))
      | Ok registryData =>
          let original := scanJob in
          match SetControllerReference "Registry" (rg_Meta registry) (sj_Meta scanJob) with
          | Err e => Ret (scanJob, Err (errorf "failed to set owner reference on ScanJob" e))
          | Ok m =>
              let scanJob := with_sj_Meta
                (with_Annotations
                   (<[AnnotationScanJobRegistryKey := registryData]> (om_Annotations m)) m) scanJob in
              p ← trigger (KPatch KScanJob original scanJob);
              match p with
              | Err e => Ret (scanJob, Err (errorf "failed to update ScanJob with registry data" e))
              | Ok patched => Ret (patched, Ok tt)
              end
          end
      end
  | Some _ =>
      let messageID := "createCatalog/" +:+ sj_UID scanJob in
      match Marshal {| ccm_ScanJob := {| o_Name := sj_Name scanJob;
                         o_Namespace := sj_Namespace scanJob; o_UID := sj_UID scanJob |} |} with
      | Err e => Ret (scanJob, Err (errorf "unable to marshal CreateCatalog message" e))
      | Ok message =>
          p ← trigger (PublishMsg CreateCatalogSubject messageID message);
          match p with
          | Err e => Ret (scanJob, Err (errorf "unable to publish CreateSBOM message" e))
          | Ok _ =>
              Ret (MarkScheduled ReasonScanJobScheduled
                     "ScanJob has been scheduled for processing by the controller" scanJob, Ok tt)
          end
      end
  end
  end
  end
  end.

Definition Reconcile (req : NamespacedName) : go (result unit) :=
  r ← trigger (KGet KScanJob req);
  match r with
  | Err e => if IsNotFound e then Ret (Ok tt)
             else Ret (Err (errorf "unable to get ScanJob" e))
  | Ok scanJob =>
      match om_DeletionTimestamp (sj_Meta scanJob) with
      | Some _ => Ret (Ok tt)
      | None =>
          if negb (IsPending scanJob) then Ret (Ok tt)
          else
            let scanJob := InitializeConditions scanJob in
            rr ← reconcileScanJob scanJob;
            let '(scanJob, reconcileErr) := rr in
            updated ←? trigger (KStatusUpdate KScanJob scanJob)
              wrap errorf "failed to update ScanJob status";
            _ ← RecordScanJobFinished updated;
            Ret reconcileErr
      end
  end.

(** ** The history limit *)

#[local] Instance older_order : StrictWeakOrder older.
Proof. apply key_order. Qed.

(** The history limit, whatever the API server answers: the clean-up
    lists the jobs of the registry of the current job, in its namespace, and
    deletes nothing else; the jobs it deletes are no newer than any job it
    keeps; it never goes below the limit, and when it succeeds exactly the
    limit is left (everything, if there were fewer). *)
Theorem history_limit {W} (h : handler Eff W) (w : W) (current : ScanJob) :
  let tr := run_trace h (cleanupOldScanJobs current) w in
  let res := run_result h (cleanupOldScanJobs current) w in
  ∃ answer,
    omap (ev_list KScanJob) tr =
      [([InNamespace (sj_Namespace current);
         MatchingFields IndexScanJobSpecRegistry (sp_Registry (sj_Spec current))], answer)] ∧
    match answer with
    | Err _ => length tr = 1%nat ∧ is_ok res = false
    | Ok items =>
        ∃ kept,
          items ≡ₚ (omap (ev_delete KScanJob) tr).*1 ++ kept ∧
          (∀ d k, d ∈ (omap (ev_delete KScanJob) tr).*1 → k ∈ kept → older k d = false) ∧
          (scanJobsHistoryLimit `min` length items ≤ length kept)%nat ∧
          (res = Ok tt → length kept = (scanJobsHistoryLimit `min` length items)%nat)
    end.
Proof. wp_start. apply cleanup_history_spec, older_order. Qed.

(** ** Scheduling *)

(** The clean-up only lists and deletes ScanJobs. *)
Lemma cleanup_obs {B} (f : obs Eff → option B) ext :
  (∀ opts a, f (Ev (KList KScanJob opts) a) = None) →
  (∀ j a, f (Ev (KDelete KScanJob j) a) = None) →
  Forall (obs_call (history_call KScanJob)) ext → omap f ext = [].
Proof.
  intros Hl Hd. apply omap_calls. intros A e a He. destruct e; try done; cbn in He; by subst.
Qed.

(** Runs a reconciliation up to the clean-up of a pending job, whose part of
    the trace is [ext]; the passes that stop earlier do nothing. *)
Lemma cleanup_silent ext :
  Forall (obs_call (history_call KScanJob)) ext →
  omap ev_publish ext = [] ∧ omap (ev_get KScanJob) ext = [] ∧
  omap (ev_get KRegistry) ext = [] ∧ omap ev_status_update ext = [] ∧
  omap (ev_patch KScanJob) ext = [].
Proof. intros Hext. split_and!; by apply cleanup_obs. Qed.

Ltac start_reconcile job ext E :=
  wp_start; unfold Reconcile; apply wp_bind; intros r _; cbn [wp trigger];
  destruct r as [job|e]; [|case_match; cbn; (split; [lia|set_solver])];
  destruct (om_DeletionTimestamp (sj_Meta job)) eqn:Hdel; [cbn; (split; [lia|set_solver])|];
  destruct (IsPending job) eqn:Hp; [|cbn; (split; [lia|set_solver])];
  cbn [negb]; cbv zeta; apply wp_bind; unfold reconcileScanJob;
  eapply wp_cut; [apply wp_calls, cleanup_history_calls|];
  intros tr' c (ext & -> & E%cleanup_silent).

Lemma publish_valid {W} (h : handler Eff W) (w : W) (req : NamespacedName) :
  let tr := run_trace h (Reconcile req) w in
  (length (omap ev_publish tr) ≤ 1)%nat ∧
  ∀ subject id data answer, (subject, id, data, answer) ∈ omap ev_publish tr →
    ∃ job registry,
      omap (ev_get KScanJob) tr = [(req, Ok job)] ∧
      IsPending job = true ∧ om_DeletionTimestamp (sj_Meta job) = None ∧
      omap (ev_get KRegistry) tr =
        [({| nn_Namespace := sj_Namespace job; nn_Name := sp_Registry (sj_Spec job) |}, Ok registry)] ∧
      validateScanJobTargets job registry = None ∧
      is_Some (om_Annotations (sj_Meta job) !! AnnotationScanJobRegistryKey) ∧
      subject = CreateCatalogSubject ∧ id = "createCatalog/" +:+ sj_UID job ∧
      Marshal {| ccm_ScanJob := {| o_Name := sj_Name job; o_Namespace := sj_Namespace job; o_UID := sj_UID job |} |} = Ok data ∧
      ∃ written a, omap ev_status_update tr = [(written, a)] ∧
        in_phase (if is_ok answer then Scheduled else Pending) written.
Proof.
  start_reconcile job ext E.
  destruct E as (E1 & E2 & E3 & E4 & _).
  wp_steps; (try unfold RecordScanJobFinished; wp_steps);
    rewrite !omap_app, E1, E2, E3, E4; cbn;
    (split; [lia|]); intros subject id data answer Hin; rewrite ?elem_of_nil in Hin; try done.
  all: apply list_elem_of_singleton in Hin; simplify_eq.
  all: eexists _, _; split_and!; try done.
  all: eexists _, _; split; [done|].
  all: cbn [is_ok]; lazymatch goal with
       | |- in_phase Scheduled (MarkScheduled ?r ?m ?j) => apply (exec_phase j (OpScheduled r m))
       | |- in_phase Pending (InitializeConditions ?j) => apply (exec_phase j OpInitialize)
       end.
Qed.

(** The other outcomes of a reconciliation, whatever the environment
    answers.  A job is patched at most once per pass, and only to add the
    snapshot of the registry just fetched to a job that has none; such a
    pass publishes nothing.  A job whose registry does not exist, or whose
    targets the registry does not declare, is written as [Failed] and
    nothing is published for it. *)
Theorem snapshot_before_publish {W} (h : handler Eff W) (w : W) (req : NamespacedName) :
  let tr := run_trace h (Reconcile req) w in
  (length (omap (ev_patch KScanJob) tr) ≤ 1)%nat ∧
  (∀ base patched answer, (base, patched, answer) ∈ omap (ev_patch KScanJob) tr →
     omap ev_publish tr = [] ∧
     om_Annotations (sj_Meta base) !! AnnotationScanJobRegistryKey = None ∧
     ∃ registry snapshot,
       omap (ev_get KRegistry) tr =
         [({| nn_Namespace := sj_Namespace base; nn_Name := sp_Registry (sj_Spec base) |}, Ok registry)] ∧
       Marshal registry = Ok snapshot ∧
       om_Annotations (sj_Meta patched) =
         <[AnnotationScanJobRegistryKey := snapshot]> (om_Annotations (sj_Meta base)) ∧
       sj_Spec patched = sj_Spec base ∧ sj_Status patched = sj_Status base) ∧
  (∀ job key answer,
     omap (ev_get KScanJob) tr = [(req, Ok job)] → omap (ev_get KRegistry) tr = [(key, answer)] →
     match answer with
     | Ok registry => validateScanJobTargets job registry ≠ None
     | Err e => IsNotFound e = true
     end →
     omap ev_publish tr = [] ∧ omap (ev_patch KScanJob) tr = [] ∧
     ∃ written a, omap ev_status_update tr = [(written, a)] ∧ in_phase Failed written).
Proof.
  start_reconcile job ext E. destruct E as (E1 & E2 & E3 & E4 & E5).
  wp_steps; (try unfold RecordScanJobFinished; wp_steps);
    rewrite !omap_app, E1, E2, E3, E4, E5; cbn; (split; [lia|split]).
  all: try (intros base patched answer Hin; rewrite ?elem_of_nil in Hin; by destruct Hin).
  all: try (intros base patched answer Hin; apply list_elem_of_singleton in Hin; simplify_eq;
    match goal with Hs : SetControllerReference _ _ _ = _ |- _ =>
      destruct (SetControllerReference_keeps _ _ _ _ Hs) as (_ & _ & _ & _ & Han) end;
    split_and!; [done|done|]; eexists _, _; split_and!; [done|done| |done|done];
    cbn; by rewrite Han).
  all: intros ? ? ? [= <-] [= <- <-] Hbad; try congruence.
  all: split_and!; try done; eexists _, _; (split; [done|]).
  all: lazymatch goal with
       | |- in_phase Failed (MarkFailed ?n ?r ?m ?j) => apply (exec_phase j (OpFailed n r m))
       end.
Qed.

(** ** What is asked of a job *)

(** A repository of the registry goes by its name, and on Docker Hub also by its
    name with [library/] in front; the first one counts. *)
Definition goes_by (registry : Registry) (repository : Repository) (name : string) : Prop :=
  rp_Name repository = name ∨
  rs_URI (rg_Spec registry) = "index.docker.io" ∧ "library/" +:+ rp_Name repository = name.
Definition declared (registry : Registry) (name : string) (repository : Repository) : Prop :=
  ∃ before after, rs_Repositories (rg_Spec registry) = before ++ repository :: after ∧
    goes_by registry repository name ∧ Forall (λ r, ~ goes_by registry r name) before.

(** Every target is a repository of the registry, with the match conditions it names. *)
Definition targets_exist (registry : Registry) (job : ScanJob) : Prop :=
  ∀ target, target ∈ sp_Repositories (sj_Spec job) →
    ∃ repository, declared registry (sr_Name target) repository ∧
      ∀ name, name ∈ sr_MatchConditions target → ∃ condition, condition ∈ rp_MatchConditions repository ∧ mc_Name condition = name.

(** The conditions of a job that are true, among those that end its being pending. *)
Definition phase_types : list string := ["Scheduled"; "InProgress"; "Complete"; "Failed"].
Definition true_only (types : list string) (job : ScanJob) : Prop :=
  ∀ t, t ∈ phase_types → condition_true (ss_Conditions (sj_Status job)) t = bool_decide (t ∈ types).

Lemma find_first {A} (P : A → bool) l x :
  List.find P l = Some x ↔ ∃ before after, l = before ++ x :: after ∧ P x = true ∧ Forall (λ y, P y = false) before.
Proof.
  split.
  - induction l as [|y l IH]; [done|]. cbn. destruct (P y) eqn:Hy; [intros [= <-]; by exists [], l|].
    intros (before & after & -> & Hx & Hb)%IH. exists (y :: before), after. by repeat constructor.
  - intros (before & after & -> & Hx & Hb). induction Hb as [|y before Hy _ IH]; cbn; [by rewrite Hx|by rewrite Hy].
Qed.

Lemma goes_by_test registry r name :
  bool_decide (rp_Name r = name) ||
  bool_decide (rp_Name r = if bool_decide (rs_URI (rg_Spec registry) = DefaultRegistry) then TrimPrefix name "library/" else name)
    = true ↔ goes_by registry r name.
Proof.
  unfold goes_by. rewrite orb_true_iff, !bool_decide_eq_true. change DefaultRegistry with "index.docker.io".
  case_bool_decide as Hu; [|tauto]. unfold TrimPrefix. destruct (CutPrefix name "library/") as [rest|] eqn:Hc.
  - apply CutPrefix_Some in Hc as ->. split; [intros [? | ->]; auto|]. intros [?|[_ He]]; [auto|right].
    by apply (inj (String.append "library/")) in He.
  - split; [tauto|]. intros [?|[_ <-]]; [auto|]. by rewrite CutPrefix_app in Hc.
Qed.

Lemma GetRepository_declared registry name r : GetRepository registry name = Some r ↔ declared registry name r.
Proof.
  unfold GetRepository, declared. rewrite find_first. split; intros (before & after & Hl & Hr & Hb); exists before, after.
  all: (split; [done|]); (split; [by apply goes_by_test|]); (eapply Forall_impl; [exact Hb|]).
  all: cbn beta; intros r' Hr'.
  - rewrite <- goes_by_test. congruence.
  - rewrite <- goes_by_test in Hr'. by apply not_true_is_false.
Qed.

Lemma check_conditions_declared repository target name names :
  check_conditions repository target name names = None ↔
  ∀ n, n ∈ names → ∃ condition, condition ∈ rp_MatchConditions repository ∧ mc_Name condition = n.
Proof.
  induction names as [|n names IH]; cbn [check_conditions]; [split; [by intros _ n ?%elem_of_nil|done]|].
  destruct (existsb _ _) eqn:He.
  - rewrite IH. apply existsb_exists in He as (c & Hc%list_elem_of_In & Hn%bool_decide_eq_true).
    split; [|by intros Hall n' Hn'; apply Hall; right]. intros Hall n' [->|Hn']%elem_of_cons; [by exists c|by apply Hall].
  - split; [done|]. intros Hall. destruct (Hall n) as (c & Hc & Hn); [by left|].
    rewrite <- not_true_iff_false, existsb_exists in He. destruct He. exists c. split; [by apply list_elem_of_In|by apply bool_decide_eq_true].
Qed.

Lemma validateScanJobTargets_None job registry : validateScanJobTargets job registry = None ↔ targets_exist registry job.
Proof.
  unfold validateScanJobTargets, targets_exist. induction (sp_Repositories (sj_Spec job)) as [|t ts IH]; cbn [validate_targets].
  { split; [by intros _ t ?%elem_of_nil|done]. }
  destruct (GetRepository registry (sr_Name t)) as [r|] eqn:Hr.
  - destruct (check_conditions r t (rg_Name registry) (sr_MatchConditions t)) as [e|] eqn:Hc.
    + split; [done|]. intros Hall. destruct (Hall t) as (r' & Hd%GetRepository_declared & Hm); [by left|].
      rewrite Hr in Hd. injection Hd as <-. apply check_conditions_declared with (target := t) (name := rg_Name registry) in Hm. congruence.
    + rewrite IH. apply GetRepository_declared in Hr. rewrite check_conditions_declared in Hc.
      split; [|by intros Hall t' Ht'; apply Hall; right]. intros Hall t' [->|Ht']%elem_of_cons; [by exists r|by apply Hall].
  - split; [done|]. intros Hall. destruct (Hall t) as (r' & Hd%GetRepository_declared & _); [by left|]. congruence.
Qed.

Lemma phase_true_only phase job :
  in_phase phase job →
  true_only match phase with Pending => [] | Scheduled => ["Scheduled"] | InProgress => ["InProgress"]
            | Complete => ["Complete"] | Failed => ["Failed"] end job.
Proof.
  intros (_ & Hs & Hi & Hc & Hf) t Ht. unfold phase_types in Ht. rewrite !elem_of_cons in Ht.
  unfold IsScheduled, IsInProgress, IsComplete, IsFailed in *.
  destruct Ht as [->|[->|[->|[->|?%elem_of_nil]]]]; [..|done].
  - etransitivity; [exact Hs|by destruct phase].
  - etransitivity; [exact Hi|by destruct phase].
  - etransitivity; [exact Hc|by destruct phase].
  - etransitivity; [exact Hf|by destruct phase].
Qed.

Lemma IsPending_true_only job : IsPending job = true → true_only [] job.
Proof.
  unfold IsPending, IsScheduled, IsInProgress, IsComplete, IsFailed. rewrite !andb_true_iff, !negb_true_iff.
  intros [[[Hs Hi] Hc] Hf] t Ht. unfold phase_types in Ht. rewrite !elem_of_cons in Ht. rewrite bool_decide_false by by intros ?%elem_of_nil.
  by destruct Ht as [->|[->|[->|[->|?%elem_of_nil]]]].
Qed.

End controller.
