(* ===== verification/RegistryScanRunner.v ===== *)
(** * The registry scan runner

    [src/internal/controller/registry_scan_runner.go]: every ten seconds it
    looks at each Registry, merges the rescan requests found in its
    annotations, and creates a ScanJob when one is requested or due. *)

From stdpp Require Import prelude gmap strings list sorting.
From S2P Require Import Prelude Prog Meta Conditions Registry ScanJob NodeScanJob StorageTypes Effects.
Import ScanJob.

(** [sets.Set[string]] as a [gset], the map of sets as a [gmap]. *)
Record tracking := {
  wildcardRepos : gset string;
  condsByRepo : gmap string (gset string)
}.

Definition empty_tracking : tracking := {| wildcardRepos := ∅; condsByRepo := ∅ |}.

(** The body of the loop of [mergeRescanRequest]. *)
Definition merge_repository (t : tracking) (repo : ScanJobRepository) : tracking :=
  if bool_decide (sr_Name repo ∈ wildcardRepos t) then t
  else if bool_decide (sr_MatchConditions repo = []) then
    {| wildcardRepos := {[ sr_Name repo ]} ∪ wildcardRepos t;
       condsByRepo := delete (sr_Name repo) (condsByRepo t) |}
  else
    {| wildcardRepos := wildcardRepos t;
       condsByRepo :=
         <[sr_Name repo :=
             list_to_set (sr_MatchConditions repo) ∪ default ∅ (condsByRepo t !! sr_Name repo)]>
           (condsByRepo t) |}.

Definition mergeRescanRequest (req : RescanRequest) (t : tracking) : bool * tracking :=
  if bool_decide (rr_Repositories req = []) then (true, t)
  else (false, fold_left merge_repository (rr_Repositories req) t).

(** ** What a list of requests asks for *)

(** The whole repository is requested, or one of its match conditions. *)
Definition wants_all (es : list ScanJobRepository) (r : string) : Prop :=
  ∃ e, e ∈ es ∧ sr_Name e = r ∧ sr_MatchConditions e = [].
Definition wants (es : list ScanJobRepository) (r c : string) : Prop :=
  ∃ e, e ∈ es ∧ sr_Name e = r ∧ c ∈ sr_MatchConditions e.

(** The tracking sets agree with the entries merged so far. *)
Record tracks (t : tracking) (es : list ScanJobRepository) : Prop := {
  tr_wild : ∀ r, r ∈ wildcardRepos t ↔ wants_all es r;
  tr_disjoint : ∀ r, r ∈ wildcardRepos t → condsByRepo t !! r = None;
  tr_some : ∀ r s, condsByRepo t !! r = Some s → s ≠ ∅ ∧ ∀ c, c ∈ s ↔ wants es r c;
  tr_none : ∀ r c, condsByRepo t !! r = None → r ∉ wildcardRepos t → ¬ wants es r c
}.

Lemma wants_all_snoc es e r :
  wants_all (es ++ [e]) r ↔ wants_all es r ∨ (sr_Name e = r ∧ sr_MatchConditions e = []).
Proof. unfold wants_all. set_solver. Qed.
Lemma wants_snoc es e r c :
  wants (es ++ [e]) r c ↔ wants es r c ∨ (sr_Name e = r ∧ c ∈ sr_MatchConditions e).
Proof. unfold wants. set_solver. Qed.

Lemma tracks_nil : tracks empty_tracking [].
Proof.
  split; simpl; intros *; rewrite ?lookup_empty; try done; unfold wants_all, wants; set_solver.
Qed.

Lemma list_to_set_nonempty (cs : list string) : cs ≠ [] → (list_to_set cs : gset string) ≠ ∅.
Proof. destruct cs as [|c cs]; [done|]. intros _. simpl. set_solver. Qed.

Lemma merge_repository_tracks t es e :
  tracks t es → tracks (merge_repository t e) (es ++ [e]).
Proof.
  intros [Hw Hd Hs Hn]. unfold merge_repository.
  case_bool_decide as Hin; [|case_bool_decide as Hc].
  - (* already wildcarded *)
    split; intros r *; rewrite ?wants_all_snoc, ?wants_snoc.
    + rewrite Hw. split; [by left|]. intros [?|[<- _]]; [done|by apply Hw].
    + apply Hd.
    + intros Hr. destruct (Hs _ _ Hr) as [? Hiff]. split; [done|]. intros c.
      rewrite wants_snoc, Hiff. split; [by left|]. intros [?|[<- _]]; [done|].
      by rewrite (Hd _ Hin) in Hr.
    + intros Hr Hnw [?|[<- _]]; [by eapply Hn|done].
  - (* becomes wildcarded *)
    split; simpl; intros r *; rewrite ?wants_all_snoc, ?wants_snoc.
    + rewrite elem_of_union, elem_of_singleton, Hw. split; [intros [->|?]; auto|intros [?|[<- _]]; auto].
    + rewrite elem_of_union, elem_of_singleton. intros [->|Hr]; [apply lookup_delete_eq|].
      rewrite lookup_delete_None. right. by apply Hd.
    + rewrite lookup_delete_Some. intros [Hne Hr]. destruct (Hs _ _ Hr) as [? Hiff].
      split; [done|]. intros c. rewrite wants_snoc, Hiff. split; [by left|]. by intros [?|[??]].
    + rewrite lookup_delete_None, not_elem_of_union, not_elem_of_singleton.
      intros [?|Hr] [? Hnw]; [congruence|]. intros [?|[? _]]; [by eapply Hn|congruence].
  - (* conditions are added *)
    split; simpl; intros r *; rewrite ?wants_all_snoc, ?wants_snoc.
    + rewrite Hw. split; [by left|]. by intros [?|[_ ?]].
    + intros Hr. rewrite lookup_insert_ne by congruence. by apply Hd.
    + rewrite lookup_insert_Some. intros [[<- <-]|[Hne Hr]].
      * split; [pose proof (list_to_set_nonempty _ Hc); set_solver|]. intros c.
        rewrite wants_snoc, elem_of_union, elem_of_list_to_set.
        destruct (condsByRepo t !! sr_Name e) as [s|] eqn:He; simpl.
        -- rewrite (proj2 (Hs _ _ He)). tauto.
        -- pose proof (Hn _ c He Hin). set_solver.
      * destruct (Hs _ _ Hr) as [? Hiff]. split; [done|]. intros c.
        rewrite wants_snoc, Hiff. split; [by left|]. by intros [?|[? _]].
    + rewrite lookup_insert_None. intros [Hr ?] Hnw [?|[? _]]; [by eapply Hn|done].
Qed.

Lemma merge_repositories_tracks t es es' :
  tracks t es → tracks (fold_left merge_repository es' t) (es ++ es').
Proof.
  revert t es. induction es' as [|e es' IH]; intros t es Ht; simpl; [by rewrite app_nil_r|].
  replace (es ++ e :: es') with ((es ++ [e]) ++ es') by by rewrite <- app_assoc.
  by apply IH, merge_repository_tracks.
Qed.

(** The canonical list of targets for a list of entries: sorted by name, one
    target per repository, either all of it or the requested conditions. *)
Record canonical (targets es : list ScanJobRepository) : Prop := {
  cn_sorted : StronglySorted String.le (sr_Name <$> targets);
  cn_nodup : NoDup (sr_Name <$> targets);
  cn_conditions : ∀ x, x ∈ targets →
    StronglySorted String.le (sr_MatchConditions x) ∧ NoDup (sr_MatchConditions x) ∧
    (sr_MatchConditions x = [] ↔ wants_all es (sr_Name x)) ∧
    (sr_MatchConditions x ≠ [] → ∀ c, c ∈ sr_MatchConditions x ↔ wants es (sr_Name x) c);
  cn_names : ∀ r, r ∈ sr_Name <$> targets ↔ wants_all es r ∨ ∃ c, wants es r c
}.

Lemma wants_perm es es' r c : es ≡ₚ es' → wants es r c → wants es' r c.
Proof. intros Hp (e & He & ?). exists e. by rewrite <- Hp. Qed.
Lemma wants_all_perm es es' r : es ≡ₚ es' → wants_all es r → wants_all es' r.
Proof. intros Hp (e & He & ?). exists e. by rewrite <- Hp. Qed.

#[export] Instance wants_Proper : Proper ((≡ₚ) ==> (=) ==> (=) ==> iff) wants.
Proof. intros es es' Hp r ? <- c ? <-. split; by apply wants_perm. Qed.
#[export] Instance wants_all_Proper : Proper ((≡ₚ) ==> (=) ==> iff) wants_all.
Proof. intros es es' Hp r ? <-. split; by apply wants_all_perm. Qed.
#[export] Instance canonical_Proper : Proper ((=) ==> (≡ₚ) ==> iff) canonical.
Proof.
  assert (∀ ts es es', es ≡ₚ es' → canonical ts es → canonical ts es') as Hone.
  { intros ts es es' Hp [Hs Hn Hc Hr]. split; try done.
    - intros x Hx. destruct (Hc x Hx) as (?&?&Hall&Hw). split_and!; try done.
      + by rewrite <- Hp.
      + intros Hne c. rewrite <- Hp. by apply Hw.
    - intros r. setoid_rewrite <- Hp. apply Hr. }
  intros ts ? <- es es' Hp. split; by apply Hone.
Qed.

Lemma canonical_nil : canonical [] [].
Proof. split; simpl; try constructor; unfold wants_all, wants; set_solver. Qed.

(** Two sorted duplicate-free lists of names with the same elements agree. *)
Lemma sorted_names_unique (l1 l2 : list string) :
  StronglySorted String.le l1 → StronglySorted String.le l2 → NoDup l1 → NoDup l2 →
  (∀ x, x ∈ l1 ↔ x ∈ l2) → l1 = l2.
Proof.
  intros. apply (StronglySorted_unique String.le); [done..|]. by apply NoDup_Permutation.
Qed.

Lemma canonical_head_unique x y es :
  (∃ ts, canonical ts es ∧ x ∈ ts) → (∃ ts, canonical ts es ∧ y ∈ ts) →
  sr_Name x = sr_Name y → x = y.
Proof.
  intros (ts & Hc & Hx) (ts' & Hc' & Hy) Hname.
  destruct (cn_conditions _ _ Hc x Hx) as (Hs & Hd & Hall & Hw).
  destruct (cn_conditions _ _ Hc' y Hy) as (Hs' & Hd' & Hall' & Hw').
  destruct x as [n cs], y as [n' cs']; simpl in *; subst n'. f_equal.
  destruct (decide (cs = [])) as [->|Hne].
  { symmetry. apply Hall', Hall. done. }
  destruct (decide (cs' = [])) as [->|Hne']; [apply Hall, Hall'; done|].
  apply sorted_names_unique; try done. intros c. rewrite Hw, Hw'; done.
Qed.

Lemma fmap_inj_in {A B} (f : A → B) (l1 l2 : list A) :
  (∀ x y, x ∈ l1 → y ∈ l2 → f x = f y → x = y) → f <$> l1 = f <$> l2 → l1 = l2.
Proof.
  revert l2. induction l1 as [|x l1 IH]; intros [|y l2] Hf Heq; try done.
  injection Heq as Hxy Hl. f_equal; [apply Hf; set_solver|].
  apply IH; [|done]. intros; apply Hf; set_solver.
Qed.

Lemma canonical_unique ts ts' es : canonical ts es → canonical ts' es → ts = ts'.
Proof.
  intros Hc Hc'. apply (fmap_inj_in sr_Name).
  - intros x y Hx Hy. apply (canonical_head_unique _ _ es); eauto.
  - apply sorted_names_unique; [apply Hc|apply Hc'|apply Hc|apply Hc'|].
    intros r. by rewrite (cn_names _ _ Hc), (cn_names _ _ Hc').
Qed.

Section runner.
Context `{!StatusConditions, !GoSort, !MapRange, !Retry, !JSON RescanRequest}.

(** [UnsortedList] followed by [sort.Strings]. *)
Definition sorted_list (n : nat) (s : gset string) : list string :=
  sort_Strings (range n (elements s)).

Definition buildMergedTargets (t : tracking) : list ScanJobRepository :=
  let repoNamesSet := wildcardRepos t ∪ dom (condsByRepo t) in
  (λ name, {| sr_Name := name;
              sr_MatchConditions :=
                match condsByRepo t !! name with
                | Some conds => sorted_list 1 conds
                | None => []
                end |}) <$> sorted_list 0 repoNamesSet.

(** One annotation: [None] when it is malformed. *)
Definition parse_request (raw : string) : option RescanRequest :=
  if bool_decide (raw = "") then Some {| rr_Repositories := [] |}
  else match Unmarshal raw with Ok req => Some req | Err _ => None end.

(** The body of the loop of [collectRescanRequests]. *)
Definition collect_step (annotations : gmap string string) (st : bool * tracking)
    (rescanRequest : string) : bool * tracking :=
  let raw := map_get annotations rescanRequest in
  match parse_request raw with
  | None => st
  | Some req =>
      let '(everything, t) := mergeRescanRequest req st.2 in
      (if everything then true else st.1, t)
  end.

Definition rescan_keys (annotations : gmap string string) : list string :=
  filter (λ key, HasPrefix key AnnotationRescanRequestedKeyPrefix = true)
    (range 2 (map_to_list annotations).*1).

Definition collectRescanRequests (registry : Registry)
  : list string * list ScanJobRepository * bool :=
  let annotations := om_Annotations (rg_Meta registry) in
  let rescanRequests := rescan_keys annotations in
  if bool_decide (rescanRequests = []) then ([], [], false)
  else
    let '(scanEverything, t) :=
      fold_left (collect_step annotations) rescanRequests (false, empty_tracking) in
    if (scanEverything : bool) then (rescanRequests, [], true)
    else (rescanRequests, buildMergedTargets t, false).

Definition shouldCreateScanJob (registry : Registry) (lastScanJob : option ScanJob)
    (hasRescanRequest : bool) : go bool :=
  if hasRescanRequest then Ret true
  else
    match rs_ScanInterval (rg_Spec registry) with
    | None => Ret false
    | Some interval =>
        if bool_decide (interval = 0%Z) then Ret false
        else
          match lastScanJob with
          | None => Ret true
          | Some job =>
              match ss_CompletionTime (sj_Status job) with
              | None => Ret true
              | Some completionTime =>
                  now ← trigger Now;
                  Ret (negb (bool_decide (now - completionTime < interval)%Z))
              end
          end
    end.

(** One attempt of [removeRescanAnnotations]. *)
Definition remove_annotations_once (registry : Registry) (keys : list string) : go (result unit) :=
  current ←? trigger (KGet KRegistry (key_of (rg_Meta registry)))
    wrap errorf "failed to get current registry";
  let annotations := om_Annotations (rg_Meta current) in
  let changed := existsb (λ key, bool_decide (is_Some (annotations !! key))) keys in
  if negb changed then Ret (Ok tt)
  else
    let current := with_rg_Meta
      (with_Annotations (fold_left (λ m key, delete key m) keys annotations) (rg_Meta current))
      current in
    check trigger (KUpdate KRegistry current) wrap errorf "failed to update registry";
    Ret (Ok tt).

Definition removeRescanAnnotations (registry : Registry) (keys : list string) : go (result unit) :=
  if bool_decide (keys = []) then Ret (Ok tt)
  else
    check RetryOnConflict (remove_annotations_once registry keys)
      wrap errorf "failed to remove rescan annotations";
    Ret (Ok tt).

(** [CreationTimestamp.After]. *)
Definition newer (a b : ScanJob) : bool :=
  bool_decide (om_CreationTimestamp (sj_Meta b) < om_CreationTimestamp (sj_Meta a))%Z.

Definition getLastScanJob (registry : Registry) : go (result ScanJob) :=
  items ←? trigger (KList KScanJob
              [InNamespace (rg_Namespace registry);
               MatchingFields IndexScanJobSpecRegistry (rg_Name registry)])
    wrap errorf "failed to list scan jobs";
  match sort_Slice newer items with
  | [] => Ret (Err (NewNotFound "scanjobs" ("for registry " +:+ rg_Name registry)))
  | last :: _ => Ret (Ok last)
  end.

Definition createScanJob (registry : Registry) (repositories : list ScanJobRepository)
  : go (result unit) :=
  let labels : gmap string string :=
    if bool_decide (map_get (om_Labels (rg_Meta registry)) LabelWorkloadScanKey = LabelWorkloadScanValue)
    then <[LabelWorkloadScanKey := LabelWorkloadScanValue]> ∅ else ∅ in
  annotations ← InjectAnnotations {[ AnnotationScanJobTriggerKey := "runner" ]};
  let scanJob := new_ScanJob
    (new_meta "" (rg_Name registry +:+ "-") (rg_Namespace registry) labels annotations)
    (rg_Name registry) repositories in
  check trigger (KCreate KScanJob scanJob) wrap errorf "failed to create ScanJob";
  Ret (Ok tt).

(** The rest of [checkRegistryForScan], once the last job is known. *)
Definition scan_if_due (registry : Registry) (rescanRequests : list string)
    (mergedTargets : list ScanJobRepository) (scanEverything : bool)
    (lastScanJob : option ScanJob) : go (result unit) :=
  let hasRescanRequest := negb (bool_decide (rescanRequests = [])) in
  due ← shouldCreateScanJob registry lastScanJob hasRescanRequest;
  if negb due then Ret (Ok tt)
  else
    let targets := if hasRescanRequest && negb scanEverything then mergedTargets else [] in
    check createScanJob registry targets
      wrap errorf ("failed to create scan job for registry " +:+ rg_Name registry);
    if hasRescanRequest then
      check removeRescanAnnotations registry rescanRequests
        wrap errorf ("failed to remove rescan annotations for registry " +:+ rg_Name registry);
      Ret (Ok tt)
    else Ret (Ok tt).

Definition checkRegistryForScan (registry : Registry) : go (result unit) :=
  let '(rescanRequests, mergedTargets, scanEverything) := collectRescanRequests registry in
  last ← getLastScanJob registry;
  match last with
  | Err e =>
      if negb (IsNotFound e)
      then Ret (Err (errorf ("failed to get last scan job for registry " +:+ rg_Name registry) e))
      else scan_if_due registry rescanRequests mergedTargets scanEverything None
  | Ok job =>
      if negb (IsComplete job) && negb (IsFailed job) then Ret (Ok tt)
      else scan_if_due registry rescanRequests mergedTargets scanEverything (Some job)
  end.

(** An error of one registry is logged and the loop goes on. *)
Definition scan_one (_ : unit) (registry : Registry) : go (result unit) :=
  _ ← checkRegistryForScan registry; Ret (Ok tt).

Definition scanRegistries : go (result unit) :=
  registries ←? trigger (KList KRegistry []) wrap errorf "failed to list registries";
  for_each scan_one tt registries.

Definition tick : go unit :=
  r ← scanRegistries;
  trigger (CountTick "registry" (if is_ok r then "success" else "error")).

(** ** Merging the requests *)

Lemma sorted_list_spec n (s : gset string) :
  StronglySorted String.le (sorted_list n s) ∧ NoDup (sorted_list n s) ∧
  (∀ x, x ∈ sorted_list n s ↔ x ∈ s) ∧ (sorted_list n s = [] ↔ s = ∅).
Proof.
  unfold sorted_list. assert (sort_Strings (range n (elements s)) ≡ₚ elements s) as Hp.
  { by rewrite sort_Strings_perm, range_perm. }
  split_and!.
  - apply sort_Strings_sorted.
  - rewrite Hp. apply NoDup_elements.
  - intros x. rewrite Hp. apply elem_of_elements.
  - rewrite <- leibniz_equiv_iff, <- elements_empty_iff. split; intros He.
    + rewrite He in Hp. by apply Permutation_nil in Hp.
    + rewrite He in *. by apply Permutation_nil_r in Hp.
Qed.

Lemma buildMergedTargets_canonical t es : tracks t es → canonical (buildMergedTargets t) es.
Proof.
  intros [Hw Hd Hs Hn].
  destruct (sorted_list_spec 0 (wildcardRepos t ∪ dom (condsByRepo t))) as (Hsort & Hnd & Hin & _).
  assert (sr_Name <$> buildMergedTargets t =
          sorted_list 0 (wildcardRepos t ∪ dom (condsByRepo t))) as Hnames.
  { unfold buildMergedTargets. rewrite <- list_fmap_compose. apply list_fmap_id. }
  split; rewrite ?Hnames; try done.
  - intros x Hx. apply list_elem_of_fmap in Hx as (name & -> & Hname). simpl.
    apply Hin in Hname. destruct (condsByRepo t !! name) as [cs|] eqn:Hcs.
    + destruct (sorted_list_spec 1 cs) as (? & ? & Hcin & Hempty).
      destruct (Hs _ _ Hcs) as [Hne Hiff]. split_and!; try done.
      * rewrite Hempty. split; [done|]. intros Hall%Hw%Hd. congruence.
      * intros _ c. by rewrite Hcin, Hiff.
    + split_and!; try constructor; try done.
      intros _. apply Hw. rewrite elem_of_union, elem_of_dom, Hcs in Hname.
      destruct Hname as [?|[? ?]]; done.
  - intros r. rewrite Hin, elem_of_union, elem_of_dom, Hw. split.
    + intros [?|[cs Hcs]]; [by left|right]. destruct (Hs _ _ Hcs) as [Hne Hiff].
      apply set_choose_L in Hne as [c Hc]. exists c. by apply Hiff.
    + intros [?|[c Hc]]; [by left|].
      destruct (decide (r ∈ wildcardRepos t)) as [?|Hnw]; [left; by apply Hw|right].
      destruct (condsByRepo t !! r) eqn:Hr; [done|]. by destruct (Hn r c Hr Hnw).
Qed.

(** The requests read from the annotations, and their entries. *)
Definition requests (annotations : gmap string string) (keys : list string) : list RescanRequest :=
  omap (λ key, parse_request (map_get annotations key)) keys.
Definition entries (annotations : gmap string string) (keys : list string)
  : list ScanJobRepository :=
  requests annotations keys ≫= rr_Repositories.

Lemma collect_fold annotations keys b t es :
  tracks t es →
  let '(b', t') := fold_left (collect_step annotations) keys (b, t) in
  b' = b || existsb (λ q, bool_decide (rr_Repositories q = [])) (requests annotations keys) ∧
  tracks t' (es ++ entries annotations keys).
Proof.
  revert b t es. induction keys as [|key keys IH]; intros b t es Ht.
  { cbn. by rewrite orb_false_r, app_nil_r. }
  cbn [fold_left]. unfold collect_step at 2. unfold entries, requests.
  cbn [omap list_omap]. destruct (parse_request (map_get annotations key)) as [q|]; [|by apply IH].
  unfold mergeRescanRequest. cbn [existsb mbind list_bind fst snd].
  case_bool_decide as Hq.
  - rewrite Hq. specialize (IH true t es Ht). destruct (fold_left _ _ _) as [b' t'].
    destruct IH as [-> Ht']. rewrite orb_true_l, orb_true_r. done.
  - specialize (IH b _ _ (merge_repositories_tracks _ _ (rr_Repositories q) Ht)).
    destruct (fold_left (collect_step annotations) keys _) as [b' t'].
    destruct IH as [-> Ht']. split; [done|]. by rewrite <- app_assoc in Ht'.
Qed.

Lemma rescan_keys_perm annotations :
  rescan_keys annotations ≡ₚ
  filter (λ key, HasPrefix key AnnotationRescanRequestedKeyPrefix = true)
    (map_to_list annotations).*1.
Proof. unfold rescan_keys. by rewrite range_perm. Qed.

Lemma collect_keys registry :
  (collectRescanRequests registry).1.1 = rescan_keys (om_Annotations (rg_Meta registry)).
Proof. unfold collectRescanRequests. case_bool_decide; [done|]. by repeat case_match. Qed.

Lemma elem_of_rescan_keys annotations key :
  key ∈ rescan_keys annotations ↔
  is_Some (annotations !! key) ∧ HasPrefix key AnnotationRescanRequestedKeyPrefix = true.
Proof.
  rewrite rescan_keys_perm, list_elem_of_filter, list_elem_of_fmap.
  split; [intros [? ([k v] & -> & Hk)]|intros [[v Hv] ?]; split; [done|exists (key, v)]];
    rewrite ?elem_of_map_to_list in *; eauto.
Qed.

Lemma collect_spec registry :
  let annotations := om_Annotations (rg_Meta registry) in
  let '(_, targets, everything) := collectRescanRequests registry in
  let keys := rescan_keys annotations in
  (everything = true ↔ ∃ q, q ∈ requests annotations keys ∧ rr_Repositories q = []) ∧
  (if everything then targets = [] else canonical targets (entries annotations keys)).
Proof.
  cbv zeta. unfold collectRescanRequests.
  set (annotations := om_Annotations (rg_Meta registry)).
  case_bool_decide as Hnil.
  { rewrite Hnil. split; [split; [done|intros (?&?&?); set_solver]|apply canonical_nil]. }
  pose proof (collect_fold annotations (rescan_keys annotations) false empty_tracking []
                tracks_nil) as Hfold.
  destruct (fold_left _ _ _) as [b t]. destruct Hfold as [Hb Ht]. rewrite orb_false_l in Hb.
  assert (b = true ↔ ∃ q, q ∈ requests annotations (rescan_keys annotations) ∧
            rr_Repositories q = []) as Hiff.
  { rewrite Hb, existsb_exists. setoid_rewrite bool_decide_eq_true.
    by setoid_rewrite list_elem_of_In. }
  destruct b; split_and!; try done. by apply buildMergedTargets_canonical.
Qed.

(** [C10] Merging the rescan requests of a Registry.  The keys returned are
    the rescan annotations; a full scan is asked for exactly when one of the
    well-formed requests names no repository; otherwise the targets are the
    canonical list of what the requests ask for: sorted, one per repository,
    with all of a repository when some request asks for all of it and
    exactly the union of the requested match conditions when none does. *)
Theorem rescan_merge (registry : Registry) :
  let annotations := om_Annotations (rg_Meta registry) in
  let '(keys, targets, everything) := collectRescanRequests registry in
  (∀ key, key ∈ keys ↔ is_Some (annotations !! key) ∧
                       HasPrefix key AnnotationRescanRequestedKeyPrefix = true) ∧
  (everything = true ↔ ∃ q, q ∈ requests annotations keys ∧ rr_Repositories q = []) ∧
  (if everything then targets = [] else canonical targets (entries annotations keys)).
Proof.
  pose proof (collect_spec registry) as Hspec. pose proof (collect_keys registry) as Hk.
  cbv zeta in *. destruct (collectRescanRequests registry) as [[keys targets] everything].
  simpl in Hk. subst keys. split; [apply elem_of_rescan_keys|done].
Qed.

(** ** Creating jobs *)

#[local] Instance newer_order : StrictWeakOrder newer.
Proof. split; unfold newer; intros *; rewrite ?bool_decide_eq_true, ?bool_decide_eq_false; lia. Qed.

Lemma newest_first items last rest :
  sort_Slice newer items = last :: rest →
  last ∈ items ∧
  ∀ j, j ∈ items → (om_CreationTimestamp (sj_Meta j) ≤ om_CreationTimestamp (sj_Meta last))%Z.
Proof.
  intros Hs. pose proof (sort_Slice_sorted newer items newer_order) as Hsorted.
  rewrite Hs in Hsorted. apply StronglySorted_inv in Hsorted as [_ Hall].
  split; [rewrite <- (elem_of_sort_Slice newer), Hs; set_solver|].
  intros j Hj. rewrite <- (elem_of_sort_Slice newer), Hs in Hj.
  apply elem_of_cons in Hj as [->|Hj]; [done|].
  rewrite Forall_forall in Hall. specialize (Hall j Hj). simpl in Hall.
  unfold newer in Hall. apply bool_decide_eq_false in Hall. lia.
Qed.

(** The job the runner compares with, from the answer of the API server. *)
Definition last_job_of (answer : result (list ScanJob)) (last : option ScanJob) : Prop :=
  match answer, last with
  | Ok items, Some job => job ∈ items ∧ ∀ j, j ∈ items →
      (om_CreationTimestamp (sj_Meta j) ≤ om_CreationTimestamp (sj_Meta job))%Z
  | Ok items, None => items = []
  | Err e, None => IsNotFound e = true
  | Err _, Some _ => False
  end.

(** A rescan annotation of the registry. *)
Definition rescan_annotation (registry : Registry) (key : string) : Prop :=
  is_Some (om_Annotations (rg_Meta registry) !! key) ∧
  ∃ suffix, key = "sbomscanner.kubewarden.io/rescan-requested-" +:+ suffix.

(** A scan is due: requested, or the interval has passed at time [nows]. *)
Definition due (registry : Registry) (last : option ScanJob) (nows : list Z) : Prop :=
  (∃ key, rescan_annotation registry key) ∨
  ∃ interval, rs_ScanInterval (rg_Spec registry) = Some interval ∧ interval ≠ 0%Z ∧
    match last ≫= λ job, ss_CompletionTime (sj_Status job) with
    | None => True
    | Some t => ∃ now, now ∈ nows ∧ (interval ≤ now - t)%Z
    end.

Lemma rescan_keys_annotation registry key :
  key ∈ rescan_keys (om_Annotations (rg_Meta registry)) ↔ rescan_annotation registry key.
Proof.
  rewrite elem_of_rescan_keys. unfold rescan_annotation, HasPrefix. f_equiv.
  change AnnotationRescanRequestedKeyPrefix with "sbomscanner.kubewarden.io/rescan-requested-".
  setoid_rewrite <- CutPrefix_Some. destruct (CutPrefix key _) as [suffix|]; naive_solver.
Qed.

Lemma rescan_keys_none registry :
  rescan_keys (om_Annotations (rg_Meta registry)) = [] ↔ ~ ∃ key, rescan_annotation registry key.
Proof.
  setoid_rewrite <- rescan_keys_annotation. split; [intros -> (key & ?%elem_of_nil); done|].
  intros Hn. apply elem_of_nil_inv. intros key Hk. eauto.
Qed.

(** What the rescan annotations ask for: everything, when one of the well-formed
    requests names no repository, and the canonical list of their entries
    otherwise. *)
Definition asked (registry : Registry) (targets : list ScanJobRepository) : Prop :=
  let annotations := om_Annotations (rg_Meta registry) in
  ∃ keys, (∀ key, key ∈ keys ↔ rescan_annotation registry key) ∧
    ((∃ q, q ∈ requests annotations keys ∧ rr_Repositories q = []) ∧ targets = [] ∨
     (∀ q, q ∈ requests annotations keys → rr_Repositories q ≠ []) ∧ canonical targets (entries annotations keys)).

Lemma collect_asked registry : asked registry (collectRescanRequests registry).1.2.
Proof.
  exists (rescan_keys (om_Annotations (rg_Meta registry))). split; [intros key; apply rescan_keys_annotation|].
  pose proof (collect_spec registry) as Hs. cbv zeta in Hs.
  destruct (collectRescanRequests registry) as [[keys targets] everything]. destruct Hs as [He Ht]. cbn.
  destruct everything; [left; split; [by apply He|done]|right]. split; [|done].
  intros q Hq Hn. by assert (false = true) by (apply He; eauto).
Qed.

(** A job has finished: it is complete, or has failed. *)
Definition finished (job : ScanJob) : Prop :=
  condition_true (ss_Conditions (sj_Status job)) "Complete" = true ∨
  condition_true (ss_Conditions (sj_Status job)) "Failed" = true.

(** The annotations of [current] without [keys], everything else kept. *)
Definition without_keys (keys : list string) (current written : Registry) : Prop :=
  ∃ annotations, written = with_rg_Meta (with_Annotations annotations (rg_Meta current)) current ∧
    ∀ k, annotations !! k =
      if bool_decide (k ∈ keys) then None else om_Annotations (rg_Meta current) !! k.

Lemma delete_keys (keys : list string) (m : gmap string string) k :
  fold_left (λ m key, delete key m) keys m !! k = if bool_decide (k ∈ keys) then None else m !! k.
Proof.
  revert m. induction keys as [|key keys IH]; intros m; simpl; [done|].
  rewrite IH. repeat case_bool_decide; try set_solver.
  - subst. rewrite lookup_delete_None. set_solver.
  - apply lookup_delete_ne. set_solver.
Qed.

(** A call of the removal, and what its updates write. *)
Definition removal_call A (e : Eff A) : Prop :=
  match e with KGet KRegistry _ | KUpdate KRegistry _ => True | _ => False end.
Definition removal_ok (registry : Registry) (keys : list string) (ext : trace Eff) : Prop :=
  Forall (obs_call removal_call) ext ∧
  ∀ written a, (written, a) ∈ omap (ev_update KRegistry) ext →
    ∃ current, (key_of (rg_Meta registry), Ok current) ∈ omap (ev_get KRegistry) ext ∧
      without_keys keys current written.

Lemma removal_spec registry keys tr0 :
  wp any_answer (removeRescanAnnotations registry keys) tr0
    (λ tr _, ∃ ext, tr = tr0 ++ ext ∧ removal_ok registry keys ext).
Proof.
  unfold removeRescanAnnotations. case_bool_decide.
  { exists []. rewrite app_nil_r. split; [done|]. split; [constructor|]. set_solver. }
  apply wp_try. eapply wp_mono; [|apply (wp_retry _ _ (λ tr, ∃ ext, tr = tr0 ++ ext ∧ removal_ok registry keys ext)
    (λ tr _, ∃ ext, tr = tr0 ++ ext ∧ removal_ok registry keys ext))].
  { by intros tr [[]|e]. }
  { exists []. rewrite app_nil_r. split; [done|]. split; [constructor|]. set_solver. }
  intros tr (ext & -> & Hcalls & Hext). unfold remove_annotations_once.
  cut (∀ ext', Forall (obs_call removal_call) ext' →
         (∀ written a, (written, a) ∈ omap (ev_update KRegistry) ext' →
            ∃ current, (key_of (rg_Meta registry), Ok current) ∈ omap (ev_get KRegistry) ext' ∧
              without_keys keys current written) →
         ∃ ext0, (tr0 ++ ext) ++ ext' = tr0 ++ ext0 ∧ removal_ok registry keys ext0).
  { intros Happ. wp_steps; rewrite <- ?(app_assoc (tr0 ++ ext)).
    all: (split; [|intros _ _ _]); apply Happ; try (by repeat constructor);
      intros written b Hin; cbn in Hin; try set_solver.
    all: apply list_elem_of_singleton in Hin; simplify_eq; eexists; (split; [by left|]).
    all: eexists; (split; [reflexivity|]); intros k; apply delete_keys. }
  intros ext' Hc' Hu'. exists (ext ++ ext'). split; [by rewrite app_assoc|].
  split; [by apply Forall_app|]. intros written b. rewrite !omap_app. setoid_rewrite elem_of_app.
  intros [Hin|Hin]; [destruct (Hext _ _ Hin) as (c & ? & ?)|destruct (Hu' _ _ Hin) as (c & ? & ?)];
    exists c; auto.
Qed.

Lemma removal_silent {B} (f : obs Eff → option B) registry keys ext :
  (∀ key a, f (Ev (KGet KRegistry key) a) = None) →
  (∀ r a, f (Ev (KUpdate KRegistry r) a) = None) →
  removal_ok registry keys ext → omap f ext = [].
Proof.
  intros Hg Hu [Hc _]. revert Hc. apply omap_calls. intros A e a He. destruct e; try done;
    match goal with k : kind |- _ => by destruct k end.
Qed.

Lemma shouldCreate_spec registry last tr Q :
  let requested := negb (bool_decide (rescan_keys (om_Annotations (rg_Meta registry)) = [])) in
  (∀ ext b, (ext = [] ∨ ∃ now, ext = [Ev Now now]) →
     (b = true ↔ due registry last (omap ev_now ext)) → Q (tr ++ ext) b) →
  wp any_answer (shouldCreateScanJob registry last requested) tr Q.
Proof.
  cbv zeta. intros HQ. unfold shouldCreateScanJob. rewrite <- (app_nil_r tr).
  case_bool_decide as Hk; cbn [negb].
  2: { apply HQ; [by left|]. split; [|done]. intros _. left.
       setoid_rewrite <- rescan_keys_annotation. destruct (rescan_keys _) as [|key l]; [done|]. exists key. by left. }
  apply rescan_keys_none in Hk.
  assert (∀ nows, due registry last nows ↔ ∃ interval, rs_ScanInterval (rg_Spec registry) = Some interval ∧ interval ≠ 0%Z ∧
    match last ≫= λ job, ss_CompletionTime (sj_Status job) with
    | None => True | Some t => ∃ now, now ∈ nows ∧ (interval ≤ now - t)%Z end) as Hdue by (intros; unfold due; tauto).
  destruct (rs_ScanInterval _) as [i|] eqn:Hi; [|apply HQ; [by left|rewrite Hdue; naive_solver]].
  case_bool_decide as Hz; [apply HQ; [by left|rewrite Hdue; naive_solver]|].
  destruct last as [job|]; [|apply HQ; [by left|rewrite Hdue; naive_solver]].
  cbn in Hdue. destruct (ss_CompletionTime _) as [t|]; [|apply HQ; [by left|rewrite Hdue; naive_solver]].
  apply wp_bind. intros now _. cbn [wp]. rewrite app_nil_r. apply HQ; [right; eauto|]. rewrite Hdue. cbn.
  rewrite negb_true_iff, bool_decide_eq_false. split.
  - intros Hn. exists i. split_and!; [done..|]. exists now. split; [by left|lia].
  - intros (? & [= <-] & _ & now' & ->%list_elem_of_singleton & Hle). lia.
Qed.

(** What a part of a trace may show about jobs and the Registry. *)
Definition job_for (registry : Registry) (targets : list ScanJobRepository) (job : ScanJob) : Prop :=
  sp_Registry (sj_Spec job) = om_Name (rg_Meta registry) ∧
  om_Namespace (sj_Meta job) = om_Namespace (rg_Meta registry) ∧
  sp_Repositories (sj_Spec job) = targets ∧
  om_Labels (sj_Meta job) =
    if bool_decide (om_Labels (rg_Meta registry) !! "sbomscanner.kubewarden.io/workloadscan" = Some "true")
    then {[ "sbomscanner.kubewarden.io/workloadscan" := "true" ]} else ∅.

Record scan_trace (registry : Registry) (keys : list string) (targets : list ScanJobRepository)
    (last : option ScanJob) (tr : trace Eff) : Prop := {
  st_once : (length (omap (ev_create KScanJob) tr) ≤ 1)%nat;
  st_job : ∀ job answer, (job, answer) ∈ omap (ev_create KScanJob) tr →
    job_for registry targets job;
  st_due : omap (ev_create KScanJob) tr ≠ [] ↔ due registry last (omap ev_now tr);
  st_update : ∀ written a, (written, a) ∈ omap (ev_update KRegistry) tr →
    (∃ job created, omap (ev_create KScanJob) tr = [(job, Ok created)]) ∧
    ∃ current, (key_of (rg_Meta registry), Ok current) ∈ omap (ev_get KRegistry) tr ∧
      without_keys keys current written;
  st_list : omap (ev_list KScanJob) tr = []
}.

Lemma scan_trace_quiet registry keys targets last tr :
  ~ due registry last (omap ev_now tr) → omap (ev_create KScanJob) tr = [] → omap (ev_update KRegistry) tr = [] →
  omap (ev_list KScanJob) tr = [] → scan_trace registry keys targets last tr.
Proof. intros Hd Hc Hu Hl. split; rewrite ?Hc, ?Hu; simpl; try lia; try done; set_solver. Qed.

Lemma createScanJob_spec registry targets tr0 :
  wp any_answer (createScanJob registry targets) tr0 (λ tr r,
    ∃ fields job answer, tr = tr0 ++ [Ev TraceFields fields; Ev (KCreate KScanJob job) answer] ∧
      job_for registry targets job ∧ is_ok r = is_ok answer).
Proof.
  unfold createScanJob, InjectAnnotations. cbv zeta. apply wp_bind, wp_bind. intros fields _. cbn [wp].
  set (job := new_ScanJob _ _ _).
  assert (job_for registry targets job) as Hjob.
  { subst job. split_and!; [done..|]. cbn [sj_Meta new_ScanJob new_meta om_Labels].
    change LabelWorkloadScanKey with "sbomscanner.kubewarden.io/workloadscan". change LabelWorkloadScanValue with "true".
    unfold map_get. destruct (om_Labels (rg_Meta registry) !! "sbomscanner.kubewarden.io/workloadscan") as [v|]; cbn; [|done].
    by repeat case_bool_decide; simplify_eq. }
  wp_steps; rewrite <- app_assoc; eexists fields, job, _; by split_and!.
Qed.

Lemma scan_if_due_spec registry targets everything last tr0 :
  let keys := rescan_keys (om_Annotations (rg_Meta registry)) in
  (if negb (bool_decide (keys = [])) && negb everything then targets else []) = targets →
  wp any_answer (scan_if_due registry keys targets everything last) tr0 (λ tr _,
    ∃ ext, tr = tr0 ++ ext ∧ scan_trace registry keys targets last ext).
Proof.
  cbv zeta. intros Htg. unfold scan_if_due. cbv zeta. apply wp_bind, shouldCreate_spec.
  intros ext b Hext Hb.
  assert (omap (ev_create KScanJob) ext = [] ∧ omap (ev_update KRegistry) ext = [] ∧
          omap (ev_list KScanJob) ext = [] ∧ omap (ev_get KRegistry) ext = [])
    as (E1 & E2 & E3 & E4) by (destruct Hext as [->|[now ->]]; done).
  destruct b; cbn [negb]; [|exists ext; split; [done|apply scan_trace_quiet; [by rewrite <- Hb|done..]]].
  rewrite Htg. apply wp_try. eapply wp_mono; [|apply createScanJob_spec].
  intros tr r (fields & job & answer & -> & Hjob & Hok). rewrite <- app_assoc.
  assert (∀ ext', removal_ok registry (rescan_keys (om_Annotations (rg_Meta registry))) ext' →
            (ext' ≠ [] → is_ok answer = true) →
            scan_trace registry (rescan_keys (om_Annotations (rg_Meta registry))) targets last
              (ext ++ [Ev TraceFields fields; Ev (KCreate KScanJob job) answer] ++ ext')) as Hst.
  { intros ext' Hrm Hans.
    assert (∀ B (f : obs Eff → option B), omap f (ext ++ [Ev TraceFields fields;
      Ev (KCreate KScanJob job) answer] ++ ext') = omap f ext ++ omap f [Ev TraceFields fields;
      Ev (KCreate KScanJob job) answer] ++ omap f ext') as Happ by (intros; by rewrite !omap_app).
    pose proof (removal_silent (ev_create KScanJob) _ _ _ ltac:(done) ltac:(done) Hrm) as R1.
    pose proof (removal_silent (ev_list KScanJob) _ _ _ ltac:(done) ltac:(done) Hrm) as R2.
    pose proof (removal_silent ev_now _ _ _ ltac:(done) ltac:(done) Hrm) as R3.
    split; rewrite !Happ, ?E1, ?E2, ?E3, ?E4, ?R1, ?R2, ?R3; cbn; try done.
    - intros j a Hin. apply list_elem_of_singleton in Hin. by simplify_eq.
    - rewrite app_nil_r, <- Hb. done.
    - intros written a Hin. split; [|destruct Hrm as [_ Hrm]; by eapply Hrm].
      destruct answer as [created|]; [by eauto|]. destruct ext'; [set_solver|by specialize (Hans ltac:(done))]. }
  destruct r as [[]|e].
  - wp_step.
    + apply wp_try. eapply wp_mono; [|apply removal_spec]. intros tr r (ext' & -> & Hrm).
      destruct r as [[]|e]; cbn [wp]; eexists; rewrite <- !app_assoc; (split; [reflexivity|]);
        by apply Hst.
    + eexists; split; [reflexivity|]. specialize (Hst []). rewrite app_nil_r in Hst. apply Hst; [|done].
      split; [constructor|set_solver].
  - eexists; split; [reflexivity|]. specialize (Hst []). rewrite app_nil_r in Hst. apply Hst; [|done].
    split; [constructor|set_solver].
Qed.

Lemma collect_targets registry :
  let r := collectRescanRequests registry in
  (if negb (bool_decide (rescan_keys (om_Annotations (rg_Meta registry)) = [])) && negb r.2
   then r.1.2 else []) = r.1.2.
Proof.
  cbv zeta. unfold collectRescanRequests. case_bool_decide; [done|].
  destruct (fold_left _ _ _) as [[] t]; done.
Qed.

(** [C23] Creating ScanJobs from a Registry, whatever the environment
    answers.  Each look lists the jobs of the namespace of the registry whose
    registry it is, and creates at most one job: only when the most recent of
    them, if any, has finished (is complete or has failed) and a scan is due (a
    rescan annotation is present, or the scan interval, when there is one, has
    elapsed since its completion), and always when that is so.  The job is for
    that registry, targets what the rescan requests ask for, and carries the
    workload-scan label exactly when the registry does.  The Registry is only
    ever updated after the job was created, to the version just read without the
    rescan annotations that were seen, everything else kept. *)
Theorem scan_only_when_due {W} (h : handler Eff W) (w : W) (registry : Registry) :
  let tr := run_trace h (checkRegistryForScan registry) w in
  let name := om_Name (rg_Meta registry) in
  let namespace := om_Namespace (rg_Meta registry) in
  (length (omap (ev_create KScanJob) tr) ≤ 1)%nat ∧
  (∃ listed, omap (ev_list KScanJob) tr = [([InNamespace namespace; MatchingFields "spec.registry" name], listed)] ∧
     let may_scan last := (∀ j, last = Some j → finished j) ∧ due registry last (omap ev_now tr) in
     (omap (ev_create KScanJob) tr ≠ [] → ∃ last, last_job_of listed last ∧ may_scan last) ∧
     (is_ok listed = true → (∀ last, last_job_of listed last → may_scan last) → omap (ev_create KScanJob) tr ≠ [])) ∧
  (∀ job answer, (job, answer) ∈ omap (ev_create KScanJob) tr → ∃ targets, asked registry targets ∧ job_for registry targets job) ∧
  (∀ written a, (written, a) ∈ omap (ev_update KRegistry) tr →
     (∃ job created, omap (ev_create KScanJob) tr = [(job, Ok created)]) ∧
     ∃ current keys, ({| nn_Namespace := namespace; nn_Name := name |}, Ok current) ∈ omap (ev_get KRegistry) tr ∧
       (∀ key, key ∈ keys ↔ rescan_annotation registry key) ∧ without_keys keys current written).
Proof.
  wp_start. unfold checkRegistryForScan. pose proof (collect_asked registry) as Hasked.
  pose proof (collect_keys registry) as Hkeys. pose proof (collect_targets registry) as Htg.
  destruct (collectRescanRequests registry) as [[keys targets] everything].
  simpl in Hkeys, Htg, Hasked. subst keys.
  match goal with |- wp _ _ _ ?Q => set (Post := Q) end.
  pose (opts := [InNamespace (om_Namespace (rg_Meta registry)); MatchingFields "spec.registry" (om_Name (rg_Meta registry))]).
  assert (∀ answer last ext r, last_job_of answer last → (∀ j, last = Some j → finished j) →
            scan_trace registry (rescan_keys (om_Annotations (rg_Meta registry))) targets last ext →
            Post ([Ev (KList KScanJob opts) answer] ++ ext) r) as Hout.
  { intros answer last ext r Hl Hf [Ho Hj Hd Hu Hn]. split_and!; [done| | |].
    - exists answer. rewrite omap_app, Hn. split; [done|]. split; [|intros _ Hall; by apply Hd, Hall]. intros Hc.
      exists last. split_and!; [done..|]. by apply Hd.
    - intros job a Hin. exists targets. split; [done|]. by apply (Hj job a).
    - intros written a Hin. destruct (Hu written a Hin) as [Hc (current & Hcur & Hwk)]. split; [done|].
      exists current, (rescan_keys (om_Annotations (rg_Meta registry))). split_and!; [done| |done]. intros key. apply rescan_keys_annotation. }
  assert (∀ answer r, (is_ok answer = true → ∃ last, last_job_of answer last ∧ ~ (∀ j, last = Some j → finished j)) →
    Post [Ev (KList KScanJob opts) answer] r) as Hquiet.
  { intros answer r Hno. split_and!; cbn; [lia| |set_solver..]. exists answer. split; [done|]. split; [done|].
    intros (last & Hl & Hnf)%Hno Hall _. by destruct Hnf, (Hall last). }
  apply wp_bind. unfold getLastScanJob. apply wp_try. intros answer _. cbn [wp].
  destruct answer as [items|e].
  - match goal with |- wp _ (match ?l with _ => _ end) _ _ => destruct l as [|last rest] eqn:Hs end;
      cbn [wp].
    + change (IsNotFound (NewNotFound _ _)) with true. cbn [negb].
      eapply wp_mono; [|by apply scan_if_due_spec]. intros tr r (ext & -> & Hst).
      eapply (Hout (Ok items) None); [|done|done]. apply (f_equal length) in Hs. rewrite length_sort_Slice in Hs.
      by apply length_zero_iff_nil in Hs.
    + apply newest_first in Hs. destruct (negb (IsComplete last) && negb (IsFailed last)) eqn:Hf; cbn [wp].
      * apply Hquiet. intros _. exists (Some last). split; [done|]. intros Hfin. apply andb_true_iff in Hf as [Hf1%negb_true_iff Hf2%negb_true_iff].
        by destruct (Hfin last eq_refl) as [Hc|Hc]; [pose proof (eq_trans (eq_sym Hc) Hf1)|pose proof (eq_trans (eq_sym Hc) Hf2)].
      * eapply wp_mono; [|by apply scan_if_due_spec]. intros tr r (ext & -> & Hst).
        eapply (Hout (Ok items) (Some last)); [done| |done]. intros j [= <-]. unfold finished.
        apply andb_false_iff in Hf as [Hf%negb_false_iff|Hf%negb_false_iff]; [by left|by right].
  - rewrite IsNotFound_errorf. destruct (negb (IsNotFound e)) eqn:Hnf; cbn [wp].
    + apply Hquiet. done.
    + eapply wp_mono; [|by apply scan_if_due_spec]. intros tr r (ext & -> & Hst).
      eapply (Hout (Err e) None); [|done|done]. by apply negb_false_iff.
Qed.

(** Malformed requests are skipped when the targets are merged, but
    they still count as a request: a Registry all of whose rescan
    annotations are malformed has no target and no request for everything,
    and the job created for it (with an empty target list) scans the whole
    registry. *)
Theorem malformed_rescan_scans_all {W} (h : handler Eff W) (w : W) (registry : Registry)
    (Hbad : ∀ key, key ∈ rescan_keys (om_Annotations (rg_Meta registry)) →
              parse_request (map_get (om_Annotations (rg_Meta registry)) key) = None) :
  (collectRescanRequests registry).1.2 = [] ∧ (collectRescanRequests registry).2 = false ∧
  ∀ job answer,
    (job, answer) ∈ omap (ev_create KScanJob) (run_trace h (checkRegistryForScan registry) w) →
    sp_Repositories (sj_Spec job) = [].
Proof.
  assert (∀ keys, (∀ key, key ∈ keys → parse_request (map_get (om_Annotations (rg_Meta registry)) key) = None) →
            requests (om_Annotations (rg_Meta registry)) keys = []) as Hreq.
  { induction keys as [|key keys IH]; intros Hk; [done|]. unfold requests. cbn.
    rewrite Hk by set_solver. apply IH. set_solver. }
  assert (collectRescanRequests registry = (rescan_keys (om_Annotations (rg_Meta registry)), [], false)) as Hc.
  { pose proof (collect_spec registry) as Hs. pose proof (collect_keys registry) as Hk. cbv zeta in Hs.
    unfold entries in Hs. rewrite Hreq in Hs by done.
    destruct (collectRescanRequests registry) as [[keys targets] everything]. simpl in *. subst keys.
    destruct Hs as [Hev Hct]. destruct everything.
    - destruct (proj1 Hev eq_refl) as (q & Hq & _). set_solver.
    - f_equal. f_equal. eapply canonical_unique; [done|apply canonical_nil]. }
  rewrite Hc. split_and!; [done..|]. wp_start. unfold checkRegistryForScan. rewrite Hc.
  apply wp_bind. unfold getLastScanJob. apply wp_try. intros answer _. cbn [wp].
  assert (∀ last, wp any_answer (scan_if_due registry (rescan_keys (om_Annotations (rg_Meta registry)))
      [] false last) [Ev (KList KScanJob [InNamespace (rg_Namespace registry);
         MatchingFields IndexScanJobSpecRegistry (rg_Name registry)]) answer]
      (λ tr _, ∀ job a, (job, a) ∈ omap (ev_create KScanJob) tr → sp_Repositories (sj_Spec job) = [])) as Hgo.
  { intros last. eapply wp_mono; [|apply scan_if_due_spec; by destruct (bool_decide _)].
    intros tr r (ext & -> & Hst) job a Hin. rewrite omap_app in Hin.
    by destruct (st_job _ _ _ _ _ Hst _ _ Hin) as (?&?&?&?). }
  destruct answer as [items|e]; wp_steps; try apply Hgo; cbn; set_solver.
Qed.
End runner.

(** The order in which Go ranges over the annotations and the sets does
    not matter: two runs with any two orders agree on whether to scan
    everything and on the targets, and see the same requests. *)
Theorem rescan_order_independent (R1 R2 : MapRange) `{!JSON RescanRequest} (registry : Registry) :
  let r1 := @collectRescanRequests R1 _ registry in
  let r2 := @collectRescanRequests R2 _ registry in
  r1.1.1 ≡ₚ r2.1.1 ∧ r1.1.2 = r2.1.2 ∧ r1.2 = r2.2.
Proof.
  cbv zeta. pose proof (@collect_spec R1 _ registry) as M1. pose proof (@collect_spec R2 _ registry) as M2.
  pose proof (@rescan_keys_perm R1 (om_Annotations (rg_Meta registry))) as Hk.
  rewrite <- (@rescan_keys_perm R2) in Hk. rewrite !collect_keys. split; [done|].
  cbv zeta in M1, M2.
  destruct (@collectRescanRequests R1 _ registry) as [[k1 t1] e1].
  destruct (@collectRescanRequests R2 _ registry) as [[k2 t2] e2]. simpl in *.
  destruct M1 as (He1 & Ht1), M2 as (He2 & Ht2).
  assert (e1 = true ↔ e2 = true) as He.
  { rewrite He1, He2. unfold requests. by setoid_rewrite Hk. }
  assert (e1 = e2) as <- by (destruct e1, e2; intuition congruence). split; [|done].
  destruct e1; [congruence|]. unfold entries, requests in *. rewrite Hk in Ht1.
  by eapply canonical_unique.
Qed.

(** A Registry whose only rescan annotation is not JSON. *)
Definition no_JSON : JSON RescanRequest :=
  {| Marshal := λ _, Err (errors_New "unsupported");
     Unmarshal := λ _, Err (errors_New "invalid character") |}.

Definition sample_Registry (annotations : gmap string string) : Registry := {|
  rg_Meta := new_meta "reg" "" "default" ∅ annotations;
  rg_Spec := {| rs_URI := "registry.local"; rs_CatalogType := ""; rs_Repositories := [];
                rs_AuthSecret := ""; rs_ScanInterval := None; rs_CABundle := "";
                rs_CABundleRef := None; rs_Insecure := false; rs_Platforms := [] |};
  rg_Conditions := [] |}.

(** [malformed_rescan_scans_all] on a concrete input. *)
Lemma malformed_rescan_scans_all_witness :
  (@collectRescanRequests insertion_order no_JSON
     (sample_Registry {["sbomscanner.kubewarden.io/rescan-requested-1" := "nonsense"]})).2 = false.
Proof.
  apply (@malformed_rescan_scans_all meta_conditions insertion_GoSort insertion_order DefaultRetry
           no_JSON unit refuse tt).
  intros key Hkey. apply elem_of_rescan_keys in Hkey as [[v Hv] _]. cbn in Hv.
  apply lookup_singleton_Some in Hv as [<- _]. reflexivity.
Defined.
