(* ===== verification/NodeScanController.v ===== *)
(** * The node scan reconcilers

    [src/internal/controller/nodescanjob_controller.go] (a pending job is
    checked against the configuration, given a snapshot of it, published and
    marked scheduled), [nodescan_controller.go] (clean-up after a deleted
    node) and [nodescanconfiguration_controller.go] (clean-up when node scans
    are switched off). *)

From stdpp Require Import prelude gmap strings list sorting.
From S2P Require Import Prelude Prog Meta Conditions Registry ScanJob NodeScanJob Filters StorageTypes Effects History Messages.
Import NodeScanJob.

(** ** The NodeScanJob reconciler *)

Section controller.
Context `{!StatusConditions, !GoTime, !GoSort, !ControllerUtil, !LabelSelectors}.
Context `{!JSON NodeScanConfiguration, !JSON GenerateNodeSBOMMessage}.

(** [ti.Before(tj)] on the creation timestamps. *)
Definition node_older (a b : NodeScanJob) : bool :=
  bool_decide (GetCreationTimestampFromAnnotation a < GetCreationTimestampFromAnnotation b)%Z.

Definition cleanupOldNodeScanJobs (current : NodeScanJob) : go (result unit) :=
  cleanup_history KNodeScanJob node_older (λ job, "failed to delete old NodeScanJob " +:+ nj_Name job)
    [MatchingFields IndexNodeScanJobSpecNodeName (np_NodeName (nj_Spec current))]
    ("failed to list NodeScanJobs for node " +:+ np_NodeName (nj_Spec current)).

(** What [validateNodeAgainstConfig] checks once it has the node: the reason
    and the message of the failure, if any. *)
Definition node_rejected (node : Node) (config : NodeScanConfiguration) : result (option string) :=
  let platform := nd_OperatingSystem node +:+ "/" +:+ nd_Architecture node in
  let on_platform :=
    if negb (IsPlatformAllowed (nd_OperatingSystem node) (nd_Architecture node) "" (nc_Platforms (nc_Spec config)))
    then Some ("node " +:+ quote (om_Name (nd_Meta node)) +:+ " platform " +:+ platform +:+
               " is not allowed by the NodeScanConfiguration")
    else None in
  match nc_NodeSelector (nc_Spec config) with
  | None => Ok on_platform
  | Some labelSelector =>
      match LabelSelectorAsSelector labelSelector with
      | Err e => Err (errorf "failed to parse NodeSelector" e)
      | Ok matches =>
          if negb (matches (om_Labels (nd_Meta node)))
          then Ok (Some ("node " +:+ quote (om_Name (nd_Meta node)) +:+
                         " does not match the NodeScanConfiguration nodeSelector"))
          else Ok on_platform
      end
  end.

(** It marks the job in place: it returns the job as it left it. *)
Definition validateNodeAgainstConfig (job : NodeScanJob) (config : NodeScanConfiguration)
  : go (result (NodeScanJob * bool)) :=
  let nodeName := np_NodeName (nj_Spec job) in
  r ← trigger (KGet KNode {| nn_Namespace := ""; nn_Name := nodeName |});
  match r with
  | Err e =>
      if IsNotFound e then
        now ← trigger Now;
        Ret (Ok (MarkFailed now ReasonNodeScanJobNodeNotFound ("Node " +:+ nodeName +:+ " not found") job, false))
      else Ret (Err (errorf ("failed to check if node " +:+ nodeName +:+ " exists") e))
  | Ok node =>
      match node_rejected node config with
      | Err e => Ret (Err e)
      | Ok (Some message) =>
          now ← trigger Now;
          Ret (Ok (MarkFailed now ReasonNodeScanJobNotMatching message job, false))
      | Ok None => Ret (Ok (job, true))
      end
  end.

Definition node_message (job : NodeScanJob) : GenerateNodeSBOMMessage :=
  {| gnm_NodeScanJob := {| o_Name := nj_Name job; o_Namespace := om_Namespace (nj_Meta job); o_UID := nj_UID job |};
     gnm_Node := {| o_Name := np_NodeName (nj_Spec job); o_Namespace := ""; o_UID := "" |} |}.

Definition reconcileNodeScanJob (job : NodeScanJob) (config : NodeScanConfiguration)
  : go (NodeScanJob * result unit) :=
  c ← cleanupOldNodeScanJobs job;
  match c with
  | Err e => Ret (job, Err (errorf "failed to cleanup old NodeScanJobs" e))
  | Ok _ =>
  match om_Annotations (nj_Meta job) !! AnnotationNodeScanJobNodeScanConfigurationKey with
  | None =>
      match Marshal config with
      | Err e => Ret (job, Err (errorf "failed to marshal NodeScanConfiguration data" e))
      | Ok configData =>
          let original := job in
          match SetControllerReference "NodeScanConfiguration" (nc_Meta config) (nj_Meta job) with
          | Err e => Ret (job, Err (errorf "failed to set owner reference on NodeScanJob" e))
          | Ok m =>
              let job := with_nj_Meta
                (with_Annotations
                   (<[AnnotationNodeScanJobNodeScanConfigurationKey := configData]> (om_Annotations m)) m) job in
              p ← trigger (KPatch KNodeScanJob original job);
              match p with
              | Err e => Ret (job, Err (errorf "failed to patch NodeScanJob with NodeScanConfiguration snapshot" e))
              | Ok patched => Ret (patched, Ok tt)
              end
          end
      end
  | Some _ =>
      let messageID := "generateNodeSBOM/" +:+ nj_UID job in
      match Marshal (node_message job) with
      | Err e => Ret (job, Err (errorf "unable to marshal GenerateNodeSBOM message" e))
      | Ok message =>
          p ← trigger (PublishMsg (GenerateNodeSBOMSubject +:+ "." +:+ np_NodeName (nj_Spec job)) messageID message);
          match p with
          | Err e => Ret (job, Err (errorf "unable to publish GenerateNodeSBOM message" e))
          | Ok _ =>
              Ret (MarkScheduled ScanJob.ReasonScanJobScheduled
                     "NodeScanJob has been scheduled for processing by the controller" job, Ok tt)
          end
      end
  end
  end.

(** The status update that ends a pass, and the count of a finished job. *)
Definition persist (job : NodeScanJob) (r : result unit) : go (result unit) :=
  updated ←? trigger (KStatusUpdate KNodeScanJob job) wrap errorf "failed to update NodeScanJob status";
  _ ← RecordNodeScanJobFinished updated;
  Ret r.

Definition NodeScanJob_Reconcile (req : NamespacedName) : go (result unit) :=
  r ← trigger (KGet KNodeScanJob req);
  match r with
  | Err e => if IsNotFound e then Ret (Ok tt) else Ret (Err (errorf "unable to get NodeScanJob" e))
  | Ok job =>
  match om_DeletionTimestamp (nj_Meta job) with
  | Some _ => Ret (Ok tt)
  | None =>
  if negb (IsPending job) then Ret (Ok tt)
  else
    let job := InitializeConditions job in
    c ← trigger (KGet KNodeScanConfiguration {| nn_Namespace := ""; nn_Name := NodeScanConfigurationName |});
    match c with
    | Err e =>
        if IsNotFound e then
          now ← trigger Now;
          persist (MarkFailed now ReasonNodeScanJobConfigurationMissing
                     "NodeScanConfiguration not found: node scanning is not configured" job) (Ok tt)
        else Ret (Err (errorf "failed to get NodeScanConfiguration" e))
    | Ok config =>
        validated ←? validateNodeAgainstConfig job config wrap (λ e, e);
        let '(job, valid) := validated in
        if negb valid then persist job (Ok tt)
        else
          rr ← reconcileNodeScanJob job config;
          persist rr.1 rr.2
    end
  end
  end.

(** ** Facts *)

#[local] Instance node_older_order : StrictWeakOrder node_older.
Proof. apply key_order. Qed.

(** The history of a node, whatever the API server answers: the clean-up
    lists the jobs of the node of the current job and deletes nothing else;
    the jobs it deletes are no newer than any job it keeps; it never goes
    below the limit, and when it succeeds exactly the limit is left. *)
Theorem node_history_limit {W} (h : handler Eff W) (w : W) (current : NodeScanJob) :
  let tr := run_trace h (cleanupOldNodeScanJobs current) w in
  let res := run_result h (cleanupOldNodeScanJobs current) w in
  ∃ answer,
    omap (ev_list KNodeScanJob) tr =
      [([MatchingFields IndexNodeScanJobSpecNodeName (np_NodeName (nj_Spec current))], answer)] ∧
    match answer with
    | Err _ => length tr = 1%nat ∧ is_ok res = false
    | Ok items =>
        ∃ kept,
          items ≡ₚ (omap (ev_delete KNodeScanJob) tr).*1 ++ kept ∧
          (∀ d k, d ∈ (omap (ev_delete KNodeScanJob) tr).*1 → k ∈ kept → node_older k d = false) ∧
          (scanJobsHistoryLimit `min` length items ≤ length kept)%nat ∧
          (res = Ok tt → length kept = (scanJobsHistoryLimit `min` length items)%nat)
    end.
Proof. wp_start. apply cleanup_history_spec, node_older_order. Qed.

Lemma node_cleanup_silent ext :
  Forall (obs_call (history_call KNodeScanJob)) ext →
  omap ev_publish ext = [] ∧ omap (ev_get KNodeScanJob) ext = [] ∧ omap (ev_get KNode) ext = [] ∧
  omap (ev_get KNodeScanConfiguration) ext = [] ∧ omap (ev_status KNodeScanJob) ext = [] ∧
  omap (ev_patch KNodeScanJob) ext = [].
Proof.
  intros Hext. split_and!; eapply omap_calls; try exact Hext; intros A e a He;
    destruct e; try done; cbn in He; by subst.
Qed.

(** The configuration accepts a node. *)
Definition node_allowed (node : Node) (config : NodeScanConfiguration) : Prop :=
  IsPlatformAllowed (nd_OperatingSystem node) (nd_Architecture node) "" (nc_Platforms (nc_Spec config)) = true ∧
  match nc_NodeSelector (nc_Spec config) with
  | None => True
  | Some s => ∃ matches, LabelSelectorAsSelector s = Ok matches ∧ matches (om_Labels (nd_Meta node)) = true
  end.

Lemma node_rejected_None node config : node_rejected node config = Ok None ↔ node_allowed node config.
Proof.
  unfold node_rejected, node_allowed.
  destruct (nc_NodeSelector _) as [s|];
    [destruct (LabelSelectorAsSelector s) as [matches|e] eqn:Hs; [destruct (matches _) eqn:Hm|]|];
    destruct (IsPlatformAllowed _ _ _ _); cbn; (split; [intros Heq|intros [Hp Hsel]]); try done; eauto.
  all: by destruct Hsel as (m' & [= <-] & Hm'); rewrite Hm in Hm'.
Qed.

(** A node scan is published for a node the configuration accepts.
    Whatever the environment answers, a reconciliation publishes at most one
    message; it does so only for a pending job that is not being deleted and
    carries the snapshot of the configuration, when the configuration exists,
    the node exists, and the node has the labels and the platform the
    configuration asks for; the message goes to the subject of that node, for
    that very job; and the status written is [Scheduled] exactly when the
    broker took the message. *)
Theorem node_publish_only_valid {W} (h : handler Eff W) (w : W) (req : NamespacedName) :
  let tr := run_trace h (NodeScanJob_Reconcile req) w in
  (length (omap ev_publish tr) ≤ 1)%nat ∧
  ∀ subject id data answer, (subject, id, data, answer) ∈ omap ev_publish tr →
    ∃ job config node,
      omap (ev_get KNodeScanJob) tr = [(req, Ok job)] ∧
      IsPending job = true ∧ om_DeletionTimestamp (nj_Meta job) = None ∧
      omap (ev_get KNodeScanConfiguration) tr =
        [({| nn_Namespace := ""; nn_Name := NodeScanConfigurationName |}, Ok config)] ∧
      omap (ev_get KNode) tr = [({| nn_Namespace := ""; nn_Name := np_NodeName (nj_Spec job) |}, Ok node)] ∧
      node_allowed node config ∧
      is_Some (om_Annotations (nj_Meta job) !! AnnotationNodeScanJobNodeScanConfigurationKey) ∧
      subject = GenerateNodeSBOMSubject +:+ "." +:+ np_NodeName (nj_Spec job) ∧
      id = "generateNodeSBOM/" +:+ nj_UID job ∧ Marshal (node_message job) = Ok data ∧
      ∃ written a, omap (ev_status KNodeScanJob) tr = [(written, a)] ∧
        node_flags written = (is_ok answer, false, false, false).
Proof.
  wp_start. unfold NodeScanJob_Reconcile, validateNodeAgainstConfig, persist, RecordNodeScanJobFinished. cbv zeta.
  wp_steps; try (cbn; (split; [lia|]); intros ? ? ? ? Hin; by apply elem_of_nil in Hin).
  all: match goal with H : negb false = false |- _ => discriminate H | _ => idtac end.
  unfold reconcileNodeScanJob. apply wp_bind.
  eapply wp_mono; [|apply wp_calls, cleanup_history_calls].
  intros tr' c (ext & -> & (E1 & E2 & E3 & E4 & E5 & _)%node_cleanup_silent).
  wp_steps; rewrite !omap_app, E1, E2, E3, E4, E5; cbn;
    (split; [lia|]); intros subject id data answer Hin; rewrite ?elem_of_nil in Hin; try done.
  all: apply list_elem_of_singleton in Hin; simplify_eq.
  all: eexists _, _, _; split_and!; try done; try (by apply node_rejected_None); try (by apply negb_false_iff).
  all: eexists _, _; split; [done|].
  all: cbn [is_ok]; lazymatch goal with
       | |- node_flags (MarkScheduled ?r ?m ?j) = _ => exact (node_flags_Scheduled r m j)
       | |- node_flags (InitializeConditions ?j) = _ => exact (node_flags_Initialize j)
       end.
Qed.
End controller.

(** ** Clean-up after a deleted node *)

(** A deletion that finds nothing to delete is no error. *)
Definition delete_quietly (k : kind) (failure : obj k → string) (_ : unit) (o : obj k) : go (result unit) :=
  r ← trigger (KDelete k o);
  match r with
  | Err e => if negb (IsNotFound e) then Ret (Err (errorf (failure o) e)) else Ret (Ok tt)
  | Ok _ => Ret (Ok tt)
  end.

Definition delete_listed (k : kind) (opts : list ListOption) (listError : string) (failure : obj k → string)
  : go (result unit) :=
  items ←? trigger (KList k opts) wrap errorf listError;
  for_each (delete_quietly k failure) tt items.

Definition cleanupNodeResources (nodeName : string) : go (result unit) :=
  check delete_listed KNodeScanJob [MatchingFields IndexNodeScanJobSpecNodeName nodeName]
          ("list NodeScanJobs for node " +:+ nodeName) (λ job, "delete NodeScanJob " +:+ nj_Name job)
    wrap (λ e, e);
  delete_listed KNodeSBOM [MatchingFields IndexNodeMetadataName nodeName]
    ("list NodeSBOMs for node " +:+ nodeName) (λ sbom, "delete NodeSBOM " +:+ om_Name (nb_Meta sbom)).

Definition NodeScan_Reconcile (req : NamespacedName) : go (result unit) :=
  r ← trigger (KGet KNode req);
  match r with
  | Err e =>
      if IsNotFound e then
        check cleanupNodeResources (nn_Name req)
          wrap errorf ("failed to cleanup resources for deleted node " +:+ nn_Name req);
        Ret (Ok tt)
      else Ret (Err (errorf "failed to get Node" e))
  | Ok _ => Ret (Ok tt)
  end.

(** ** Clean-up when node scans are switched off *)

Definition delete_all_quietly (k : kind) (failure : string) : go (result unit) :=
  r ← trigger (KDeleteAllOf k);
  match r with
  | Err e => if negb (IsNotFound e) then Ret (Err (errorf failure e)) else Ret (Ok tt)
  | Ok _ => Ret (Ok tt)
  end.

Definition cleanupAllNodeResources : go (result unit) :=
  check delete_all_quietly KNodeScanJob "delete all NodeScanJobs" wrap (λ e, e);
  delete_all_quietly KNodeSBOM "delete all NodeSBOMs".

Definition NodeScanConfiguration_Reconcile (req : NamespacedName) : go (result unit) :=
  r ← trigger (KGet KNodeScanConfiguration req);
  match r with
  | Err e =>
      if IsNotFound e then
        check cleanupAllNodeResources wrap errorf "failed to cleanup all node scan resources";
        Ret (Ok tt)
      else Ret (Err (errorf "failed to get NodeScanConfiguration" e))
  | Ok config =>
      if negb (nc_Enabled (nc_Spec config)) then
        check cleanupAllNodeResources wrap errorf "failed to cleanup all node scan resources";
        Ret (Ok tt)
      else Ret (Ok tt)
  end.

(** Calls that list or delete objects of one kind. *)
Definition about (k : kind) A (e : Eff A) : Prop :=
  match e with KDelete k' _ | KList k' _ => k' = k | _ => False end.

Lemma delete_quietly_spec k failure items :
  wp any_answer (for_each (delete_quietly k failure) tt items) [] (λ tr r,
    (∃ rest, items = deleted k tr ++ rest ∧ (is_ok r = true → rest = [])) ∧
    omap (ev_list k) tr = [] ∧ Forall (obs_call (about k)) tr).
Proof.
  apply wp_conj; [|apply wp_conj; [|apply calls_wp; [|constructor]]].
  - apply (wp_for_each _ _ (λ pre tr _, deleted k tr = pre)); [| |done].
    + intros pre x rest tr [] Hitems Hd. unfold delete_quietly. apply wp_bind. intros a _. cbn [wp].
      assert (deleted k (tr ++ [Ev (KDelete k x) a]) = pre ++ [x]) as Hx by by rewrite deleted_app, deleted_one, Hd.
      destruct a as [[]|e]; [done|]. cbn [wp]. destruct (negb _); cbn [wp]; [|done].
      exists rest. split; [|done]. by rewrite Hx, Hitems, <- app_assoc.
    + intros tr [] Hd. exists []. by rewrite Hd, app_nil_r.
  - eapply wp_mono; [|apply (calls_wp (λ A e, match e with KDelete _ _ => True | _ => False end)); [|constructor]].
    + intros tr r Htr. eapply omap_calls; [|exact Htr]. intros A e a. by destruct e.
    + apply calls_for_each. intros [] x _. unfold delete_quietly. repeat calls_step; done.
  - apply calls_for_each. intros [] x _. unfold delete_quietly. repeat calls_step; done.
Qed.

(** Listing and deleting: what is deleted was listed, and everything listed is
    deleted when it succeeds. *)
Record emptied (k : kind) (opts : list ListOption) (tr : trace Eff) (r : result unit) : Prop := {
  em_about : Forall (obs_call (about k)) tr;
  em_listed : ∃ answer, omap (ev_list k) tr = [(opts, answer)] ∧
    match answer with
    | Err _ => deleted k tr = [] ∧ is_ok r = false
    | Ok items => ∃ rest, items = deleted k tr ++ rest ∧ (is_ok r = true → rest = [])
    end
}.

Lemma delete_listed_spec k opts listError failure :
  wp any_answer (delete_listed k opts listError failure) [] (emptied k opts).
Proof.
  unfold delete_listed. apply wp_try. intros [items|e] _; cbn [wp].
  - eapply (wp_frame _ _ [_]); [apply delete_quietly_spec|]. intros ext r (Hd & Hl & Ha).
    split; [by constructor|]. exists (Ok items). rewrite omap_app, deleted_app, Hl. cbn.
    by rewrite cast_kind_refl.
  - split; [by repeat constructor|]. exists (Err e). cbn. by rewrite cast_kind_refl.
Qed.

(** When a node is deleted everything about it goes.  Whatever the API
    server answers, nothing is listed or deleted while the node exists; once it
    is gone, the reconciler deletes only jobs and SBOMs the API server listed
    for that node, and a pass that succeeds has deleted all of them. *)
Theorem node_resources_cleaned {W} (h : handler Eff W) (w : W) (req : NamespacedName) :
  let tr := run_trace h (NodeScan_Reconcile req) w in
  let r := run_result h (NodeScan_Reconcile req) w in
  ∃ answer rest, tr = Ev (KGet KNode req) answer :: rest ∧
    match answer with
    | Ok _ => rest = []
    | Err e =>
        if IsNotFound e then
          ∃ tr1 tr2 r1 r2, rest = tr1 ++ tr2 ∧
            emptied KNodeScanJob [MatchingFields IndexNodeScanJobSpecNodeName (nn_Name req)] tr1 r1 ∧
            (tr2 = [] ∧ is_ok r1 = false ∧ is_ok r = false ∨
             is_ok r1 = true ∧ emptied KNodeSBOM [MatchingFields IndexNodeMetadataName (nn_Name req)] tr2 r2 ∧
             is_ok r = is_ok r2)
        else rest = []
    end.
Proof.
  wp_start. unfold NodeScan_Reconcile. apply wp_bind. intros answer _. cbn [wp app].
  destruct answer as [node|e]; cbn [wp]; [by eexists _, []|].
  destruct (IsNotFound e) eqn:He; cbn [wp]; [|eexists _, []; split; [done|]; cbn; by rewrite He].
  apply wp_try. unfold cleanupNodeResources. apply wp_try.
  eapply (wp_frame _ _ [_]); [apply delete_listed_spec|]. intros tr1 r1 H1.
  destruct r1 as [[]|e1].
  - eapply wp_frame; [apply delete_listed_spec|]. intros tr2 r2 H2.
    assert (∃ answer rest, ([Ev (KGet KNode req) (Err e)] ++ tr1) ++ tr2 = Ev (KGet KNode req) answer :: rest ∧
      answer = Err e ∧ rest = tr1 ++ tr2) as (answer & rest & -> & -> & ->) by (eexists _, _; done).
    destruct r2 as [[]|e2]; cbn [wp]; eexists _, _; (split; [reflexivity|]); cbn; rewrite He;
      [exists tr1, tr2, (Ok tt), (Ok tt)|exists tr1, tr2, (Ok tt), (Err e2)];
      (split_and!; [done|done|]); by right.
  - cbn. eexists _, _; (split; [reflexivity|]); cbn; rewrite He.
    exists tr1, [], (Err e1), (Ok tt). rewrite app_nil_r. split_and!; [done|done|]. by left.
Qed.

(** Switching node scans off.  The reconciler of the configuration changes
    nothing while the configuration is there and enabled (or cannot be read);
    otherwise it asks for the deletion of every NodeScanJob, and then of every
    NodeSBOM unless the first deletion failed; it succeeds exactly when no
    deletion failed for another reason than finding nothing. *)
Theorem node_scans_switched_off {W} (h : handler Eff W) (w : W) (req : NamespacedName) :
  let tr := run_trace h (NodeScanConfiguration_Reconcile req) w in
  let r := run_result h (NodeScanConfiguration_Reconcile req) w in
  let failed (a : result unit) := match a with Ok _ => false | Err e => negb (IsNotFound e) end in
  ∃ answer rest, tr = Ev (KGet KNodeScanConfiguration req) answer :: rest ∧
    (if match answer with Ok config => negb (nc_Enabled (nc_Spec config)) | Err e => IsNotFound e end then
       ∃ a, (rest = [Ev (KDeleteAllOf KNodeScanJob) a] ∧ failed a = true ∧ is_ok r = false) ∨
            ∃ b, rest = [Ev (KDeleteAllOf KNodeScanJob) a; Ev (KDeleteAllOf KNodeSBOM) b] ∧
                 failed a = false ∧ is_ok r = negb (failed b)
     else rest = []).
Proof.
  wp_start. unfold NodeScanConfiguration_Reconcile, cleanupAllNodeResources, delete_all_quietly.
  wp_steps; eexists _, _; (split; [reflexivity|]); cbn;
    repeat match goal with H : _ = true |- _ => rewrite H | H : _ = false |- _ => rewrite H end; try done.
  all: eexists; first
    [ left; split_and!; [reflexivity| |]; cbn; by repeat match goal with H : negb _ = _ |- _ => rewrite H; clear H end
    | right; eexists; split_and!; [reflexivity| |]; cbn;
      by repeat match goal with H : negb _ = _ |- _ => rewrite ?H; clear H end ].
Qed.
