(* ===== verification/NodeScanRunner.v ===== *)
(** * The node scan runner

    [src/internal/controller/nodescan_runner.go]: every ten seconds it looks at
    each node the configuration selects and creates a NodeScanJob when one is
    requested or due. *)

From stdpp Require Import prelude gmap strings list sorting.
From S2P Require Import Prelude Prog Meta Conditions Registry ScanJob NodeScanJob Filters StorageTypes Effects.
Import NodeScanJob.

Definition with_nc_Meta (m : ObjectMeta) (c : NodeScanConfiguration) : NodeScanConfiguration :=
  {| nc_Meta := m; nc_Spec := nc_Spec c |}.

Definition config_key : NamespacedName := {| nn_Namespace := ""; nn_Name := NodeScanConfigurationName |}.

Section runner.
Context `{!StatusConditions, !GoSort, !Retry, !LabelSelectors}.

Definition hasForceNodeScanAnnotation (config : NodeScanConfiguration) : bool :=
  bool_decide (map_get (om_Annotations (nc_Meta config)) AnnotationNodeRescanRequested = "true").

Definition getMatchingNodes (config : NodeScanConfiguration) : go (result (list Node)) :=
  match nc_NodeSelector (nc_Spec config) with
  | None =>
      nodes ←? trigger (KList KNode []) wrap errorf "failed to list nodes";
      Ret (Ok nodes)
  | Some selector =>
      match LabelSelectorAsSelector selector with
      | Err e => Ret (Err (errorf "failed to parse node selector" e))
      | Ok _ =>
          nodes ←? trigger (KList KNode [MatchingLabelsSelector selector]) wrap errorf "failed to list nodes";
          Ret (Ok nodes)
      end
  end.

(** [CreationTimestamp.After]. *)
Definition node_newer (a b : NodeScanJob) : bool :=
  bool_decide (om_CreationTimestamp (nj_Meta b) < om_CreationTimestamp (nj_Meta a))%Z.

Definition getLastNodeScanJob (nodeName : string) : go (result NodeScanJob) :=
  items ←? trigger (KList KNodeScanJob [MatchingFields IndexNodeScanJobSpecNodeName nodeName])
    wrap errorf "failed to list node scan jobs";
  match sort_Slice node_newer items with
  | [] => Ret (Err (NewNotFound "nodescanjobs" ("for node " +:+ nodeName)))
  | last :: _ => Ret (Ok last)
  end.

Definition shouldCreateNodeScanJob (config : NodeScanConfiguration) (lastScanJob : option NodeScanJob)
    (rescanRequested : bool) : go bool :=
  if rescanRequested then Ret true
  else
    match nc_ScanInterval (nc_Spec config) with
    | None => Ret false
    | Some interval =>
        if bool_decide (interval = 0%Z) then Ret false
        else
          match lastScanJob with
          | None => Ret true
          | Some job =>
              match ns_CompletionTime (nj_Status job) with
              | None => Ret true
              | Some completionTime =>
                  now ← trigger Now;
                  Ret (negb (bool_decide (now - completionTime < interval)%Z))
              end
          end
    end.

Definition new_NodeScanJob (annotations : gmap string string) (nodeName : string) : NodeScanJob :=
  {| nj_Meta := new_meta "" ("node-" +:+ nodeName +:+ "-") "" ∅ annotations;
     nj_Spec := {| np_NodeName := nodeName |};
     nj_Status := {| ns_Conditions := []; ns_StartTime := None; ns_CompletionTime := None |} |}.

Definition createNodeScanJob (nodeName : string) : go (result unit) :=
  annotations ← InjectAnnotations {[ AnnotationNodeScanJobTriggerKey := "runner" ]};
  check trigger (KCreate KNodeScanJob (new_NodeScanJob annotations nodeName))
    wrap errorf "failed to create NodeScanJob";
  Ret (Ok tt).

(** The rest of [checkNodeForScan], once the last job is known. *)
Definition scan_node_if_due (config : NodeScanConfiguration) (nodeName : string)
    (lastScanJob : option NodeScanJob) (rescanRequested : bool) : go (result unit) :=
  due ← shouldCreateNodeScanJob config lastScanJob rescanRequested;
  if negb due then Ret (Ok tt)
  else
    check createNodeScanJob nodeName wrap errorf ("failed to create node scan job for node " +:+ nodeName);
    Ret (Ok tt).

Definition checkNodeForScan (config : NodeScanConfiguration) (node : Node) (rescanRequested : bool)
  : go (result unit) :=
  let nodeName := om_Name (nd_Meta node) in
  if negb (IsPlatformAllowed (nd_OperatingSystem node) (nd_Architecture node) "" (nc_Platforms (nc_Spec config)))
  then Ret (Ok tt)
  else
    last ← getLastNodeScanJob nodeName;
    match last with
    | Err e =>
        if negb (IsNotFound e)
        then Ret (Err (errorf ("failed to get last node scan job for node " +:+ nodeName) e))
        else scan_node_if_due config nodeName None rescanRequested
    | Ok job =>
        if negb (IsComplete job) && negb (IsFailed job) then Ret (Ok tt)
        else scan_node_if_due config nodeName (Some job) rescanRequested
    end.

(** One attempt of [removeRescanRequestedAnnotation]. *)
Definition remove_rescan_once (config : NodeScanConfiguration) : go (result unit) :=
  current ←? trigger (KGet KNodeScanConfiguration {| nn_Namespace := ""; nn_Name := om_Name (nc_Meta config) |})
    wrap errorf "failed to get current NodeScanConfiguration";
  let annotations := om_Annotations (nc_Meta current) in
  match annotations !! AnnotationNodeRescanRequested with
  | None => Ret (Ok tt)
  | Some _ =>
      let current := with_nc_Meta
        (with_Annotations (delete AnnotationNodeRescanRequested annotations) (nc_Meta current)) current in
      check trigger (KUpdate KNodeScanConfiguration current) wrap errorf "failed to update NodeScanConfiguration";
      Ret (Ok tt)
  end.

Definition removeRescanRequestedAnnotation (config : NodeScanConfiguration) : go (result unit) :=
  check RetryOnConflict (remove_rescan_once config)
    wrap errorf "failed to remove node-rescan-requested annotation";
  Ret (Ok tt).

(** An error of one node is logged and the loop goes on. *)
Definition scan_one_node (config : NodeScanConfiguration) (rescanRequested : bool) (_ : unit) (node : Node)
  : go (result unit) :=
  _ ← checkNodeForScan config node rescanRequested; Ret (Ok tt).

Definition scanNodes : go (result unit) :=
  r ← trigger (KGet KNodeScanConfiguration config_key);
  match r with
  | Err e =>
      if IsNotFound e then Ret (Ok tt) else Ret (Err (errorf "failed to get NodeScanConfiguration" e))
  | Ok config =>
      if negb (nc_Enabled (nc_Spec config)) then Ret (Ok tt)
      else
        let rescanRequested := hasForceNodeScanAnnotation config in
        nodes ←? getMatchingNodes config wrap errorf "failed to list matching nodes";
        check for_each (scan_one_node config rescanRequested) tt nodes wrap (λ e, e);
        if rescanRequested then
          check removeRescanRequestedAnnotation config wrap errorf "failed to remove rescan-requested annotation";
          Ret (Ok tt)
        else Ret (Ok tt)
  end.

(** One tick of [Start]. *)
Definition node_tick : go unit :=
  r ← scanNodes;
  trigger (CountTick "node" (if is_ok r then "success" else "error")).

(** ** Facts *)

#[local] Instance node_newer_order : StrictWeakOrder node_newer.
Proof.
  split; intros *; unfold node_newer; rewrite ?bool_decide_eq_true, ?bool_decide_eq_false; lia.
Qed.

(** The job the runner compares with, from the answer of the API server. *)
Definition last_node_job (answer : result (list NodeScanJob)) (last : option NodeScanJob) : Prop :=
  match answer, last with
  | Ok items, Some job => job ∈ items ∧ ∀ j, j ∈ items →
      (om_CreationTimestamp (nj_Meta j) ≤ om_CreationTimestamp (nj_Meta job))%Z
  | Ok items, None => items = []
  | Err e, None => IsNotFound e = true
  | Err _, Some _ => False
  end.

Lemma node_newest_first items last rest :
  sort_Slice node_newer items = last :: rest → last_node_job (Ok items) (Some last).
Proof.
  intros Hs. pose proof (sort_Slice_sorted node_newer items _) as Hsorted.
  rewrite Hs in Hsorted. apply StronglySorted_inv in Hsorted as [_ Hall].
  assert (∀ j, j ∈ items ↔ j ∈ last :: rest) as Hin by (intros j; rewrite <- Hs; by rewrite elem_of_sort_Slice).
  split; [apply Hin; by left|]. intros j [->|Hj]%Hin%elem_of_cons; [lia|].
  rewrite Forall_forall in Hall. specialize (Hall j Hj). unfold node_newer in Hall.
  apply bool_decide_eq_false in Hall. lia.
Qed.

Lemma none_listed items : sort_Slice node_newer items = [] → last_node_job (Ok items) None.
Proof. intros Hs. apply nil_length_inv. by rewrite <- (length_sort_Slice node_newer), Hs. Qed.

Lemma new_NodeScanJob_pending annotations nodeName : IsPending (new_NodeScanJob annotations nodeName) = true.
Proof.
  unfold IsPending, IsScheduled, IsInProgress, IsComplete, IsFailed, condition_true. simpl. by rewrite !Find_nil.
Qed.

Lemma node_job_finished job : negb (IsComplete job) && negb (IsFailed job) = false → JobFinished job = true.
Proof. unfold JobFinished. simpl. by destruct (IsComplete job), (IsFailed job). Qed.

(** A scan is due: requested, or the interval has passed at one of [nows]. *)
Definition node_due (config : NodeScanConfiguration) (rescanRequested : bool) (last : option NodeScanJob)
    (nows : list Z) : Prop :=
  rescanRequested = true ∨
  ∃ interval, nc_ScanInterval (nc_Spec config) = Some interval ∧ interval ≠ 0%Z ∧
    match last ≫= λ job, ns_CompletionTime (nj_Status job) with
    | None => True
    | Some t => ∃ now, now ∈ nows ∧ (interval ≤ now - t)%Z
    end.

(** A node is scanned when it is its turn.  Whatever the API server
    answers, looking at a node changes nothing but the creation of at most one
    NodeScanJob, for that node, and only when the platform of the node is
    allowed, its most recent job, if any, has finished, and a scan is due: a
    rescan was requested, or the interval has elapsed since that job. *)
Theorem node_scan_only_when_due {W} (h : handler Eff W) (w : W)
    (config : NodeScanConfiguration) (node : Node) (rescanRequested : bool) :
  let tr := run_trace h (checkNodeForScan config node rescanRequested) w in
  length (List.filter is_write tr) = length (omap (ev_create KNodeScanJob) tr) ∧
  (length (omap (ev_create KNodeScanJob) tr) ≤ 1)%nat ∧
  ∀ job answer, (job, answer) ∈ omap (ev_create KNodeScanJob) tr →
    np_NodeName (nj_Spec job) = om_Name (nd_Meta node) ∧ IsPending job = true ∧
    IsPlatformAllowed (nd_OperatingSystem node) (nd_Architecture node) "" (nc_Platforms (nc_Spec config)) = true ∧
    ∃ listed last,
      omap (ev_list KNodeScanJob) tr =
        [([MatchingFields IndexNodeScanJobSpecNodeName (om_Name (nd_Meta node))], listed)] ∧
      last_node_job listed last ∧
      match last with Some j => JobFinished j = true | None => True end ∧
      node_due config rescanRequested last (omap ev_now tr).
Proof.
  wp_start. unfold checkNodeForScan, getLastNodeScanJob, scan_node_if_due, shouldCreateNodeScanJob,
    createNodeScanJob, InjectAnnotations. cbv zeta.
  wp_steps; (split; [done|split; [cbn; lia|]]); intros job answer Hin; cbn in Hin;
    rewrite ?elem_of_nil in Hin; try done.
  all: apply list_elem_of_singleton in Hin; simplify_eq.
  all: split; [done|split; [apply new_NodeScanJob_pending|split; [by apply negb_false_iff|]]].
  all: lazymatch goal with
    | H : sort_Slice _ ?l = [] |- _ => exists (Ok l), None; split; [done|split; [by apply none_listed|]]
    | H : sort_Slice _ ?l = ?j :: _ |- _ => exists (Ok l), (Some j); split; [done|split; [by eapply node_newest_first|]]
    | H : negb (IsNotFound (errorf _ ?e)) = false |- _ =>
        exists (Err e), None; split; [done|split; [by rewrite IsNotFound_errorf in H; apply negb_false_iff|]]
    end.
  all: split; [first [done|by apply node_job_finished]|].
  all: first [by left|right].
  all: eexists; split; [done|split; [by eapply bool_decide_eq_false_1|]]; cbn.
  all: try done.
  all: repeat match goal with H : ns_CompletionTime _ = _ |- _ => rewrite H; clear H end; try done.
  all: eexists; split; [apply list_elem_of_here|].
  all: match goal with H : negb (negb (bool_decide (_ < _)%Z)) = false |- _ =>
    apply negb_false_iff, negb_true_iff, bool_decide_eq_false in H; lia end.
Qed.
End runner.
