(* ===== verification/ImageCatalog.v ===== *)
(** * Images of a catalog

    The functions of [src/internal/handlers/create_catalog.go] that do not
    call the environment: the targets of a job applied to its registry, the
    references of a workload registry, and the Image resource built from the
    details of an image. *)

From stdpp Require Import prelude gmap strings list sorting pretty.
From Stdlib Require Import Ascii.
From S2P Require Import Prelude Prog Meta Conditions Registry ScanJob NodeScanJob StorageTypes GoPath Encoding Effects RegistryClient ScanJobController.

(** [nameOptions]: whether [name.Insecure] is passed. *)
Definition nameOptions (registry : Registry) : bool := rs_Insecure (rg_Spec registry).

(** ** Targets *)

Fixpoint apply_targets (registry : Registry) (targets : list ScanJobRepository)
  : result (list Repository) :=
  match targets with
  | [] => Ok []
  | target :: ts =>
      match GetRepository registry (sr_Name target) with
      | None => Err (errors_New ("repository " +:+ quote (sr_Name target) +:+
                       " not declared on registry " +:+ quote (rg_Name registry)))
      | Some repository =>
          let targetMatchConditions : gset string := list_to_set (sr_MatchConditions target) in
          let filteredConditions :=
            filter (λ mc, mc_Name mc ∈ targetMatchConditions) (rp_MatchConditions repository) in
          if negb (bool_decide (sr_MatchConditions target = []))
             && negb (bool_decide (length filteredConditions = size targetMatchConditions))
          then Err (errors_New ("one or more MatchConditions of target repository " +:+
                      quote (sr_Name target) +:+ " not found on registry " +:+
                      quote (rg_Name registry)))
          else
            let targetRepository :=
              if negb (bool_decide (sr_MatchConditions target = []))
              then with_MatchConditions filteredConditions repository else repository in
            match apply_targets registry ts with
            | Ok rest => Ok (targetRepository :: rest)
            | Err e => Err e
            end
      end
  end.

Definition applyTargetsToRegistry (registry : Registry) (scanJob : ScanJob) : result Registry :=
  if bool_decide (sp_Repositories (sj_Spec scanJob) = []) then Ok registry
  else
    match apply_targets registry (sp_Repositories (sj_Spec scanJob)) with
    | Ok targetRepositories => Ok (with_Repositories targetRepositories registry)
    | Err e => Err e
    end.

(** ** References of a workload registry *)

Section references.
Context `{!Names}.

Definition tag_expression (identifier : string) : string := "tag == " +:+ quote identifier.

(** The reference of one match condition: [None] when the condition is not
    one the workload controller writes. *)
Definition condition_reference (insecure : bool) (repo : NameRepository) (condition : MatchCondition)
  : option (bool * result string) :=
  match CutPrefix (mc_Name condition) "tag-" with
  | None => None
  | Some identifier =>
      if negb (bool_decide (mc_Expression condition = tag_expression identifier)) then None
      else
        let isDigest := HasPrefix identifier "sha256:" in
        Some (isDigest,
              match (if isDigest then NewDigest insecure (nr_Name repo +:+ "@" +:+ identifier)
                     else NewTag insecure (nr_Name repo +:+ ":" +:+ identifier)) with
              | Ok ref => Ok ref
              | Err e => Err (errorf ("invalid workload reference " +:+ quote identifier +:+
                                " in repository " +:+ quote (nr_Name repo)) e)
              end)
  end.

(** The loop over the conditions; [None] is [return nil, false, nil]. *)
Fixpoint references_loop (insecure : bool) (repo : NameRepository) (conditions : list MatchCondition)
    (references : gset string) (hasDigest : bool) : result (option (gset string * bool)) :=
  match conditions with
  | [] => Ok (Some (references, hasDigest))
  | condition :: cs =>
      match condition_reference insecure repo condition with
      | None => Ok None
      | Some (_, Err e) => Err e
      | Some (isDigest, Ok ref) =>
          references_loop insecure repo cs ({[ ref ]} ∪ references) (isDigest || hasDigest)
      end
  end.

Definition workloadRepositoryReferences (registry : Registry) (repo : NameRepository)
  : result (option (list string)) :=
  if negb (IsManagedByWorkloadScan registry) then Ok None
  else
    match GetRepository registry (nr_RepositoryStr repo) with
    | None => Ok None
    | Some repository =>
        if negb (bool_decide (rp_MatchOperator repository = MatchOperatorOr))
           || bool_decide (rp_MatchConditions repository = []) then Ok None
        else
          match references_loop (nameOptions registry) repo (rp_MatchConditions repository) ∅ false with
          | Err e => Err e
          | Ok None => Ok None
          | Ok (Some (references, hasDigest)) =>
              if negb hasDigest then Ok None
              else Ok (Some (sort_Strings (elements references)))
          end
    end.
End references.

(** ** The Image resource *)

Definition image_key (registryName name identifier digest : string) : string :=
  registryName +:+ "/" +:+ name +:+ ":" +:+ identifier +:+ "@" +:+ digest.

Definition computeImageUID (registryName name identifier digest : string) : string :=
  sha256_hex (image_key registryName name identifier digest).

(** The loop over the history: the guard of the source, then the indexing,
    which panics when the index is not a layer. *)
Fixpoint layers_loop (layers : list Layer) (layerCounter : nat) (history : list History)
  : result (list ImageLayer) :=
  match history with
  | [] => Ok []
  | h :: hs =>
      if h_EmptyLayer h then layers_loop layers layerCounter hs
      else if bool_decide (length layers < layerCounter)%nat
      then Err (errors_New ("layer " +:+ pretty layerCounter +:+ " not found - got only " +:+
                  pretty (length layers) +:+ " layers"))
      else
        match layers !! layerCounter with
        | None => Err (go_panic "index out of range")
        | Some layer =>
            match ly_Digest layer with
            | Err e => Err (errorf "cannot read layer digest" e)
            | Ok digest =>
                match ly_DiffID layer with
                | Err e => Err (errorf "cannot read layer diffID" e)
                | Ok diffID =>
                    match layers_loop layers (S layerCounter) hs with
                    | Err e => Err e
                    | Ok rest =>
                        Ok ({| il_Command := base64_EncodeToString (h_CreatedBy h);
                               il_Digest := digest; il_DiffID := diffID |} :: rest)
                    end
                end
            end
        end
  end.

Section image.
Context `{!ControllerUtil}.

Definition imageDetailsToImage (ref : Reference) (details : ImageDetails) (registry : Registry)
    (indexDigest : string) : result Image :=
  match layers_loop (id_Layers details) 0 (id_History details) with
  | Err e => Err e
  | Ok imageLayers =>
      let labels := managed_labels (om_Labels (rg_Meta registry)) in
      let m := new_meta
        (computeImageUID (rg_Name registry) (ref_ContextName ref) (ref_Identifier ref) (id_Digest details))
        "" (rg_Namespace registry) labels ∅ in
      match SetControllerReference "Registry" (rg_Meta registry) m with
      | Err e => Err (errorf "cannot set owner reference" e)
      | Ok m =>
          Ok {| img_Meta := m;
                img_ImageMetadata := {|
                  im_Registry := rg_Name registry;
                  im_RegistryURI := ref_RegistryStr ref;
                  im_Repository := ref_RepositoryStr ref;
                  im_Tag := ref_Identifier ref;
                  im_Platform := cp_String (id_Platform details);
                  im_Digest := id_Digest details;
                  im_IndexDigest := indexDigest |};
                img_Layers := imageLayers;
                img_WorkloadScanReports := [] |}
      end
  end.
End image.

(** ** Layers *)

Definition readable (l : Layer) : bool := is_ok (ly_Digest l) && is_ok (ly_DiffID l).

(** The layer a history entry describes. *)
Definition layer_of (h : History) (l : Layer) : ImageLayer := {|
  il_Command := base64_EncodeToString (h_CreatedBy h);
  il_Digest := match ly_Digest l with Ok d => d | Err _ => "" end;
  il_DiffID := match ly_DiffID l with Ok d => d | Err _ => "" end |}.

(** The history entries that made a layer. *)
Definition layer_entries (hs : list History) : list History :=
  filter (λ h, h_EmptyLayer h = false) hs.

Lemma layers_loop_spec layers n hs :
  Forall (λ l, readable l = true) layers → (n ≤ length layers)%nat →
  layers_loop layers n hs =
  if bool_decide (n + length (layer_entries hs) ≤ length layers)%nat
  then Ok (zip_with layer_of (layer_entries hs) (drop n layers))
  else Err (go_panic "index out of range").
Proof.
  intros Hr. revert n. induction hs as [|h hs IH]; intros n Hn; simpl.
  { rewrite bool_decide_true by (simpl; lia). by destruct (drop n layers). }
  unfold layer_entries. rewrite filter_cons. fold (layer_entries hs).
  destruct (h_EmptyLayer h) eqn:He; simpl.
  { by rewrite IH. }
  rewrite bool_decide_false by lia.
  destruct (layers !! n) as [layer|] eqn:Hl.
  - pose proof (lookup_lt_Some _ _ _ Hl) as Hlt.
    rewrite Forall_lookup in Hr. specialize (Hr n layer Hl).
    unfold readable in Hr. apply andb_true_iff in Hr as [Hd Hi].
    rewrite (drop_S _ _ _ Hl), IH by lia. unfold layer_of.
    destruct (ly_Digest layer), (ly_DiffID layer); try done.
    replace (n + S (length (layer_entries hs)))%nat with (S n + length (layer_entries hs))%nat by lia.
    case_bool_decide; done.
  - apply lookup_ge_None in Hl. rewrite bool_decide_false by lia. done.
Qed.

(** The layers of an image whose layers can be read: when the history
    has at most as many layer-making entries as the image has layers, they are
    paired in order (empty entries skipped).  With one entry more, the guard
    [len(details.Layers) < layerCounter] does not stop the loop, which indexes
    past the end of the slice: the worker panics instead of returning the
    error "layer %d not found". *)
Theorem image_layers (details : ImageDetails)
    (Hreadable : Forall (λ l, readable l = true) (id_Layers details)) :
  layers_loop (id_Layers details) 0 (id_History details) =
  if bool_decide (length (layer_entries (id_History details)) ≤ length (id_Layers details))%nat
  then Ok (zip_with layer_of (layer_entries (id_History details)) (id_Layers details))
  else Err (go_panic "index out of range").
Proof. rewrite layers_loop_spec by (done || lia). done. Qed.

(** An image with one layer and two layer-making history entries. *)
Definition truncated_details : ImageDetails := {|
  id_Digest := "sha256:1"; id_Layers := [{| ly_Digest := Ok "sha256:2"; ly_DiffID := Ok "sha256:3" |}];
  id_History := [{| h_CreatedBy := "ADD"; h_EmptyLayer := false |};
                 {| h_CreatedBy := "ENV"; h_EmptyLayer := true |};
                 {| h_CreatedBy := "COPY"; h_EmptyLayer := false |}];
  id_Platform := {| cp_OS := "linux"; cp_Architecture := "amd64"; cp_Variant := "";
                    cp_String := "linux/amd64" |} |}.

(** [image_layers] on a concrete input. *)
Lemma image_layers_witness :
  layers_loop (id_Layers truncated_details) 0 (id_History truncated_details) =
  Err (go_panic "index out of range").
Proof. apply (image_layers truncated_details). repeat constructor. Defined.

(** ** Names *)

(** What a registry name (a Kubernetes name), an image name, an identifier (a
    tag or a digest) and a digest look like, as far as the key needs. *)
Record key_parts (registryName name identifier digest : string) : Prop := {
  kp_registry : no_byte "/" registryName = true;
  kp_name : no_byte ":" (after_last "/" name) = true;
  kp_identifier : no_byte "/" identifier = true;
  kp_digest : no_byte "@" digest = true
}.

Lemma name_tag_injective (n n' i i' : string) :
  no_byte ":" (after_last "/" n) = true → no_byte ":" (after_last "/" n') = true →
  no_byte "/" i = true → no_byte "/" i' = true →
  n +:+ String ":" i = n' +:+ String ":" i' → n = n' ∧ i = i'.
Proof.
  intros Hn Hn' Hi Hi' Heq.
  assert (∀ m j, no_byte "/" j = true → no_byte "/" (after_last "/" m +:+ String ":" j) = true) as Htail.
  { intros m j Hj. rewrite no_byte_app. simpl. rewrite Hj.
    by rewrite (proj1 (after_last_split "/" m)). }
  assert (∀ m j, no_byte "/" m = true → no_byte "/" j = true → ∀ p q, m +:+ String ":" j ≠ p +:+ String "/" q) as Hno.
  { intros m j Hm Hj p q Hx. apply (f_equal (no_byte "/")) in Hx. rewrite !no_byte_app in Hx. simpl in Hx.
    rewrite Hm, Hj in Hx. by rewrite andb_false_r in Hx. }
  destruct (after_last_split "/" n) as [Hl [Hs|[p Hs]]], (after_last_split "/" n') as [Hl' [Hs'|[p' Hs']]].
  - rewrite <- Hs in Hn. rewrite <- Hs' in Hn'. by apply cut_first in Heq.
  - rewrite <- Hs in Hl. rewrite Hs' in Heq. rewrite <- string_app_assoc, string_app_cons in Heq.
    by destruct (Hno n i Hl Hi _ _ Heq).
  - rewrite <- Hs' in Hl'. rewrite Hs in Heq. rewrite <- string_app_assoc, string_app_cons in Heq.
    symmetry in Heq. by destruct (Hno n' i' Hl' Hi' _ _ Heq).
  - rewrite Hs, Hs', <- !string_app_assoc, !string_app_cons in Heq.
    apply cut_last in Heq as [-> Heq]; [|by apply Htail..].
    apply cut_first in Heq as [Heq ->]; [|done..]. split; [|done]. by rewrite Hs, Hs', Heq.
Qed.

Lemma image_key_injective r n i d r' n' i' d' :
  key_parts r n i d → key_parts r' n' i' d' →
  image_key r n i d = image_key r' n' i' d' → r = r' ∧ n = n' ∧ i = i' ∧ d = d'.
Proof.
  intros [Hr Hn Hi Hd] [Hr' Hn' Hi' Hd'] Heq. unfold image_key in Heq.
  apply (cut_first "/" r r' (n +:+ ":" +:+ i +:+ "@" +:+ d) (n' +:+ ":" +:+ i' +:+ "@" +:+ d'))
    in Heq as [-> Heq]; [|done..].
  rewrite !string_app_assoc in Heq. rewrite <- !(string_app_assoc _ "@") in Heq.
  apply (cut_last "@" ((n +:+ ":") +:+ i) ((n' +:+ ":") +:+ i') d d') in Heq as [Heq ->]; [|done..].
  rewrite <- !string_app_assoc in Heq. by apply (name_tag_injective n n' i i') in Heq as [-> ->].
Qed.

(** Names of Image resources: unless SHA-256 collides on their two keys,
    two images have the same name exactly when they come from the same registry
    resource, repository, identifier and digest (so two Registry resources
    never share an Image); and a name is always 64 characters long. *)
Theorem image_uid_unique (r n i d r' n' i' d' : string)
    (Hparts : key_parts r n i d) (Hparts' : key_parts r' n' i' d')
    (Hsha : sha256_hex (image_key r n i d) = sha256_hex (image_key r' n' i' d') →
            image_key r n i d = image_key r' n' i' d') :
  (computeImageUID r n i d = computeImageUID r' n' i' d' ↔ r = r' ∧ n = n' ∧ i = i' ∧ d = d') ∧
  String.length (computeImageUID r n i d) = 64%nat.
Proof.
  split; [|apply sha256_hex_length]. split.
  - intros Heq%Hsha. by apply image_key_injective.
  - by intros (-> & -> & -> & ->).
Qed.

(** An instance: the same image seen through two Registry resources. *)
Lemma image_uid_unique_witness :
  computeImageUID "reg-a" "host:5000/org/app" "v1" "sha256:cd" ≠
  computeImageUID "reg-b" "host:5000/org/app" "v1" "sha256:cd".
Proof.
  intros Heq.
  apply (image_uid_unique "reg-a" "host:5000/org/app" "v1" "sha256:cd"
           "reg-b" "host:5000/org/app" "v1" "sha256:cd") in Heq as (Hr & _).
  - discriminate Hr.
  - split; reflexivity.
  - split; reflexivity.
  - vm_compute. discriminate.
Defined.

(** ** Targets *)

(** What a target asks of a repository that is declared. *)
Definition restrict (repository : Repository) (target : ScanJobRepository) : Repository :=
  if bool_decide (sr_MatchConditions target = []) then repository
  else with_MatchConditions
         (filter (λ mc, mc_Name mc ∈ sr_MatchConditions target) (rp_MatchConditions repository))
         repository.

Definition unique_conditions (registry : Registry) : Prop :=
  ∀ r, r ∈ rs_Repositories (rg_Spec registry) → NoDup (mc_Name <$> rp_MatchConditions r).

(** With unique condition names, the length test is the declaration test. *)
Lemma filtered_length (mcs : list MatchCondition) (names : gset string) :
  NoDup (mc_Name <$> mcs) →
  length (filter (λ mc, mc_Name mc ∈ names) mcs) = size names ↔
  ∀ n, n ∈ names → n ∈ mc_Name <$> mcs.
Proof.
  intros Hnd. set (kept := filter _ mcs).
  assert (NoDup (mc_Name <$> kept)) as Hk.
  { subst kept. clear -Hnd. induction mcs as [|mc mcs IH]; [constructor|].
    rewrite fmap_cons, NoDup_cons in Hnd. destruct Hnd as [Hnin Hnd]. rewrite filter_cons.
    case_decide; [|by apply IH]. rewrite fmap_cons. constructor; [|by apply IH].
    intros (y & Hy & Hin)%list_elem_of_fmap. apply Hnin, list_elem_of_fmap.
    exists y. apply list_elem_of_filter in Hin. tauto. }
  assert (∀ x, x ∈ mc_Name <$> kept ↔ x ∈ names ∧ x ∈ mc_Name <$> mcs) as Hin.
  { intros x. rewrite !list_elem_of_fmap. subst kept. setoid_rewrite list_elem_of_filter. split.
    - intros (mc & -> & ? & ?). eauto.
    - intros (? & mc & -> & ?). eauto. }
  assert (length kept = size (list_to_set (mc_Name <$> kept) : gset string)) as Hlen.
  { rewrite size_list_to_set by done. by rewrite length_fmap. }
  assert ((list_to_set (mc_Name <$> kept) : gset string) ⊆ names) as Hsub.
  { intros x. rewrite elem_of_list_to_set, Hin. tauto. }
  rewrite Hlen. split.
  - intros Hsize n Hn. apply (Hin n). apply (elem_of_list_to_set (C:=gset string)).
    rewrite (set_subseteq_size_eq _ _ Hsub) by lia. done.
  - intros Hall. f_equal. apply leibniz_equiv. intros x. rewrite elem_of_list_to_set, Hin.
    split; [tauto|]. auto.
Qed.

Lemma check_conditions_None repository target name cs :
  check_conditions repository target name cs = None ↔
  ∀ n, n ∈ cs → n ∈ mc_Name <$> rp_MatchConditions repository.
Proof.
  assert (∀ n, existsb (λ mc, bool_decide (mc_Name mc = n)) (rp_MatchConditions repository) = true ↔
               n ∈ mc_Name <$> rp_MatchConditions repository) as Hex.
  { intros n. rewrite existsb_exists, list_elem_of_fmap.
    split; intros (mc & H1 & H2); exists mc; rewrite ?bool_decide_eq_true, ?list_elem_of_In in *; auto. }
  induction cs as [|n cs IH]; simpl; [set_solver|].
  destruct (existsb _ _) eqn:He.
  - apply Hex in He. rewrite IH. set_solver.
  - split; [done|]. intros Hall. rewrite (proj2 (Hex n)) in He; [done|]. apply Hall. set_solver.
Qed.

Lemma apply_targets_spec registry targets :
  unique_conditions registry →
  match validate_targets registry targets with
  | None => ∃ repositories,
      apply_targets registry targets = Ok repositories ∧
      Forall2 (λ target r, ∃ declared,
        GetRepository registry (sr_Name target) = Some declared ∧ r = restrict declared target)
        targets repositories
  | Some _ => ∃ e, apply_targets registry targets = Err e
  end.
Proof.
  intros Hu. induction targets as [|target ts IH]; simpl; [by exists []|].
  destruct (GetRepository registry (sr_Name target)) as [repository|] eqn:Hg; [|by eauto].
  pose proof (filtered_length (rp_MatchConditions repository) (list_to_set (sr_MatchConditions target))) as Hlen.
  specialize (Hlen (Hu _ (GetRepository_elem _ _ _ Hg))).
  assert (∀ P : string → Prop, (∀ n, n ∈ (list_to_set (sr_MatchConditions target) : gset string) → P n) ↔
            ∀ n, n ∈ sr_MatchConditions target → P n) as Hset.
  { intros P. by setoid_rewrite elem_of_list_to_set. }
  rewrite (Hset (λ n, n ∈ mc_Name <$> rp_MatchConditions repository)) in Hlen. clear Hset.
  destruct (check_conditions _ _ _ _) as [err|] eqn:Hc.
  - rewrite bool_decide_false, bool_decide_false; [by eauto|..].
    + intros Heq. by rewrite (proj2 (check_conditions_None _ target (rg_Name registry) _) (proj1 Hlen Heq)) in Hc.
    + intros Hnil. by rewrite Hnil in Hc.
  - pose proof (proj1 (check_conditions_None _ _ _ _) Hc) as Hall. rewrite (bool_decide_true _ (proj2 Hlen Hall)), andb_false_r.
    destruct (validate_targets registry ts) as [err|].
    + destruct IH as [e ->]. eauto.
    + destruct IH as (rs & -> & Hrs). eexists. split; [done|]. constructor; [|done].
      exists repository. split; [done|]. unfold restrict.
      case_bool_decide; simpl; [done|]. f_equal. apply list_filter_iff. intros mc.
      by rewrite elem_of_list_to_set.
Qed.

(** The worker's targets agree with the controller's validation: on a
    registry whose match conditions have unique names, applying the targets of
    a job succeeds exactly when [validateScanJobTargets] accepts it; and then
    the registry keeps everything but its repositories, which become one per
    target, the declared repository restricted to the requested conditions (a
    job without targets keeps them all). *)
Theorem targets_agree (registry : Registry) (scanJob : ScanJob)
    (Hunique : unique_conditions registry) :
  match validateScanJobTargets scanJob registry with
  | Some _ => is_ok (applyTargetsToRegistry registry scanJob) = false
  | None =>
      ∃ repositories,
        applyTargetsToRegistry registry scanJob = Ok (with_Repositories repositories registry) ∧
        (sp_Repositories (sj_Spec scanJob) = [] → repositories = rs_Repositories (rg_Spec registry)) ∧
        (sp_Repositories (sj_Spec scanJob) ≠ [] →
           Forall2 (λ target r, ∃ declared,
             GetRepository registry (sr_Name target) = Some declared ∧ r = restrict declared target)
             (sp_Repositories (sj_Spec scanJob)) repositories)
  end.
Proof.
  unfold validateScanJobTargets, applyTargetsToRegistry.
  pose proof (apply_targets_spec registry (sp_Repositories (sj_Spec scanJob)) Hunique) as Hspec.
  destruct (validate_targets _ _) as [err|] eqn:Hv.
  - destruct Hspec as [e ->]. rewrite bool_decide_false; [done|]. intros Hnil. by rewrite Hnil in Hv.
  - destruct Hspec as (rs & Happ & Hrs). case_bool_decide as Hnil.
    + exists (rs_Repositories (rg_Spec registry)). split_and!; try done.
      by destruct registry as [? []].
    + rewrite Happ. by exists rs.
Qed.

(** An instance for the agreement: a registry with one repository and two conditions, a
    job that targets one of them. *)
Definition two_conditions : Repository := {|
  rp_Name := "org/app";
  rp_MatchConditions := [{| mc_Name := "stable"; mc_Expression := "true"; mc_Labels := ∅ |};
                         {| mc_Name := "edge"; mc_Expression := "false"; mc_Labels := ∅ |}];
  rp_MatchOperator := MatchOperatorAnd |}.
Definition one_repository : Registry :=
  with_Repositories [two_conditions] {|
    rg_Meta := new_meta "reg" "" "default" ∅ ∅;
    rg_Spec := {| rs_URI := "registry.local"; rs_CatalogType := ""; rs_Repositories := [];
                  rs_AuthSecret := ""; rs_ScanInterval := None; rs_CABundle := "";
                  rs_CABundleRef := None; rs_Insecure := false; rs_Platforms := [] |};
    rg_Conditions := [] |}.
Definition targeted_job : ScanJob :=
  new_ScanJob (new_meta "job" "" "default" ∅ ∅) "reg"
    [{| sr_Name := "org/app"; sr_MatchConditions := ["edge"] |}].

Lemma targets_agree_witness :
  match validateScanJobTargets targeted_job one_repository with
  | Some _ => False
  | None => is_ok (applyTargetsToRegistry one_repository targeted_job) = true
  end.
Proof.
  assert (unique_conditions one_repository) as Hu.
  { intros r Hr. apply list_elem_of_singleton in Hr as ->. vm_compute.
    repeat constructor; vm_compute; intros Hin; repeat (inversion Hin as [|? ? ? Hin']; subst; clear Hin; rename Hin' into Hin). }
  pose proof (targets_agree one_repository targeted_job Hu) as Hagree.
  destruct (validateScanJobTargets targeted_job one_repository) eqn:Hv; [discriminate Hv|].
  destruct Hagree as (rs & -> & _). reflexivity.
Defined.

Definition duplicate_conditions : Registry :=
  with_Repositories
    [with_MatchConditions
       [{| mc_Name := "edge"; mc_Expression := "true"; mc_Labels := ∅ |};
        {| mc_Name := "edge"; mc_Expression := "false"; mc_Labels := ∅ |}] two_conditions] one_repository.

(** Without unique names the two disagree: nothing prevents a repository
    from declaring two match conditions of the same name, and a job that
    targets that name passes the validation of the controller, is scheduled,
    and is then rejected by the worker. *)
Theorem duplicate_conditions_disagree :
  validateScanJobTargets targeted_job duplicate_conditions = None ∧
  is_ok (applyTargetsToRegistry duplicate_conditions targeted_job) = false.
Proof. split; reflexivity. Qed.

(** ** References of a workload registry *)

Section references_facts.
Context `{!Names}.

Lemma references_loop_spec insecure repo cs refs hasDigest refs' hasDigest' :
  references_loop insecure repo cs refs hasDigest = Ok (Some (refs', hasDigest')) →
  (∀ c, c ∈ cs → ∃ d ref, condition_reference insecure repo c = Some (d, Ok ref)) ∧
  (∀ ref, ref ∈ refs' ↔ ref ∈ refs ∨ ∃ c d, c ∈ cs ∧ condition_reference insecure repo c = Some (d, Ok ref)) ∧
  (hasDigest' = true ↔ hasDigest = true ∨
     ∃ c ref, c ∈ cs ∧ condition_reference insecure repo c = Some (true, Ok ref)).
Proof.
  revert refs hasDigest. induction cs as [|c cs IH]; intros refs hasDigest; simpl.
  { intros [= <- <-]. set_solver. }
  destruct (condition_reference insecure repo c) as [[d [ref|e]]|] eqn:Hc; try done.
  intros (Hall & Hrefs & Hdig)%IH. split_and!.
  - intros c' [->|Hc']%elem_of_cons; eauto.
  - intros x. rewrite Hrefs, elem_of_union, elem_of_singleton. split.
    + intros [[->|?]|(c' & d' & ? & ?)]; [right; exists c, d; set_solver|by left|right; exists c', d'; set_solver].
    + intros [?|(c' & d' & [->|?]%elem_of_cons & Hx)]; [set_solver|left; left; congruence|right; eauto].
  - rewrite Hdig, orb_true_iff. split.
    + intros [[->|?]|(c' & x & ? & ?)]; [right; exists c, ref; set_solver|by left|right; exists c', x; set_solver].
    + intros [?|(c' & x & [->|?]%elem_of_cons & Hx)]; [auto|left; left; congruence|right; eauto].
Qed.

(** The exact references of a workload registry.  When the shortcut
    applies, the registry is managed by the workload scan, the repository
    combines its conditions with [Or], every condition is of the form the
    workload controller writes ([tag-<id>] with the expression
    [tag == "<id>"]), at least one of them is a digest, and the references are
    the sorted, duplicate-free list of the references of those conditions. *)
Theorem workload_references_exact (registry : Registry) (repo : NameRepository) (refs : list string)
    (Hrefs : workloadRepositoryReferences registry repo = Ok (Some refs)) :
  IsManagedByWorkloadScan registry = true ∧
  ∃ repository, GetRepository registry (nr_RepositoryStr repo) = Some repository ∧
    rp_MatchOperator repository = MatchOperatorOr ∧
    StronglySorted String.le refs ∧ NoDup refs ∧
    (∀ c, c ∈ rp_MatchConditions repository →
       ∃ id, mc_Name c = "tag-" +:+ id ∧ mc_Expression c = tag_expression id) ∧
    (∃ c id, c ∈ rp_MatchConditions repository ∧ mc_Name c = "tag-" +:+ id ∧
       HasPrefix id "sha256:" = true) ∧
    ∀ ref, ref ∈ refs ↔ ∃ c d, c ∈ rp_MatchConditions repository ∧
      condition_reference (nameOptions registry) repo c = Some (d, Ok ref).
Proof.
  assert (∀ c d ref, condition_reference (nameOptions registry) repo c = Some (d, Ok ref) →
            ∃ id, mc_Name c = "tag-" +:+ id ∧ mc_Expression c = tag_expression id ∧
                  d = HasPrefix id "sha256:") as Hcond.
  { intros c d ref. unfold condition_reference.
    destruct (CutPrefix (mc_Name c) "tag-") as [id|] eqn:Hid; [|done].
    apply CutPrefix_Some in Hid. case_bool_decide as He; [|done]. intros [= <- _]. eauto. }
  unfold workloadRepositoryReferences in Hrefs.
  destruct (IsManagedByWorkloadScan registry); [|done]. simpl in Hrefs. split; [done|].
  destruct (GetRepository _ _) as [repository|]; [|done].
  destruct (negb _ || _) eqn:Hop; [done|]. apply orb_false_iff in Hop as [Hop _].
  apply negb_false_iff, bool_decide_eq_true in Hop.
  destruct (references_loop _ _ _ _ _) as [[[references hasDigest]|]|] eqn:Hloop; try done.
  destruct hasDigest; [|done]. simpl in Hrefs. injection Hrefs as <-.
  apply references_loop_spec in Hloop as (Hall & Hin & Hdig). exists repository. split_and!; try done.
  - apply sort_Strings_sorted.
  - rewrite sort_Strings_perm. apply NoDup_elements.
  - intros c Hc. destruct (Hall c Hc) as (d & ref & Hr).
    destruct (Hcond _ _ _ Hr) as (id & ? & ? & _). eauto.
  - destruct (proj1 Hdig eq_refl) as [?|(c & ref & Hc & Hr)]; [done|].
    destruct (Hcond _ _ _ Hr) as (id & ? & ? & ?). eauto.
  - intros ref. rewrite elem_of_sort_Strings, elem_of_elements, Hin. set_solver.
Qed.
End references_facts.

(** Names as go-containerregistry resolves them, on inputs that need no
    normalisation. *)
Definition plain_Names : Names := {|
  ParseReference := λ _ s, Ok {| ref_Name := s; ref_String := s; ref_ContextName := s;
                                 ref_RegistryStr := s; ref_RepositoryStr := s; ref_Identifier := s |};
  NewRegistry := λ _ s, Ok s;
  NewRepository := λ _ s, Ok {| nr_Name := s; nr_RepositoryStr := s |};
  NewDigest := λ _ s, Ok s;
  NewTag := λ _ s, Ok s;
  TagString := λ r t, nr_Name r +:+ ":" +:+ t |}.

Definition workload_registry : Registry :=
  with_rg_Meta (with_Labels {[ LabelWorkloadScanKey := LabelWorkloadScanValue;
                               LabelManagedByKey := LabelManagedByValue ]}
                  (rg_Meta one_repository))
    (with_Repositories
       [{| rp_Name := "org/app"; rp_MatchOperator := MatchOperatorOr;
           rp_MatchConditions :=
             [{| mc_Name := "tag-v1"; mc_Expression := tag_expression "v1"; mc_Labels := ∅ |};
              {| mc_Name := "tag-sha256:ab"; mc_Expression := tag_expression "sha256:ab";
                 mc_Labels := ∅ |}] |}] one_repository).

(** [workload_references_exact] on a concrete input. *)
Lemma workload_references_exact_witness :
  IsManagedByWorkloadScan workload_registry = true.
Proof.
  apply (@workload_references_exact plain_Names workload_registry
           {| nr_Name := "org/app"; nr_RepositoryStr := "org/app" |}
           ["org/app:v1"; "org/app@sha256:ab"]).
  vm_compute. reflexivity.
Defined.
