(* ===== verification/CreateCatalog.v ===== *)
(** * The catalog handler

    [src/internal/handlers/create_catalog.go]: the first worker of the
    pipeline.  It moves the job to in-progress, discovers the images of the
    registry, creates the Image resources that are missing, deletes the
    obsolete ones, records how many images the job has, and asks for one SBOM
    per image.  [Handle] is split where the source moves from one stage to the
    next; the stages are composed in the order of the source. *)

From stdpp Require Import prelude gmap strings list.
From S2P Require Import Prelude Prog Meta Conditions Registry ScanJob Filters NodeScanJob StorageTypes GoPath Encoding Effects Messages RegistryAuth RegistryClient ScanJobController ImageCatalog.
Import ScanJob.

Section handler.
Context `{!StatusConditions, !ControllerUtil, !Names, !MediaTypes, !CEL, !X509, !MapRange, !Retry}.
Context `{!JSON Registry, !JSON CreateCatalogMessage, !JSON GenerateSBOMMessage}.
Context (installationNamespace : string).

(** ** Stage 1: the job *)

Definition job_name (ref : ObjectRef) : string := o_Namespace ref +:+ "/" +:+ o_Name ref.
Definition job_key (ref : ObjectRef) : NamespacedName :=
  {| nn_Namespace := o_Namespace ref; nn_Name := o_Name ref |}.

(** One attempt at moving the job to in-progress; [None] means the job is
    already finished. *)
Definition start_once (ref : ObjectRef) : go (result (option ScanJob)) :=
  scanJob ←? trigger (KGet KScanJob (job_key ref)) wrap errorf ("cannot get scanjob " +:+ job_name ref);
  if negb (bool_decide (sj_UID scanJob = o_UID ref))
  then Ret (Err (NewNotFound "scanjobs" (job_name ref)))
  else if JobFinished scanJob then Ret (Ok None)
  else
    now ← trigger Now;
    let scanJob := MarkInProgress now ReasonScanJobCatalogCreationInProgress
                     "Catalog creation in progress" scanJob in
    updated ←? trigger (KStatusUpdate KScanJob scanJob) wrap (λ e, e);
    Ret (Ok (Some updated)).

(** ** Stage 2: the transport *)

Definition transportFromRegistry (registry : Registry) : go (result Transport) :=
  ok ← trigger DefaultTransportIsHTTP;
  if negb ok
  then Ret (Err (errors_New "remote.DefaultTransport is not an *http.Transport"))
  else
    caBundle ←? Resolve registry installationNamespace wrap errorf "cannot resolve CA bundle";
    Ret (Ok {| tp_InsecureSkipVerify := rs_Insecure (rg_Spec registry);
               tp_RootCAs := if bool_decide (caBundle = "") then None else Some caBundle |}).

(** ** Stage 3: discovery *)

Definition discoverRepositories (transport : Transport) (registry : Registry)
  : go (result (list string)) :=
  match NewRegistry (nameOptions registry) (rs_URI (rg_Spec registry)) with
  | Err e => Ret (Err (errorf ("cannot parse registry " +:+ rg_Name registry +:+ " " +:+
                          rg_Namespace registry) e))
  | Ok reg =>
      if bool_decide (rs_Repositories (rg_Spec registry) = []) then
        allRepositories ←? Catalog transport reg wrap errorf "cannot discover repositories";
        Ret (Ok allRepositories)
      else
        Ret (Ok ((λ repository, path_Join [reg; rp_Name repository]) <$>
                   rs_Repositories (rg_Spec registry)))
  end.

Definition discoverImages (transport : Transport) (registry : Registry) (repository : string)
  : go (result (list string)) :=
  match NewRepository (nameOptions registry) repository with
  | Err e => Ret (Err (errorf ("cannot parse repository name " +:+ quote repository) e))
  | Ok repo =>
      match workloadRepositoryReferences registry repo with
      | Err e => Ret (Err e)
      | Ok (Some references) => Ret (Ok references)
      | Ok None =>
          contents ←? ListRepositoryContents transport repo wrap errorf "cannot list repository contents";
          Ret (Ok contents)
      end
  end.

(** The loop over the repositories. *)
Definition discover_one (transport : Transport) (registry : Registry)
    (references : gset string) (repository : string) : go (result (gset string)) :=
  repoImages ←? discoverImages transport registry repository
    wrap errorf ("cannot discover images in registry " +:+ rg_Name registry);
  Ret (Ok (list_to_set repoImages ∪ references)).

(** ** Stage 4: the images of a reference *)

Definition singleArchRefToImages (transport : Transport) (ref : Reference) (registry : Registry)
  : go (result (list Image)) :=
  d ← GetImageDetails transport ref;
  match d with
  | Err e =>
      if errors_Is e ErrNotContainerImage then Ret (Ok [])
      else if errors_Is e ErrNoPlatform then Ret (Ok [])
      else Ret (Err (errorf ("cannot get image details for " +:+ quote (ref_Name ref)) e))
  | Ok imageDetails =>
      if negb (IsPlatformAllowed (cp_OS (id_Platform imageDetails))
                 (cp_Architecture (id_Platform imageDetails)) (cp_Variant (id_Platform imageDetails))
                 (rs_Platforms (rg_Spec registry)))
      then Ret (Ok [])
      else
        match imageDetailsToImage ref imageDetails registry "" with
        | Err e => Ret (Err (errorf ("cannot convert image details to image for " +:+
                                quote (ref_Name ref)) e))
        | Ok image =>
            check trigger MsgInProgress wrap errorf "failed to ack message as in progress";
            Ret (Ok [image])
        end
  end.

(** The loop over the entries of an index. *)
Definition index_entry (transport : Transport) (ref : Reference) (registry : Registry)
    (imageIndex : CraneIndex) (indexDigest : string) (images : list Image) (m : IndexEntry)
  : go (result (list Image)) :=
  match ie_Platform m with
  | None => Ret (Ok images)
  | Some platform =>
      if negb (IsPlatformAllowed (cp_OS platform) (cp_Architecture platform) (cp_Variant platform)
                 (rs_Platforms (rg_Spec registry)))
      then Ret (Ok images)
      else
        d ← GetImageDetailsFromIndex transport imageIndex (ie_Digest m) platform;
        match d with
        | Err e =>
            if errors_Is e ErrNotContainerImage then Ret (Ok images)
            else Ret (Err (errorf ("cannot get image details for " +:+ quote (ref_Name ref) +:+
                             " digest " +:+ ie_Digest m +:+ " platform " +:+ cp_String platform) e))
        | Ok imageDetails =>
            match imageDetailsToImage ref imageDetails registry indexDigest with
            | Err e => Ret (Err (errorf ("cannot convert image details to image for " +:+
                                    quote (ref_Name ref)) e))
            | Ok image =>
                check trigger MsgInProgress wrap errorf "failed to ack message as in progress";
                Ret (Ok (images ++ [image]))
            end
        end
  end.

Definition multiArchRefToImages (transport : Transport) (ref : Reference) (registry : Registry)
    (desc : Descriptor) : go (result (list Image)) :=
  match ds_ImageIndex desc with
  | Err e => Ret (Err (errorf ("cannot parse image index for " +:+ quote (ref_Name ref)) e))
  | Ok imageIndex =>
  match cx_IndexManifest imageIndex with
  | Err e => Ret (Err (errorf ("cannot read index manifest of " +:+ quote (ref_Name ref)) e))
  | Ok manifest =>
  match cx_Digest imageIndex with
  | Err e => Ret (Err (errorf ("cannot get index digest for " +:+ quote (ref_Name ref)) e))
  | Ok indexDigest =>
      for_each (index_entry transport ref registry imageIndex indexDigest) [] (ix_Manifests manifest)
  end end end.

Definition refToImages (transport : Transport) (ref : Reference) (registry : Registry)
  : go (result (list Image)) :=
  desc ←? GetDescriptor transport ref
    wrap errorf ("cannot get descriptor for " +:+ quote (ref_Name ref));
  match IsContainerImage desc with
  | Err e => Ret (Err (errorf ("cannot check if " +:+ ref_Name ref +:+ " is a container image") e))
  | Ok isContainerImage =>
      if negb isContainerImage then Ret (Ok [])
      else if mt_IsIndex (ds_MediaType desc) then multiArchRefToImages transport ref registry desc
      else singleArchRefToImages transport ref registry
  end.

(** ** Stage 5: the Image resources *)

(** The state of the two loops: the job as last fetched, and the images
    discovered so far.  [inl] is a return from [Handle]. *)
Definition create_image (ref : ObjectRef) (existingImageNames : gset string)
    (st : ScanJob * list Image) (image : Image) : go (result unit + ScanJob * list Image) :=
  r ← trigger (KGet KScanJob (job_key ref));
  match r with
  | Err e =>
      if IsNotFound e then
        _ ← trigger (RecordSkipReason skipReasonJobNotFound);
        Ret (inl (Ok tt))
      else Ret (inl (Err (errorf ("cannot get scanjob " +:+ job_name ref) e)))
  | Ok scanJob =>
      if negb (bool_decide (sj_UID scanJob = o_UID ref)) then
        _ ← trigger (RecordSkipReason skipReasonUIDMismatch);
        Ret (inl (Ok tt))
      else
        let st := (scanJob, st.2 ++ [image]) in
        if bool_decide (img_Name image ∈ existingImageNames) then Ret (inr st)
        else
          c ← trigger (KCreate KImage image);
          match c with
          | Err e =>
              if IsAlreadyExists e then Ret (inr st)
              else Ret (inl (Err (errorf ("cannot create image " +:+ img_Name image) e)))
          | Ok _ =>
              p ← trigger MsgInProgress;
              match p with
              | Err e => Ret (inl (Err (errorf "failed to ack message as in progress" e)))
              | Ok _ => Ret (inr st)
              end
          end
  end.

Definition process_reference (ref : ObjectRef) (transport : Transport) (registry : Registry)
    (existingImageNames : gset string) (st : ScanJob * list Image) (newImageName : string)
  : go (result unit + ScanJob * list Image) :=
  match ParseReference (nameOptions registry) newImageName with
  | Err e => Ret (inl (Err (errorf ("cannot parse image reference " +:+ quote newImageName) e)))
  | Ok imageRef =>
      match FilterByTag (GetRepository registry (ref_RepositoryStr imageRef)) (ref_Identifier imageRef) with
      | Err e => Ret (inl (Err (errorf ("cannot evaluate image tag for " +:+ quote newImageName) e)))
      | Ok tagIsAllowed =>
          if negb tagIsAllowed then Ret (inr st)
          else
            r ← refToImages transport imageRef registry;
            match r with
            | Err e => Ret (inl (Err (errorf ("cannot get images for " +:+ quote (ref_String imageRef)) e)))
            | Ok images => for_ret (create_image ref existingImageNames) st images
            end
      end
  end.

(** ** Stage 6: obsolete images *)

Definition image_names (images : list Image) : gset string := list_to_set (img_Name <$> images).

Definition delete_image (namespace : string) (_ : unit) (obsoleteImageName : string)
  : go (result unit) :=
  let existingImage := {|
    img_Meta := new_meta obsoleteImageName "" namespace ∅ ∅;
    img_ImageMetadata := {| im_Registry := ""; im_RegistryURI := ""; im_Repository := "";
      im_Tag := ""; im_Platform := ""; im_Digest := ""; im_IndexDigest := "" |};
    img_Layers := []; img_WorkloadScanReports := [] |} in
  check trigger (KDelete KImage existingImage)
    wrap errorf ("cannot delete image " +:+ obsoleteImageName +:+ "/" +:+ namespace);
  check trigger MsgInProgress wrap errorf "cannot mark message as in progress";
  Ret (Ok tt).

Definition deleteObsoleteImages (existingImageNames discoveredImageNames : gset string)
    (namespace : string) : go (result unit) :=
  let obsoleteImageNames := existingImageNames ∖ discoveredImageNames in
  for_each (delete_image namespace) tt (range 3 (elements obsoleteImageNames)).

(** ** Stage 7: the job is given its images *)

Definition finish_once (ref : ObjectRef) (key : NamespacedName) (discoveredImages : list Image)
  : go (result (bool * ScanJob)) :=
  scanJob ←? trigger (KGet KScanJob key)
    wrap errorf ("cannot get scan job " +:+ nn_Namespace key +:+ "/" +:+ nn_Name key +:+
                 " while updating status");
  if negb (bool_decide (sj_UID scanJob = o_UID ref))
  then Ret (Err (NewNotFound "scanjobs" (job_name ref)))
  else
    let wasFinished := JobFinished scanJob in
    now ← trigger Now;
    let scanJob :=
      if bool_decide (discoveredImages = []) then
        MarkComplete now ReasonScanJobNoImagesToScan "No images to process" scanJob
      else
        with_counts (Z.of_nat (length discoveredImages)) 0
          (MarkInProgress now ReasonScanJobSBOMGenerationInProgress "SBOM generation in progress" scanJob) in
    updated ←? trigger (KStatusUpdate KScanJob scanJob) wrap (λ e, e);
    Ret (Ok (wasFinished, updated)).

(** ** Stage 8: one SBOM per image *)

Definition request_sbom (ref : ObjectRef) (uid : string) (_ : unit) (image : Image) : go (result unit) :=
  let name := img_Namespace image +:+ "/" +:+ img_Name image in
  let messageID := "generateSBOM/" +:+ uid +:+ "/" +:+ img_Name image in
  match Marshal {| gsm_ScanJob := ref;
                   gsm_Image := {| o_Name := img_Name image; o_Namespace := img_Namespace image;
                                   o_UID := "" |} |} with
  | Err e => Ret (Err (errorf ("cannot marshal generate sbom message for image " +:+ name) e))
  | Ok message =>
      check trigger (PublishMsg GenerateSBOMSubject messageID message)
        wrap errorf ("cannot publish generate sbom message for image " +:+ name);
      Ret (Ok tt)
  end.

(** Stages 7 and 8, and the cleanup before them. *)
Definition complete_catalog (ref : ObjectRef) (registry : Registry) (existingImageNames : gset string)
    (scanJob : ScanJob) (discoveredImages : list Image) : go (result unit) :=
  let discoveredImageNames := image_names discoveredImages in
  check (if bool_decide (sp_Repositories (sj_Spec scanJob) = [])
         then deleteObsoleteImages existingImageNames discoveredImageNames (rg_Namespace registry)
         else Ret (Ok tt))
    wrap errorf ("cannot delete obsolete images in registry " +:+ rg_Name registry);
  f ← RetryOnConflict (finish_once ref (key_of (sj_Meta scanJob)) discoveredImages);
  match f with
  | Err e =>
      if IsNotFound e then Ret (Ok tt)
      else Ret (Err (errorf ("cannot update scan job status " +:+ job_name ref) e))
  | Ok (wasFinished, scanJob) =>
      _ ← (if negb wasFinished then RecordScanJobFinished scanJob else Ret tt);
      for_each (request_sbom ref (sj_UID scanJob)) tt discoveredImages
  end.

(** Stages 3 to 8, with the registry reachable. *)
Definition catalog (ref : ObjectRef) (scanJob : ScanJob) (registry : Registry) (transport : Transport)
  : go (result unit) :=
  repositories ←? discoverRepositories transport registry wrap errorf "cannot discover repositories";
  discoveredImageReferences ←? for_each (discover_one transport registry) ∅ repositories wrap (λ e, e);
  existingImageList ←? trigger (KList KImage
      [InNamespace (rg_Namespace registry); MatchingFields IndexImageMetadataRegistry (rg_Name registry)])
    wrap errorf ("cannot list existing images in registry " +:+ rg_Name registry);
  let existingImageNames := image_names existingImageList in
  check trigger MsgInProgress wrap errorf "failed to ack message as in progress";
  check trigger NewTagEvaluator wrap errorf "cannot instantiate new tag evaluator";
  r ← for_ret (process_reference ref transport registry existingImageNames) (scanJob, [])
        (range 4 (elements discoveredImageReferences));
  match r with
  | inl r => Ret r
  | inr (scanJob, discoveredImages) =>
      complete_catalog ref registry existingImageNames scanJob discoveredImages
  end.

(** Stages 2 to 8: the deferred function removes the credentials whatever
    the outcome. *)
Definition create_catalog (ref : ObjectRef) (scanJob : ScanJob) : go (result unit) :=
  match registryFromScanJob scanJob with
  | Err e => Ret (Err e)
  | Ok registry =>
  match applyTargetsToRegistry registry scanJob with
  | Err e => Ret (Err e)
  | Ok registry =>
      transport ←? transportFromRegistry registry
        wrap errorf ("cannot create transport for registry " +:+ rg_Name registry);
      if IsPrivate registry then
        dockerConfig ←? BuildDockerConfigForRegistry registry installationNamespace
          wrap errorf "cannot setup docker auth";
        r ← catalog ref scanJob registry transport;
        _ ← trigger (OsRemoveAll dockerConfig);
        _ ← trigger (OsUnsetenv "DOCKER_CONFIG");
        Ret r
      else catalog ref scanJob registry transport
  end end.

Definition Handle (data : string) : go (result unit) :=
  match Unmarshal data with
  | Err e => Ret (Err (errorf "cannot unmarshal message" e))
  | Ok createCatalogMessage =>
      let ref := ccm_ScanJob createCatalogMessage in
      r ← RetryOnConflict (start_once ref);
      match r with
      | Err e =>
          if IsNotFound e then
            _ ← trigger (RecordSkipReason skipReasonJobNotFound);
            Ret (Ok tt)
          else Ret (Err (errorf ("cannot update scan job status " +:+ job_name ref) e))
      | Ok None =>
          _ ← trigger (RecordSkipReason skipReasonJobFinished);
          Ret (Ok tt)
      | Ok (Some scanJob) => create_catalog ref scanJob
      end
  end.

(** ** The calls of each stage *)

(** Changes a stage may make besides reading. *)
Definition image_call A (e : Eff A) : Prop :=
  match e with KCreate KImage _ => True | _ => plain A e end.
Definition delete_call A (e : Eff A) : Prop :=
  match e with KDelete KImage _ => True | _ => plain A e end.
Definition status_call A (e : Eff A) : Prop :=
  match e with KStatusUpdate KScanJob _ => True | _ => plain A e end.

Lemma registry_plain t A (e : Eff A) : registry_call t A e → plain A e.
Proof. destruct e; simpl; try done; intros; by repeat split. Qed.
Lemma plain_reads A (e : Eff A) : plain A e → reads_only A e.
Proof. by intros [? _]. Qed.
Lemma reads_from_reads ns A (e : Eff A) : reads_from ns A e → reads_only A e.
Proof. destruct e; simpl; try done; intros; by repeat case_match. Qed.

Ltac calls_tac :=
  repeat calls_step; try exact I; try (repeat split; reflexivity).

Lemma start_calls ref : calls status_call (start_once ref).
Proof. unfold start_once. calls_tac. Qed.

Lemma transport_calls registry : calls reads_only (transportFromRegistry registry).
Proof.
  unfold transportFromRegistry. calls_tac.
  eapply calls_mono; [apply reads_from_reads|apply Resolve_confined].
Qed.

Lemma discoverRepositories_plain t registry : calls plain (discoverRepositories t registry).
Proof.
  unfold discoverRepositories. calls_tac.
  eapply calls_mono; [apply (registry_plain t)|apply Catalog_calls].
Qed.

Lemma discover_plain t registry refs repos :
  calls plain (for_each (discover_one t registry) refs repos).
Proof.
  apply calls_for_each. intros. unfold discover_one, discoverImages. calls_tac.
  eapply calls_mono; [apply (registry_plain t)|apply ListRepositoryContents_calls].
Qed.

Lemma refToImages_plain t imageRef registry : calls plain (refToImages t imageRef registry).
Proof.
  unfold refToImages, multiArchRefToImages, singleArchRefToImages, index_entry. calls_tac.
  - eapply calls_mono; [apply (registry_plain t)|apply GetDescriptor_calls].
  - eapply calls_mono; [apply (registry_plain t)|apply GetImageDetailsFromIndex_calls].
  - eapply calls_mono; [apply (registry_plain t)|apply GetImageDetails_calls].
Qed.

Lemma create_image_calls ref existing st image : calls image_call (create_image ref existing st image).
Proof. unfold create_image. calls_tac. Qed.

Lemma process_calls ref t registry existing st refs :
  calls image_call (for_ret (process_reference ref t registry existing) st refs).
Proof.
  apply calls_for_ret. intros. unfold process_reference. calls_tac; [|apply create_image_calls].
  eapply calls_mono; [|apply refToImages_plain]. intros A e He. destruct e; try done; by destruct k.
Qed.

Lemma deleteObsolete_calls existing discovered ns :
  calls delete_call (deleteObsoleteImages existing discovered ns).
Proof. unfold deleteObsoleteImages, delete_image. calls_tac. Qed.

Lemma finish_calls ref key images : calls status_call (finish_once ref key images).
Proof. unfold finish_once. calls_tac. Qed.

(** The subject and the identifier of a message. *)
Definition sent (m : string * string * string * result unit) : string * string := (m.1.1.1, m.1.1.2).

(** ** Deletions *)

Lemma delete_loop ns names :
  wp any_answer (for_each (delete_image ns) tt names) [] (λ tr _,
    ∀ image a, (image, a) ∈ omap (ev_delete KImage) tr → img_Namespace image = ns ∧ img_Name image ∈ names).
Proof.
  apply (wp_for_each _ _ (λ pre tr _, ∀ image a, (image, a) ∈ omap (ev_delete KImage) tr →
    img_Namespace image = ns ∧ img_Name image ∈ pre)).
  - intros pre x rest tr [] Hl Hpre. unfold delete_image.
    assert (∀ image a y, (image, a) ∈ omap (ev_delete KImage) tr ++ [({| img_Meta := new_meta x "" ns ∅ ∅;
      img_ImageMetadata := {| im_Registry := ""; im_RegistryURI := ""; im_Repository := "";
        im_Tag := ""; im_Platform := ""; im_Digest := ""; im_IndexDigest := "" |};
      img_Layers := []; img_WorkloadScanReports := [] |}, y)] →
      img_Namespace image = ns ∧ img_Name image ∈ pre ++ [x]) as Hstep.
    { intros image a y [Hin|Hin]%elem_of_app; [destruct (Hpre _ _ Hin); set_solver|].
      apply list_elem_of_singleton in Hin. simplify_eq. cbn. set_solver. }
    wp_steps; intros image b; rewrite !omap_app; cbn; rewrite ?app_nil_r; intros Hin;
      destruct (Hstep _ _ _ Hin); subst; split; try done; set_solver.
  - intros tr [] Htr. done.
  - set_solver.
Qed.

(** The job stage 1 ends with was answered by the API server. *)
Lemma start_seen ref :
  wp any_answer (RetryOnConflict (start_once ref)) [] (λ tr r,
    omap (ev_create KImage) tr = [] ∧ omap (ev_delete KImage) tr = [] ∧
    ∀ scanJob, r = Ok (Some scanJob) → scanJob ∈ omap seen_job tr).
Proof.
  eapply wp_mono; [|apply wp_conj;
    [apply (calls_wp status_call); [apply calls_retry, start_calls|done]|
     apply (wp_retry _ _ (λ _, True) (λ tr r, ∀ scanJob, r = Ok (Some scanJob) → scanJob ∈ omap seen_job tr));
     [done|]]].
  - intros tr r [Hc Hs]. split_and!; [..|done]; eapply omap_calls; try exact Hc;
      intros A e a He; destruct e; try done; by destruct He as [[]].
  - intros tr _. unfold start_once. wp_steps; (split; [|done]); try done.
    intros job [= <-]. rewrite omap_app. set_solver.
Qed.

(** ** Stale messages *)

(** The run read the job of the message, unfinished. *)
Definition fresh (ref : ObjectRef) (tr : trace Eff) : Prop :=
  ∃ job, (job_key ref, Ok job) ∈ omap (ev_get KScanJob) tr ∧
         sj_UID job = o_UID ref ∧ JobFinished job = false.

Lemma fresh_app ref tr ext : fresh ref tr → fresh ref (tr ++ ext).
Proof. intros (job & ? & ?). exists job. rewrite omap_app, elem_of_app. tauto. Qed.

Lemma start_fresh ref :
  wp any_answer (RetryOnConflict (start_once ref)) [] (λ tr r,
    (Forall (obs_call reads_only) tr ∨ fresh ref tr) ∧ ∀ scanJob, r = Ok (Some scanJob) → fresh ref tr).
Proof.
  apply (wp_retry _ _ (λ tr, Forall (obs_call reads_only) tr ∨ fresh ref tr)).
  { left. constructor. }
  intros tr Htr. unfold start_once.
  assert (∀ ext, Forall (obs_call reads_only) ext →
            Forall (obs_call reads_only) (tr ++ ext) ∨ fresh ref (tr ++ ext)) as Hreads.
  { intros ext Hext. destruct Htr as [Htr|Htr]; [left; by apply Forall_app|right; by apply fresh_app]. }
  wp_steps; repeat match goal with Hb : negb (bool_decide _) = false |- _ =>
    apply negb_false_iff, bool_decide_eq_true in Hb end.
  all: try (by (split; [split; [apply Hreads; by repeat constructor|done]|intros; apply Hreads; by repeat constructor])).
  all: match goal with |- context [Ev (KGet KScanJob _) (Ok ?job)] =>
         assert (∀ ext, fresh ref ((tr ++ [Ev (KGet KScanJob (job_key ref)) (Ok job)]) ++ ext)) as Hf end.
  all: try (intros ext; apply fresh_app; eexists; split; [rewrite omap_app; apply elem_of_app; right; by left|done]).
  all: split; [split; [right|intros _ _]|intros _ _ _; right]; rewrite <- ?app_assoc; rewrite (app_assoc tr [_]); apply Hf.
Qed.

(** Stale messages are ignored, whatever the environment answers: unless
    the handler reads the job of the message, with the UID of the message and
    not finished, it changes nothing in the cluster and publishes nothing (so
    a redelivered message does not restart a finished job, and a message for a
    job that was deleted and created again under the same name has no
    effect). *)
Theorem stale_message_ignored {W} (h : handler Eff W) (w : W) (data : string) :
  let tr := run_trace h (Handle data) w in
  Forall (obs_call reads_only) tr ∨
  ∃ msg job, Unmarshal data = Ok msg ∧
    (job_key (ccm_ScanJob msg), Ok job) ∈ omap (ev_get KScanJob) tr ∧
    sj_UID job = o_UID (ccm_ScanJob msg) ∧ JobFinished job = false.
Proof.
  cbv zeta. destruct (Unmarshal data) as [msg|e] eqn:Hmsg.
  2: { left. unfold Handle. rewrite Hmsg. constructor. }
  assert (Forall (obs_call reads_only) (run_trace h (Handle data) w) ∨
          fresh (ccm_ScanJob msg) (run_trace h (Handle data) w)) as [?|(job & ? & ? & ?)]; [|by left|right; by exists msg, job].
  apply (wp_run_any h (Handle data) w (λ tr _, Forall (obs_call reads_only) tr ∨ fresh (ccm_ScanJob msg) tr)).
  unfold Handle. rewrite Hmsg. cbv zeta.
  eapply wp_cut; [apply start_fresh|]. intros tr r [Htr Hr].
  assert (∀ p : go (result unit), calls reads_only p → wp any_answer p tr
    (λ tr _, Forall (obs_call reads_only) tr ∨ fresh (ccm_ScanJob msg) tr)) as Hq.
  { intros p Hp. eapply wp_mono; [|by apply (wp_calls reads_only)]. intros tr' r' (ext & -> & Hext).
    destruct Htr as [?|?]; [left; by apply Forall_app|right; by apply fresh_app]. }
  destruct r as [[scanJob|]|e]; [|apply Hq; by calls_tac..].
  eapply wp_frame; [apply wp_true|]. intros ext r _. right. by eapply fresh_app, Hr.
Qed.

(** ** Credentials *)

Lemma catalog_secretless ref scanJob registry t :
  calls (λ A e, secretive e = false) (catalog ref scanJob registry t).
Proof.
  assert (∀ A (e : Eff A), plain A e → secretive e = false) as Hp by (by intros A e [_ ?]).
  unfold catalog.
  apply calls_try; [eapply calls_mono; [exact Hp|apply discoverRepositories_plain]|intros repos].
  apply calls_try; [eapply calls_mono; [exact Hp|apply discover_plain]|intros refs].
  do 3 (apply calls_try; [done|intros ?]). cbv zeta.
  apply calls_bind; [eapply calls_mono; [|apply process_calls]; intros A e He; destruct e; try done; by apply Hp in He|].
  intros [r|[job images]]; [done|]. unfold complete_catalog. apply calls_try.
  { case_match; [|done]. eapply calls_mono; [|apply deleteObsolete_calls].
    intros A e He. destruct e; try done; by apply Hp in He. }
  intros _. apply calls_bind.
  { eapply calls_mono; [|apply calls_retry, finish_calls]. intros A e He. destruct e; try done; by apply Hp in He. }
  intros [[wf persisted]|e]; [|by calls_tac].
  unfold RecordScanJobFinished, request_sbom. by calls_tac.
Qed.

Lemma applyTargets_meta registry scanJob registry' :
  applyTargetsToRegistry registry scanJob = Ok registry' → rg_Meta registry' = rg_Meta registry.
Proof. unfold applyTargetsToRegistry. repeat case_match; intros [= <-]; done. Qed.

Lemma secretless_obs ext :
  Forall (obs_call (λ A (e : Eff A), secretive e = false)) ext →
  omap ev_secret_namespace ext = [] ∧ omap ev_docker_config ext = [].
Proof. intros Hext. split; eapply omap_calls; try exact Hext; intros A e a He; destruct e; try done; by destruct k. Qed.

Lemma reads_from_obs ns ext :
  Forall (obs_call (reads_from ns)) ext → Forall (λ n, n = ns) (omap ev_secret_namespace ext).
Proof.
  induction 1 as [|[A e a] ext He _ IH]; [constructor|]. cbn.
  destruct e; try done; destruct k; try done; constructor; done.
Qed.

Lemma build_config registry :
  wp any_answer (BuildDockerConfigForRegistry registry installationNamespace) [] (λ tr r,
    Forall (λ n, n = secrets_namespace registry installationNamespace) (omap ev_secret_namespace tr) ∧
    omap ev_docker_config tr = match r with Ok dir => [dir] | Err _ => [] end).
Proof.
  eapply wp_mono; [|apply wp_conj; [apply (calls_wp (reads_from (secrets_namespace registry installationNamespace)));
    [apply BuildDockerConfig_confined|constructor]|]].
  { intros tr r [Hc Hr]. split; [by apply reads_from_obs|exact Hr]. }
  unfold BuildDockerConfigForRegistry, createDockerConfigJSON. cbv zeta. wp_steps; done.
Qed.

Lemma transport_config registry :
  wp any_answer (transportFromRegistry registry) [] (λ tr r,
    Forall (λ n, n = secrets_namespace registry installationNamespace) (omap ev_secret_namespace tr) ∧
    omap ev_docker_config tr = []).
Proof.
  eapply wp_mono; [|apply wp_conj; [apply (calls_wp (reads_from (secrets_namespace registry installationNamespace)));
    [|constructor]|apply (calls_wp (λ A e, match e with OsSetenv _ _ => False | _ => True end)); [|constructor]]].
  - intros tr r [Hc Hn]. split; [by apply reads_from_obs|].
    eapply omap_calls; [|exact Hn]. intros A e a He. by destruct e.
  - unfold transportFromRegistry. apply calls_bind; [done|]. intros ok. case_match; [done|].
    apply calls_try; [apply Resolve_confined|done].
  - unfold transportFromRegistry, Resolve, readRef, readConfigMapKey, readSecretKey. cbv zeta.
    repeat calls_step; done.
Qed.

(** Where the secrets come from and what is left of them at the end. *)
Definition credentials_ok (ns : string) (tr : trace Eff) : Prop :=
  Forall (λ n, n = ns) (omap ev_secret_namespace tr) ∧
  Forall (λ dir, ∃ pre a b,
    tr = pre ++ [Ev (OsRemoveAll dir) a; Ev (OsUnsetenv "DOCKER_CONFIG") b]) (omap ev_docker_config tr).

Lemma create_catalog_credentials ref scanJob registry :
  registryFromScanJob scanJob = Ok registry →
  wp any_answer (create_catalog ref scanJob) []
    (λ tr _, credentials_ok (secrets_namespace registry installationNamespace) tr).
Proof.
  intros Hreg. unfold create_catalog. rewrite Hreg.
  destruct (applyTargetsToRegistry registry scanJob) as [registry'|e] eqn:Happ;
    [|by split; constructor].
  assert (secrets_namespace registry' installationNamespace = secrets_namespace registry installationNamespace) as Hns.
  { unfold secrets_namespace, IsManagedByWorkloadScan, rg_Namespace. by rewrite (applyTargets_meta _ _ _ Happ). }
  rewrite <- Hns. clear Hns.
  eapply wp_try_seq; [apply transport_config| |].
  2: { intros ext e [Hs Hd]. split; [done|]. rewrite Hd. constructor. }
  intros e1 t [Hs1 Hd1].
  destruct (IsPrivate registry').
  2: { eapply wp_mono; [|apply (calls_wp _ _ _ [] (catalog_secretless ref scanJob registry' t)); constructor].
       intros tr r [Hs Hd]%secretless_obs. unfold credentials_ok. rewrite !omap_app, Hs, Hd1, Hd, app_nil_r.
       split; [done|constructor]. }
  eapply wp_try_seq; [apply build_config| |].
  2: { intros ext e [Hs Hd]. unfold credentials_ok. rewrite !omap_app, Hd1, Hd.
       split; [by apply Forall_app|constructor]. }
  intros e2 dir [Hs2 Hd2].
  eapply wp_seq; [apply (calls_wp _ _ _ [] (catalog_secretless ref scanJob registry' t)); constructor|].
  intros e3 r [Hs3 Hd3]%secretless_obs.
  apply wp_bind; intros a _; cbn [wp trigger]. apply wp_bind; intros b _; cbn.
  unfold credentials_ok. rewrite !omap_app, Hd1, Hd2, Hd3, Hs3. cbn. rewrite !app_nil_r. split.
  - by apply Forall_app.
  - constructor; [|constructor]. exists (e1 ++ e2 ++ e3), a, b. by rewrite <- !app_assoc.
Qed.

(** Credentials, whatever the environment answers.  Every Secret or
    ConfigMap the handler reads is in the namespace of a ScanJob it read, or,
    for a registry managed by the workload scan, in the namespace of the
    installation; and whenever it points the process at a docker
    configuration, the run ends by deleting that directory and unsetting the
    variable, also when the catalog fails. *)
Theorem credentials_confined {W} (h : handler Eff W) (w : W) (data : string) :
  let tr := run_trace h (Handle data) w in
  (∃ ns, Forall (λ n, n = ns) (omap ev_secret_namespace tr) ∧
     (ns = installationNamespace ∨ ∃ job, job ∈ omap seen_job tr ∧ ns = sj_Namespace job)) ∧
  Forall (λ dir, ∃ pre a b,
    tr = pre ++ [Ev (OsRemoveAll dir) a; Ev (OsUnsetenv "DOCKER_CONFIG") b]) (omap ev_docker_config tr).
Proof.
  wp_start. unfold Handle.
  assert (∀ tr : trace Eff,
    Forall (obs_call (λ A (e : Eff A), secretive e = false)) tr →
    (∃ ns, Forall (λ n, n = ns) (omap ev_secret_namespace tr) ∧
       (ns = installationNamespace ∨ ∃ job, job ∈ omap seen_job tr ∧ ns = sj_Namespace job)) ∧
    Forall (λ dir, ∃ pre a b,
      tr = pre ++ [Ev (OsRemoveAll dir) a; Ev (OsUnsetenv "DOCKER_CONFIG") b]) (omap ev_docker_config tr)) as Hnone.
  { intros tr [-> ->]%secretless_obs. split; [|constructor]. exists installationNamespace. by split; [|left]. }
  destruct (Unmarshal data) as [msg|e]; [|apply Hnone; constructor]. cbv zeta.
  eapply wp_seq; [apply wp_conj; [apply start_seen|apply (calls_wp status_call); [apply calls_retry, start_calls|constructor]]|].
  intros ext r [(_ & _ & Hseen) Hst].
  assert (Forall (obs_call (λ A (e : Eff A), secretive e = false)) ext) as Hext.
  { eapply Forall_impl; [exact Hst|]. intros [A e a] He. cbn in *. destruct e; try done; by destruct He. }
  destruct r as [[scanJob|]|e].
  2, 3: eapply wp_mono; [|apply (calls_wp (λ A e, secretive e = false)); [by calls_tac|constructor]];
    intros tr r Htr; apply Hnone; by apply Forall_app.
  specialize (Hseen _ eq_refl).
  destruct (registryFromScanJob scanJob) as [registry|e] eqn:Hreg.
  2: { unfold create_catalog. rewrite Hreg. cbn [wp]. rewrite app_nil_r. by apply Hnone. }
  apply secretless_obs in Hext as [Hs Hd].
  eapply wp_mono; [|by apply create_catalog_credentials]. intros tr r [Hns Hdir].
  rewrite !omap_app, Hs, Hd. cbn [app]. split.
  - eexists; split; [exact Hns|]. unfold secrets_namespace. destruct (IsManagedByWorkloadScan registry); [by left|right].
    exists scanJob. split; [apply elem_of_app; by left|]. by apply registryFromScanJob_Ok in Hreg as [-> _].
  - eapply Forall_impl; [exact Hdir|]. intros dir (pre & a & b & ->). exists (ext ++ pre), a, b. by rewrite app_assoc.
Qed.
End handler.

(** ** An image listed twice in an index *)

Definition plain_MediaTypes : MediaTypes := {|
  mt_IsIndex := λ m, bool_decide (m = "index"); mt_IsImage := λ m, bool_decide (m = "image");
  mt_IsConfig := λ m, bool_decide (m = "config"); mt_IsLayer := λ m, bool_decide (m = "layer") |}.

Definition linux (arch : string) : CranePlatform :=
  {| cp_OS := "linux"; cp_Architecture := arch; cp_Variant := ""; cp_String := "linux/" +:+ arch |}.

Definition shared_image : CraneImage := {|
  ci_MediaType := Ok "image";
  ci_Manifest := Ok (Some {| mn_ArtifactType := ""; mn_ConfigMediaType := "config"; mn_LayerMediaTypes := [] |});
  ci_ConfigFile := Ok {| cf_History := []; cf_Platform := None |};
  ci_Digest := Ok "sha256:aa";
  ci_Layers := Ok [] |}.

(** One manifest, listed for two platforms. *)
Definition shared_manifest : IndexManifest := {|
  ix_ArtifactType := "";
  ix_Manifests := [{| ie_Digest := "sha256:aa"; ie_Platform := Some (linux "amd64") |};
                   {| ie_Digest := "sha256:aa"; ie_Platform := Some (linux "arm64") |}] |}.
Definition shared_index : Descriptor := {|
  ds_MediaType := "index";
  ds_ParseIndexManifest := Ok shared_manifest;
  ds_ParseManifest := Err (errors_New "not a manifest");
  ds_ImageIndex := Ok {| cx_IndexManifest := Ok shared_manifest; cx_Digest := Ok "sha256:ii" |} |}.

Definition catalog_job : ScanJob :=
  new_ScanJob (with_Annotations {[ AnnotationScanJobRegistryKey := "snapshot" ]}
                 (new_meta "job" "" "default" ∅ ∅)) "reg" [].

(** A cluster with that job and no image, and a registry with one tag. *)
Definition shared_env : handler Eff unit := λ A e w,
  (match e in Eff A return A with
   | KGet k _ => match k return result (obj k) with
                 | KScanJob => Ok catalog_job
                 | _ => Err (NewNotFound "objects" "none") end
   | KList k _ => Ok []
   | KCreate k o => Ok o
   | KStatusUpdate k o => Ok o
   | RemoteTags _ _ => Ok [Ok ["v1"]]
   | RemoteGet _ _ => Ok shared_index
   | RemoteIndexImage _ _ _ => Ok shared_image
   | NewPuller _ | MsgInProgress | PublishMsg _ _ _ | NewTagEvaluator => Ok tt
   | e => (refuse _ e tt).1
   end, w).

Definition snapshot_JSON : JSON Registry :=
  {| Marshal := λ _, Err (errors_New "unsupported");
     Unmarshal := λ _, Ok (with_Repositories
       [{| rp_Name := "org/app"; rp_MatchConditions := []; rp_MatchOperator := "" |}] one_repository) |}.
Definition message_JSON : JSON CreateCatalogMessage :=
  {| Marshal := λ _, Err (errors_New "unsupported");
     Unmarshal := λ _, Ok {| ccm_ScanJob := {| o_Name := "job"; o_Namespace := "default"; o_UID := "" |} |} |}.
Definition request_JSON : JSON GenerateSBOMMessage :=
  {| Marshal := λ m, Ok (o_Name (gsm_Image m));
     Unmarshal := λ _, Err (errors_New "unsupported") |}.

(** The catalog handler with every interface instantiated. *)
Definition sample_Handle (data : string) : go (result unit) :=
  @Handle meta_conditions append_ControllerUtil plain_Names plain_MediaTypes toy_CEL
    {| AppendCertsFromPEM := λ _, false |} insertion_order DefaultRetry
    snapshot_JSON message_JSON request_JSON "sbomscanner" data.

(** An index may list one manifest for two platforms.  The handler then
    counts the image twice, although both entries have the same name (one
    Image resource, one SBOM, one report) and both requests carry the same
    message identifier: the job is recorded with two images, and the
    reconciler that waits for as many reports as images never completes it. *)
Theorem shared_manifest_counted_twice :
  let tr := run_trace shared_env (sample_Handle "") tt in
  run_result shared_env (sample_Handle "") tt = Ok tt ∧
  (ss_ImagesCount ∘ sj_Status ∘ fst <$> omap ev_status_update tr) = [0; 2]%Z ∧
  length (sent <$> omap ev_publish tr) = 2%nat ∧
  length (remove_dups (sent <$> omap ev_publish tr)) = 1%nat ∧
  length (remove_dups (img_Name ∘ fst <$> omap (ev_create KImage) tr)) = 1%nat.
Proof. vm_compute. repeat split. Qed.
