(* ===== verification/CatalogRun.v ===== *)
(** * A run of the catalog handler

    What [Handle] of [CreateCatalog] leaves behind, whatever its environment
    answers: which images it takes from the registry, which Image resources it
    creates and deletes, what it records on the job and what it asks for.  The
    description is one of traces; it does not speak of the functions of the
    handler. *)

From stdpp Require Import prelude gmap strings list.
From S2P Require Import Prelude Prog Meta Conditions Registry ScanJob Filters NodeScanJob StorageTypes GoPath Encoding Effects Messages RegistryAuth RegistryClient ScanJobController ImageCatalog CreateCatalog.
Import ScanJob.

(** ** What the registry shows *)

(** A platform the registry is scanned for. *)
Definition wanted (registry : Registry) (p : CranePlatform) : Prop :=
  ¬ (cp_OS p = "unknown" ∧ cp_Architecture p = "unknown") ∧
  (rs_Platforms (rg_Spec registry) = [] ∨
   Exists (λ a, pl_OS a = cp_OS p ∧ pl_Architecture a = cp_Architecture p ∧ (pl_Variant a = "" ∨ pl_Variant a = cp_Variant p))
     (rs_Platforms (rg_Spec registry))).
#[export] Instance wanted_dec registry p : Decision (wanted registry p).
Proof. unfold wanted. apply _. Defined.

Lemma platform_matches_spec os arch variant a :
  platform_matches os arch variant a = true ↔
  pl_OS a = os ∧ pl_Architecture a = arch ∧ (pl_Variant a = "" ∨ pl_Variant a = variant).
Proof.
  unfold platform_matches. case_bool_decide; rewrite ?andb_true_iff, ?bool_decide_eq_true; intuition congruence.
Qed.

Lemma wanted_spec registry p :
  IsPlatformAllowed (cp_OS p) (cp_Architecture p) (cp_Variant p) (rs_Platforms (rg_Spec registry)) = bool_decide (wanted registry p).
Proof.
  unfold IsPlatformAllowed, wanted. apply eq_true_iff_eq. rewrite bool_decide_eq_true.
  destruct (bool_decide (cp_OS p = "unknown") && bool_decide (cp_Architecture p = "unknown")) eqn:Hu.
  - apply andb_true_iff in Hu as [?%bool_decide_eq_true ?%bool_decide_eq_true]. split; [done|]. by intros [[] _].
  - apply andb_false_iff in Hu. rewrite !bool_decide_eq_false in Hu.
    destruct (rs_Platforms (rg_Spec registry)) as [|a as_] eqn:Hp; [intuition|]. rewrite <- Hp at 1 2.
    rewrite existsb_exists, Exists_exists, Hp. setoid_rewrite platform_matches_spec. setoid_rewrite list_elem_of_In.
    intuition congruence.
Qed.

Section run.
Context `{!StatusConditions, !ControllerUtil, !Names, !MediaTypes, !CEL, !X509, !MapRange, !Retry}.
Context `{!JSON Registry, !JSON CreateCatalogMessage, !JSON GenerateSBOMMessage}.
Context (installationNamespace : string).

(** A container image, and not another artifact. *)
Definition container (img : CraneImage) : bool :=
  match ci_MediaType img, ci_Manifest img with
  | Ok mediaType, Ok (Some m) =>
      bool_decide (mt_IsImage mediaType = true ∧ mn_ArtifactType m = "" ∧ mt_IsConfig (mn_ConfigMediaType m) = true ∧
                   Forall (λ l, mt_IsLayer l = true) (mn_LayerMediaTypes m))
  | _, _ => false
  end.

(** The digest of a container image that can be read, with its configuration. *)
Definition image_shown (img : CraneImage) : option (string * ConfigFile) :=
  match ci_ConfigFile img, ci_Digest img, ci_Layers img with
  | Ok cfg, Ok digest, Ok _ => if container img then Some (digest, cfg) else None
  | _, _, _ => None
  end.

(** The digest of the image that an answer of the registry shows, if it is one to
    scan.  An image of an index is only fetched for a platform that is wanted; any
    other names its platform itself. *)
Definition shown (registry : Registry) (o : obs Eff) : option string :=
  match o with
  | Ev e a =>
      match e in Eff A return A → option string with
      | RemoteIndexImage _ _ _ => λ a, match a with Ok img => fst <$> image_shown img | Err _ => None end
      | RemoteImage _ _ => λ a,
          match a with
          | Ok img =>
              match image_shown img with
              | Some (digest, cfg) =>
                  match cf_Platform cfg with
                  | Some p => if decide (wanted registry p) then Some digest else None
                  | None => None
                  end
              | None => None
              end
          | Err _ => None
          end
      | _ => λ _, None
      end a
  end.

(** An Image resource of the registry, for a platform it is scanned for. *)
Definition of_registry (registry : Registry) (image : Image) : Prop :=
  img_Namespace image = rg_Namespace registry ∧ im_Registry (img_ImageMetadata image) = rg_Name registry ∧
  ∃ p, im_Platform (img_ImageMetadata image) = cp_String p ∧ wanted registry p.

Definition digest_of (image : Image) : string := im_Digest (img_ImageMetadata image).

(** The images are those that were shown, in their order. *)
Definition shows (registry : Registry) (images : list Image) (tr : trace Eff) : Prop :=
  digest_of <$> images = omap (shown registry) tr ∧ Forall (of_registry registry) images.

(** ** The images of a reference *)

Lemma container_spec img mediaType manifest :
  ci_MediaType img = Ok mediaType → ci_Manifest img = Ok manifest → container img = IsContainerImageManifest mediaType manifest.
Proof.
  intros Ht Hm. unfold container. rewrite Ht, Hm. destruct manifest as [m|]; [|done].
  apply eq_true_iff_eq. by rewrite bool_decide_eq_true, IsContainerImageManifest_spec, Forall_forall.
Qed.

Lemma details_shown img platform label :
  match imageDetails img platform label with
  | Ok d => ∃ cfg, image_shown img = Some (id_Digest d, cfg) ∧
              match platform with Some p => id_Platform d = p | None => cf_Platform cfg = Some (id_Platform d) end
  | Err _ => image_shown img = None ∨ ∃ digest cfg, image_shown img = Some (digest, cfg) ∧ platform = None ∧ cf_Platform cfg = None
  end.
Proof.
  unfold imageDetails, image_shown.
  destruct (ci_MediaType img) as [t|] eqn:Ht; [|left; unfold container; rewrite Ht; by repeat case_match].
  destruct (ci_Manifest img) as [m|] eqn:Hm; [|left; unfold container; rewrite Ht, Hm; by repeat case_match].
  rewrite (container_spec _ _ _ Ht Hm). destruct (IsContainerImageManifest t m); cbn [negb]; [|left; by repeat case_match].
  destruct (ci_ConfigFile img) as [cfg|]; [|by left]. destruct (ci_Digest img) as [d|]; [|by left].
  destruct platform as [p|]; [|destruct (cf_Platform cfg) as [p|] eqn:Hp].
  - destruct (ci_Layers img); [by eexists|by left].
  - destruct (ci_Layers img); [by eexists|by left].
  - destruct (ci_Layers img); [right; by eauto|by left].
Qed.

Lemma image_of_details ref d registry ix image :
  imageDetailsToImage ref d registry ix = Ok image → wanted registry (id_Platform d) →
  digest_of image = id_Digest d ∧ of_registry registry image.
Proof.
  unfold imageDetailsToImage. destruct (layers_loop _ _ _); [|done]. cbv zeta.
  destruct (SetControllerReference _ _ _) as [m|] eqn:Hm; [|done]. intros [= <-] Hw. split; [done|].
  apply SetControllerReference_frame in Hm as [os ->]. split_and!; [done|done|]. by exists (id_Platform d).
Qed.

Lemma shows_app registry images tr images' tr' :
  shows registry images tr → shows registry images' tr' → shows registry (images ++ images') (tr ++ tr').
Proof. intros [Hd Ho] [Hd' Ho']. split; [by rewrite fmap_app, omap_app, Hd, Hd'|by apply Forall_app]. Qed.

Lemma shows_nil registry tr : omap (shown registry) tr = [] → shows registry [] tr.
Proof. intros Ht. by split. Qed.

Lemma shows_quiet registry images tr tr' :
  shows registry images tr → omap (shown registry) tr' = [] → shows registry images (tr ++ tr').
Proof. intros Hs Ht. rewrite <- (app_nil_r images). apply shows_app; [done|by apply shows_nil]. Qed.

(** A program that, if it succeeds, gives the images that were shown to it. *)
Definition finds (registry : Registry) (p : go (result (list Image))) : Prop :=
  wp any_answer p [] (λ tr r, ∀ images, r = Ok images → shows registry images tr).

Lemma singleArch_finds t ref registry : finds registry (singleArchRefToImages t ref registry).
Proof.
  unfold finds, singleArchRefToImages, GetImageDetails. apply wp_bind, wp_try. intros [img|e] _; cbn [app].
  2: { wp_steps; try done; intros images [= <-]; by apply shows_nil. }
  cbn [wp]. pose proof (details_shown img None (ref_Name ref)) as Hd. destruct (imageDetails _ _ _) as [d|e].
  - destruct Hd as (cfg & Hs & Hp). rewrite wanted_spec.
    destruct (bool_decide _) eqn:Hw; cbn [negb].
    + apply bool_decide_eq_true in Hw. destruct (imageDetailsToImage _ _ _ _) as [image|] eqn:Hi; [|done].
      destruct (image_of_details _ _ _ _ _ Hi Hw) as [Hg Ho].
      wp_steps; [|done]. intros images [= <-]. split; [|by apply Forall_singleton]. cbn. rewrite Hs, Hp, decide_True by done. by rewrite Hg.
    + apply bool_decide_eq_false in Hw. intros images [= <-]. apply shows_nil. cbn. by rewrite Hs, Hp, decide_False.
  - wp_steps; try done; intros images [= <-]; apply shows_nil; cbn;
      (destruct Hd as [->|(digest & cfg & -> & _ & ->)]; done).
Qed.

Lemma index_finds t ref registry ix digest ms images tr :
  shows registry images tr →
  wp any_answer (for_each (index_entry t ref registry ix digest) images ms) tr (λ tr r, ∀ images, r = Ok images → shows registry images tr).
Proof.
  intros Hs. apply (wp_for_each _ _ (λ _ tr images, shows registry images tr)); [|by intros ? ? ? ? [= <-]|done].
  clear Hs images tr. intros pre m rest tr images _ Hs. unfold index_entry.
  destruct (ie_Platform m) as [p|]; [|done]. rewrite wanted_spec.
  destruct (bool_decide _) eqn:Hw; cbn [negb]; [|done]. apply bool_decide_eq_true in Hw.
  unfold GetImageDetailsFromIndex. apply wp_bind, wp_try. intros [img|e] _; cbn [app wp].
  2: { wp_steps; try done; by apply shows_quiet. }
  pose proof (details_shown img (Some p) (ie_Digest m)) as Hd. destruct (imageDetails _ _ _) as [d|e].
  - destruct Hd as (cfg & Hd & Hp). destruct (imageDetailsToImage _ _ _ _) as [image|] eqn:Hi; [|done].
    destruct (image_of_details _ _ _ _ _ Hi) as [Hg Ho]; [by rewrite Hp|]. wp_steps; [|done].
    rewrite <- app_assoc. apply shows_app; [done|]. split; [|by apply Forall_singleton]. cbn. by rewrite Hd, Hg.
  - wp_steps; try done. apply shows_quiet; [done|]. cbn. destruct Hd as [->|(? & ? & ? & ? & ?)]; done.
Qed.

Lemma refToImages_finds t ref registry : finds registry (refToImages t ref registry).
Proof.
  unfold finds, refToImages, GetDescriptor. apply wp_try, wp_try. intros [desc|e] _; cbn [app wp]; [|done].
  destruct (IsContainerImage desc) as [[]|e]; cbn [negb]; [|by intros images [= <-]; apply shows_nil|done].
  destruct (mt_IsIndex _).
  - unfold multiArchRefToImages. repeat (case_match; [|done]). by apply index_finds, shows_nil.
  - eapply (wp_frame _ _ [_]); [apply singleArch_finds|]. intros ext r Hr images ->. by destruct (Hr images eq_refl).
Qed.

(** ** The Image resources *)

(** The resource of an image is there: it was created, or it was among those listed. *)
Definition kept (existing : list Image) (tr : trace Eff) (image : Image) : Prop :=
  (∃ a, (image, a) ∈ omap (ev_create KImage) tr ∧ (is_ok a = true ∨ ∃ e, a = Err e ∧ IsAlreadyExists e = true)) ∨
  img_Name image ∈ img_Name <$> existing.

Record cataloged (registry : Registry) (existing images : list Image) (tr : trace Eff) : Prop := {
  cg_listed : omap (ev_list KImage) tr =
    [([InNamespace (rg_Namespace registry); MatchingFields "imageMetadata.registry" (rg_Name registry)], Ok existing)];
  cg_shown : shows registry images tr;
  cg_kept : Forall (kept existing tr) images;
  cg_created : ∀ image a, (image, a) ∈ omap (ev_create KImage) tr → image ∈ images
}.

(** Calls that ask the registry, and the ones that only list what it has. *)
Definition listing A (e : Eff A) : Prop :=
  match e with NewPuller _ | RemoteCatalog _ _ | RemoteTags _ _ => True | _ => False end.
Definition remote A (e : Eff A) : Prop :=
  match e with
  | NewPuller _ | RemoteCatalog _ _ | RemoteTags _ _ | RemoteGet _ _ | RemoteImage _ _ | RemoteIndexImage _ _ _ | MsgInProgress => True
  | _ => False
  end.

Lemma remote_silent tr :
  Forall (obs_call remote) tr →
  omap (ev_create KImage) tr = [] ∧ omap (ev_list KImage) tr = [] ∧ omap seen_job tr = [].
Proof. intros Htr. split_and!; (eapply omap_calls; [|exact Htr]); intros A e a; by destruct e. Qed.

Lemma discover_listing t registry refs repos : calls listing (for_each (discover_one t registry) refs repos).
Proof. unfold discover_one, discoverImages, ListRepositoryContents. repeat calls_step; done. Qed.
Lemma discoverRepositories_listing t registry : calls listing (discoverRepositories t registry).
Proof. unfold discoverRepositories, Catalog. repeat calls_step; done. Qed.
Lemma refToImages_remote t ref registry : calls remote (refToImages t ref registry).
Proof.
  unfold refToImages, multiArchRefToImages, singleArchRefToImages, index_entry, GetDescriptor, GetImageDetails, GetImageDetailsFromIndex.
  repeat calls_step; done.
Qed.

(** The loops over the references and their images; [rest] are the images found that
    are still to be looked at. *)
Record looked (registry : Registry) (existing : list Image) (scanJob : ScanJob) (rest : list Image)
    (tr : trace Eff) (st : ScanJob * list Image) : Prop := {
  lk_shown : shows registry (st.2 ++ rest) tr;
  lk_kept : Forall (kept existing tr) st.2;
  lk_created : ∀ image a, (image, a) ∈ omap (ev_create KImage) tr → image ∈ st.2;
  lk_listed : omap (ev_list KImage) tr = [];
  lk_job : st.1 = default scanJob (last (omap seen_job tr))
}.

Definition skipped {A} (r : result unit + A) (tr : trace Eff) : Prop :=
  match r with inl (Ok _) => omap ev_skip tr ≠ [] | _ => True end.

Lemma kept_app existing tr ext image : kept existing tr image → kept existing (tr ++ ext) image.
Proof. intros [(a & Ha & ?)|?]; [left|by right]. exists a. rewrite omap_app, elem_of_app. tauto. Qed.

Lemma create_image_looked ref registry existing scanJob image rest tr st :
  looked registry existing scanJob (image :: rest) tr st →
  wp any_answer (create_image ref (image_names existing) st image) tr (λ tr' r,
    skipped r tr' ∧ match r with inr st' => looked registry existing scanJob rest tr' st' | inl _ => True end).
Proof.
  intros [Hs Hk Hc Hl _]. unfold create_image.
  assert (∀ ext job, omap (shown registry) ext = [] → omap (ev_list KImage) ext = [] → last (omap seen_job ext) = Some job →
    kept existing (tr ++ ext) image → (∀ c a, (c, a) ∈ omap (ev_create KImage) ext → c = image) →
    looked registry existing scanJob rest (tr ++ ext) (job, st.2 ++ [image])) as Hnext.
  { intros ext job H1' H2' H3' H4' H5'. split; cbn [fst snd].
    - rewrite <- app_assoc. by apply shows_quiet.
    - apply Forall_app. split; [|by apply Forall_singleton]. eapply Forall_impl; [exact Hk|]. intros x. apply kept_app.
    - intros c a. rewrite omap_app, elem_of_app. intros [Hin%Hc|Hin%H5']; set_solver.
    - by rewrite omap_app, Hl, H2'.
    - rewrite omap_app, last_app, H3'. done. }
  apply wp_bind. intros [job|e] _; cbn [wp].
  2: { wp_steps; cbn; split; try done. rewrite omap_app. by destruct (omap ev_skip _). }
  destruct (bool_decide (sj_UID job = o_UID ref)); cbn [negb].
  2: { wp_steps; cbn; split; try done. rewrite !omap_app. by destruct (omap ev_skip tr). }
  cbv zeta. case_bool_decide as Hin; cbn [wp].
  { split; [done|]. apply Hnext; try done; [|set_solver]. right. by apply elem_of_list_to_set in Hin. }
  apply wp_bind. intros [created|e] _; cbn [wp].
  - apply wp_bind. intros [[]|e] _; cbn [wp]; [|by split]. split; [done|]. rewrite <- !app_assoc. apply Hnext; try done; [|set_solver].
    left. eexists. rewrite omap_app. split; [apply elem_of_app; right; by left|by left].
  - destruct (IsAlreadyExists e) eqn:He; cbn [wp]; [|by split]. split; [done|]. rewrite <- !app_assoc. apply Hnext; try done; [|set_solver].
    left. eexists. rewrite omap_app. split; [apply elem_of_app; right; by left|right; eauto].
Qed.

Lemma process_looked ref t registry existing scanJob refs :
  wp any_answer (for_ret (process_reference ref t registry (image_names existing)) (scanJob, []) refs) [] (λ tr r,
    skipped r tr ∧ match r with inr st' => looked registry existing scanJob [] tr st' | inl _ => True end).
Proof.
  apply (wp_for_ret _ _ (λ _ tr st, looked registry existing scanJob [] tr st)); [|done|].
  - intros pre x rest tr st _ Hlk. unfold process_reference.
    destruct (ParseReference _ _) as [imageRef|e]; [|done]. destruct (FilterByTag _ _) as [[]|e]; [|done..]. cbn [negb].
    apply wp_bind. eapply wp_frame; [apply wp_conj; [apply refToImages_finds|apply (calls_wp remote); [apply refToImages_remote|constructor]]|].
    intros ext [images|e] [Hf (E1 & E2 & E3)%remote_silent]; [|done]. specialize (Hf _ eq_refl).
    apply (wp_for_ret _ _ (λ pre tr st, ∃ rest, images = pre ++ rest ∧ looked registry existing scanJob rest tr st)).
    + intros pre' image rest' tr' st' Hi (rest'' & Hi' & Hlk'). rewrite Hi in Hi'. apply app_inv_head in Hi' as <-.
      eapply wp_mono; [|by apply create_image_looked]. intros tr'' [r|st''] [Hsk Hlk'']; [done|]. exists rest'. by rewrite <- app_assoc.
    + intros tr' st' (rest' & Hi & Hlk'). rewrite <- (app_nil_r images) in Hi at 1. by apply app_inv_head in Hi as <-.
    + exists images. split; [done|]. destruct Hlk as [Hs Hk Hc Hl Hj]. rewrite app_nil_r in Hs. split.
      * by apply shows_app.
      * eapply Forall_impl; [exact Hk|]. intros y. apply kept_app.
      * intros c a. rewrite omap_app, E1, app_nil_r. apply Hc.
      * by rewrite omap_app, Hl, E2.
      * by rewrite omap_app, E3, app_nil_r.
  - split; try done. set_solver.
Qed.

(** ** The end of a run *)

Definition deleting A (e : Eff A) : Prop := match e with KDelete KImage _ | MsgInProgress => True | _ => False end.
Definition finishing A (e : Eff A) : Prop := match e with KGet KScanJob _ | Now | KStatusUpdate KScanJob _ => True | _ => False end.
Definition telling A (e : Eff A) : Prop := match e with PublishMsg _ _ _ | CountScanJob _ _ => True | _ => False end.
Definition closing A (e : Eff A) : Prop := match e with OsRemoveAll _ | OsUnsetenv _ => True | _ => False end.

(** Deleted: only by a job without targets, and only images that were listed and not
    found again. *)
Definition deleted (registry : Registry) (existing images : list Image) (job : ScanJob) (tr : trace Eff) : Prop :=
  Forall (obs_call deleting) tr ∧
  ∀ image a, (image, a) ∈ omap (ev_delete KImage) tr →
    sp_Repositories (sj_Spec job) = [] ∧ img_Namespace image = rg_Namespace registry ∧
    img_Name image ∈ img_Name <$> existing ∧ img_Name image ∉ img_Name <$> images.

(** Recorded: complete without any image, or in progress with their number. *)
Definition recorded (images : list Image) (job : ScanJob) : Prop :=
  if decide (images = []) then in_phase Complete job
  else in_phase InProgress job ∧ ss_ImagesCount (sj_Status job) = Z.of_nat (length images) ∧ ss_ScannedImagesCount (sj_Status job) = 0%Z.

Definition finished (ref : ObjectRef) (images : list Image) (tr : trace Eff) : Prop :=
  Forall (obs_call finishing) tr ∧
  Forall (λ w, sj_UID w.1 = o_UID ref ∧ recorded images w.1) (omap ev_status_update tr).

(** The job of the message is not there any more. *)
Definition gone (ref : ObjectRef) (tr : trace Eff) : Prop :=
  (∃ key e, (key, Err e) ∈ omap (ev_get KScanJob) tr ∧ IsNotFound e = true) ∨
  (∃ key j, (key, Ok j) ∈ omap (ev_get KScanJob) tr ∧ sj_UID j ≠ o_UID ref) ∨
  (∃ o e, (o, Err e) ∈ omap ev_status_update tr ∧ IsNotFound e = true).

(** A message that asks for the SBOM of an image, for a job. *)
Definition asked_for (ref : ObjectRef) (uid : string) (image : Image) (m : string * string * string * result unit) : Prop :=
  m.1.1.1 = "sbomscanner.sbom.generate" ∧ m.1.1.2 = "generateSBOM/" +:+ uid +:+ "/" +:+ img_Name image ∧
  Marshal {| gsm_ScanJob := ref;
             gsm_Image := {| o_Name := img_Name image; o_Namespace := img_Namespace image; o_UID := "" |} |} = Ok m.1.2.

Definition requested (ref : ObjectRef) (uid : string) (images : list Image) (tr : trace Eff) (r : result unit) : Prop :=
  ∃ asked rest, images = asked ++ rest ∧ Forall2 (asked_for ref uid) asked (omap ev_publish tr) ∧
    (r = Ok tt → rest = [] ∧ Forall (λ m, m.2 = Ok tt) (omap ev_publish tr)).

Inductive ending (ref : ObjectRef) (registry : Registry) (existing images : list Image) (job : ScanJob)
  : trace Eff → result unit → Prop :=
| Not_deleted dels e :
    deleted registry existing images job dels → ending ref registry existing images job dels (Err e)
| Not_recorded dels fin r :
    deleted registry existing images job dels → finished ref images fin → (r = Ok tt → gone ref fin) →
    ending ref registry existing images job (dels ++ fin) r
| Recorded dels fin reqs o persisted r :
    deleted registry existing images job dels → finished ref images fin → (o, Ok persisted) ∈ omap ev_status_update fin →
    Forall (obs_call telling) reqs → requested ref (sj_UID persisted) images reqs r →
    ending ref registry existing images job (dels ++ fin ++ reqs) r.

Lemma delete_deleted registry existing images job :
  sp_Repositories (sj_Spec job) = [] →
  wp any_answer (deleteObsoleteImages (image_names existing) (image_names images) (rg_Namespace registry)) []
    (λ tr _, deleted registry existing images job tr).
Proof.
  intros Hj. unfold deleteObsoleteImages.
  eapply wp_mono; [|apply wp_conj; [apply (calls_wp deleting); [unfold delete_image; by repeat calls_step|constructor]|apply delete_loop]].
  intros tr r [Hc Hd]. split; [done|]. intros image a [Hns Hn]%Hd.
  rewrite range_perm, elem_of_elements, elem_of_difference in Hn. unfold image_names in Hn. by rewrite !elem_of_list_to_set in Hn.
Qed.

Lemma finish_finished ref key images :
  wp any_answer (RetryOnConflict (finish_once ref key images)) [] (λ tr r,
    finished ref images tr ∧
    match r with Ok (_, persisted) => ∃ o, (o, Ok persisted) ∈ omap ev_status_update tr | Err e => IsNotFound e = true → gone ref tr end).
Proof.
  apply (wp_retry _ _ (finished ref images)); [by split; constructor|].
  intros tr [Hc Hst]. unfold finish_once.
  assert (∀ ext, Forall (obs_call finishing) ext → omap ev_status_update ext = [] → finished ref images (tr ++ ext)) as Hq.
  { intros ext Hext He. split; [by apply Forall_app|]. by rewrite omap_app, He, app_nil_r. }
  apply wp_try. intros [job|e] _; cbn [wp].
  2: { split; [split; [by apply Hq; [repeat constructor|]|]|intros; by apply Hq; [repeat constructor|]].
       rewrite IsNotFound_errorf. intros He. left. eexists _, _. split; [rewrite omap_app; apply elem_of_app; right; by left|done]. }
  case_bool_decide as Hu; cbn [negb].
  2: { cbn [wp]. split; [split; [by apply Hq; [repeat constructor|]|]|intros; by apply Hq; [repeat constructor|]].
       intros _. right. left. eexists _, _. split; [rewrite omap_app; apply elem_of_app; right; by left|done]. }
  cbv zeta. apply wp_bind. intros now _. cbn [wp]. apply wp_try.
  match goal with |- wp _ (trigger (KStatusUpdate KScanJob ?w)) _ _ => set (written := w) end.
  assert (sj_UID written = o_UID ref ∧ recorded images written) as Hw.
  { subst written. unfold recorded. rewrite <- Hu. case_bool_decide; [rewrite decide_True by done|rewrite decide_False by done].
    - split; [done|]. exact (exec_phase _ (OpComplete _ _ _)).
    - split; [unfold sj_UID, MarkInProgress; by destruct (ss_StartTime _)|]. split; [|done].
      apply in_phase_with_counts. exact (exec_phase _ (OpInProgress _ _ _)). }
  assert (∀ a, finished ref images (((tr ++ [Ev (KGet KScanJob key) (Ok job)]) ++ [Ev Now now]) ++ [Ev (KStatusUpdate KScanJob written) a])) as Hf.
  { intros a. rewrite <- !app_assoc. split; [apply Forall_app; split; [done|by repeat constructor]|].
    rewrite omap_app. cbn. apply Forall_app. split; [done|]. by apply Forall_singleton. }
  intros [updated|e] _; cbn [wp].
  - split; [split; [apply Hf|]|done]. eexists. rewrite omap_app. apply elem_of_app. right. by left.
  - split; [split; [apply Hf|]|intros; apply Hf]. intros He. right. right. eexists _, _. split; [|exact He].
    rewrite omap_app. apply elem_of_app. right. by left.
Qed.

Lemma request_requested ref uid images :
  wp any_answer (for_each (request_sbom ref uid) tt images) [] (requested ref uid images).
Proof.
  apply (wp_for_each _ _ (λ pre tr _, Forall2 (asked_for ref uid) pre (omap ev_publish tr) ∧ Forall (λ m, m.2 = Ok tt) (omap ev_publish tr))).
  - intros pre image rest tr [] -> [Hpre Hok]. unfold request_sbom. destruct (Marshal _) as [data|e] eqn:Hm.
    + apply wp_try. intros a _. cbn [wp].
      assert (Forall2 (asked_for ref uid) (pre ++ [image])
        (omap ev_publish (tr ++ [Ev (PublishMsg GenerateSBOMSubject ("generateSBOM/" +:+ uid +:+ "/" +:+ img_Name image) data) a]))) as Ha.
      { rewrite omap_app. apply Forall2_app; [done|]. by repeat constructor. }
      destruct a as [[]|e]; cbn [wp].
      * split; [done|]. rewrite omap_app. apply Forall_app. split; [done|]. by repeat constructor.
      * exists (pre ++ [image]), rest. split_and!; [by rewrite <- app_assoc|done|done].
    + exists pre, (image :: rest). by split_and!.
  - intros tr [] [Htr Hok]. exists images, []. by rewrite app_nil_r.
  - by split; constructor.
Qed.

Lemma complete_ending ref registry existing job images :
  wp any_answer (complete_catalog ref registry (image_names existing) job images) [] (ending ref registry existing images job).
Proof.
  unfold complete_catalog. cbv zeta.
  eapply (wp_try_seq _ _ _ _ (λ tr _, deleted registry existing images job tr)).
  { case_bool_decide as Hr; [by apply delete_deleted|]. split; [constructor|]. set_solver. }
  2: { intros. by constructor. }
  intros dels _ Hd. eapply wp_seq; [apply finish_finished|]. intros fin [[wf persisted]|e] [Hf Hr].
  - destruct Hr as [o Ho]. eapply (wp_skip (λ A e, match e with CountScanJob _ _ => True | _ => False end));
      [unfold RecordScanJobFinished; by repeat calls_step|].
    intros ext _ Hext. eapply wp_mono; [|apply wp_conj; [apply request_requested|apply (calls_wp telling);
      [unfold request_sbom; by repeat calls_step|constructor]]].
    intros tr r [(asked & rest & Hi & Ha & Hok) Htell]. eapply Recorded; try done.
    + apply Forall_app. split; [|done]. eapply Forall_impl; [exact Hext|]. intros [A e a]. by destruct e.
    + exists asked, rest. assert (omap ev_publish ext = []) as E.
      { eapply omap_calls; [|exact Hext]. intros A e a. by destruct e. }
      by rewrite omap_app, E.
  - destruct (IsNotFound e); cbn [wp]; rewrite app_nil_r; apply Not_recorded; try done. intros _. by apply Hr.
Qed.

(** ** The whole run *)

(** Calls before the end of a run, and those that have nothing to do with its images
    and its job. *)
Definition searching A (e : Eff A) : Prop :=
  match e with PublishMsg _ _ _ | KDelete _ _ | KStatusUpdate _ _ => False | _ => True end.
Definition preparing A (e : Eff A) : Prop :=
  match e with KGet KScanJob _ | KList _ _ | KCreate _ _ | RemoteImage _ _ | RemoteIndexImage _ _ _ => False | _ => searching A e end.

Inductive ran (ref : ObjectRef) (registry : Registry) (scanJob : ScanJob) : trace Eff → result unit → Prop :=
| Ran_stopped tr r :
    Forall (obs_call searching) tr → (r = Ok tt → omap ev_skip tr ≠ []) → ran ref registry scanJob tr r
| Ran_through found existing images finish r :
    Forall (obs_call searching) found → cataloged registry existing images found →
    ending ref registry existing images (default scanJob (last (omap seen_job found))) finish r →
    ran ref registry scanJob (found ++ finish) r.

Lemma listing_preparing tr : Forall (obs_call listing) tr → Forall (obs_call preparing) tr.
Proof. intros Htr. eapply Forall_impl; [exact Htr|]. intros [A e a]. by destruct e. Qed.
Lemma preparing_searching tr : Forall (obs_call preparing) tr → Forall (obs_call searching) tr.
Proof. intros Htr. eapply Forall_impl; [exact Htr|]. intros [A e a]. destruct e; try done; by destruct k. Qed.
Lemma finishing_quiet tr :
  Forall (obs_call finishing) tr →
  (∀ registry, omap (shown registry) tr = []) ∧ omap (ev_create KImage) tr = [] ∧ omap (ev_list KImage) tr = [] ∧
  omap ev_publish tr = [] ∧ omap (ev_delete KImage) tr = [].
Proof. intros Htr. split_and!; [intros registry|..]; (eapply omap_calls; [|exact Htr]); intros A e a; destruct e; try done; by destruct k. Qed.

Lemma preparing_quiet registry tr :
  Forall (obs_call preparing) tr →
  omap (shown registry) tr = [] ∧ omap (ev_create KImage) tr = [] ∧ omap (ev_list KImage) tr = [] ∧ omap seen_job tr = [].
Proof. intros Htr. split_and!; (eapply omap_calls; [|exact Htr]); intros A e a; destruct e; try done; by destruct k. Qed.

Lemma searching_quiet tr :
  Forall (obs_call searching) tr → omap ev_publish tr = [] ∧ omap (ev_delete KImage) tr = [] ∧ omap ev_status_update tr = [].
Proof. intros Htr. split_and!; (eapply omap_calls; [|exact Htr]); intros A e a; by destruct e. Qed.

Lemma ran_prefix ref registry scanJob pre tr r :
  Forall (obs_call preparing) pre → ran ref registry scanJob tr r → ran ref registry scanJob (pre ++ tr) r.
Proof.
  intros Hpre Htr. pose proof (preparing_searching _ Hpre) as Hs. destruct (preparing_quiet registry _ Hpre) as (E1 & E2 & E3 & E4).
  destruct Htr as [tr r Htr Hsk|found existing images finish r Hf [Hl Hsh Hk Hc] He].
  - apply Ran_stopped; [by apply Forall_app|]. intros Hr. rewrite omap_app. intros []%app_eq_nil. by apply Hsk.
  - rewrite app_assoc. eapply Ran_through; [by apply Forall_app| |by rewrite omap_app, E4].
    split; rewrite ?omap_app, ?E2, ?E3; [done|destruct Hsh; split; [by rewrite omap_app, E1|done]| |done].
    eapply Forall_impl; [exact Hk|]. intros image [(a & Ha & Ho)|Hin]; [left|by right]. exists a. by rewrite omap_app, E2.
Qed.

Lemma process_searching ref t registry existing st refs :
  calls searching (for_ret (process_reference ref t registry existing) st refs).
Proof.
  apply calls_for_ret. intros. unfold process_reference. repeat calls_step; try done.
  2: { unfold create_image. by repeat calls_step. }
  eapply calls_mono; [|apply refToImages_remote]. intros A e. by destruct e.
Qed.

Lemma catalog_ran ref scanJob registry t : wp any_answer (catalog ref scanJob registry t) [] (ran ref registry scanJob).
Proof.
  assert (∀ A (p : go (result A)) w k, calls listing p → (∀ a, wp any_answer (k a) [] (ran ref registry scanJob)) →
    wp any_answer (try_bind p w k) [] (ran ref registry scanJob)) as Hlist.
  { intros A p w k Hp Hk. apply (wp_closed_try listing); try done.
    - intros pre tr r Hpre%listing_preparing. by apply ran_prefix.
    - intros tr e Htr%listing_preparing%preparing_searching. by apply Ran_stopped. }
  unfold catalog. apply Hlist; [apply discoverRepositories_listing|intros repos]. apply Hlist; [apply discover_listing|intros refs].
  apply wp_try. intros [existing|e] _; cbn [wp app]; [|apply Ran_stopped; [by repeat constructor|done]]. cbv zeta.
  do 2 (apply wp_try; intros [[]|e] _; cbn [wp app]; [|apply Ran_stopped; [by repeat constructor|done]]).
  apply wp_bind. eapply wp_frame; [apply wp_conj; [apply process_looked|apply (calls_wp searching); [apply process_searching|constructor]]|].
  intros ext [r|[job images]] [[Hsk Hlk] Hse]; cbn [wp].
  - apply Ran_stopped; [by repeat constructor|]. intros ->. cbn. by apply Hsk.
  - destruct Hlk as [Hs Hk Hc Hl Hj]. cbn [fst snd] in *. rewrite app_nil_r in Hs.
    eapply wp_frame; [apply complete_ending|]. intros finish r He. eapply Ran_through; [|split|].
    + by repeat constructor.
    + transitivity ([([InNamespace (rg_Namespace registry); MatchingFields "imageMetadata.registry" (rg_Name registry)], Ok existing)]
        ++ omap (ev_list KImage) ext); [done|by rewrite Hl].
    + by destruct Hs.
    + done.
    + done.
    + change (omap seen_job _) with (omap seen_job ext). by rewrite <- Hj.
Qed.

(** The job of a message is the one in progress that a run works for. *)
Definition started (ref : ObjectRef) (job : option ScanJob) (tr : trace Eff) : Prop :=
  Forall (obs_call finishing) tr ∧
  Forall (λ w, sj_UID w.1 = o_UID ref ∧ in_phase InProgress w.1) (omap ev_status_update tr) ∧
  ∀ j, job = Some j → last (omap seen_job tr) = Some j.

Lemma start_started ref :
  wp any_answer (RetryOnConflict (start_once ref)) [] (λ tr r, started ref (match r with Ok job => job | Err _ => None end) tr).
Proof.
  apply (wp_retry _ _ (started ref None)); [by split_and!|].
  intros tr (Hc & Hst & _). unfold start_once.
  assert (∀ ext job, Forall (obs_call finishing) ext → omap ev_status_update ext = [] → job = None → started ref job (tr ++ ext)) as Hq.
  { intros ext job Hext He ->. split; [by apply Forall_app|]. by rewrite omap_app, He, app_nil_r. }
  apply wp_try. intros [job|e] _; cbn [wp]; [|by split; intros; apply Hq; repeat constructor].
  case_bool_decide as Hu; cbn [negb wp]; [|by split; intros; apply Hq; repeat constructor].
  destruct (JobFinished job); cbn [wp]; [by split; intros; apply Hq; repeat constructor|].
  apply wp_bind. intros now _. cbn [wp]. cbv zeta. apply wp_try.
  match goal with |- wp _ (trigger (KStatusUpdate KScanJob ?w)) _ _ => set (written := w) end.
  assert (sj_UID written = o_UID ref ∧ in_phase InProgress written) as Hw.
  { subst written. split; [unfold sj_UID, MarkInProgress; by destruct (ss_StartTime _)|]. exact (exec_phase _ (OpInProgress _ _ _)). }
  intros a _. rewrite <- !app_assoc.
  assert (∀ j, (∀ j', j = Some j' → a = Ok j') →
    started ref j (tr ++ [Ev (KGet KScanJob (job_key ref)) (Ok job)] ++ [Ev Now now] ++ [Ev (KStatusUpdate KScanJob written) a])) as Hs.
  { intros j Hj. split_and!.
    - apply Forall_app. split; [done|by repeat constructor].
    - rewrite omap_app. apply Forall_app. split; [done|]. by apply Forall_singleton.
    - intros j' Hj'. rewrite (Hj _ Hj'), omap_app, last_app. done. }
  destruct a as [updated|e]; cbn [wp]; (split; [by apply Hs; naive_solver|]); [done|]. intros. by apply Hs.
Qed.

Inductive handled (data : string) : trace Eff → result unit → Prop :=
| Stopped tr r :
    omap ev_publish tr = [] → omap (ev_delete KImage) tr = [] → Forall (λ w, in_phase InProgress w.1) (omap ev_status_update tr) →
    (r = Ok tt → omap ev_skip tr ≠ []) → handled data tr r
| Cataloged msg job registry start prepare found existing images finish after r :
    Unmarshal data = Ok msg → started (ccm_ScanJob msg) (Some job) start → snapshot_of job registry →
    Forall (obs_call preparing) prepare → Forall (obs_call searching) found → cataloged registry existing images found →
    ending (ccm_ScanJob msg) registry existing images (default job (last (omap seen_job found))) finish r →
    Forall (obs_call preparing) after →
    handled data (start ++ prepare ++ found ++ finish ++ after) r.

(** Restricting a registry to the targets of a job leaves what its images are found by. *)
Lemma targets_cataloged registry scanJob registry' existing images tr :
  applyTargetsToRegistry registry scanJob = Ok registry' → cataloged registry' existing images tr → cataloged registry existing images tr.
Proof.
  intros Happ. assert (rg_Meta registry' = rg_Meta registry ∧ rs_Platforms (rg_Spec registry') = rs_Platforms (rg_Spec registry)) as [Hm Hp].
  { revert Happ. unfold applyTargetsToRegistry. repeat case_match; by intros [= <-]. }
  assert (∀ o, shown registry' o = shown registry o) as Hs.
  { intros [A e a]. unfold shown. destruct e; try done. destruct a as [img|]; [|done]. destruct (image_shown img) as [[digest cfg]|]; [|done].
    destruct (cf_Platform cfg) as [p|]; [|done]. apply decide_ext. unfold wanted. by rewrite Hp. }
  intros [Hl [Hd Ho] Hk Hc]. unfold rg_Namespace, rg_Name in *. rewrite Hm in Hl. split; [done|split|done..].
  - rewrite Hd. apply list_omap_ext, Forall_Forall2_diag, Forall_true. done.
  - eapply Forall_impl; [exact Ho|]. intros image. unfold of_registry, wanted, rg_Namespace, rg_Name. by rewrite Hm, Hp.
Qed.

Lemma targets_ending registry scanJob registry' ref existing images job tr r :
  applyTargetsToRegistry registry scanJob = Ok registry' →
  ending ref registry' existing images job tr r → ending ref registry existing images job tr r.
Proof.
  intros Hm%applyTargets_meta.
  assert (∀ dels, deleted registry' existing images job dels → deleted registry existing images job dels) as Hd.
  { unfold deleted, rg_Namespace. by rewrite Hm. }
  intros []; [apply Not_deleted|apply Not_recorded|eapply Recorded]; eauto.
Qed.

Lemma transport_preparing registry : calls preparing (transportFromRegistry installationNamespace registry).
Proof. unfold transportFromRegistry, Resolve, readRef, readConfigMapKey, readSecretKey. repeat calls_step; done. Qed.
Lemma config_preparing registry : calls preparing (BuildDockerConfigForRegistry registry installationNamespace).
Proof. unfold BuildDockerConfigForRegistry, createDockerConfigJSON. repeat calls_step; done. Qed.

(** A run after its job has started. *)
Definition worked (ref : ObjectRef) (job : ScanJob) (tr : trace Eff) (r : result unit) : Prop :=
  (Forall (obs_call searching) tr ∧ (r = Ok tt → omap ev_skip tr ≠ [])) ∨
  ∃ registry prepare found existing images finish after,
    tr = prepare ++ found ++ finish ++ after ∧ snapshot_of job registry ∧
    Forall (obs_call preparing) prepare ∧ Forall (obs_call searching) found ∧ cataloged registry existing images found ∧
    ending ref registry existing images (default job (last (omap seen_job found))) finish r ∧
    Forall (obs_call preparing) after.

Lemma ran_worked ref registry registry' job pre tr post r :
  snapshot_of job registry → applyTargetsToRegistry registry job = Ok registry' →
  Forall (obs_call preparing) pre → Forall (obs_call preparing) post →
  ran ref registry' job tr r → worked ref job (pre ++ tr ++ post) r.
Proof.
  intros Hs Ha Hpre Hpost [tr' r' Htr Hsk|found existing images finish r' Hf Hc He].
  - left. split; [rewrite !Forall_app; auto using preparing_searching|]. intros Hr. rewrite !omap_app.
    intros [_ [? _]%app_eq_nil]%app_eq_nil. by apply Hsk.
  - right. exists registry, pre, found, existing, images, finish, post. rewrite <- app_assoc.
    split_and!; eauto using targets_cataloged, targets_ending.
Qed.

Lemma create_catalog_worked ref job : wp any_answer (create_catalog installationNamespace ref job) [] (worked ref job).
Proof.
  unfold create_catalog. destruct (registryFromScanJob job) as [registry|e] eqn:Hr; [|by left; split].
  apply registry_snapshot in Hr. destruct (applyTargetsToRegistry registry job) as [registry'|e] eqn:Ha; [|by left; split].
  apply (wp_try_skip preparing); [apply transport_preparing| |intros ext e Hext%preparing_searching; by left].
  intros e1 t H1'. destruct (IsPrivate registry').
  2: { eapply wp_mono; [|apply catalog_ran]. intros tr r Htr. rewrite <- (app_nil_r tr). by eapply ran_worked. }
  apply (wp_try_skip preparing); [apply config_preparing| |].
  2: { intros e2 e H2'%preparing_searching. left. split; [|done]. apply Forall_app. auto using preparing_searching. }
  intros e2 dir H2'. eapply wp_seq; [apply catalog_ran|]. intros tr r Htr.
  do 2 (apply wp_bind; intros ? _; cbn [wp trigger app]). rewrite (app_assoc e1). eapply ran_worked; try done; [by apply Forall_app|].
  by repeat constructor.
Qed.

Lemma Handle_handled data : wp any_answer (Handle installationNamespace data) [] (handled data).
Proof.
  unfold Handle. destruct (Unmarshal data) as [msg|e] eqn:Hm; [|by apply Stopped]. cbv zeta.
  eapply wp_seq; [apply start_started|]. intros start res Hst.
  assert (∀ tr r, Forall (obs_call searching) tr → (r = Ok tt → omap ev_skip tr ≠ []) → handled data (start ++ tr) r) as Hstop.
  { intros tr r Htr Hsk. destruct Hst as (Hc & Hw & _). destruct (finishing_quiet _ Hc) as (_ & _ & _ & E1 & E2).
    destruct (searching_quiet _ Htr) as (E3 & E4 & E5). apply Stopped; rewrite ?omap_app, ?E1, ?E2, ?E3, ?E4, ?E5, ?app_nil_r; try done.
    - eapply Forall_impl; [exact Hw|]. by intros ? [].
    - intros Hr []%app_eq_nil. by apply Hsk. }
  destruct res as [[job|]|e].
  - eapply wp_mono; [|apply create_catalog_worked]. intros tr r [[Htr Hsk]|Hw]; [by apply Hstop|].
    destruct Hw as (registry & prepare & found & existing & images & finish & after & -> & ?). destruct_and!. by eapply Cataloged.
  - apply wp_bind. intros [] _. cbn [wp app]. apply Hstop; [by repeat constructor|done].
  - destruct (IsNotFound e); [apply wp_bind; intros [] _|]; cbn [wp app]; apply Hstop; try done; by repeat constructor.
Qed.

(** What the end of a run leaves alone. *)
Definition ending_call A (e : Eff A) : Prop := deleting A e ∨ finishing A e ∨ telling A e.

Lemma ending_calls ref registry existing images job tr r :
  ending ref registry existing images job tr r → Forall (obs_call ending_call) tr.
Proof.
  assert (∀ P ext, (∀ A e, P A e → ending_call A e) → Forall (obs_call P) ext → Forall (obs_call ending_call) ext) as Himp.
  { intros P ext HP Hext. eapply Forall_impl; [exact Hext|]. intros [A e a]. apply HP. }
  intros [dels e [Hd _]|dels fin r' [Hd _] [Hf _] _|dels fin reqs o p r' [Hd _] [Hf _] _ Ht _]; rewrite ?Forall_app; split_and?;
    (eapply Himp; [|done]); unfold ending_call; tauto.
Qed.

Lemma ending_quiet tr :
  Forall (obs_call ending_call) tr →
  (∀ registry, omap (shown registry) tr = []) ∧ omap (ev_create KImage) tr = [] ∧ omap (ev_list KImage) tr = [].
Proof.
  intros Htr. split_and!; [intros registry|..]; (eapply omap_calls; [|exact Htr]); intros A e a [He|[He|He]]; destruct e; try done; by destruct k.
Qed.

Lemma deleting_quiet tr :
  Forall (obs_call deleting) tr → omap ev_publish tr = [] ∧ omap ev_status_update tr = [] ∧ omap (ev_get KScanJob) tr = [].
Proof. intros Htr. split_and!; (eapply omap_calls; [|exact Htr]); intros A e a; by destruct e. Qed.
Lemma telling_quiet tr :
  Forall (obs_call telling) tr → omap (ev_delete KImage) tr = [] ∧ omap ev_status_update tr = [].
Proof. intros Htr. split_and!; (eapply omap_calls; [|exact Htr]); intros A e a; by destruct e. Qed.

(** The images of a run, over its whole trace. *)
Lemma cataloged_frame registry existing images pre tr post :
  omap (shown registry) pre = [] ∧ omap (ev_create KImage) pre = [] ∧ omap (ev_list KImage) pre = [] →
  omap (shown registry) post = [] ∧ omap (ev_create KImage) post = [] ∧ omap (ev_list KImage) post = [] →
  cataloged registry existing images tr → cataloged registry existing images (pre ++ tr ++ post).
Proof.
  intros (E1 & E2 & E3) (E4 & E5 & E6) [Hl [Hd Ho] Hk Hc].
  split; [by rewrite !omap_app, E3, E6, app_nil_r|split; [by rewrite !omap_app, E1, E4, app_nil_r|done]| |].
  - eapply Forall_impl; [exact Hk|]. intros image [(a & Ha & ?)|?]; [left|by right]. exists a. by rewrite !omap_app, E2, E5, app_nil_r.
  - rewrite !omap_app, E2, E5, app_nil_r. exact Hc.
Qed.

Lemma cataloged_whole ref job registry existing images start prepare found finish after :
  started ref (Some job) start → Forall (obs_call preparing) prepare → cataloged registry existing images found →
  Forall (obs_call ending_call) finish → Forall (obs_call preparing) after →
  cataloged registry existing images (start ++ prepare ++ found ++ finish ++ after).
Proof.
  intros (Hst & _) Hp Hc He Ha. rewrite (app_assoc start). apply cataloged_frame; [| |done].
  - destruct (finishing_quiet _ Hst) as (E1 & E2 & E3 & _). destruct (preparing_quiet registry _ Hp) as (E4 & E5 & E6 & _).
    by rewrite !omap_app, E1, E2, E3, E4, E5, E6.
  - destruct (ending_quiet _ He) as (E1 & E2 & E3). destruct (preparing_quiet registry _ Ha) as (E4 & E5 & E6 & _).
    by rewrite !omap_app, E1, E2, E3, E4, E5, E6.
Qed.

(** [C3] One request per image, whatever the environment answers.  A run of
    the catalog handler that asks for anything works for the job of its
    message and the registry of the snapshot that this job carries.  Its
    images are exactly those the registry showed it that are container images
    for a wanted platform, in that order, as Image resources of the registry
    in its namespace; the resource of each was created or already listed.
    The job was first persisted as in progress with their number and none
    scanned; the requests are then for those images and no others, in that
    order, each with the job of the message and the name and namespace of the
    image, under an identifier made of the job's UID and the image name; and
    when the handler succeeds one was published for each, so the number the
    VulnerabilityReport reconciler waits for is the number of scans started.
    A run that succeeds without asking for anything recorded why it skipped
    the job, or saw no image and recorded the job as complete, or found the
    job gone. *)
Theorem requests_match_count {W} (h : handler Eff W) (w : W) (data : string) :
  let tr := run_trace h (Handle installationNamespace data) w in
  let res := run_result h (Handle installationNamespace data) w in
  (omap ev_publish tr = [] ∧
   (res = Ok tt → omap ev_skip tr ≠ [] ∨
      ∃ msg job registry, Unmarshal data = Ok msg ∧ job ∈ omap seen_job tr ∧ snapshot_of job registry ∧
        (gone (ccm_ScanJob msg) tr ∨
         omap (shown registry) tr = [] ∧
         ∃ written persisted, (written, Ok persisted) ∈ omap ev_status_update tr ∧
           sj_UID written = o_UID (ccm_ScanJob msg) ∧ in_phase Complete written))) ∨
  ∃ msg job registry existing images written persisted,
    Unmarshal data = Ok msg ∧ job ∈ omap seen_job tr ∧ snapshot_of job registry ∧
    cataloged registry existing images tr ∧
    (written, Ok persisted) ∈ omap ev_status_update tr ∧
    sj_UID written = o_UID (ccm_ScanJob msg) ∧ in_phase InProgress written ∧
    ss_ImagesCount (sj_Status written) = Z.of_nat (length images) ∧ ss_ScannedImagesCount (sj_Status written) = 0%Z ∧
    requested (ccm_ScanJob msg) (sj_UID persisted) images tr res.
Proof.
  cbv zeta.
  destruct (wp_run_any h (Handle installationNamespace data) w _ (Handle_handled data)) as
    [tr r Hp _ _ Hsk|msg job registry start prepare found existing images finish after r Hm Hst Hsn Hpre Hf Hc He Ha]; [left; auto|].
  pose proof (ending_calls _ _ _ _ _ _ _ He) as Hfin.
  pose proof (cataloged_whole _ _ _ _ _ _ _ _ _ _ Hst Hpre Hc Hfin Ha) as Hwhole.
  pose proof Hst as (Hstc & _ & Hlast). specialize (Hlast _ eq_refl).
  assert (job ∈ omap seen_job (start ++ prepare ++ found ++ finish ++ after)) as Hjob.
  { rewrite omap_app, elem_of_app. left. by eapply last_Some_elem_of. }
  destruct (finishing_quiet _ Hstc) as (_ & _ & _ & P1 & _). destruct (searching_quiet _ (preparing_searching _ Hpre)) as (P2 & _).
  destruct (searching_quiet _ Hf) as (P3 & _). destruct (searching_quiet _ (preparing_searching _ Ha)) as (P4 & _).
  assert (omap ev_publish (start ++ prepare ++ found ++ finish ++ after) = omap ev_publish finish) as Hpub.
  { by rewrite !omap_app, P1, P2, P3, P4, app_nil_r. }
  assert (∀ B (f : obs Eff → option B) x, x ∈ omap f finish → x ∈ omap f (start ++ prepare ++ found ++ finish ++ after)) as Hin.
  { intros. rewrite !omap_app, !elem_of_app. auto. }
  destruct He as [dels e [Hd _]|dels fin r [Hd _] [Hfc _] Hgone|dels fin reqs o persisted r [Hd _] [Hfc Hfw] Ho Ht Hreq].
  - left. rewrite Hpub. split; [by apply deleting_quiet|done].
  - left. rewrite Hpub, omap_app. destruct (finishing_quiet _ Hfc) as (_ & _ & _ & -> & _). rewrite app_nil_r.
    split; [by apply deleting_quiet|]. intros Hr. right. exists msg, job, registry. split_and!; try done. left.
    destruct (Hgone Hr) as [(k & e & Hg & ?)|[(k & j & Hg & ?)|(o & e & Hg & ?)]]; [left|right; left|right; right];
      eexists _, _; (split; [apply Hin; rewrite omap_app; apply elem_of_app; right; exact Hg|done]).
  - rewrite Forall_forall in Hfw. destruct (Hfw _ Ho) as [Huid Hrec]. cbn in Huid, Hrec.
    assert ((o, Ok persisted) ∈ omap ev_status_update (start ++ prepare ++ found ++ (dels ++ fin ++ reqs) ++ after)) as Hw.
    { apply Hin. rewrite !omap_app, !elem_of_app. auto. }
    assert (omap ev_publish (dels ++ fin ++ reqs) = omap ev_publish reqs) as Hpub'.
    { rewrite !omap_app. destruct (deleting_quiet _ Hd) as (-> & _). by destruct (finishing_quiet _ Hfc) as (_ & _ & _ & -> & _). }
    unfold recorded in Hrec. destruct (decide (images = [])) as [->|Hne].
    + left. rewrite Hpub, Hpub'. destruct Hreq as (asked & rest & Hi & Hasked & _). symmetry in Hi. apply app_eq_nil in Hi as [-> ->].
      apply Forall2_nil_inv_l in Hasked. split; [done|]. intros _. right. exists msg, job, registry. split_and!; try done. right.
      split; [|by eauto]. destruct Hwhole as [_ [<- _] _ _]. done.
    + right. destruct Hrec as (? & ? & ?). exists msg, job, registry, existing, images, o, persisted. split_and!; try done.
      unfold requested in *. by rewrite Hpub, Hpub'.
Qed.

End run.
