(* ===== verification/GenerateSBOM.v ===== *)
(** * The SBOM generation handler

    [src/internal/handlers/generate_sbom.go]: it reuses the SBOM of an image
    with the same digest or runs Trivy on the image, creates the SBOM resource
    and asks for its scan. *)

From stdpp Require Import prelude gmap strings list.
From S2P Require Import Prelude Prog Meta Conditions Registry ScanJob NodeScanJob StorageTypes GoPath Effects Messages RegistryAuth.
Import ScanJob.

Section handler.
Context `{!StatusConditions, !ControllerUtil, !X509}.
Context `{!JSON Registry, !JSON GenerateSBOMMessage, !JSON ScanSBOMMessage}.
Context (workDir trivyJavaDBRepository installationNamespace : string).

(** ** Trivy *)

Definition image_reference (image : Image) : string :=
  let m := img_ImageMetadata image in
  im_RegistryURI m +:+ "/" +:+ im_Repository m +:+ "@" +:+ im_Digest m.

Definition execute_and_read (args : list string) (file : string) : go (result string) :=
  check trigger (TrivyExecute args) wrap errorf "failed to execute trivy";
  spdxBytes ←? trigger (OsReadAll file) wrap errorf "failed to read SBOM output";
  Ret (Ok spdxBytes).

(** [generateSPDX] from the arguments on: the deferred removal of the CA
    bundle file runs last. *)
Definition run_trivy_image (image : Image) (registry : Registry) (sbomFile : string)
  : go (result string) :=
  let args := ["image"; "--skip-version-check"; "--disable-telemetry"; "--cache-dir"; workDir;
               "--format"; "spdx-json"; "--skip-db-update";
               "--java-db-repository"; trivyJavaDBRepository; "--output"; sbomFile] in
  let args := if rs_Insecure (rg_Spec registry) then args ++ ["--insecure"] else args in
  caBundle ←? Resolve registry installationNamespace
    wrap errorf ("cannot resolve CA bundle for registry " +:+ rg_Name registry);
  if negb (bool_decide (caBundle = "")) then
    caBundleFile ←? trigger (OsCreateTemp workDir "trivy.cabundle.*.crt")
      wrap errorf "failed to create CA bundle file";
    r ← (check trigger (OsWrite caBundleFile caBundle) wrap errorf "failed to write CA bundle content";
         check trigger (OsClose caBundleFile) wrap errorf "failed to close CA bundle file";
         execute_and_read (args ++ ["--cacert"; caBundleFile; image_reference image]) sbomFile);
    _ ← trigger (OsRemove caBundleFile);
    Ret r
  else execute_and_read (args ++ [image_reference image]) sbomFile.

Definition generateSPDX (image : Image) (registry : Registry) : go (result string) :=
  sbomFile ←? trigger (OsCreateTemp workDir "trivy.sbom.*.json")
    wrap errorf "failed to create temporary SBOM file";
  r ← (if IsPrivate registry then
         dockerConfig ←? BuildDockerConfigForRegistry registry installationNamespace
           wrap errorf ("cannot setup docker auth for registry " +:+ rg_Name registry);
         r ← run_trivy_image image registry sbomFile;
         _ ← trigger (OsRemoveAll dockerConfig);
         _ ← trigger (OsUnsetenv "DOCKER_CONFIG");
         Ret r
       else run_trivy_image image registry sbomFile);
  _ ← trigger (OsClose sbomFile);
  _ ← trigger (OsRemove sbomFile);
  Ret r.

(** ** The SBOM *)

Definition findSBOMByDigest (digest namespace : string) : go (result SBOM) :=
  items ←? trigger (KList KSBOM [InNamespace namespace; MatchingFields IndexImageMetadataDigest digest; Limit 1])
    wrap errorf "failed to find SBOM by digest";
  match items with
  | [] => Ret (Err (NewNotFound "sbom.storage" digest))
  | sbom :: _ => Ret (Ok sbom)
  end.

(** [getOrGenerateSBOM] once it has the content. *)
Definition new_sbom (image : Image) (registry : Registry) (ref : ObjectRef) (spdxBytes : string)
  : result SBOM :=
  let m := new_meta (o_Name ref) "" (o_Namespace ref) (managed_labels (om_Labels (rg_Meta registry))) ∅ in
  match SetControllerReference "Image" (img_Meta image) m with
  | Err e => Err (errorf "failed to set owner reference" e)
  | Ok m => Ok {| sb_Meta := m; sb_ImageMetadata := img_ImageMetadata image; sb_SPDX := spdxBytes |}
  end.

Definition getOrGenerateSBOM (image : Image) (registry : Registry) (ref : ObjectRef) : go (result SBOM) :=
  existing ← findSBOMByDigest (im_Digest (img_ImageMetadata image)) (img_Namespace image);
  match existing with
  | Ok existingSBOM => Ret (new_sbom image registry ref (sb_SPDX existingSBOM))
  | Err e =>
      if negb (IsNotFound e) then Ret (Err (errorf "failed to check for existing SBOM" e))
      else
        spdxBytes ←? generateSPDX image registry wrap (λ e, e);
        Ret (new_sbom image registry ref spdxBytes)
  end.

(** ** The handler *)

Definition job_ref_key (ref : ObjectRef) : NamespacedName :=
  {| nn_Namespace := o_Namespace ref; nn_Name := o_Name ref |}.

Definition publish_scan (scanJob : ScanJob) (message : GenerateSBOMMessage) : go (result unit) :=
  let ref := gsm_Image message in
  let scanSBOMMessageID := "scanSBOM/" +:+ sj_UID scanJob +:+ "/" +:+ o_Name ref in
  match Marshal {| ssm_ScanJob := gsm_ScanJob message;
                   ssm_SBOM := {| o_Name := o_Name ref; o_Namespace := o_Namespace ref; o_UID := "" |} |} with
  | Err e => Ret (Err (errorf "cannot marshal scan SBOM message" e))
  | Ok scanSBOMMessage =>
      check trigger (PublishMsg ScanSBOMSubject scanSBOMMessageID scanSBOMMessage)
        wrap errorf "failed to publish scan SBOM message";
      Ret (Ok tt)
  end.

(** The part of [Handle] after the job has been found good. *)
Definition generate (scanJob : ScanJob) (message : GenerateSBOMMessage) : go (result unit) :=
  let ref := gsm_Image message in
  r ← trigger (KGet KImage (job_ref_key ref));
  match r with
  | Err e =>
      if IsNotFound e then
        _ ← trigger (RecordSkipReason skipReasonObjectNotFound);
        Ret (Ok tt)
      else Ret (Err (errorf ("cannot get image " +:+ o_Namespace ref +:+ "/" +:+ o_Name ref) e))
  | Ok image =>
  match registryFromScanJob scanJob with
  | Err e => Ret (Err e)
  | Ok registry =>
      sbom ←? getOrGenerateSBOM image registry ref wrap errorf "failed to get or generate SBOM";
      check trigger MsgInProgress wrap errorf "failed to ack message as in progress";
      c ← trigger (KCreate KSBOM sbom);
      match c with
      | Err e =>
          if IsAlreadyExists e then publish_scan scanJob message
          else Ret (Err (errorf "failed to create SBOM" e))
      | Ok _ => publish_scan scanJob message
      end
  end
  end.

Definition Handle (data : string) : go (result unit) :=
  match Unmarshal data with
  | Err e => Ret (Err (errorf "failed to unmarshal GenerateSBOM message" e))
  | Ok message =>
      let ref := gsm_ScanJob message in
      r ← trigger (KGet KScanJob (job_ref_key ref));
      match r with
      | Err e =>
          if IsNotFound e then
            _ ← trigger (RecordSkipReason skipReasonJobNotFound);
            Ret (Ok tt)
          else Ret (Err (errorf ("cannot get ScanJob " +:+ o_Name ref +:+ "/" +:+ o_Namespace ref) e))
      | Ok scanJob =>
          if negb (bool_decide (sj_UID scanJob = o_UID ref)) then
            _ ← trigger (RecordSkipReason skipReasonUIDMismatch);
            Ret (Ok tt)
          else if IsFailed scanJob then
            _ ← trigger (RecordSkipReason skipReasonJobFailed);
            Ret (Ok tt)
          else generate scanJob message
      end
  end.

(** ** Facts *)

(** Credential calls: they make no temporary file, run no Trivy and read no
    output. *)
Definition auth_call (ns : string) A (e : Eff A) : Prop :=
  reads_from ns A e ∧
  match e with
  | OsCreateTemp _ _ | OsRemove _ | OsReadAll _ | TrivyExecute _ | KList KSBOM _ => False
  | _ => True
  end.

Lemma Resolve_auth registry :
  calls (auth_call (secrets_namespace registry installationNamespace)) (Resolve registry installationNamespace).
Proof.
  unfold Resolve. fold (secrets_namespace registry installationNamespace).
  unfold readRef, readConfigMapKey, readSecretKey. cbv zeta. repeat calls_step; by repeat split.
Qed.

Lemma Build_auth registry :
  calls (auth_call (secrets_namespace registry installationNamespace))
    (BuildDockerConfigForRegistry registry installationNamespace).
Proof.
  unfold BuildDockerConfigForRegistry, createDockerConfigJSON. cbv zeta.
  fold (secrets_namespace registry installationNamespace). repeat calls_step; by repeat split.
Qed.

Lemma auth_silent ns ext :
  Forall (obs_call (auth_call ns)) ext →
  omap ev_create_temp ext = [] ∧ omap ev_trivy ext = [] ∧ omap ev_read_all ext = [] ∧
  Forall (obs_call reads_only) ext ∧ Forall (λ n, n = ns) (omap ev_secret_namespace ext).
Proof.
  intros Hext. split_and!.
  1-3: eapply omap_calls; try exact Hext; intros A e a [_ He]; by destruct e.
  - eapply Forall_impl; [exact Hext|]. intros [A e a] [He _]. cbn. destruct e; try done; by destruct k.
  - induction Hext as [|[A e a] ext [He _] _ IH]; [constructor|]. cbn.
    destruct e; try done; destruct k; try done; by constructor.
Qed.

(** What holds of the part of a trace that generates an SBOM: nothing is
    written to the cluster, secrets come from [ns], every temporary file made
    is removed, and the content returned is what Trivy left in the file it was
    told to write, by a command [good] for that file. *)
Section generated.
Context (good : string → list string → Prop).

Record generated (ns : string) (tr : trace Eff) (r : result string) : Prop := {
  gn_reads : Forall (obs_call reads_only) tr;
  gn_secrets : Forall (λ n, n = ns) (omap ev_secret_namespace tr);
  gn_temp : ∀ f, f ∈ omap ev_create_temp tr → f ∈ omap ev_remove tr;
  gn_content : ∀ spdx, r = Ok spdx →
    ∃ file args, (file, Ok spdx) ∈ omap ev_read_all tr ∧ (args, Ok tt) ∈ omap ev_trivy tr ∧ good file args
}.

Lemma generated_app ns pre tr r :
  Forall (obs_call reads_only) pre → Forall (λ n, n = ns) (omap ev_secret_namespace pre) →
  omap ev_create_temp pre = [] → generated ns tr r → generated ns (pre ++ tr) r.
Proof.
  intros Hr Hs Ht [Hr' Hs' Ht' Hc]. split.
  - by apply Forall_app.
  - rewrite omap_app. by apply Forall_app.
  - intros f. rewrite !omap_app, Ht. intros Hf%Ht'. set_solver.
  - intros spdx Hok. destruct (Hc _ Hok) as (file & args & H1' & H2' & H3').
    exists file, args. rewrite !omap_app, !elem_of_app. auto.
Qed.

Lemma generated_err ns tr e :
  Forall (obs_call reads_only) tr → Forall (λ n, n = ns) (omap ev_secret_namespace tr) →
  omap ev_create_temp tr = [] → generated ns tr (Err e).
Proof. intros Hr Hs Ht. split; try done. rewrite Ht. set_solver. Qed.

(** Adds the calls a deferred function makes at the end. *)
Lemma generated_post ns tr post r :
  Forall (obs_call reads_only) post → omap ev_secret_namespace post = [] → omap ev_create_temp post = [] →
  generated ns tr r → generated ns (tr ++ post) r.
Proof.
  intros Hp Hs Ht [Hr' Hs' Ht' Hc]. split.
  - by apply Forall_app.
  - by rewrite omap_app, Hs, app_nil_r.
  - intros f. rewrite !omap_app, Ht, app_nil_r. intros Hf%Ht'. set_solver.
  - intros spdx Hok. destruct (Hc _ Hok) as (file & args & H1' & H2' & H3').
    exists file, args. rewrite !omap_app, !elem_of_app. auto.
Qed.

(** A temporary file made before and removed after. *)
Lemma generated_temp ns f dir pattern tr r :
  f ∈ omap ev_remove tr → generated ns tr r →
  generated ns (Ev (OsCreateTemp dir pattern) (Ok f) :: tr) r.
Proof.
  intros Hf [Hr' Hs' Ht' Hc]. split; try done.
  - by constructor.
  - cbn. intros f' [->|Hf']%elem_of_cons; [set_solver|]. by apply Ht'.
Qed.

Lemma execute_generated ns args file : good file args → wp any_answer (execute_and_read args file) [] (generated ns).
Proof.
  intros Hg. unfold execute_and_read. wp_steps; split; try (by repeat constructor); try (cbn; set_solver); try done.
  intros spdx [= <-]. destruct a0. cbn. eexists _, _. by split_and!; [left|left|].
Qed.

(** Calls on a file that is already there. *)
Definition file_call A (e : Eff A) : Prop :=
  match e with OsWrite _ _ | OsClose _ => True | _ => False end.

Lemma file_silent ns tr :
  Forall (obs_call file_call) tr →
  Forall (obs_call reads_only) tr ∧ Forall (λ n : string, n = ns) (omap ev_secret_namespace tr) ∧
  omap ev_create_temp tr = [].
Proof.
  intros Htr. split_and!.
  - eapply Forall_impl; [exact Htr|]. intros [A e a]. by destruct e.
  - rewrite (omap_calls file_call); [constructor| |done]. intros A e a. by destruct e.
  - eapply omap_calls; [|exact Htr]. intros A e a. by destruct e.
Qed.

(** The CA bundle file: written, then Trivy is run with it. *)
Lemma write_execute_generated ns caFile caBundle args file :
  good file args → wp any_answer
    (check trigger (OsWrite caFile caBundle) wrap errorf "failed to write CA bundle content";
     check trigger (OsClose caFile) wrap errorf "failed to close CA bundle file";
     execute_and_read args file) [] (generated ns).
Proof.
  intros Hg. apply (wp_closed_try file_call).
  - intros p tr r (? & ? & ?)%(file_silent ns). by apply generated_app.
  - intros tr e (? & ? & ?)%(file_silent ns). by apply generated_err.
  - by repeat split.
  - intros _. apply (wp_closed_try file_call).
    + intros p tr r (? & ? & ?)%(file_silent ns). by apply generated_app.
    + intros tr e (? & ? & ?)%(file_silent ns). by apply generated_err.
    + by repeat split.
    + intros _. by apply execute_generated.
Qed.
End generated.

(** Trivy on the image itself, into a file, with the CA bundle of its registry. *)
Definition trivy_image (image : Image) (registry : Registry) (file : string) (args : list string) : Prop :=
  ∃ ca, (ca = [] ∨ ∃ bundle, ca = ["--cacert"; bundle]) ∧
    args = ["image"; "--skip-version-check"; "--disable-telemetry"; "--cache-dir"; workDir; "--format"; "spdx-json";
            "--skip-db-update"; "--java-db-repository"; trivyJavaDBRepository; "--output"; file] ++
           (if rs_Insecure (rg_Spec registry) then ["--insecure"] else []) ++ ca ++
           [im_RegistryURI (img_ImageMetadata image) +:+ "/" +:+ im_Repository (img_ImageMetadata image) +:+ "@" +:+
            im_Digest (img_ImageMetadata image)].

Lemma run_generated image registry file :
  wp any_answer (run_trivy_image image registry file) []
    (generated (trivy_image image registry) (secrets_namespace registry installationNamespace)).
Proof.
  unfold run_trivy_image. cbv zeta.
  assert (∀ ca, (ca = [] ∨ ∃ bundle, ca = ["--cacert"; bundle]) →
    trivy_image image registry file ((if rs_Insecure (rg_Spec registry) then
      ["image"; "--skip-version-check"; "--disable-telemetry"; "--cache-dir"; workDir; "--format"; "spdx-json"; "--skip-db-update";
       "--java-db-repository"; trivyJavaDBRepository; "--output"; file] ++ ["--insecure"]
      else ["image"; "--skip-version-check"; "--disable-telemetry"; "--cache-dir"; workDir; "--format"; "spdx-json"; "--skip-db-update";
       "--java-db-repository"; trivyJavaDBRepository; "--output"; file]) ++ ca ++ [image_reference image])) as Hgood.
  { intros ca Hca. exists ca. split; [done|]. by destruct (rs_Insecure _). }
  apply (wp_closed_try (auth_call (secrets_namespace registry installationNamespace))).
  - intros p tr r (? & ? & ? & ? & ?)%auth_silent. by apply generated_app.
  - intros tr e (? & ? & ? & ? & ?)%auth_silent. by apply generated_err.
  - apply Resolve_auth.
  - intros caBundle. case_bool_decide; cbn [negb].
    { apply execute_generated, (Hgood []). by left. }
    apply wp_try. intros [caFile|e] _; [|by apply generated_err; [repeat constructor|constructor|]].
    apply wp_bind. cbn [app].
    eapply (wp_frame _ _ [_]); [apply write_execute_generated, (Hgood [_; _]); eauto|]. intros ext r Hr a _. cbn [wp].
    rewrite <- app_assoc. cbn [app]. apply generated_temp.
    { rewrite omap_app. set_solver. }
    eapply generated_post; [by repeat constructor|done|done|exact Hr].
Qed.

Lemma generateSPDX_generated image registry :
  wp any_answer (generateSPDX image registry) []
    (generated (trivy_image image registry) (secrets_namespace registry installationNamespace)).
Proof.
  unfold generateSPDX. set (ns := secrets_namespace registry installationNamespace).
  apply wp_try. intros [sbomFile|e] _; [|by apply generated_err; [repeat constructor|constructor|]].
  apply wp_bind. cbn [app].
  eapply (wp_frame _ _ [_]); [instantiate (1 := generated (trivy_image image registry) ns)|].
  - destruct (IsPrivate registry); [|apply run_generated].
    apply (wp_closed_try (auth_call ns)).
    + intros p tr r (? & ? & ? & ? & ?)%auth_silent. by apply generated_app.
    + intros tr e (? & ? & ? & ? & ?)%auth_silent. by apply generated_err.
    + apply Build_auth.
    + intros dockerConfig. apply wp_bind.
      eapply wp_mono; [|apply run_generated]. intros tr r Hr a _ b _. cbn [wp].
      rewrite <- app_assoc. apply generated_post; try done. by repeat constructor.
  - intros ext r Hr a _ b _. cbn [wp]. rewrite <- !app_assoc. cbn [app]. apply generated_temp.
    { rewrite omap_app. set_solver. }
    apply generated_post; try done. by repeat constructor.
Qed.

(** Where the content of an SBOM comes from: another SBOM of the same digest
    and namespace, in which case Trivy is not run, or the file Trivy wrote. *)
Definition content_from (image : Image) (registry : Registry) (spdx : string) (tr : trace Eff) : Prop :=
  (∃ existing rest,
     ([InNamespace (img_Namespace image); MatchingFields "imageMetadata.digest" (im_Digest (img_ImageMetadata image)); Limit 1],
      Ok (existing :: rest)) ∈ omap (ev_list KSBOM) tr ∧
     sb_SPDX existing = spdx ∧ omap ev_trivy tr = []) ∨
  (∃ file args, (file, Ok spdx) ∈ omap ev_read_all tr ∧ (args, Ok tt) ∈ omap ev_trivy tr ∧ trivy_image image registry file args).

Lemma content_app image registry spdx pre tr post :
  omap ev_trivy pre = [] → omap ev_trivy post = [] →
  content_from image registry spdx tr → content_from image registry spdx (pre ++ tr ++ post).
Proof.
  intros Hpre Hpost [(existing & rest & Hl & ? & Ht)|(file & args & Hf & Ha & ?)].
  - left. exists existing, rest. rewrite !omap_app, Hpre, Hpost, Ht. set_solver.
  - right. exists file, args. rewrite !omap_app. set_solver.
Qed.

(** The SBOM of an image: under the name of the message, with the image's metadata and
    as its owner the image. *)
Record sbom_for (image : Image) (registry : Registry) (ref : ObjectRef) (sbom : SBOM) : Prop := {
  sf_name : om_Name (sb_Meta sbom) = o_Name ref;
  sf_namespace : om_Namespace (sb_Meta sbom) = o_Namespace ref;
  sf_labels : om_Labels (sb_Meta sbom) =
    (if decide (om_Labels (rg_Meta registry) !! "sbomscanner.kubewarden.io/workloadscan" = Some "true")
     then {[ "sbomscanner.kubewarden.io/workloadscan" := "true"; "app.kubernetes.io/managed-by" := "sbomscanner"; "app.kubernetes.io/part-of" := "sbomscanner" ]}
     else {[ "app.kubernetes.io/managed-by" := "sbomscanner"; "app.kubernetes.io/part-of" := "sbomscanner" ]});
  sf_owner : ∃ m, om_OwnerReferences m = [] ∧ SetControllerReference "Image" (img_Meta image) m = Ok (sb_Meta sbom);
  sf_image : sb_ImageMetadata sbom = img_ImageMetadata image
}.

Lemma managed_labels_spec labels :
  managed_labels labels =
    (if decide (labels !! "sbomscanner.kubewarden.io/workloadscan" = Some "true")
     then {[ "sbomscanner.kubewarden.io/workloadscan" := "true"; "app.kubernetes.io/managed-by" := "sbomscanner"; "app.kubernetes.io/part-of" := "sbomscanner" ]}
     else {[ "app.kubernetes.io/managed-by" := "sbomscanner"; "app.kubernetes.io/part-of" := "sbomscanner" ]}).
Proof.
  unfold managed_labels, map_get. cbv zeta. change LabelWorkloadScanKey with "sbomscanner.kubewarden.io/workloadscan".
  destruct (labels !! "sbomscanner.kubewarden.io/workloadscan") as [v|]; [|by rewrite decide_False].
  case_bool_decide as Hv; [rewrite decide_True by (by f_equal)|rewrite decide_False by (intros [= ->]; by apply Hv)]; done.
Qed.

Lemma new_sbom_for image registry ref spdx sbom : new_sbom image registry ref spdx = Ok sbom → sbom_for image registry ref sbom.
Proof.
  unfold new_sbom. destruct (SetControllerReference _ _ _) as [m|] eqn:Hm; [|done]. intros [= <-].
  pose proof (SetControllerReference_frame _ _ _ _ Hm) as [os ->]. split; cbn; try done.
  - apply managed_labels_spec.
  - eexists. split; [|exact Hm]. done.
Qed.

Record obtained (ns : string) (image : Image) (registry : Registry) (ref : ObjectRef)
    (tr : trace Eff) (r : result SBOM) : Prop := {
  ob_reads : Forall (obs_call reads_only) tr;
  ob_secrets : Forall (λ n, n = ns) (omap ev_secret_namespace tr);
  ob_temp : ∀ f, f ∈ omap ev_create_temp tr → f ∈ omap ev_remove tr;
  ob_sbom : ∀ sbom, r = Ok sbom →
    sbom_for image registry ref sbom ∧
    content_from image registry (sb_SPDX sbom) tr
}.

Lemma new_sbom_SPDX image registry ref spdx sbom :
  new_sbom image registry ref spdx = Ok sbom → sb_SPDX sbom = spdx.
Proof. unfold new_sbom. case_match; naive_solver. Qed.

Lemma regenerate_obtained image registry ref opts answer :
  wp any_answer
    (spdxBytes ←? generateSPDX image registry wrap (λ e, e); Ret (new_sbom image registry ref spdxBytes))
    [Ev (KList KSBOM opts) answer]
    (obtained (secrets_namespace registry installationNamespace) image registry ref).
Proof.
  apply wp_try. apply (wp_frame _ _ [_] _ _ (generateSPDX_generated image registry)).
  intros ext [spdx|e] [Hr Hs Ht Hc]; cbn [wp]; split; try done; try (by constructor).
  intros sbom Hnew. pose proof (new_sbom_SPDX _ _ _ _ _ Hnew) as ->. split; [by eapply new_sbom_for|]. right.
  destruct (Hc _ eq_refl) as (file & args & ? & ? & ?). by exists file, args.
Qed.

Lemma getOrGenerate_obtained image registry ref :
  wp any_answer (getOrGenerateSBOM image registry ref) []
    (obtained (secrets_namespace registry installationNamespace) image registry ref).
Proof.
  unfold getOrGenerateSBOM, findSBOMByDigest. apply wp_bind, wp_try.
  intros [[|existing rest]|e] _; cbn beta iota.
  - apply regenerate_obtained.
  - split; cbn [app]; [by repeat constructor|constructor|cbn; set_solver|].
    intros sbom Hs. pose proof (new_sbom_SPDX _ _ _ _ _ Hs) as ->. split; [by eapply new_sbom_for|]. left.
    exists existing, rest. split_and!; [by left|done|done].
  - cbn [wp]. destruct (IsNotFound _); [apply regenerate_obtained|].
    split; cbn [app]; [by repeat constructor|constructor|cbn; set_solver|done].
Qed.

(** What is known when the SBOM is created, after the calls [tr] that only
    read. *)
Record prepared (data : string) (message : GenerateSBOMMessage) (scanJob : ScanJob)
    (registry : Registry) (image : Image) (sbom : SBOM) (tr : trace Eff) : Prop := {
  pr_message : Unmarshal data = Ok message;
  pr_job : ({| nn_Namespace := o_Namespace (gsm_ScanJob message); nn_Name := o_Name (gsm_ScanJob message) |}, Ok scanJob) ∈ omap (ev_get KScanJob) tr;
  pr_uid : sj_UID scanJob = o_UID (gsm_ScanJob message);
  pr_not_failed : IsFailed scanJob = false;
  pr_image : ({| nn_Namespace := o_Namespace (gsm_Image message); nn_Name := o_Name (gsm_Image message) |}, Ok image) ∈ omap (ev_get KImage) tr;
  pr_registry : snapshot_of scanJob registry;
  pr_sbom : sbom_for image registry (gsm_Image message) sbom;
  pr_content : content_from image registry (sb_SPDX sbom) tr
}.

Definition accepted {A} (c : result A) : bool :=
  match c with Ok _ => true | Err e => IsAlreadyExists e end.

(** The message asking for the scan of the SBOM. *)
Definition scan_request (message : GenerateSBOMMessage) : ScanSBOMMessage :=
  {| ssm_ScanJob := gsm_ScanJob message;
     ssm_SBOM := {| o_Name := o_Name (gsm_Image message); o_Namespace := o_Namespace (gsm_Image message); o_UID := "" |} |}.

(** The ways the handler can end. *)
Inductive outcome (P : GenerateSBOMMessage → ScanJob → Registry → Image → SBOM → trace Eff → Prop)
    (tr : trace Eff) (r : result unit) : Prop :=
| Stopped :
    Forall (obs_call reads_only) tr →
    (is_ok r = true → omap ev_skip tr ≠ []) →
    outcome P tr r
| Not_stored message scanJob registry image sbom pre c :
    P message scanJob registry image sbom pre → Forall (obs_call reads_only) pre →
    tr = pre ++ [Ev (KCreate KSBOM sbom) c] → is_ok r = false →
    outcome P tr r
| Requested message scanJob registry image sbom pre c d a :
    P message scanJob registry image sbom pre → Forall (obs_call reads_only) pre →
    accepted c = true → Marshal (scan_request message) = Ok d →
    tr = pre ++ [Ev (KCreate KSBOM sbom) c;
                 Ev (PublishMsg "sbomscanner.sbom.scan" ("scanSBOM/" +:+ sj_UID scanJob +:+ "/" +:+ o_Name (gsm_Image message)) d) a] →
    is_ok r = is_ok a →
    outcome P tr r.

Record ready (scanJob : ScanJob) (message : GenerateSBOMMessage)
    (message' : GenerateSBOMMessage) (scanJob' : ScanJob)
    (registry : Registry) (image : Image) (sbom : SBOM) (tr : trace Eff) : Prop := {
  rd_message : message' = message;
  rd_job : scanJob' = scanJob;
  rd_image : (job_ref_key (gsm_Image message), Ok image) ∈ omap (ev_get KImage) tr;
  rd_registry : snapshot_of scanJob registry;
  rd_sbom : sbom_for image registry (gsm_Image message) sbom;
  rd_content : content_from image registry (sb_SPDX sbom) tr
}.

Lemma publish_outcome P message scanJob registry image sbom pre c :
  P message scanJob registry image sbom pre → Forall (obs_call reads_only) pre → accepted c = true →
  wp any_answer (publish_scan scanJob message) (pre ++ [Ev (KCreate KSBOM sbom) c]) (outcome P).
Proof.
  intros HP Hpre Hc. unfold publish_scan. fold (scan_request message). cbv zeta.
  destruct (Marshal _) as [d|e] eqn:Hd; cbn [wp]; [|by eapply Not_stored].
  apply wp_try. intros a _. rewrite <- app_assoc.
  destruct a as [[]|e]; cbn [wp]; by eapply Requested.
Qed.

Lemma generate_outcome scanJob message :
  wp any_answer (generate scanJob message) [] (outcome (ready scanJob message)).
Proof.
  unfold generate. cbv zeta. apply wp_bind. intros [image|e] _; cbn beta iota.
  2: { wp_steps; apply Stopped; by repeat constructor. }
  destruct (registryFromScanJob scanJob) as [registry|e] eqn:Hreg; cbn [wp];
    [|apply Stopped; by repeat constructor].
  apply wp_try. eapply wp_frame; [apply getOrGenerate_obtained|].
  intros ext [sbom|e] [Hr Hs Ht Hok]; [|apply Stopped; [by repeat constructor|done]].
  destruct (Hok _ eq_refl) as [Hnew Hcontent].
  apply wp_try. intros [[]|e] _; [|apply Stopped; [|done]; cbn; constructor; [done|]; apply Forall_app; by repeat constructor].
  apply wp_bind. intros c _.
  set (pre := _ ++ [Ev MsgInProgress (Ok tt)]).
  assert (Forall (obs_call reads_only) pre) as Hpre.
  { subst pre. cbn. constructor; [done|]. apply Forall_app. by repeat constructor. }
  assert (ready scanJob message message scanJob registry image sbom pre) as Hready.
  { split; try done; [by left|by apply registry_snapshot|]. by apply (content_app _ _ _ [_] _ [_]). }
  clearbody pre. destruct c as [sbom'|e]; [by eapply publish_outcome|].
  cbn [wp]. destruct (IsAlreadyExists e) eqn:He; [by eapply publish_outcome|]. by eapply Not_stored.
Qed.

Lemma outcome_frame P P' o tr r :
  obs_call reads_only o →
  (∀ message scanJob registry image sbom pre,
     P message scanJob registry image sbom pre → P' message scanJob registry image sbom (o :: pre)) →
  outcome P tr r → outcome P' (o :: tr) r.
Proof.
  intros Ho HP [Hr Hskip|message scanJob registry image sbom pre c HPp Hpre -> Hr|
                message scanJob registry image sbom pre c d a HPp Hpre Hc Hd -> Hr].
  - apply Stopped; [by constructor|]. intros Hok%Hskip. cbn. by destruct (ev_skip o).
  - eapply (Not_stored _ _ _ message scanJob registry image sbom (o :: pre)); eauto.
  - eapply (Requested _ _ _ message scanJob registry image sbom (o :: pre)); eauto.
Qed.


(** Calls that neither make a temporary file nor read a Secret. *)
Definition unguarded A (e : Eff A) : Prop :=
  match e with
  | OsCreateTemp _ _ | KGet KSecret _ | KGet KConfigMap _ => False
  | _ => True
  end.

Definition tidy (ns : string) (tr : trace Eff) : Prop :=
  Forall (λ f, f ∈ omap ev_remove tr) (omap ev_create_temp tr) ∧
  Forall (λ n, n = ns) (omap ev_secret_namespace tr).

Lemma unguarded_silent tr :
  Forall (obs_call unguarded) tr → omap ev_create_temp tr = [] ∧ omap ev_secret_namespace tr = [].
Proof.
  intros Htr. split; (eapply omap_calls; [|exact Htr]); intros A e a; destruct e; try done; by destruct k.
Qed.

Lemma tidy_app ns pre tr post :
  Forall (obs_call unguarded) pre → Forall (obs_call unguarded) post →
  tidy ns tr → tidy ns (pre ++ tr ++ post).
Proof.
  intros [Ht1 Hs1]%unguarded_silent [Ht2 Hs2]%unguarded_silent [Ht Hs].
  unfold tidy. rewrite !omap_app, Ht1, Ht2, Hs1, Hs2, !app_nil_r. split; [|done].
  eapply Forall_impl; [exact Ht|]. set_solver.
Qed.

Lemma tidy_nil ns : tidy ns [].
Proof. by split. Qed.

Lemma finish_unguarded scanJob message sbom :
  calls unguarded
    (check trigger MsgInProgress wrap errorf "failed to ack message as in progress";
     c ← trigger (KCreate KSBOM sbom);
     match c with
     | Err e =>
         if IsAlreadyExists e then publish_scan scanJob message
         else Ret (Err (errorf "failed to create SBOM" e))
     | Ok _ => publish_scan scanJob message
     end).
Proof. unfold publish_scan. cbv zeta. repeat calls_step; done. Qed.

Lemma generate_tidy scanJob message :
  wp any_answer (generate scanJob message) [] (λ tr _,
    omap ev_secret_namespace tr = [] ∧ omap ev_create_temp tr = [] ∨
    ∃ registry, registryFromScanJob scanJob = Ok registry ∧
      tidy (secrets_namespace registry installationNamespace) tr).
Proof.
  unfold generate. cbv zeta. apply wp_bind. intros [image|e] _; cbn [wp].
  2: { wp_steps; by left. }
  destruct (registryFromScanJob scanJob) as [registry|e]; cbn [wp]; [|by left].
  apply wp_try. eapply (wp_frame _ _ [_]); [apply getOrGenerate_obtained|].
  intros ext r Hob.
  assert (tidy (secrets_namespace registry installationNamespace) ext) as Hext.
  { destruct Hob. by split; [apply Forall_forall|]. }
  destruct r as [sbom|e].
  - eapply wp_frame; [eapply calls_wp; [apply finish_unguarded|constructor]|].
    intros post r Hpost. right. exists registry. split; [done|]. rewrite <- app_assoc.
    apply tidy_app; [by repeat constructor|done|done].
  - right. exists registry. split; [done|]. rewrite <- (app_nil_r ext).
    apply tidy_app; [by repeat constructor|constructor|done].
Qed.

(** The handler cleans up and keeps to its namespace: every temporary
    file it makes (the SBOM and the CA bundle of the registry) is removed
    before it returns, on every path, and the Secrets and ConfigMaps it reads
    are all in the namespace of the registry of the job (the installation
    namespace for a registry that the workload scan manages). *)
Theorem temporaries_removed_secrets_confined {W} (h : handler Eff W) (w : W) (data : string) :
  let tr := run_trace h (Handle data) w in
  Forall (λ f, f ∈ omap ev_remove tr) (omap ev_create_temp tr) ∧
  (omap ev_secret_namespace tr = [] ∨
   ∃ message scanJob registry,
     Unmarshal data = Ok message ∧
     (job_ref_key (gsm_ScanJob message), Ok scanJob) ∈ omap (ev_get KScanJob) tr ∧
     registryFromScanJob scanJob = Ok registry ∧
     Forall (λ n, n = secrets_namespace registry installationNamespace) (omap ev_secret_namespace tr)).
Proof.
  wp_start. unfold Handle. destruct (Unmarshal data) as [message|e] eqn:Hmsg;
    [|by split; [constructor|left]].
  apply wp_bind. intros [scanJob|e] _; cbn [wp].
  2: { wp_steps; by split; [constructor|left]. }
  case_bool_decide; cbn [negb]; [|wp_steps; by split; [constructor|left]].
  destruct (IsFailed scanJob); [wp_steps; by split; [constructor|left]|].
  eapply (wp_frame _ _ [_]); [apply generate_tidy|].
  intros ext r [[Hs Ht]|(registry & Hreg & Ht & Hs)]; cbn.
  - change (trace Eff) with (list (obs Eff)). rewrite Hs, Ht. split; [constructor|by left].
  - split; [done|]. right. exists message, scanJob, registry. split_and!; try done. by left.
Qed.
End handler.
