(* ===== verification/GenerateNodeSBOM.v ===== *)
(** * The node SBOM generation handler

    [src/internal/handlers/generate_node_sbom.go]: it runs Trivy on the file
    system of the node the worker runs on, stores the NodeSBOM and asks for its
    scan. *)

From stdpp Require Import prelude gmap strings list.
From S2P Require Import Prelude Prog Meta Conditions Registry ScanJob NodeScanJob Filters StorageTypes GoPath Effects Messages StatusUpdate.
Import NodeScanJob.

(** Cluster-scoped objects have no namespace. *)
Abbreviation cluster_key name := {| nn_Namespace := ""; nn_Name := name |}.

Section handler.
Context `{!StatusConditions, !ControllerUtil, !CreateOrUpdater, !Retry}.
Context `{!JSON NodeScanConfiguration, !JSON GenerateNodeSBOMMessage, !JSON ScanNodeSBOMMessage}.
Context (workDir targetDir trivyJavaDBRepository : string).

(** ** Trivy *)

(** One of the loops that turn the parsed patterns into flags. *)
Definition skip_flags (flag : string) (patterns : list string) : list string :=
  fold_left (λ args p, args ++ [flag; path_Join [targetDir; p]]) patterns [].

Definition node_trivy_args (skipPats : list string) (sbomFile : string) : list string :=
  let args := ["filesystem"; "--skip-version-check"; "--disable-telemetry"; "--cache-dir"; workDir;
               "--format"; "spdx-json"; "--skip-db-update";
               "--java-db-repository"; trivyJavaDBRepository; "--output"; sbomFile] in
  let parsed := Parse skipPats in
  let args := args ++ skip_flags "--skip-dirs" (SkipDirs parsed) in
  let args := args ++ skip_flags "--skip-files" (SkipFiles parsed) in
  args ++ [targetDir].

Definition node_generateSPDX (skipPats : list string) : go (result string) :=
  sbomFile ←? trigger (OsCreateTemp workDir "trivy.sbom.*.json")
    wrap errorf "failed to create temporary SBOM file";
  r ← (check trigger (TrivyExecute (node_trivy_args skipPats sbomFile)) wrap errorf "failed to execute trivy";
       spdxBytes ←? trigger (OsReadAll sbomFile) wrap errorf "failed to read NodeSBOM output";
       Ret (Ok spdxBytes));
  _ ← trigger (OsClose sbomFile);
  _ ← trigger (OsRemove sbomFile);
  Ret r.

(** ** The NodeSBOM *)

Definition node_sbom_labels : gmap string string :=
  <[LabelManagedByKey := LabelManagedByValue]> (<[LabelPartOfKey := LabelPartOfValue]> ∅).

Definition skip_patterns (config : NodeScanConfiguration) : list string :=
  match nc_SkipPatterns (nc_Spec config) with Some skipPats => skipPats | None => [] end.

Definition generateNodeSBOM (node : Node) (message : GenerateNodeSBOMMessage) (config : NodeScanConfiguration)
  : go (result NodeSBOM) :=
  spdxBytes ←? node_generateSPDX (skip_patterns config) wrap (λ e, e);
  let nodePlatform := nd_OperatingSystem node +:+ "/" +:+ nd_Architecture node in
  Ret (Ok {| nb_Meta := new_meta (o_Name (gnm_Node message)) "" "" node_sbom_labels ∅;
             nb_NodeMetadata := {| nm_Name := om_Name (nd_Meta node); nm_Platform := nodePlatform |};
             nb_SPDX := spdxBytes |}).

(** The function given to [CreateOrUpdate]. *)
Definition fill_node_sbom (config : NodeScanConfiguration) (generated nodeSBOM : NodeSBOM) : result NodeSBOM :=
  match SetControllerReference "NodeScanConfiguration" (nc_Meta config)
          (with_Labels (om_Labels (nb_Meta generated)) (nb_Meta nodeSBOM)) with
  | Err e => Err e
  | Ok m => Ok {| nb_Meta := m; nb_NodeMetadata := nb_NodeMetadata generated; nb_SPDX := nb_SPDX generated |}
  end.

Definition empty_NodeSBOM (name : string) : NodeSBOM :=
  {| nb_Meta := new_meta name "" "" ∅ ∅; nb_NodeMetadata := {| nm_Name := ""; nm_Platform := "" |}; nb_SPDX := "" |}.

(** ** The handler *)

Definition node_scan_request (message : GenerateNodeSBOMMessage) : ScanNodeSBOMMessage :=
  {| snm_NodeScanJob := gnm_NodeScanJob message;
     snm_NodeSBOM := {| o_Name := o_Name (gnm_Node message); o_Namespace := ""; o_UID := "" |} |}.

(** [Handle] once the NodeSBOM is stored. *)
Definition request_node_scan (nodeScanJob : NodeScanJob) (message : GenerateNodeSBOMMessage) : go (result unit) :=
  let scanNodeSBOMMessageID := "nodeScanSBOM/" +:+ nj_UID nodeScanJob +:+ "/" +:+ o_Name (gnm_Node message) in
  match Marshal (node_scan_request message) with
  | Err e => Ret (Err (errorf "cannot marshal scan NodeSBOM message" e))
  | Ok scanNodeSBOMMessage =>
      r ← trigger (KGet KNodeScanJob (cluster_key (o_Name (gnm_NodeScanJob message))));
      match r with
      | Err e =>
          if IsNotFound e then
            _ ← trigger (RecordSkipReason skipReasonJobNotFound);
            Ret (Ok tt)
          else Ret (Err (errorf ("cannot get NodeScanJob " +:+ o_Name (gnm_NodeScanJob message)) e))
      | Ok _ =>
          check trigger (PublishMsg (ScanNodeSBOMSubject +:+ "." +:+ np_NodeName (nj_Spec nodeScanJob))
                           scanNodeSBOMMessageID scanNodeSBOMMessage)
            wrap errorf "failed to publish scan NodeSBOM message";
          Ret (Ok tt)
      end
  end.

(** [Handle] once it has the configuration of the scan. *)
Definition generate_node (nodeScanJob : NodeScanJob) (node : Node) (message : GenerateNodeSBOMMessage)
    (config : NodeScanConfiguration) : go (result unit) :=
  generated ←? generateNodeSBOM node message config wrap errorf "failed to generate NodeSBOM";
  check trigger MsgInProgress wrap errorf "failed to ack message as in progress";
  let name := om_Name (nb_Meta generated) in
  check CreateOrUpdate KNodeSBOM (cluster_key name) (empty_NodeSBOM name) (fill_node_sbom config generated)
    wrap errorf "failed to create or update NodeSBOM";
  request_node_scan nodeScanJob message.

(** The snapshot of the configuration the controller left on the job. *)
Definition snapshot_of (nodeScanJob : NodeScanJob) : result NodeScanConfiguration :=
  match om_Annotations (nj_Meta nodeScanJob) !! AnnotationNodeScanJobNodeScanConfigurationKey with
  | None => Err (errors_New ("NodeScanJob " +:+ nj_Name nodeScanJob +:+
                   " does not have a NodeScanConfiguration snapshot annotation"))
  | Some snapshotData =>
      match Unmarshal snapshotData with
      | Err e => Err (errorf ("cannot unmarshal NodeScanConfiguration snapshot from NodeScanJob "
                                +:+ nj_Name nodeScanJob) e)
      | Ok config => Ok config
      end
  end.

(** [Handle] once the job is in progress. *)
Definition scan_live_node (nodeScanJob : NodeScanJob) (node : Node) (message : GenerateNodeSBOMMessage)
  : go (result unit) :=
  r ← trigger (KGet KNodeScanConfiguration (cluster_key NodeScanConfigurationName));
  match r with
  | Err e =>
      if IsNotFound e then
        _ ← trigger (RecordSkipReason skipReasonObjectNotFound);
        Ret (Ok tt)
      else Ret (Err (errorf "cannot get NodeScanConfiguration" e))
  | Ok _ =>
      match snapshot_of nodeScanJob with
      | Err e => Ret (Err e)
      | Ok config => generate_node nodeScanJob node message config
      end
  end.

Definition begin_mark (now : Z) (job : NodeScanJob) : NodeScanJob :=
  MarkInProgress now ReasonNodeScanJobInProgress "Scanning node filesystem and collecting data" job.

(** The retried closure that moves the job to in progress. *)
Definition begin_once (message : GenerateNodeSBOMMessage) : go (result (bool * NodeScanJob)) :=
  let name := o_Name (gnm_NodeScanJob message) in
  update_once KNodeScanJob begin_mark (cluster_key name) ("cannot get NodeScanJob " +:+ name).

(** [Handle] once the job and the node have been found. *)
Definition begin_node_scan (node : Node) (message : GenerateNodeSBOMMessage) : go (result unit) :=
  r ← RetryOnConflict (begin_once message);
  match r with
  | Err e =>
      if IsNotFound e then
        _ ← trigger (RecordSkipReason skipReasonJobNotFound);
        Ret (Ok tt)
      else Ret (Err (errorf "failed to update NodeScanJob status to in progress" e))
  | Ok (_, nodeScanJob) => scan_live_node nodeScanJob node message
  end.

Definition Handle (data : string) : go (result unit) :=
  match Unmarshal data with
  | Err e => Ret (Err (errorf "failed to unmarshal GenerateNodeSBOM message" e))
  | Ok message =>
      let ref := gnm_NodeScanJob message in
      r ← trigger (KGet KNodeScanJob (cluster_key (o_Name ref)));
      match r with
      | Err e =>
          if IsNotFound e then
            _ ← trigger (RecordSkipReason skipReasonJobNotFound);
            Ret (Ok tt)
          else Ret (Err (errorf ("cannot get NodeScanJob " +:+ o_Name ref) e))
      | Ok nodeScanJob =>
          if negb (bool_decide (nj_Name nodeScanJob = o_Name ref)) then
            _ ← trigger (RecordSkipReason skipReasonUIDMismatch);
            Ret (Ok tt)
          else
            n ← trigger (KGet KNode (cluster_key (o_Name (gnm_Node message))));
            match n with
            | Err e =>
                if IsNotFound e then
                  _ ← trigger (RecordSkipReason skipReasonObjectNotFound);
                  Ret (Ok tt)
                else Ret (Err (errorf ("cannot get node " +:+ o_Name (gnm_Node message)) e))
            | Ok node =>
                if IsFailed nodeScanJob then
                  _ ← trigger (RecordSkipReason skipReasonJobFailed);
                  Ret (Ok tt)
                else begin_node_scan node message
            end
      end
  end.

(** ** Facts *)

(** A job is in progress: of its four conditions, this is the one that is true. *)
Definition in_progress (job : NodeScanJob) : Prop :=
  ∀ t, t ∈ ["Scheduled"; "InProgress"; "Complete"; "Failed"] →
    condition_true (ns_Conditions (nj_Status job)) t = bool_decide (t = "InProgress").

Lemma begin_mark_in_progress now job : in_progress (begin_mark now job).
Proof.
  intros t Ht. unfold begin_mark, MarkInProgress. rewrite !node_condition_set_cond.
  rewrite !elem_of_cons in Ht. by destruct Ht as [->|[->|[->|[->|?%elem_of_nil]]]].
Qed.

Lemma begin_mark_keeps now job : nj_Meta (begin_mark now job) = nj_Meta job ∧ nj_Spec (begin_mark now job) = nj_Spec job.
Proof. unfold begin_mark, MarkInProgress. by destruct (ns_StartTime (nj_Status job)). Qed.

(** The calls of the handler before it asks for the scan: reads, the move of
    the job to in progress, and storing a NodeSBOM. *)
Definition node_status_write (k : kind) : obj k → Prop :=
  match k with KNodeScanJob => λ o, in_progress o | _ => λ _, False end.
Definition node_sbom_write (k : kind) : obj k → Prop :=
  match k with KNodeSBOM => λ _, True | _ => λ _, False end.
Definition node_call A (e : Eff A) : Prop :=
  match e with
  | KStatusUpdate k o => node_status_write k o
  | KCreate k o | KUpdate k o => node_sbom_write k o
  | KPatch _ _ _ | KDelete _ _ | KDeleteAllOf _ | PublishMsg _ _ _ => False
  | _ => True
  end.

Lemma reads_node_calls tr : Forall (obs_call reads_only) tr → Forall (obs_call node_call) tr.
Proof. intros Htr. eapply Forall_impl; [exact Htr|]. intros [A e a] [Hw Hp]. by destruct e. Qed.

(** A part of a run before the request: only such calls, and the temporary
    files it made are removed. *)
Definition clean (tr : trace Eff) : Prop :=
  Forall (obs_call node_call) tr ∧ Forall (λ f, f ∈ omap ev_remove tr) (omap ev_create_temp tr).

Lemma clean_app tr tr' : clean tr → clean tr' → clean (tr ++ tr').
Proof.
  intros [Hc Ht] [Hc' Ht']. split; [by apply Forall_app|]. rewrite !omap_app. apply Forall_app.
  split; (eapply Forall_impl; [eassumption|]); set_solver.
Qed.

Definition no_temp A (e : Eff A) : Prop :=
  node_call A e ∧ match e with OsCreateTemp _ _ => False | _ => True end.

Lemma clean_calls tr : Forall (obs_call no_temp) tr → clean tr.
Proof.
  intros Htr. split.
  - eapply Forall_impl; [exact Htr|]. by intros [A e a] [? _].
  - rewrite (omap_calls no_temp ev_create_temp); [constructor| |done]. intros A e a [_ ?]. by destruct e.
Qed.

(** The command that scans the file system of the node into [file]: each pattern
    that is not blank, trimmed, is a directory to skip when it ends with a
    slash, and a file to skip otherwise, under the root of the node. *)
Definition node_trivy (patterns : list string) (file : string) : list string :=
  ["filesystem"; "--skip-version-check"; "--disable-telemetry"; "--cache-dir"; workDir; "--format"; "spdx-json";
   "--skip-db-update"; "--java-db-repository"; trivyJavaDBRepository; "--output"; file] ++
  (omap (λ p, CutSuffix p "/") (significant patterns) ≫= λ dir, ["--skip-dirs"; path_Join [targetDir; dir]]) ++
  (filter (λ p, CutSuffix p "/" = None) (significant patterns) ≫= λ name, ["--skip-files"; path_Join [targetDir; name]]) ++
  [targetDir].

Lemma skip_flags_bind flag patterns : skip_flags flag patterns = patterns ≫= λ p, [flag; path_Join [targetDir; p]].
Proof.
  unfold skip_flags.
  cut (∀ acc, fold_left (λ args p, args ++ [flag; path_Join [targetDir; p]]) patterns acc =
                acc ++ (patterns ≫= λ p, [flag; path_Join [targetDir; p]])); [intros H'; apply (H' [])|].
  induction patterns as [|p ps IH]; intros acc; cbn [fold_left]; [by rewrite app_nil_r|].
  rewrite IH, bind_cons. by rewrite <- app_assoc.
Qed.

Lemma node_trivy_args_spec patterns file : node_trivy_args patterns file = node_trivy patterns file.
Proof.
  unfold node_trivy_args, node_trivy. cbv zeta. rewrite !skip_flags_bind.
  destruct (Parse_lists patterns) as [-> ->]. by rewrite <- !app_assoc.
Qed.

(** What Trivy left in the file it was told to write. *)
Definition node_content (skipPats : list string) (spdx : string) (tr : trace Eff) : Prop :=
  ∃ file, (file, Ok spdx) ∈ omap ev_read_all tr ∧ (node_trivy skipPats file, Ok tt) ∈ omap ev_trivy tr.

Lemma node_generateSPDX_content skipPats :
  wp any_answer (node_generateSPDX skipPats) [] (λ tr r,
    Forall (obs_call reads_only) tr ∧ Forall (λ f, f ∈ omap ev_remove tr) (omap ev_create_temp tr) ∧
    ∀ spdx, r = Ok spdx → node_content skipPats spdx tr).
Proof.
  unfold node_generateSPDX. wp_steps; (split; [by repeat constructor|split; [by repeat constructor|]]); try done.
  intros spdx [= <-]. repeat match goal with u : unit |- _ => destruct u end.
  eexists. rewrite <- node_trivy_args_spec. split; by left.
Qed.

(** The NodeSBOM of a scan, wherever the API server has it from. *)
Record node_sbom_of (node : Node) (spdx : string) (v : NodeSBOM) : Prop := {
  ns_labels : om_Labels (nb_Meta v) = {[ "app.kubernetes.io/managed-by" := "sbomscanner"; "app.kubernetes.io/part-of" := "sbomscanner" ]};
  ns_node : nm_Name (nb_NodeMetadata v) = om_Name (nd_Meta node);
  ns_platform : nm_Platform (nb_NodeMetadata v) = nd_OperatingSystem node +:+ "/" +:+ nd_Architecture node;
  ns_content : nb_SPDX v = spdx
}.

Lemma node_content_app skipPats spdx pre tr post :
  node_content skipPats spdx tr → node_content skipPats spdx (pre ++ tr ++ post).
Proof. intros (file & ? & ?). exists file. eauto using omap_within. Qed.

Lemma fill_node_sbom_keeps config generated base v :
  fill_node_sbom config generated base = Ok v →
  key_of (nb_Meta v) = key_of (nb_Meta base) ∧ om_Labels (nb_Meta v) = om_Labels (nb_Meta generated) ∧
  nb_NodeMetadata v = nb_NodeMetadata generated ∧ nb_SPDX v = nb_SPDX generated.
Proof.
  unfold fill_node_sbom. destruct (SetControllerReference _ _ _) as [m|e] eqn:Hm; [|done].
  intros [= <-]. apply SetControllerReference_keeps in Hm as (Hn & Hns & _ & Hl & _).
  unfold key_of. cbn. by rewrite Hn, Hns, Hl.
Qed.

Lemma store_node_sbom config generated name :
  wp any_answer (CreateOrUpdate KNodeSBOM (cluster_key name) (empty_NodeSBOM name) (fill_node_sbom config generated)) []
    (λ tr r, clean tr ∧
       (is_ok r = true → ∃ v : NodeSBOM, in_store KNodeSBOM nb_Meta (cluster_key name) v tr ∧
          om_Labels (nb_Meta v) = om_Labels (nb_Meta generated) ∧
          nb_NodeMetadata v = nb_NodeMetadata generated ∧ nb_SPDX v = nb_SPDX generated)).
Proof.
  eapply wp_mono; [|apply (CreateOrUpdate_stores KNodeSBOM nb_Meta (cluster_key name)
    (λ v, om_Labels (nb_Meta v) = om_Labels (nb_Meta generated) ∧
          nb_NodeMetadata v = nb_NodeMetadata generated ∧ nb_SPDX v = nb_SPDX generated)); [done|]].
  - intros tr r [Hc Hs]. split.
    + apply clean_calls. eapply Forall_impl; [exact Hc|]. intros [A e a] He. destruct e; try done; cbn in He; by subst.
    + intros (v & Hv & Hin)%Hs. by exists v.
  - intros base v Hf. by apply fill_node_sbom_keeps in Hf.
Qed.

(** How the handler ends: it does not ask for a scan, and when it then succeeds
    it has recorded why; or its last two calls find the job of the message
    once more and ask for the scan, and it succeeds exactly when the broker took the request.
    [P] is what is known of the job and of the run before. *)
Inductive node_outcome (message : GenerateNodeSBOMMessage) (P : NodeScanJob → trace Eff → Prop)
    (tr : trace Eff) (r : result unit) : Prop :=
| No_request : clean tr → (is_ok r = true → omap ev_skip tr ≠ []) → node_outcome message P tr r
| Request job still pre d a :
    P job pre → clean pre →
    Marshal {| snm_NodeScanJob := gnm_NodeScanJob message;
               snm_NodeSBOM := {| o_Name := o_Name (gnm_Node message); o_Namespace := ""; o_UID := "" |} |} = Ok d →
    tr = pre ++ [Ev (KGet KNodeScanJob (cluster_key (o_Name (gnm_NodeScanJob message)))) (Ok still);
                 Ev (PublishMsg ("sbomscanner.nodesbom.scan." +:+ np_NodeName (nj_Spec job))
                       ("nodeScanSBOM/" +:+ om_UID (nj_Meta job) +:+ "/" +:+ o_Name (gnm_Node message)) d) a] →
    is_ok r = is_ok a → node_outcome message P tr r.

Lemma node_outcome_app message (P P' : NodeScanJob → trace Eff → Prop) before tr r :
  clean before → (∀ job pre, P job pre → P' job (before ++ pre)) →
  node_outcome message P tr r → node_outcome message P' (before ++ tr) r.
Proof.
  intros Hb HP [Hc Hs|job still pre d a Hp Hc Hd -> Hr].
  - apply No_request; [by apply clean_app|]. intros Hok%Hs. rewrite omap_app. by intros [_ ?]%app_nil.
  - eapply (Request _ _ _ _ job still (before ++ pre)); eauto using clean_app. by rewrite <- app_assoc.
Qed.

(** Ends a path on which the handler stops. *)
Ltac node_stop := apply No_request; [apply clean_calls; by repeat constructor|done].

Lemma request_outcome job message :
  wp any_answer (request_node_scan job message) [] (node_outcome message (λ j pre, j = job)).
Proof.
  unfold request_node_scan. cbv zeta. destruct (Marshal _) as [d|e] eqn:Hd; [|node_stop].
  apply wp_bind. intros [still|e] _; cbn [wp].
  - apply wp_try. intros a _. cbn [app].
    destruct a as [[]|e]; cbn [wp]; by eapply (Request _ _ _ _ job still []); [|apply clean_calls| | |].
  - destruct (IsNotFound e); [intros [] _|]; cbn [wp]; node_stop.
Qed.

(** The NodeSBOM of the message was stored, with what Trivy found on the node
    under the configuration [config]. *)
Definition node_stored (message : GenerateNodeSBOMMessage) (node : Node) (config : NodeScanConfiguration)
    (tr : trace Eff) : Prop :=
  ∃ spdx v, node_content (default [] (nc_SkipPatterns (nc_Spec config))) spdx tr ∧ node_sbom_of node spdx v ∧
    in_store KNodeSBOM nb_Meta (cluster_key (o_Name (gnm_Node message))) v tr.

Lemma node_stored_app message node config pre tr post :
  node_stored message node config tr → node_stored message node config (pre ++ tr ++ post).
Proof. intros (spdx & v & ? & ? & ?). exists spdx, v. eauto using node_content_app, in_store_app. Qed.

Lemma generateNodeSBOM_content node message config :
  wp any_answer (generateNodeSBOM node message config) [] (λ tr r, clean tr ∧
    ∀ generated, r = Ok generated →
      om_Name (nb_Meta generated) = o_Name (gnm_Node message) ∧
      node_sbom_of node (nb_SPDX generated) generated ∧
      node_content (default [] (nc_SkipPatterns (nc_Spec config))) (nb_SPDX generated) tr).
Proof.
  unfold generateNodeSBOM. change (skip_patterns config) with (default [] (nc_SkipPatterns (nc_Spec config))). apply wp_try. eapply wp_mono; [|apply node_generateSPDX_content].
  intros tr r (Hr & Ht & Hc). apply reads_node_calls in Hr.
  destruct r as [spdx|e]; cbn [wp]; (split; [done|]); [|done].
  intros generated [= <-]. split_and!; [done|done|by apply Hc].
Qed.

Lemma generate_node_outcome job node message config :
  wp any_answer (generate_node job node message config) []
    (node_outcome message (λ j pre, j = job ∧ node_stored message node config pre)).
Proof.
  unfold generate_node. eapply wp_try_seq; [apply generateNodeSBOM_content| |].
  2: { intros ext e [Hc _]. by apply No_request. }
  intros ext generated [Hext Hgen]. destruct (Hgen _ eq_refl) as (Hname & Hof & Hcontent). rewrite Hname.
  eapply (wp_try_seq _ _ _ _ (λ tr r, ∃ a, tr = [Ev MsgInProgress a])); [intros a _; by exists a| |].
  2: { intros ext' e [a ->]. apply No_request; [|done]. apply clean_app; [done|]. apply clean_calls. by repeat constructor. }
  intros ext' _ [a ->]. eapply wp_try_seq; [apply store_node_sbom| |].
  - intros stored [] [Hst Hv]. destruct (Hv eq_refl) as (v & Hin & Hl & Hm & Hs).
    eapply wp_mono; [|apply request_outcome]. intros tr r Hout. rewrite (app_assoc ext), (app_assoc _ stored).
    eapply node_outcome_app; [| |exact Hout].
    + apply clean_app; [apply clean_app; [done|apply clean_calls; by repeat constructor]|done].
    + intros j pre ->. split; [done|]. exists (nb_SPDX generated), v. split_and!.
      * rewrite <- !app_assoc. by apply (node_content_app _ _ []).
      * destruct Hof. split; congruence.
      * rewrite <- app_assoc. by apply in_store_app.
  - intros stored e [Hst _]. apply No_request; [|done]. rewrite (app_assoc ext).
    apply clean_app; [apply clean_app; [done|apply clean_calls; by repeat constructor]|done].
Qed.

(** What is known when the scan of the node is asked for, of the job [job] as it
    was moved to in progress. *)
Record node_live (message : GenerateNodeSBOMMessage) (node : Node) (job : NodeScanJob) (pre : trace Eff) : Prop := {
  nl_config : ∃ live, (cluster_key "default", Ok live) ∈ omap (ev_get KNodeScanConfiguration) pre;
  nl_snapshot : ∃ text config, om_Annotations (nj_Meta job) !! "sbomscanner.kubewarden.io/nodescanconfiguration" = Some text ∧ Unmarshal text = Ok config ∧
    node_stored message node config pre
}.

Lemma node_live_app message node job before pre :
  node_live message node job pre → node_live message node job (before ++ pre).
Proof.
  intros [[live Hl] (text & config & Ht & Hs & Hst)]. rewrite <- (app_nil_r pre). split.
  - exists live. by apply omap_within.
  - exists text, config. eauto using node_stored_app.
Qed.

Lemma scan_live_outcome job node message :
  wp any_answer (scan_live_node job node message) []
    (node_outcome message (λ j pre, j = job ∧ node_live message node job pre)).
Proof.
  unfold scan_live_node. apply wp_bind. intros [live|e] _; cbn [wp].
  2: { destruct (IsNotFound e); [intros [] _|]; cbn [wp]; node_stop. }
  unfold snapshot_of. change AnnotationNodeScanJobNodeScanConfigurationKey with "sbomscanner.kubewarden.io/nodescanconfiguration".
  destruct (om_Annotations (nj_Meta job) !! _) as [text|] eqn:Ht; cbn [wp]; [|node_stop].
  destruct (Unmarshal text) as [config|e] eqn:Hs; cbn [wp]; [|node_stop].
  eapply wp_frame; [apply generate_node_outcome|]. intros ext r Hout.
  eapply node_outcome_app; [apply clean_calls; by repeat constructor| |exact Hout].
  intros j pre [-> Hst]. split; [done|]. split.
  - exists live. by left.
  - exists text, config. split_and!; [done..|]. rewrite <- (app_nil_r pre). by apply node_stored_app.
Qed.

Abbreviation begin_run message :=
  (attempted KNodeScanJob begin_mark (cluster_key (o_Name (gnm_NodeScanJob message)))
     ("cannot get NodeScanJob " +:+ o_Name (gnm_NodeScanJob message))).

Lemma begin_attempted message : wp any_answer (RetryOnConflict (begin_once message)) [] (begin_run message).
Proof. exact (retry_attempted KNodeScanJob begin_mark _ _). Qed.

Lemma begin_calls message : calls no_temp (RetryOnConflict (begin_once message)).
Proof. unfold begin_once, update_once. cbv zeta. repeat calls_step; split; try done; cbn. apply begin_mark_in_progress. Qed.

(** The job of the message was read and written back in progress. *)
Definition node_begun (message : GenerateNodeSBOMMessage) (job : NodeScanJob) (tr : trace Eff) : Prop :=
  ∃ read written, (cluster_key (o_Name (gnm_NodeScanJob message)), Ok read) ∈ omap (ev_get KNodeScanJob) tr ∧
    (written, Ok job) ∈ omap (ev_status KNodeScanJob) tr ∧
    in_progress written ∧ nj_Meta written = nj_Meta read ∧ nj_Spec written = nj_Spec read.

Lemma begin_outcome node message :
  wp any_answer (begin_node_scan node message) []
    (node_outcome message (λ job pre, node_begun message job pre ∧ node_live message node job pre)).
Proof.
  unfold begin_node_scan. eapply wp_seq.
  { apply wp_conj; [exact (begin_attempted message)|apply (calls_wp no_temp); [apply begin_calls|constructor]]. }
  intros ext [[wasFinished job]|e] [Hatt Hcalls%clean_calls].
  - eapply wp_mono; [|apply scan_live_outcome]. intros tr r Hout.
    eapply node_outcome_app; [done| |exact Hout]. intros j pre [-> Hlive]. split; [|by apply node_live_app].
    apply attempted_Ok in Hatt as (p & read & now & _ & _ & ->). exists read, (begin_mark now read).
    rewrite <- app_assoc, !omap_app, !elem_of_app.
    split_and!; [right; left; by left..|apply begin_mark_in_progress|apply begin_mark_keeps|apply begin_mark_keeps].
  - destruct (IsNotFound e); [intros [] _|]; cbn [wp];
      (apply No_request; [apply clean_app; [done|apply clean_calls; by repeat constructor]|]); [|done].
    intros _. rewrite omap_app. by intros [_ ?]%app_nil.
Qed.

(** Everything known when the scan is asked for. *)
Record node_prepared (data : string) (message : GenerateNodeSBOMMessage) (job : NodeScanJob) (pre : trace Eff)
  : Prop := {
  gp_message : Unmarshal data = Ok message;
  gp_job : ∃ found, (cluster_key (o_Name (gnm_NodeScanJob message)), Ok found) ∈ omap (ev_get KNodeScanJob) pre ∧
    condition_true (ns_Conditions (nj_Status found)) "Failed" = false;
  gp_begun : node_begun message job pre;
  gp_node : ∃ node, (cluster_key (o_Name (gnm_Node message)), Ok node) ∈ omap (ev_get KNode) pre ∧
    node_live message node job pre
}.

Lemma Handle_outcome data :
  wp any_answer (Handle data) [] (λ tr r,
    match Unmarshal data with
    | Err _ => tr = [] ∧ is_ok r = false
    | Ok message => node_outcome message (node_prepared data message) tr r
    end).
Proof.
  unfold Handle. destruct (Unmarshal data) as [message|e] eqn:Hmsg; [|done].
  cbv zeta. apply wp_bind. intros [found|e] _; cbn [wp].
  2: { destruct (IsNotFound e); [intros [] _|]; cbn [wp]; node_stop. }
  destruct (negb _); [intros [] _; cbn [wp]; node_stop|].
  apply wp_bind. intros [node|e] _; cbn [wp].
  2: { destruct (IsNotFound e); [intros [] _|]; cbn [wp]; node_stop. }
  destruct (IsFailed found) eqn:Hf; [intros [] _; cbn [wp]; node_stop|].
  eapply wp_frame; [apply begin_outcome|]. intros ext r Hout.
  eapply node_outcome_app; [apply clean_calls; by repeat constructor| |exact Hout].
  intros job pre [(read & written & Hr & Hw & Hrest) Hlive]. split; [done| | |].
  - exists found. split; [by left|done].
  - exists read, written. split; [by right|by split].
  - exists node. split; [by left|]. by apply node_live_app.
Qed.

(** [C24] A NodeSBOM is stored before its scan is asked for.  Whatever the
    environment answers, before it asks for a scan the handler changes nothing
    but the status of the job of the message, to in progress, and the
    NodeSBOM, and it removes its temporary files.  It asks for a scan only as
    its last call, for the job and the node the message names, when it found
    the job not failed, the node and a live configuration, moved the job to in
    progress (nothing else of it changed), and stored as the NodeSBOM of that
    node, with its name, its platform and the labels of the project, what Trivy
    wrote when run on the file system of the node with a flag for each skip
    pattern of the configuration that the job holds as a snapshot; it then found the job once more.  A run that does not ask for a
    scan and succeeds has recorded why it skipped the message. *)
Theorem node_sbom_then_scan_request {W} (h : handler Eff W) (w : W) (data : string) :
  let tr := run_trace h (Handle data) w in
  let r := run_result h (Handle data) w in
  match Unmarshal data with
  | Err _ => tr = [] ∧ is_ok r = false
  | Ok message => node_outcome message (node_prepared data message) tr r
  end.
Proof.
  wp_start. apply Handle_outcome.
Qed.

(** The first write of the status of the job, after it was read as [found] and
    then again. *)
Definition restarted (found : NodeScanJob) (again : list (NamespacedName * result NodeScanJob))
    (tr : trace Eff) : Prop :=
  IsFailed found = true ∨
  match again with
  | [] => False
  | (_, Err _) :: _ => True
  | (_, Ok job) :: _ => ∃ now a later,
      omap (ev_status KNodeScanJob) tr = (begin_mark now job, a) :: later ∧
      node_flags (begin_mark now job) = (false, true, false, false)
  end.

(** A redelivered message restarts a job that is over.  When the job of
    the message and its node are found, the handler only stops for a failed
    job: any other job, complete or not, and of any UID, is read again and
    what was read is written back as in progress. *)
Theorem redelivery_restarts_job {W} (h : handler Eff W) (w : W) (data : string) :
  let tr := run_trace h (Handle data) w in
  match omap (ev_get KNodeScanJob) tr, omap (ev_get KNode) tr with
  | (_, Ok found) :: again, (_, Ok _) :: _ => restarted found again tr
  | _, _ => omap (ev_status KNodeScanJob) tr = []
  end.
Proof.
  wp_start. unfold Handle. destruct (Unmarshal data) as [message|e]; [|done].
  cbv zeta. apply wp_bind. intros [found|e] _; cbn [wp].
  2: { destruct (IsNotFound e); [intros [] _|]; done. }
  destruct (negb _); [intros [] _; done|].
  apply wp_bind. intros [node|e] _; cbn [wp].
  2: { destruct (IsNotFound e); [intros [] _|]; done. }
  destruct (IsFailed found) eqn:Hf; [intros [] _; by left|].
  unfold begin_node_scan. apply wp_bind. eapply wp_frame; [apply begin_attempted|].
  intros ext r Hatt. eapply wp_frame; [apply wp_true|]. intros rest r' _. right.
  apply attempted_first in Hatt as [(e & tr' & ->)|(job & now & a & tr' & ->)]; cbn; [done|].
  eexists now, a, _. split; [done|]. apply node_flags_InProgress.
Qed.
End handler.
