(* ===== verification/ScanSBOM.v ===== *)
(** * The SBOM scan handler

    [src/internal/handlers/scan_sbom.go] and [scan_sbom_helpers.go]: it runs
    Trivy on a stored SBOM, with the VEX hubs of the cluster, and stores the
    vulnerability report. *)

From stdpp Require Import prelude gmap strings list.
From S2P Require Import Prelude Prog Meta Conditions Registry ScanJob NodeScanJob StorageTypes GoPath Report Effects Messages RegistryAuth.
Import ScanJob.

Definition trivyVEXSubPath := ".trivy/vex".
Definition trivyVEXRepoFile := "repository.yaml".

(** [vexrepo.Repository] of Trivy; the configuration is the list of them. *)
Record VEXRepository := { vp_Name : string; vp_URL : string; vp_Enabled : bool }.

(** [yaml.Marshal] of the configuration. *)
Class YAML := { yaml_Marshal : list VEXRepository → result string }.

Section scan.
Context `{!Trivy, !YAML, !JSON (list trivyResult)}.
Context (workDir trivyDBRepository trivyJavaDBRepository : string).

(** ** Running Trivy *)

Definition vex_repository (hub : VEXHub) : VEXRepository :=
  {| vp_Name := om_Name (vh_Meta hub); vp_URL := vh_URL hub; vp_Enabled := vh_Enabled hub |}.

Definition setupVEXHubRepositories (vexHubList : list VEXHub) (trivyVEXPath vexRepoPath : string)
  : go (result unit) :=
  match yaml_Marshal (map vex_repository vexHubList) with
  | Err e => Ret (Err (errorf "failed to marshal struct" e))
  | Ok repositories =>
      check trigger (OsMkdirAll trivyVEXPath) wrap errorf "failed to create VEX configuration directory";
      check trigger (OsWriteFile vexRepoPath repositories) wrap errorf "failed to create VEX repository file";
      Ret (Ok tt)
  end.

(** [runTrivyScan] from the execution of Trivy on. *)
Definition execute_scan (trivyArgs : list string) (reportFile : string)
  : go (result (list Result * Summary)) :=
  check trigger (TrivyExecute trivyArgs) wrap errorf "failed to execute trivy";
  check trigger MsgInProgress wrap errorf "failed to ack message as in progress";
  reportBytes ←? trigger (OsReadAll reportFile) wrap errorf "failed to read SBOM output";
  match Unmarshal reportBytes with
  | Err e => Ret (Err (errorf "failed to unmarshal report" e))
  | Ok reportOrig =>
      match NewResultsFromTrivyReport reportOrig with
      | Err e => Ret (Err (errorf "failed to convert from trivy results" e))
      | Ok results => Ret (Ok (results, NewSummaryFromResults results))
      end
  end.

(** The part between the two temporary files and their removal: the home
    directory of Trivy, whose deferred removal is only set up when there are
    VEX hubs. *)
Definition scan_in_home (vexHubList : list VEXHub) (sbomFile reportFile : string)
  : go (result (list Result * Summary)) :=
  let trivyArgs := ["sbom"; "--skip-version-check"; "--disable-telemetry"; "--cache-dir"; workDir;
                    "--format"; "json"; "--db-repository"; trivyDBRepository;
                    "--java-db-repository"; trivyJavaDBRepository; "--output"; reportFile] in
  trivyHome ←? trigger (OsMkdirTemp "/tmp" "trivy-") wrap errorf "failed to create temporary trivy home";
  check trigger (OsSetenv "XDG_DATA_HOME" trivyHome)
    wrap errorf ("failed to set XDG_DATA_HOME to " +:+ trivyHome);
  match vexHubList with
  | _ :: _ =>
      let trivyVEXPath := path_Join [trivyHome; trivyVEXSubPath] in
      let vexRepoPath := path_Join [trivyVEXPath; trivyVEXRepoFile] in
      check setupVEXHubRepositories vexHubList trivyVEXPath vexRepoPath
        wrap errorf "failed to setup VEX Hub repositories";
      r ← execute_scan (trivyArgs ++ ["--vex"; "repo"; "--show-suppressed"] ++ [sbomFile]) reportFile;
      _ ← trigger (OsRemoveAll trivyHome);
      Ret r
  | [] => execute_scan (trivyArgs ++ [sbomFile]) reportFile
  end.

(** The part that has the SBOM file. *)
Definition scan_with_sbom (vexHubList : list VEXHub) (sbomFile rawSPDX : string)
  : go (result (list Result * Summary)) :=
  check trigger (OsWrite sbomFile rawSPDX) wrap errorf "failed to write SBOM file";
  reportFile ←? trigger (OsCreateTemp workDir "trivy.report.*.json")
    wrap errorf "failed to create temporary report file";
  r ← scan_in_home vexHubList sbomFile reportFile;
  _ ← trigger (OsClose reportFile);
  _ ← trigger (OsRemove reportFile);
  Ret r.

Definition runTrivyScan (rawSPDX : string) : go (result (list Result * Summary)) :=
  vexHubList ←? trigger (KList KVEXHub []) wrap errorf "failed to list VEXHub";
  sbomFile ←? trigger (OsCreateTemp workDir "trivy.sbom.*.json")
    wrap errorf "failed to create temporary SBOM file";
  r ← scan_with_sbom vexHubList sbomFile rawSPDX;
  _ ← trigger (OsClose sbomFile);
  _ ← trigger (OsRemove sbomFile);
  Ret r.

(** ** Facts *)

(** What a scan leaves in the trace: it only reads from the cluster, its
    temporary files are removed, its result is the conversion of the report
    that Trivy wrote for the SBOM given to it, and Trivy is run with every VEX
    hub of the cluster configured. *)
Record scanned (rawSPDX : string) (tr : trace Eff) (r : result (list Result * Summary)) : Prop := {
  sc_reads : Forall (obs_call reads_only) tr;
  sc_temp : Forall (λ f, f ∈ omap ev_remove tr) (omap ev_create_temp tr);
  sc_report : ∀ results summary, r = Ok (results, summary) →
    summary = NewSummaryFromResults results ∧
    ∃ sbomFile reportFile pre post bytes trivyResults,
      (sbomFile, rawSPDX, Ok tt) ∈ omap ev_write tr ∧
      (pre ++ "--output" :: reportFile :: post ++ [sbomFile], Ok tt) ∈ omap ev_trivy tr ∧
      (reportFile, Ok bytes) ∈ omap ev_read_all tr ∧
      Unmarshal bytes = Ok trivyResults ∧ NewResultsFromTrivyReport trivyResults = Ok results;
  sc_vex : ∀ args a, (args, a) ∈ omap ev_trivy tr →
    ∃ hubs, ([], Ok hubs) ∈ omap (ev_list KVEXHub) tr ∧
      (hubs = [] ∨
       "--vex" ∈ args ∧ ∃ home config,
         yaml_Marshal (map vex_repository hubs) = Ok config ∧ home ∈ omap ev_mkdir_temp tr ∧
         (path_Join [path_Join [home; trivyVEXSubPath]; trivyVEXRepoFile], config, Ok tt) ∈ omap ev_write tr)
}.

(** Closes the part about VEX hubs on one path. *)
Ltac vex_path :=
  let args := fresh "args" in let a := fresh "a" in let Ha := fresh "Ha" in
  intros args a Ha; apply list_elem_of_singleton in Ha; injection Ha as -> _;
  eexists; split; [by left|]; first
    [ left; reflexivity
    | right; split; [set_solver|eexists _, _; split_and!; [eassumption|by left|set_solver]] ].

(** Closes the part about the report on the path that succeeds. *)
Ltac report_path :=
  intros ? ? [= <- <-]; split; [done|]; eexists _, _, (_ :: _ :: _ :: _ :: _ :: _ :: _ :: _ :: _ :: _ :: [_]), _, _, _;
  split_and!; [by left| |by left|eassumption|eassumption]; first
    [ by apply (list_elem_of_singleton _ _); cbn [app]; instantiate (1 := [_; _; _])
    | by apply (list_elem_of_singleton _ _); cbn [app]; instantiate (1 := []) ].

Lemma runTrivyScan_scanned rawSPDX :
  wp any_answer (runTrivyScan rawSPDX) [] (scanned rawSPDX).
Proof.
  unfold runTrivyScan, scan_with_sbom, scan_in_home, execute_scan, setupVEXHubRepositories. cbv zeta.
  wp_steps. all: split; [by repeat constructor| | |].
  all: try (cbn; repeat constructor; set_solver).
  all: try (intros ? ? ?; discriminate).
  all: try (intros args a Ha; by apply elem_of_nil in Ha).
  all: repeat match goal with u : unit |- _ => destruct u end.
  all: lazymatch goal with |- ∀ _ _, _ ∈ _ → _ => vex_path | |- _ => report_path end.
Qed.

(** The files of a scan are removed on every path, but the home directory
    made for Trivy is not: its removal is only set up when the cluster has VEX
    hubs.  Without any, nothing removes it; with some, a scan that succeeds
    has removed it. *)
Theorem trivy_home_kept_without_vex {W} (h : handler Eff W) (w : W) (rawSPDX : string) :
  let tr := run_trace h (runTrivyScan rawSPDX) w in
  let r := run_result h (runTrivyScan rawSPDX) w in
  Forall (λ f, f ∈ omap ev_remove tr) (omap ev_create_temp tr) ∧
  match omap (ev_list KVEXHub) tr with
  | [(_, Ok (_ :: _))] =>
      Forall (λ d, d ∈ omap ev_remove_all tr) (omap ev_mkdir_temp tr) ∨ is_ok r = false
  | _ => omap ev_remove_all tr = []
  end.
Proof.
  wp_start. apply wp_conj.
  { eapply wp_mono; [|apply runTrivyScan_scanned]. by intros tr r []. }
  unfold runTrivyScan, scan_with_sbom, scan_in_home, execute_scan, setupVEXHubRepositories. cbv zeta.
  wp_steps; cbn; try done; try (by right); try (by destruct a0; [|right]).
  left. repeat constructor.
Qed.
End scan.

(** ** The handler *)

Section handler.
Context `{!StatusConditions, !ControllerUtil, !CreateOrUpdater}.
Context `{!Trivy, !YAML, !JSON (list trivyResult), !JSON Registry, !JSON ScanSBOMMessage}.
Context (workDir trivyDBRepository trivyJavaDBRepository : string).

(** The function given to [CreateOrUpdate]. *)
Definition report_labels (registry : Registry) (scanJobUID : string) : gmap string string :=
  let labels : gmap string string :=
    <[LabelScanJobUIDKey := scanJobUID]>
    (<[LabelManagedByKey := LabelManagedByValue]>
    (<[LabelPartOfKey := LabelPartOfValue]> ∅)) in
  if bool_decide (map_get (om_Labels (rg_Meta registry)) LabelWorkloadScanKey = LabelWorkloadScanValue)
  then <[LabelWorkloadScanKey := LabelWorkloadScanValue]> labels
  else labels.

Definition fill_report (registry : Registry) (scanJobUID : string) (sbom : SBOM)
    (results : list Result) (summary : Summary) (report : VulnerabilityReport) : VulnerabilityReport :=
  {| vr_Meta := with_Labels (report_labels registry scanJobUID) (vr_Meta report);
     vr_ImageMetadata := sb_ImageMetadata sbom;
     vr_Report := {| rep_Summary := summary; rep_Results := results |} |}.

Definition zero_ImageMetadata : ImageMetadata :=
  {| im_Registry := ""; im_RegistryURI := ""; im_Repository := ""; im_Tag := "";
     im_Platform := ""; im_Digest := ""; im_IndexDigest := "" |}.

Definition object_key (ref : ObjectRef) : NamespacedName :=
  {| nn_Namespace := o_Namespace ref; nn_Name := o_Name ref |}.

(** [Handle] once it has the job and its registry. *)
Definition scan (registry : Registry) (message : ScanSBOMMessage) : go (result unit) :=
  let ref := ssm_SBOM message in
  let scanJobUID := o_UID (ssm_ScanJob message) in
  r ← trigger (KGet KSBOM (object_key ref));
  match r with
  | Err e =>
      if IsNotFound e then
        _ ← trigger (RecordSkipReason skipReasonObjectNotFound);
        Ret (Ok tt)
      else Ret (Err (errorf "failed to get SBOM" e))
  | Ok sbom =>
      scanned ← runTrivyScan workDir trivyDBRepository trivyJavaDBRepository (sb_SPDX sbom);
      _ ← trigger (CountImageScanned (im_RegistryURI (sb_ImageMetadata sbom)) (is_ok scanned));
      match scanned with
      | Err e => Ret (Err e)
      | Ok (results, summary) =>
          match SetControllerReference "SBOM" (sb_Meta sbom) (new_meta (o_Name ref) "" (o_Namespace ref) ∅ ∅) with
          | Err e => Ret (Err (errorf "failed to set owner reference" e))
          | Ok meta =>
              check CreateOrUpdate KVulnerabilityReport (object_key ref)
                      {| vr_Meta := meta; vr_ImageMetadata := zero_ImageMetadata;
                         vr_Report := {| rep_Summary := empty_Summary; rep_Results := [] |} |}
                      (λ report, Ok (fill_report registry scanJobUID sbom results summary report))
                wrap errorf "failed to create or update vulnerability report";
              Ret (Ok tt)
          end
      end
  end.

Definition Handle (data : string) : go (result unit) :=
  match Unmarshal data with
  | Err e => Ret (Err (errorf "failed to unmarshal scan job message" e))
  | Ok message =>
      let ref := ssm_ScanJob message in
      r ← trigger (KGet KScanJob (object_key ref));
      match r with
      | Err e =>
          if IsNotFound e then
            _ ← trigger (RecordSkipReason skipReasonJobNotFound);
            Ret (Ok tt)
          else Ret (Err (errorf "failed to get ScanJob" e))
      | Ok scanJob =>
          if negb (bool_decide (sj_UID scanJob = o_UID ref)) then
            _ ← trigger (RecordSkipReason skipReasonUIDMismatch);
            Ret (Ok tt)
          else if IsFailed scanJob then
            _ ← trigger (RecordSkipReason skipReasonJobFailed);
            Ret (Ok tt)
          else
            match registryFromScanJob scanJob with
            | Err e => Ret (Err e)
            | Ok registry => scan registry message
            end
      end
  end.

(** ** The report *)

(** The report of a job for an SBOM. *)
Record report_for (registry : Registry) (scanJobUID : string) (sbom : SBOM) (results : list Result)
    (v : VulnerabilityReport) : Prop := {
  rf_image : vr_ImageMetadata v = sb_ImageMetadata sbom;
  rf_results : rep_Results (vr_Report v) = results;
  rf_summary : rep_Summary (vr_Report v) = NewSummaryFromResults results;
  rf_job : map_get (om_Labels (vr_Meta v)) LabelScanJobUIDKey = scanJobUID;
  rf_workload : map_get (om_Labels (vr_Meta v)) LabelWorkloadScanKey = LabelWorkloadScanValue ↔
    map_get (om_Labels (rg_Meta registry)) LabelWorkloadScanKey = LabelWorkloadScanValue
}.

(** How it is stored: the calls that end the handler, and its result. *)
Inductive stored (ref : ObjectRef) (good : VulnerabilityReport → Prop) : trace Eff → result unit → Prop :=
| Unchanged v :
    good v → stored ref good [Ev (KGet KVulnerabilityReport (object_key ref)) (Ok v)] (Ok tt)
| Updated old v a r :
    good v → om_Name (vr_Meta v) = om_Name (vr_Meta old) → is_ok r = is_ok a →
    stored ref good [Ev (KGet KVulnerabilityReport (object_key ref)) (Ok old);
                     Ev (KUpdate KVulnerabilityReport v) a] r
| Created e v a r :
    IsNotFound e = true → good v → key_of (vr_Meta v) = object_key ref → is_ok r = is_ok a →
    stored ref good [Ev (KGet KVulnerabilityReport (object_key ref)) (Err e);
                     Ev (KCreate KVulnerabilityReport v) a] r
| Unknown e r :
    is_ok r = false → stored ref good [Ev (KGet KVulnerabilityReport (object_key ref)) (Err e)] r.

Lemma fill_report_for registry uid sbom results v :
  report_for registry uid sbom results (fill_report registry uid sbom results (NewSummaryFromResults results) v).
Proof.
  split; try done; cbn; unfold report_labels; cbv zeta.
  - case_bool_decide; unfold map_get; [rewrite lookup_insert_ne by done|]; by rewrite lookup_insert_eq.
  - case_bool_decide as Hw; unfold map_get in *.
    + by rewrite lookup_insert_eq.
    + rewrite !lookup_insert_ne by done. rewrite lookup_empty. split; [done|]. by intros.
Qed.

Lemma create_or_update_stored registry uid sbom results ref meta :
  key_of meta = object_key ref →
  wp any_answer
    (check CreateOrUpdate KVulnerabilityReport (object_key ref)
             {| vr_Meta := meta; vr_ImageMetadata := zero_ImageMetadata;
                vr_Report := {| rep_Summary := empty_Summary; rep_Results := [] |} |}
             (λ report, Ok (fill_report registry uid sbom results (NewSummaryFromResults results) report))
       wrap errorf "failed to create or update vulnerability report";
     Ret (Ok tt)) []
    (stored ref (report_for registry uid sbom results)).
Proof.
  intros Hkey. apply wp_try. eapply wp_mono; [|apply CreateOrUpdate_ok].
  intros tr r (answer & rest & -> & Hcase).
  pose proof (fill_report_for registry uid sbom results) as Hfill.
  destruct answer as [existing|e].
  - destruct Hcase as [(-> & -> & Hsame)|(a & -> & Hr)].
    + cbn. apply Unchanged. rewrite <- Hsame. apply Hfill.
    + destruct r as [[]|e]; cbn [wp]; apply (Updated _ _ existing); done.
  - destruct (IsNotFound e) eqn:He.
    + destruct Hcase as (a & -> & Hr).
      destruct r as [[]|e']; cbn [wp]; by apply (Created _ _ e).
    + destruct Hcase as [-> Hr]. destruct r as [[]|e']; [done|]. by apply Unknown.
Qed.

Inductive ended (data : string) : trace Eff → result unit → Prop :=
| Skipped tr r :
    Forall (obs_call reads_only) tr → (is_ok r = true → omap ev_skip tr ≠ []) → ended data tr r
| Reported message scanJob registry sbom before during results after rest r :
    Unmarshal data = Ok message →
    (object_key (ssm_ScanJob message), Ok scanJob) ∈ omap (ev_get KScanJob) before →
    sj_UID scanJob = o_UID (ssm_ScanJob message) → IsFailed scanJob = false →
    registryFromScanJob scanJob = Ok registry →
    (object_key (ssm_SBOM message), Ok sbom) ∈ omap (ev_get KSBOM) before →
    Forall (obs_call reads_only) (before ++ during ++ after) →
    scanned (sb_SPDX sbom) during (Ok (results, NewSummaryFromResults results)) →
    stored (ssm_SBOM message) (report_for registry (sj_UID scanJob) sbom results) rest r →
    ended data (before ++ during ++ after ++ rest) r.

End handler.
