(* ===== verification/NodeScanSBOM.v ===== *)
(** * The node SBOM scan handler

    [src/internal/handlers/node_scan_sbom.go]: it scans a stored NodeSBOM the
    way [scan_sbom.go] scans an SBOM, stores the report of the node and
    completes the job. *)

From stdpp Require Import prelude gmap strings list.
From S2P Require Import Prelude Prog Meta Conditions Registry ScanJob NodeScanJob StorageTypes GoPath Report Effects StatusUpdate Messages RegistryAuth ScanSBOM.
Import NodeScanJob.

Section handler.
Context `{!StatusConditions, !ControllerUtil, !CreateOrUpdater, !Retry}.
Context `{!Trivy, !YAML, !JSON (list trivyResult), !JSON ScanNodeSBOMMessage}.
Context (workDir trivyDBRepository trivyJavaDBRepository : string).

Definition node_report_labels (nodeScanJobUID : string) : gmap string string :=
  <[LabelNodeScanJobUIDKey := nodeScanJobUID]>
  (<[LabelManagedByKey := LabelManagedByValue]>
  (<[LabelPartOfKey := LabelPartOfValue]> ∅)).

(** The function given to [CreateOrUpdate]. *)
Definition fill_node_report (nodeScanJobUID : string) (sbom : NodeSBOM) (results : list Result) (summary : Summary)
    (report : NodeVulnerabilityReport) : result NodeVulnerabilityReport :=
  match SetControllerReference "NodeSBOM" (nb_Meta sbom) (nv_Meta report) with
  | Err e => Err (errorf "failed to set owner reference" e)
  | Ok m => Ok {| nv_Meta := with_Labels (node_report_labels nodeScanJobUID) m;
                  nv_NodeMetadata := nb_NodeMetadata sbom;
                  nv_Report := {| rep_Summary := summary; rep_Results := results |} |}
  end.

Definition empty_NodeVulnerabilityReport (name : string) : NodeVulnerabilityReport :=
  {| nv_Meta := new_meta name "" "" ∅ ∅; nv_NodeMetadata := {| nm_Name := ""; nm_Platform := "" |};
     nv_Report := {| rep_Summary := empty_Summary; rep_Results := [] |} |}.

Definition scan_mark (now : Z) (job : NodeScanJob) : NodeScanJob :=
  MarkInProgress now ReasonNodeScanJobSBOMGenerationInProgress "NodeSBOM vulnerability scan in progress" job.
Definition complete_mark (now : Z) (job : NodeScanJob) : NodeScanJob :=
  MarkComplete now ReasonNodeScanJobComplete "NodeSBOM scanned successfully" job.

(** [Handle] once the report is stored. *)
Definition complete_node_scan (key : NamespacedName) : go (result unit) :=
  r ← RetryOnConflict (update_once KNodeScanJob complete_mark key "failed to get ScanJob");
  match r with
  | Err e =>
      if IsNotFound e then
        _ ← trigger (RecordSkipReason skipReasonJobNotFound);
        Ret (Ok tt)
      else Ret (Err (errorf "failed to update NodeScanJob status" e))
  | Ok (wasFinished, scanJob) =>
      _ ← (if negb wasFinished then RecordNodeScanJobFinished scanJob else Ret tt);
      Ret (Ok tt)
  end.

(** [Handle] once the job is in progress. *)
Definition scan_node (message : ScanNodeSBOMMessage) : go (result unit) :=
  let ref := snm_NodeSBOM message in
  r ← trigger (KGet KNodeSBOM (object_key ref));
  match r with
  | Err e =>
      if IsNotFound e then
        _ ← trigger (RecordSkipReason skipReasonObjectNotFound);
        Ret (Ok tt)
      else Ret (Err (errorf "failed to get SBOM" e))
  | Ok sbom =>
      scan ←? runTrivyScan workDir trivyDBRepository trivyJavaDBRepository (nb_SPDX sbom) wrap (λ e, e);
      let '(results, summary) := scan in
      check CreateOrUpdate KNodeVulnerabilityReport {| nn_Namespace := ""; nn_Name := o_Name ref |}
              (empty_NodeVulnerabilityReport (o_Name ref))
              (fill_node_report (o_UID (snm_NodeScanJob message)) sbom results summary)
        wrap errorf "failed to create or update nodevulnerabilityreport";
      complete_node_scan (object_key (snm_NodeScanJob message))
  end.

(** [Handle] once the job has been found good. *)
Definition begin_scan (message : ScanNodeSBOMMessage) : go (result unit) :=
  r ← RetryOnConflict (update_once KNodeScanJob scan_mark (object_key (snm_NodeScanJob message))
                         "failed to get NodeScanJob");
  match r with
  | Err e =>
      if IsNotFound e then
        _ ← trigger (RecordSkipReason skipReasonJobNotFound);
        Ret (Ok tt)
      else Ret (Err (errorf "failed to update NodeScanJob status to SBOM generation in progress" e))
  | Ok _ => scan_node message
  end.

Definition Handle (data : string) : go (result unit) :=
  match Unmarshal data with
  | Err e => Ret (Err (errorf "failed to unmarshal scan job message" e))
  | Ok message =>
      let ref := snm_NodeScanJob message in
      r ← trigger (KGet KNodeScanJob (object_key ref));
      match r with
      | Err e =>
          if IsNotFound e then
            _ ← trigger (RecordSkipReason skipReasonJobNotFound);
            Ret (Ok tt)
          else Ret (Err (errorf "failed to get ScanJob" e))
      | Ok scanJob =>
          if negb (bool_decide (nj_UID scanJob = o_UID ref)) then
            _ ← trigger (RecordSkipReason skipReasonUIDMismatch);
            Ret (Ok tt)
          else if JobFinished scanJob then
            _ ← trigger (RecordSkipReason skipReasonJobFinished);
            Ret (Ok tt)
          else begin_scan message
      end
  end.

(** ** Facts *)

(** The calls of the handler before it completes the job: reads, the move of
    the job to in progress, and storing a report. *)
Definition scan_status_write (k : kind) : obj k → Prop :=
  match k with KNodeScanJob => λ o, ∃ now job, o = scan_mark now job | _ => λ _, False end.
Definition scan_call A (e : Eff A) : Prop :=
  match e with
  | KStatusUpdate k o => scan_status_write k o
  | KCreate k _ | KUpdate k _ => k = KNodeVulnerabilityReport
  | KPatch _ _ _ | KDelete _ _ | KDeleteAllOf _ | PublishMsg _ _ _ | CountNodeScanJob _ => False
  | _ => True
  end.

(** The report of a scan. *)
Record node_report_of (nodeScanJobUID : string) (sbom : NodeSBOM) (results : list Result)
    (v : NodeVulnerabilityReport) : Prop := {
  nr_labels : om_Labels (nv_Meta v) = node_report_labels nodeScanJobUID;
  nr_node : nv_NodeMetadata v = nb_NodeMetadata sbom;
  nr_results : rep_Results (nv_Report v) = results;
  nr_summary : rep_Summary (nv_Report v) = NewSummaryFromResults results
}.

Definition node_reported (message : ScanNodeSBOMMessage) (tr : trace Eff) : Prop :=
  ∃ (sbom : NodeSBOM) before during after results v,
    tr = before ++ during ++ after ∧
    (object_key (snm_NodeSBOM message), Ok sbom) ∈ omap (ev_get KNodeSBOM) before ∧
    scanned (nb_SPDX sbom) during (Ok (results, NewSummaryFromResults results)) ∧
    node_report_of (o_UID (snm_NodeScanJob message)) sbom results v ∧
    in_store KNodeVulnerabilityReport nv_Meta {| nn_Namespace := ""; nn_Name := o_Name (snm_NodeSBOM message) |} v after.

(** How a run of [complete_node_scan] ends: the attempts at the update, and
    then the count of the completion when this run made it. *)
Inductive node_completed (key : NamespacedName) : trace Eff → result unit → Prop :=
| Gone tr e :
    attempted KNodeScanJob complete_mark key "failed to get ScanJob" tr (Err e) → IsNotFound e = true →
    node_completed key (tr ++ [Ev (RecordSkipReason skipReasonJobNotFound) tt]) (Ok tt)
| Not_updated tr e e' :
    attempted KNodeScanJob complete_mark key "failed to get ScanJob" tr (Err e) → IsNotFound e = false →
    node_completed key tr (Err e')
| Completed tr wasFinished (job : NodeScanJob) :
    attempted KNodeScanJob complete_mark key "failed to get ScanJob" tr (Ok (wasFinished, job)) →
    node_completed key
      (tr ++ (if negb wasFinished && JobFinished job then [Ev (CountNodeScanJob (jobResult job)) tt] else []))
      (Ok tt).

Inductive node_scan_outcome (message : ScanNodeSBOMMessage) (P : trace Eff → Prop) (tr : trace Eff) (r : result unit)
  : Prop :=
| Not_completed :
    Forall (obs_call scan_call) tr → (is_ok r = true → omap ev_skip tr ≠ []) → node_scan_outcome message P tr r
| Reached pre fin :
    P pre → Forall (obs_call scan_call) pre → tr = pre ++ fin →
    node_completed (object_key (snm_NodeScanJob message)) fin r → node_scan_outcome message P tr r.

Lemma complete_completed key : wp any_answer (complete_node_scan key) [] (node_completed key).
Proof.
  unfold complete_node_scan. apply wp_bind. eapply wp_mono; [|exact (retry_attempted KNodeScanJob complete_mark key _)].
  intros tr [[wasFinished job]|e] Hatt; cbn [wp].
  - pose proof (Completed key tr wasFinished job Hatt) as Hc. apply wp_bind. unfold RecordNodeScanJobFinished.
    destruct wasFinished; cbn [negb andb] in *; [by rewrite app_nil_r in Hc|].
    destruct (JobFinished (J:=NodeScanJob) job) eqn:Hj; cbn [negb] in *; [by intros [] _|].
    by rewrite app_nil_r in Hc.
  - destruct (IsNotFound e) eqn:He; [intros [] _; by eapply Gone|by eapply Not_updated].
Qed.

Lemma node_scan_outcome_app message (P P' : trace Eff → Prop) before tr r :
  Forall (obs_call scan_call) before → (∀ pre, P pre → P' (before ++ pre)) →
  node_scan_outcome message P tr r → node_scan_outcome message P' (before ++ tr) r.
Proof.
  intros Hb HP [Hc Hs|pre fin Hp Hc -> Hfin].
  - apply Not_completed; [by apply Forall_app|]. intros Hok%Hs. rewrite omap_app. by intros [_ ?]%app_nil.
  - eapply (Reached _ _ _ _ (before ++ pre)); eauto; [by apply Forall_app|by rewrite app_assoc].
Qed.

Ltac scan_stop := apply Not_completed; [by repeat constructor|done].

Lemma store_node_report message (sbom : NodeSBOM) results :
  wp any_answer
    (CreateOrUpdate KNodeVulnerabilityReport {| nn_Namespace := ""; nn_Name := o_Name (snm_NodeSBOM message) |}
       (empty_NodeVulnerabilityReport (o_Name (snm_NodeSBOM message)))
       (fill_node_report (o_UID (snm_NodeScanJob message)) sbom results (NewSummaryFromResults results))) []
    (λ tr r, Forall (obs_call scan_call) tr ∧
       (is_ok r = true → ∃ v : NodeVulnerabilityReport,
          node_report_of (o_UID (snm_NodeScanJob message)) sbom results v ∧
          in_store KNodeVulnerabilityReport nv_Meta
            {| nn_Namespace := ""; nn_Name := o_Name (snm_NodeSBOM message) |} v tr)).
Proof.
  eapply wp_mono; [|apply (CreateOrUpdate_stores KNodeVulnerabilityReport nv_Meta _
    (node_report_of (o_UID (snm_NodeScanJob message)) sbom results)); [done|]].
  - intros tr r [Hc Hs]. split; [|exact Hs]. eapply Forall_impl; [exact Hc|].
    intros [A e a] He. by destruct e.
  - intros base v. unfold fill_node_report.
    destruct (SetControllerReference _ _ _) as [m|e] eqn:Hm; [|done]. intros [= <-].
    apply SetControllerReference_keeps in Hm as (Hn & Hns & _). unfold key_of. cbn. by rewrite Hn, Hns.
Qed.

(** What the scan itself calls. *)
Lemma runTrivyScan_calls rawSPDX :
  calls scan_call (runTrivyScan workDir trivyDBRepository trivyJavaDBRepository rawSPDX).
Proof.
  unfold runTrivyScan, scan_with_sbom, scan_in_home, execute_scan, setupVEXHubRepositories. cbv zeta.
  repeat calls_step; done.
Qed.

Lemma scan_node_outcome message :
  wp any_answer (scan_node message) [] (node_scan_outcome message (node_reported message)).
Proof.
  unfold scan_node. cbv zeta. apply wp_bind. intros [sbom|e] _; cbn [wp].
  2: { destruct (IsNotFound e); [intros [] _|]; cbn [wp]; scan_stop. }
  eapply (wp_frame _ _ [_]); [|intros ext r Hout; exact Hout].
  eapply wp_try_seq; [apply wp_conj; [apply runTrivyScan_scanned|
    apply (calls_wp scan_call); [apply runTrivyScan_calls|constructor]]| |].
  2: { intros during e [_ Hd]. apply Not_completed; [by constructor|done]. }
  intros during [results summary] [Hscan Hd]. destruct (sc_report _ _ _ Hscan _ _ eq_refl) as [-> _].
  eapply wp_try_seq; [apply store_node_report| |].
  2: { intros st e [Hst _]. apply Not_completed; [|done]. constructor; [done|]. by apply Forall_app. }
  intros st [] [Hst Hv]. destruct (Hv eq_refl) as (v & Hof & Hin).
  eapply wp_mono; [|apply complete_completed]. intros fin r Hfin.
  apply (Reached _ _ _ _ (Ev (KGet KNodeSBOM (object_key (snm_NodeSBOM message))) (Ok sbom) :: during ++ st) fin).
  - exists sbom, [Ev (KGet KNodeSBOM (object_key (snm_NodeSBOM message))) (Ok sbom)], during, st, results, v.
    split_and!; try done. by left.
  - constructor; [done|]. by apply Forall_app.
  - cbn. by rewrite <- app_assoc.
  - done.
Qed.

Lemma node_reported_app message before pre : node_reported message pre → node_reported message (before ++ pre).
Proof.
  intros (sbom & p & during & after & results & v & -> & Hs & ?).
  exists sbom, (before ++ p), during, after, results, v. split_and!; try tauto.
  - by rewrite app_assoc.
  - rewrite omap_app, elem_of_app. by right.
Qed.

Lemma begin_scan_calls message :
  calls scan_call (RetryOnConflict (update_once KNodeScanJob scan_mark (object_key (snm_NodeScanJob message))
                                      "failed to get NodeScanJob")).
Proof. unfold update_once. cbv zeta. repeat calls_step; cbn; eauto. Qed.

(** The job of the message was moved to in progress. *)
Definition scan_begun (message : ScanNodeSBOMMessage) (tr : trace Eff) : Prop :=
  ∃ (read job : NodeScanJob) now, (object_key (snm_NodeScanJob message), Ok read) ∈ omap (ev_get KNodeScanJob) tr ∧
    (scan_mark now read, Ok job) ∈ omap (ev_status KNodeScanJob) tr.

Lemma begin_scan_outcome message :
  wp any_answer (begin_scan message) []
    (node_scan_outcome message (λ pre, scan_begun message pre ∧ node_reported message pre)).
Proof.
  unfold begin_scan. eapply wp_seq.
  { apply wp_conj; [exact (retry_attempted KNodeScanJob scan_mark _ _)|
      apply (calls_wp scan_call); [apply begin_scan_calls|constructor]]. }
  intros ext [[wasFinished job]|e] [Hatt Hcalls].
  - eapply wp_mono; [|apply scan_node_outcome]. intros tr r Hout.
    eapply node_scan_outcome_app; [done| |exact Hout]. intros pre Hrep. split; [|by apply node_reported_app].
    apply attempted_Ok in Hatt as (p & read & now & _ & _ & ->). exists read, job, now.
    rewrite <- app_assoc, !omap_app, !elem_of_app. split; right; left; by left.
  - destruct (IsNotFound e); [intros [] _|]; cbn [wp];
      (apply Not_completed; [apply Forall_app; split; [done|by repeat constructor]|]); [|done].
    intros _. rewrite omap_app. by intros [_ ?]%app_nil.
Qed.

(** What is known when the job is completed. *)
Record scan_prepared (message : ScanNodeSBOMMessage) (pre : trace Eff) : Prop := {
  sp_job : ∃ found : NodeScanJob,
    (object_key (snm_NodeScanJob message), Ok found) ∈ omap (ev_get KNodeScanJob) pre ∧
    nj_UID found = o_UID (snm_NodeScanJob message) ∧ JobFinished found = false;
  sp_begun : scan_begun message pre;
  sp_reported : node_reported message pre
}.

(** A node scan is completed once its report is stored.  Whatever the
    environment answers, before it completes the job the handler changes
    nothing but the status of the job, to in progress, and the report.  It
    marks the job complete only when it found the job of the message with its
    UID and not finished, moved it to in progress, ran Trivy on the content of
    the NodeSBOM the message names, and stored under that name a report with
    the node, the results Trivy wrote, their summary and the labels of the
    job.  The completion is counted at most once, when the update that
    persisted it found the job unfinished.  A run that does not get that far
    and succeeds has recorded why it skipped the message. *)
Theorem node_report_then_completion {W} (h : handler Eff W) (w : W) (data : string) :
  let tr := run_trace h (Handle data) w in
  let r := run_result h (Handle data) w in
  match Unmarshal data with
  | Err _ => tr = [] ∧ is_ok r = false
  | Ok message => node_scan_outcome message (scan_prepared message) tr r
  end.
Proof.
  wp_start. unfold Handle. destruct (Unmarshal data) as [message|e] eqn:Hmsg; [|done].
  cbv zeta. apply wp_bind. intros [found|e] _; cbn [wp].
  2: { destruct (IsNotFound e); [intros [] _|]; cbn [wp]; scan_stop. }
  case_bool_decide as Huid; cbn [negb]; [|intros [] _; cbn [wp]; scan_stop].
  destruct (JobFinished _) eqn:Hf; [intros [] _; cbn [wp]; scan_stop|].
  eapply wp_frame; [apply begin_scan_outcome|]. intros ext r Hout.
  eapply node_scan_outcome_app; [by repeat constructor| |exact Hout].
  intros pre [(read & job & now & Hr & Hw) Hrep]. split.
  - exists found. split_and!; [by left|done|done].
  - exists read, job, now. split; [by right|exact Hw].
  - by apply node_reported_app.
Qed.
End handler.
