(* ===== verification/FailureHandlers.v ===== *)
(** * The failure handlers

    [src/internal/handlers/scanjob_failure.go] and
    [nodescanjob_failure.go]: what happens to the job of a message whose
    processing failed for the last time.  The two handlers are the same
    function on the two kinds of jobs. *)

From stdpp Require Import prelude gmap strings list.
From S2P Require Import Prelude Prog Meta Conditions Registry ScanJob NodeScanJob StorageTypes Effects Messages StatusUpdate.

Section failure.
Context `{!Retry} (k : kind) `{!ConditionedJob (obj k)}.
Context (MarkFailed : Z → string → string → obj k → obj k).
Context (key : NamespacedName) (errorMessage : string) (getError : string).

Definition failed (now : Z) (job : obj k) : obj k :=
  MarkFailed now ScanJob.ReasonScanJobInternalError errorMessage job.

(** The function that is retried; it also returns [wasFinished]. *)
Definition fail_once : go (result (bool * obj k)) := update_once k failed key getError.

Definition fail_job (record : obj k → go unit) (updateError : string) : go (result unit) :=
  r ← RetryOnConflict fail_once;
  match r with
  | Err e => if IsNotFound e then Ret (Ok tt) else Ret (Err (errorf updateError e))
  | Ok (wasFinished, job) =>
      _ ← (if negb wasFinished then record job else Ret tt);
      Ret (Ok tt)
  end.

(** ** Facts *)

Abbreviation attempted := (StatusUpdate.attempted k failed key getError).

Lemma fail_job_run record updateError Q :
  (∀ tr e, attempted tr (Err e) → Q tr (if IsNotFound e then Ok tt else Err (errorf updateError e))) →
  (∀ tr updated, attempted tr (Ok (true, updated)) → Q tr (Ok tt)) →
  (∀ tr updated, attempted tr (Ok (false, updated)) → wp any_answer (record updated) tr (λ tr' _, Q tr' (Ok tt))) →
  wp any_answer (fail_job record updateError) [] Q.
Proof.
  intros Herr Hdone Hcount. apply wp_bind. eapply wp_mono; [|apply retry_attempted].
  intros tr [[[] updated]|e] Htr; cbn.
  - by eapply Hdone.
  - apply wp_bind. by apply Hcount.
  - specialize (Herr _ _ Htr). by destruct (IsNotFound e).
Qed.
End failure.

(** ** The handlers *)

Section handlers.
Context `{!StatusConditions, !Retry, !JSON BaseMessage, !JSON NodeBaseMessage}.

(** [ScanJobFailureHandler.HandleFailure]; the second format also names the
    job as it was last read. *)
Definition ScanJob_HandleFailure (data errorMessage : string) : go (result unit) :=
  match Unmarshal data with
  | Err e => Ret (Err (errorf "failed to unmarshal base message" e))
  | Ok baseMessage =>
      let ref := bm_ScanJob baseMessage in
      fail_job KScanJob ScanJob.MarkFailed
        {| nn_Namespace := o_Namespace ref; nn_Name := o_Name ref |} errorMessage
        ("cannot get scanjob " +:+ o_Namespace ref +:+ "/" +:+ o_Name ref)
        RecordScanJobFinished "failed to update ScanJob status to failed"
  end.

(** [NodeScanJobFailureHandler.HandleFailure]. *)
Definition NodeScanJob_HandleFailure (data errorMessage : string) : go (result unit) :=
  match Unmarshal data with
  | Err e => Ret (Err (errorf "failed to unmarshal node base message" e))
  | Ok nodeBaseMessage =>
      let ref := nbm_NodeScanJob nodeBaseMessage in
      fail_job KNodeScanJob NodeScanJob.MarkFailed
        {| nn_Namespace := ""; nn_Name := o_Name ref |} errorMessage
        ("cannot get NodeScanJob " +:+ o_Name ref)
        RecordNodeScanJobFinished "failed to update NodeScanJob status to failed"
  end.

Definition job_key (message : BaseMessage) : NamespacedName :=
  {| nn_Namespace := o_Namespace (bm_ScanJob message); nn_Name := o_Name (bm_ScanJob message) |}.

Lemma attempted_uncounted k `{!ConditionedJob (obj k)} mark key err tr r :
  attempted k mark key err tr r → omap ev_count tr = [].
Proof.
  intros Htr%attempted_calls. eapply omap_calls; [|exact Htr]. intros A e a. by destruct e.
Qed.

(** [C39] The failure of a message is recorded once.  Every write of the handler
    is the status of a job it just read, marked as failed with the error of
    the message; the attempts before the last one left nothing; the job
    counter is incremented at most once, by the attempt that persisted the
    failure of a job that had not finished before; and a run that succeeds
    has persisted the failure, unless the job is gone. *)
Theorem failure_recorded_once {W} (h : handler Eff W) (w : W) (data errorMessage : string) :
  let tr := run_trace h (ScanJob_HandleFailure data errorMessage) w in
  let r := run_result h (ScanJob_HandleFailure data errorMessage) w in
  Forall (λ wa, ∃ key job now, (key, Ok job) ∈ omap (ev_get KScanJob) tr ∧
            wa.1 = ScanJob.MarkFailed now ScanJob.ReasonScanJobInternalError errorMessage job)
    (omap ev_status_update tr) ∧
  ((Forall (λ wa, is_ok wa.2 = false) (omap ev_status_update tr) ∧ omap ev_count tr = [] ∧
      (is_ok r = true → gone KScanJob tr)) ∨
   ∃ pre message (job : ScanJob.ScanJob) now (persisted : ScanJob.ScanJob) post,
     Unmarshal data = Ok message ∧
     Forall (λ wa, is_ok wa.2 = false) (omap ev_status_update pre) ∧ omap ev_count pre = [] ∧
     tr = pre ++ Ev (KGet KScanJob (job_key message)) (Ok job) :: Ev Now now ::
            Ev (KStatusUpdate KScanJob (ScanJob.MarkFailed now ScanJob.ReasonScanJobInternalError errorMessage job))
               (Ok persisted) :: post ∧
     post = (if negb (JobFinished job) && JobFinished persisted
             then [Ev (CountScanJob (jobResult persisted) (scanJobSource persisted)) tt] else []) ∧
     is_ok r = true).
Proof.
  wp_start. unfold ScanJob_HandleFailure. destruct (Unmarshal data) as [message|e] eqn:Hmsg.
  2: { split; [constructor|]. left. by split_and!; [constructor| |]. }
  cbv zeta. fold (job_key message).
  apply fail_job_run.
  - intros tr e Htr. split.
    { eapply Forall_impl; [exact (attempted_writes _ _ _ _ _ _ Htr)|]. cbn. eauto. }
    left. split_and!; [by eapply attempted_Err|by eapply attempted_uncounted|].
    intros Hok. eapply attempted_gone; [exact Htr|]. by destruct (IsNotFound e).
  - intros tr updated Htr. split.
    { eapply Forall_impl; [exact (attempted_writes _ _ _ _ _ _ Htr)|]. cbn. eauto. }
    right. pose proof (attempted_uncounted _ _ _ _ _ _ Htr) as Hcount.
    apply attempted_Ok in Htr as (pre & job & now & Hfin & Hpre & ->).
    rewrite omap_app in Hcount. apply app_nil in Hcount as [Hcount _].
    change (true = JobFinished (J:=ScanJob.ScanJob) job) in Hfin.
    exists pre, message, job, now, updated, [].
    split_and!; try done. by rewrite <- Hfin.
  - intros tr updated Htr. unfold RecordScanJobFinished.
    pose proof (attempted_writes _ _ _ _ _ _ Htr) as Hw.
    pose proof (attempted_uncounted _ _ _ _ _ _ Htr) as Hcount.
    apply attempted_Ok in Htr as (pre & job & now & Hfin & Hpre & ->).
    rewrite omap_app in Hcount. apply app_nil in Hcount as [Hcount _].
    change (false = JobFinished (J:=ScanJob.ScanJob) job) in Hfin.
    destruct (JobFinished (J:=ScanJob.ScanJob) updated) eqn:Hup; cbn [negb].
    + intros [] _. cbn [wp]. rewrite <- app_assoc. cbn [app]. split.
      { rewrite !omap_app in *. cbn in *. eapply Forall_impl; [exact Hw|]. cbn. eauto. }
      right. eexists pre, message, job, now, updated, [_].
      split_and!; try done. by rewrite <- Hfin, Hup.
    + split; [eapply Forall_impl; [exact Hw|]; cbn; eauto|].
      right. exists pre, message, job, now, updated, [].
      split_and!; try done. by rewrite <- Hfin, Hup.
Qed.

(** The failure handler does not look at the job it finds: whatever job has
    the name of the message, of another UID or complete already, the first
    thing the handler does with it is to write it back marked as failed.  The
    handlers of the messages, by contrast, ignore a job of another UID. *)
Theorem failure_overrides_any_job {W} (h : handler Eff W) (w : W) (data errorMessage : string) :
  let tr := run_trace h (ScanJob_HandleFailure data errorMessage) w in
  match Unmarshal data with
  | Err _ => tr = []
  | Ok message =>
      (∃ e rest, tr = Ev (KGet KScanJob (job_key message)) (Err e) :: rest) ∨
      ∃ job now a rest,
        tr = Ev (KGet KScanJob (job_key message)) (Ok job) :: Ev Now now ::
             Ev (KStatusUpdate KScanJob
                   (ScanJob.MarkFailed now ScanJob.ReasonScanJobInternalError errorMessage job)) a :: rest ∧
        ScanJob.in_phase ScanJob.Failed
          (ScanJob.MarkFailed now ScanJob.ReasonScanJobInternalError errorMessage job)
  end.
Proof.
  wp_start. unfold ScanJob_HandleFailure. destruct (Unmarshal data) as [message|e]; [|done].
  assert (∀ tr r rest, attempted KScanJob (failed KScanJob ScanJob.MarkFailed errorMessage) (job_key message)
     ("cannot get scanjob " +:+ o_Namespace (bm_ScanJob message) +:+ "/" +:+ o_Name (bm_ScanJob message)) tr r →
     (∃ e rest', tr ++ rest = Ev (KGet KScanJob (job_key message)) (Err e) :: rest') ∨
      ∃ job now a rest',
        tr ++ rest = Ev (KGet KScanJob (job_key message)) (Ok job) :: Ev Now now ::
             Ev (KStatusUpdate KScanJob
                   (ScanJob.MarkFailed now ScanJob.ReasonScanJobInternalError errorMessage job)) a :: rest' ∧
        ScanJob.in_phase ScanJob.Failed
          (ScanJob.MarkFailed now ScanJob.ReasonScanJobInternalError errorMessage job)) as Hfirst.
  { intros tr r rest [(e & tr' & ->)|(job & now & a & tr' & ->)]%attempted_first; cbn; [left; eauto|right].
    eexists job, now, a, _. split; [done|]. exact (ScanJob.exec_phase job (ScanJob.OpFailed now _ _)). }
  apply fail_job_run.
  - intros tr e Htr. rewrite <- (app_nil_r tr). by eapply Hfirst.
  - intros tr updated Htr. rewrite <- (app_nil_r tr). by eapply Hfirst.
  - intros tr updated Htr. eapply wp_frame; [apply wp_true|]. intros ext r _. by eapply Hfirst.
Qed.
End handlers.
