(* ===== verification/Subscriber.v ===== *)
(** * The message subscriber

    [src/internal/messaging/subscriber.go]: how a delivery of a message is
    handled, acknowledged, retried with a backoff or given to the failure
    handler; and the interfaces of [src/internal/messaging/handler.go]. *)

From stdpp Require Import prelude gmap strings list.
From Stdlib Require Import QArith Qpower Qround Qminmax Lqa.
From S2P Require Import Prelude Prog Meta Conditions Effects.

Definition maxDeliver : Z := 5.

(** ** Handlers

    The [Message] a handler is given can be read and marked as in progress; it
    has no method to acknowledge the delivery. *)
Definition unsettling A (e : Eff A) : Prop :=
  match e with MsgAck | MsgNak | MsgNakWithDelay _ | MsgMetadata => False | _ => True end.

Definition unsettled {R} (p : go R) : Prop :=
  wp any_answer p [] (λ tr _, Forall (obs_call unsettling) tr).

(** [messaging.Handler]: the method, as a function of the data of the message. *)
Record Handler := {
  hd_Handle : string → go (result unit);
  hd_unsettled : ∀ data, unsettled (hd_Handle data)
}.

(** [messaging.FailureHandler]. *)
Record FailureHandler := {
  fh_HandleFailure : string → string → go (result unit);
  fh_unsettled : ∀ data errorMessage, unsettled (fh_HandleFailure data errorMessage)
}.

(** ** The backoff *)

(** [float64] arithmetic rounds the exact result; the values here are finite. *)
Class Float64 := {
  rnd : Q → Q;
  rnd_mono : ∀ x y, (x <= y)%Q → (rnd x <= rnd y)%Q;
  rnd_opp : ∀ x, (rnd (- x) == - rnd x)%Q;
  rnd_idem : ∀ x, (rnd (rnd x) == rnd x)%Q;
  rnd_int : ∀ z, (Z.abs z <= 2 ^ 53)%Z → (rnd (inject_Z z) == inject_Z z)%Q
}.

(** Rounding that loses nothing. *)
Definition exact_Float64 : Float64.
Proof. by refine {| rnd := λ x, x |}. Defined.

Record RetryConfig := { rc_BaseDelay : Z; rc_Jitter : Q; rc_MaxAttempts : Z }.

(** [time.Duration(x)]: the conversion to an integer truncates. *)
Definition Duration (x : Q) : Z := Z.quot (Qnum x) (Zpos (Qden x)).

Section backoff.
Context `{!Float64} (retryConfig : RetryConfig).

(** Multiplication by a power of two is exact. *)
Definition exponential (attempt : Z) : Q :=
  (rnd (inject_Z (rc_BaseDelay retryConfig)) * Qpower 2 (attempt - 1))%Q.

Definition jittered (delay random : Q) : Q :=
  let jitter := rnd (delay * rnd (rc_Jitter retryConfig * rnd (rnd (random * 2) - 1)))%Q in
  let delay := rnd (delay + jitter)%Q in
  if Qlt_le_dec delay 0 then 0%Q else delay.

Definition backoffDelay (attempt : Z) : go Z :=
  let delay := exponential attempt in
  if Qlt_le_dec 0 (rc_Jitter retryConfig) then
    random ← trigger RandFloat64;
    Ret (Duration (jittered delay random))
  else Ret (Duration delay).

(** ** Bounds *)

#[local] Open Scope Q_scope.

#[local] Instance rnd_proper : Proper (Qeq ==> Qeq) rnd.
Proof. intros x y Hxy. apply Qle_antisym; apply rnd_mono; rewrite Hxy; apply Qle_refl. Qed.

Lemma rnd_0 : rnd 0 == 0.
Proof. by apply (rnd_int 0). Qed.

Lemma rnd_between a b x : a <= x → x <= b → rnd a <= rnd x /\ rnd x <= rnd b.
Proof. split; by apply rnd_mono. Qed.

Lemma scale_between c u : 0 <= c → - (1) <= u → u <= 1 → - c <= c * u /\ c * u <= c.
Proof. intros. nra. Qed.

(** The random factor is in [-1, 1], rounding included. *)
Lemma factor_between random :
  0 <= random → random <= 1 → - (1) <= rnd (rnd (random * 2) - 1) /\ rnd (rnd (random * 2) - 1) <= 1.
Proof.
  intros H0 H1. assert (rnd 2 == 2) as H2 by by apply (rnd_int 2).
  assert (rnd 1 == 1) as H3 by by apply (rnd_int 1).
  destruct (rnd_between 0 2 (random * 2)) as [Hl Hu]; [lra|lra|]. rewrite rnd_0 in Hl. rewrite H2 in Hu.
  destruct (rnd_between (- (1)) 1 (rnd (random * 2) - 1)) as [Hl' Hu']; [lra|lra|].
  rewrite rnd_opp, H3 in Hl'. rewrite H3 in Hu'. done.
Qed.

Lemma Duration_mono x y : 0 <= x → x <= y → (Duration x <= Duration y)%Z.
Proof.
  intros Hx Hy. assert (∀ q, 0 <= q → Duration q = Qfloor q) as Hfloor.
  { intros [n d] Hq. unfold Duration, Qfloor, Qle in *; cbn in *. apply Z.quot_div_nonneg; lia. }
  rewrite !Hfloor by lra. by apply Qfloor_resp_le.
Qed.

Lemma jittered_between delay random :
  0 <= delay → 0 <= rc_Jitter retryConfig → rnd (rc_Jitter retryConfig) == rc_Jitter retryConfig →
  0 <= random → random <= 1 →
  let spread := rnd (delay * rc_Jitter retryConfig) in
  rnd (delay - spread) <= jittered delay random /\ 0 <= jittered delay random /\
  jittered delay random <= rnd (delay + spread).
Proof.
  intros Hd Hj Hjr H0 H1 spread. unfold jittered.
  destruct (factor_between random H0 H1) as [Hu1 Hu2].
  set (u := rnd (rnd (random * 2) - 1)) in *. clearbody u.
  destruct (scale_between _ u Hj Hu1 Hu2) as [Ht1 Ht2].
  apply rnd_mono in Ht1, Ht2. rewrite rnd_opp, Hjr in Ht1. rewrite Hjr in Ht2.
  set (t := rnd (rc_Jitter retryConfig * u)) in *. clearbody t.
  assert (- (delay * rc_Jitter retryConfig) <= delay * t) as Hs1 by nra.
  assert (delay * t <= delay * rc_Jitter retryConfig) as Hs2 by nra.
  apply rnd_mono in Hs1, Hs2. rewrite rnd_opp in Hs1. fold spread in Hs1, Hs2.
  set (jit := rnd (delay * t)) in *. clearbody jit.
  assert (0 <= spread) as Hs0.
  { subst spread. rewrite <- rnd_0. apply rnd_mono. nra. }
  assert (rnd (delay - spread) <= rnd (delay + jit)) as Hlow by (apply rnd_mono; lra).
  assert (rnd (delay + jit) <= rnd (delay + spread)) as Hup by (apply rnd_mono; lra).
  assert (0 <= rnd (delay + spread)) as Hpos by (rewrite <- rnd_0; apply rnd_mono; lra).
  cbv zeta. destruct (Qlt_le_dec _ _); lra.
Qed.

(** [rand.Float64] is in the half-open unit interval. *)
Definition fair : legality Eff := λ A e,
  match e in Eff A return A → Prop with
  | RandFloat64 => λ x, 0 <= x /\ x < 1
  | _ => λ _, True
  end.

(** The delay before a redelivery is the exponential one, give or take the
    jitter: at the [attempt]-th delivery it lies between [d - d * jitter] and
    [d + d * jitter] for [d] the base delay times two to the [attempt - 1]
    (each bound as [float64] arithmetic rounds it), and it is never negative,
    even with a jitter greater than one. *)
Theorem backoff_bounds {W} (h : handler Eff W) (w : W) (attempt : Z) :
  lawful fair h → (0 <= rc_BaseDelay retryConfig)%Z → 0 < rc_Jitter retryConfig →
  rnd (rc_Jitter retryConfig) == rc_Jitter retryConfig →
  let d := exponential attempt in
  let spread := rnd (d * rc_Jitter retryConfig) in
  let delay := run_result h (backoffDelay attempt) w in
  (0 <= delay)%Z /\ (Duration (Qmax 0 (rnd (d - spread))) <= delay)%Z /\
  (delay <= Duration (rnd (d + spread)))%Z.
Proof.
  intros Hh Hbase Hj Hjr d spread delay.
  assert (0 <= d) as Hd.
  { subst d. unfold exponential.
    assert (0 <= rnd (inject_Z (rc_BaseDelay retryConfig))) as Hb.
    { rewrite <- rnd_0. apply rnd_mono. by rewrite <- (Zle_Qle 0). }
    assert (0 <= Qpower 2 (attempt - 1)) by (apply Qpower_0_le; lra). nra. }
  subst delay. apply (wp_run fair h _ [] w (λ _ delay, (0 <= delay)%Z /\ (_ <= delay)%Z /\ (delay <= _)%Z) Hh).
  unfold backoffDelay. cbv zeta. fold d. destruct (Qlt_le_dec _ _); [|lra].
  apply wp_bind. intros random [H0 H1]. cbn [wp].
  destruct (jittered_between d random) as (Hlow & Hpos & Hup); [done|lra|done|done|lra|].
  fold spread in Hlow, Hup. split_and!.
  - apply (Duration_mono 0); [lra|done].
  - apply Duration_mono; [apply Q.le_max_l|]. by apply Q.max_lub.
  - by apply Duration_mono.
Qed.
End backoff.

(** The configuration of the worker, in exact arithmetic: the third delivery is
    followed by a wait of 16 to 24 seconds. *)
Definition worker_retry : RetryConfig :=
  {| rc_BaseDelay := 5000000000; rc_Jitter := 1 # 5; rc_MaxAttempts := 5 |}.

Lemma refuse_fair : lawful fair refuse.
Proof. intros A e w. by destruct e. Qed.

Lemma backoff_bounds_witness :
  (16000000000 <= run_result refuse (@backoffDelay exact_Float64 worker_retry 3) tt <= 24000000000)%Z.
Proof.
  pose proof (@backoff_bounds exact_Float64 worker_retry unit refuse tt 3 refuse_fair
                ltac:(cbn; lia) ltac:(reflexivity) ltac:(reflexivity)) as (_ & Hl & Hu).
  split; [exact Hl|exact Hu].
Defined.

(** ** One delivery *)

Section subscriber.
Context `{!Float64} (handlers : gmap string Handler) (failureHandler : FailureHandler).
Context (retryConfig : RetryConfig).

(** A panic ends the process; nothing after it runs. *)
Definition panicked (r : result unit) : bool :=
  match r with Err e => is_panic e | Ok _ => false end.

Definition handleMessage (subject data : string) : go (result unit) :=
  match handlers !! subject with
  | None => Ret (Err (errors_New ("no handler found for subject: " +:+ subject)))
  | Some handler =>
      check hd_Handle handler data wrap errorf ("failed to handle message on subject " +:+ subject);
      Ret (Ok tt)
  end.

Definition handleFailure (data : string) (numDelivered : Z) (processingErr : error) : go (result unit) :=
  if bool_decide (maxDeliver <= numDelivered)%Z then
    r ← fh_HandleFailure failureHandler data (Error processingErr);
    if panicked r then Ret r
    else
      _ ← trigger MsgAck;
      Ret (Ok tt)
  else
    delay ← backoffDelay retryConfig numDelivered;
    _ ← trigger (MsgNakWithDelay delay);
    Ret (Ok tt).

(** The function [Run] gives to [Consume]. *)
Definition consume (subject data : string) : go (result unit) :=
  metadata ← trigger MsgMetadata;
  match metadata with
  | Err _ =>
      _ ← trigger MsgNak;
      Ret (Ok tt)
  | Ok numDelivered =>
      r ← handleMessage subject data;
      if panicked r then Ret r
      else
        match r with
        | Err e => handleFailure data numDelivered e
        | Ok _ =>
            _ ← trigger MsgAck;
            Ret (Ok tt)
        end
  end.

(** ** Settlement of a delivery *)

Lemma handleMessage_unsettled subject data : unsettled (handleMessage subject data).
Proof.
  unfold unsettled, handleMessage. destruct (handlers !! subject) as [hd|]; [|constructor].
  apply wp_try. eapply wp_mono; [|apply hd_unsettled]. by intros tr [[]|e].
Qed.

Lemma backoffDelay_unsettled attempt : unsettled (backoffDelay retryConfig attempt).
Proof. unfold unsettled, backoffDelay. cbv zeta. wp_steps; by repeat constructor. Qed.

Lemma failure_runs data msg :
  wp any_answer (fh_HandleFailure failureHandler data msg) [] (λ tr r,
    runs (fh_HandleFailure failureHandler data msg) tr r ∧ Forall (obs_call unsettling) tr).
Proof. apply wp_conj; [apply wp_runs|apply fh_unsettled]. Qed.

(** What came of giving the message to the handler of its subject. *)
Inductive processed (subject data : string) : trace Eff → result unit → Prop :=
| No_handler :
    handlers !! subject = None → processed subject data [] (Err (errors_New ("no handler found for subject: " +:+ subject)))
| Handler_succeeded hd during :
    handlers !! subject = Some hd → runs (hd_Handle hd data) during (Ok tt) → processed subject data during (Ok tt)
| Handler_failed hd during e :
    handlers !! subject = Some hd → runs (hd_Handle hd data) during (Err e) →
    processed subject data during (Err (errorf ("failed to handle message on subject " +:+ subject) e)).

(** The delay before the next delivery, in nanoseconds: the base delay doubled at each
    delivery after the first, and spread by a random part of the jitter, if there is
    one, but not below zero. *)
Definition backoff (n : Z) (back : trace Eff) (delay : Z) : Prop :=
  let d := (rnd (inject_Z (rc_BaseDelay retryConfig)) * Qpower 2 (n - 1))%Q in
  if Qlt_le_dec 0 (rc_Jitter retryConfig) then
    ∃ x, back = [Ev RandFloat64 x] ∧
      let spread := rnd (d + rnd (d * rnd (rc_Jitter retryConfig * rnd (rnd (x * 2) - 1))))%Q in
      delay = Duration (if Qlt_le_dec spread 0 then 0%Q else spread)
  else back = [] ∧ delay = Duration d.

(** The ways a delivery can end. *)
Inductive delivery (subject data : string) : trace Eff → result unit → Prop :=
| Unreadable e a :
    delivery subject data [Ev MsgMetadata (Err e); Ev MsgNak a] (Ok tt)
| Processed n during a :
    processed subject data during (Ok tt) →
    delivery subject data (Ev MsgMetadata (Ok n) :: during ++ [Ev MsgAck a]) (Ok tt)
| Retried n during e back delay a :
    processed subject data during (Err e) → is_panic e = false → (n < 5)%Z → backoff n back delay →
    delivery subject data (Ev MsgMetadata (Ok n) :: during ++ back ++ [Ev (MsgNakWithDelay delay) a]) (Ok tt)
| Given_up n during e failing r a :
    processed subject data during (Err e) → is_panic e = false → (5 <= n)%Z →
    runs (fh_HandleFailure failureHandler data (Error e)) failing r → panicked r = false →
    delivery subject data (Ev MsgMetadata (Ok n) :: during ++ failing ++ [Ev MsgAck a]) (Ok tt)
| Crashed_handling n during e :
    processed subject data during (Err e) → is_panic e = true →
    delivery subject data (Ev MsgMetadata (Ok n) :: during) (Err e)
| Crashed_giving_up n during e failing e' :
    processed subject data during (Err e) → is_panic e = false → (5 <= n)%Z →
    runs (fh_HandleFailure failureHandler data (Error e)) failing (Err e') → is_panic e' = true →
    delivery subject data (Ev MsgMetadata (Ok n) :: during ++ failing) (Err e').

Lemma handleMessage_processed subject data : wp any_answer (handleMessage subject data) [] (processed subject data).
Proof.
  unfold handleMessage. destruct (handlers !! subject) as [hd|] eqn:Hh; [|by constructor].
  apply wp_try. eapply wp_mono; [|apply wp_runs]. intros tr [[]|e] Hr; [by eapply Handler_succeeded|by eapply Handler_failed].
Qed.

Lemma backoffDelay_backoff n : wp any_answer (backoffDelay retryConfig n) [] (backoff n).
Proof.
  unfold backoffDelay, backoff, exponential, jittered. cbv zeta. destruct (Qlt_le_dec 0 _); [|done]. intros x _. by exists x.
Qed.

Inductive settlement := Acked | Nacked | NackedAfter (delay : Z).

Definition ev_settle (o : obs Eff) : option settlement :=
  match o with
  | Ev e _ => match e with
              | MsgAck => Some Acked
              | MsgNak => Some Nacked
              | MsgNakWithDelay d => Some (NackedAfter d)
              | _ => None
              end
  end.

(** A delivery is settled by its last call, and by no other. *)
Definition settled (tr : trace Eff) (r : result unit) : Prop :=
  match r with
  | Ok _ => ∃ pre o, tr = pre ++ [o] ∧ is_Some (ev_settle o) ∧ omap ev_settle pre = []
  | Err _ => omap ev_settle tr = []
  end.

Lemma unsettling_silent tr : Forall (obs_call unsettling) tr → omap ev_settle tr = [].
Proof. apply omap_calls. intros A e a. by destruct e. Qed.

Lemma settled_last n during o :
  omap ev_settle during = [] → is_Some (ev_settle o) →
  settled (Ev MsgMetadata n :: during ++ [o]) (Ok tt).
Proof. intros Hd Ho. by exists (Ev MsgMetadata n :: during), o. Qed.

Lemma handleFailure_delivery subject data n during e :
  processed subject data during (Err e) → omap ev_settle during = [] → is_panic e = false →
  wp any_answer (handleFailure data n e) [] (λ ext r,
    delivery subject data (Ev MsgMetadata (Ok n) :: during ++ ext) r ∧
    settled (Ev MsgMetadata (Ok n) :: during ++ ext) r).
Proof.
  intros Hd Hs He. unfold handleFailure. case_bool_decide as Hn.
  - eapply wp_seq; [apply failure_runs|]. intros failing r [Hf Hfs%unsettling_silent].
    destruct (panicked r) eqn:Hp; cbn [wp].
    + destruct r as [|e']; [done|]. rewrite app_nil_r. split; [by eapply Crashed_giving_up|].
      cbn. by rewrite omap_app, Hs, Hfs.
    + apply wp_bind. intros a _. cbn [wp app]. split; [by eapply Given_up|].
      rewrite app_assoc. apply settled_last; [by rewrite omap_app, Hs, Hfs|done].
  - eapply wp_seq; [apply wp_conj; [apply backoffDelay_backoff|apply backoffDelay_unsettled]|].
    intros back delay [Hb Hbs%unsettling_silent]. apply wp_bind. intros a _. cbn [wp app].
    split; [eapply Retried; try done; unfold maxDeliver in Hn; lia|].
    rewrite app_assoc. apply settled_last; [by rewrite omap_app, Hs, Hbs|done].
Qed.

(** [C13] Every delivery is settled once, by the last call the subscriber makes.
    The message is given to the handler registered for its subject; a subject
    without a handler counts as a failure.  It is acknowledged exactly when
    that handler returned no error, or when it failed at the fifth delivery or
    a later one, after the failure handler was run with the text of the error;
    it is put back with the delay of the exponential backoff when the handler
    failed at an earlier delivery, and without delay when its metadata cannot
    be read, in which case no handler runs.  Only a panic leaves the delivery
    unsettled.  The limit is the constant five whatever [MaxAttempts] is
    configured (the worker configures five): the code does not consult it,
    although its comment calls it the maximum number of attempts. *)
Theorem delivery_settled_once {W} (h : handler Eff W) (w : W) (subject data : string) :
  let tr := run_trace h (consume subject data) w in
  let r := run_result h (consume subject data) w in
  delivery subject data tr r ∧ settled tr r.
Proof.
  wp_start. unfold consume. apply wp_bind. intros [n|e] _; cbn [wp].
  2: { apply wp_bind. intros a _. cbn [wp]. split; [constructor|by eexists [_], _]. }
  apply wp_bind. eapply (wp_frame _ _ [_]);
    [apply wp_conj; [apply handleMessage_processed|apply handleMessage_unsettled]|].
  intros during r [Hd Hs%unsettling_silent]. cbn [app].
  destruct r as [[]|e]; cbn [panicked].
  - apply wp_bind. intros a _. cbn [wp app]. split; [by apply Processed|by apply settled_last].
  - destruct (is_panic e) eqn:He; cbn [wp]; [split; [by apply Crashed_handling|done]|].
    eapply wp_frame; [by eapply handleFailure_delivery|]. done.
Qed.

End subscriber.

(** The attempts configured play no part: a message is given up at
    [maxDeliver] deliveries whatever they are. *)
Lemma MaxAttempts_ignored `{!Float64} handlers failureHandler base jitter m m' subject data :
  consume handlers failureHandler {| rc_BaseDelay := base; rc_Jitter := jitter; rc_MaxAttempts := m |} subject data =
  consume handlers failureHandler {| rc_BaseDelay := base; rc_Jitter := jitter; rc_MaxAttempts := m' |} subject data.
Proof. reflexivity. Qed.
