(* ===== verification/Worker.v ===== *)
(** * The worker

    [src/cmd/worker/main.go] and [nats.go]: which handler serves which
    subject, the name of the durable consumer of a node, and what the worker as
    a whole guarantees for a message. *)

From stdpp Require Import prelude gmap strings list.
From Stdlib Require Import QArith Ascii.
From S2P Require Import Prelude Prog Meta Conditions Registry ScanJob NodeScanJob Filters StorageTypes GoPath Encoding Report Effects Messages RegistryAuth RegistryClient ImageCatalog CreateCatalog GenerateSBOM ScanSBOM StatusUpdate FailureHandlers Subscriber.

(** ** The durable consumer of a node *)

(** The function given to [strings.Map]; a rune that is not ASCII is dropped, so
    each of its bytes may be. *)
Definition sanitize_rune (r : ascii) : option ascii :=
  let n := nat_of_ascii r in
  if bool_decide (r = "."%char) then Some "_"%char
  else if bool_decide (r = "-"%char) || (bool_decide (97 ≤ n)%nat && bool_decide (n ≤ 122)%nat)
          || (bool_decide (48 ≤ n)%nat && bool_decide (n ≤ 57)%nat)
  then Some r else None.

Fixpoint strings_Map (f : ascii → option ascii) (s : string) : string :=
  match s with
  | EmptyString => EmptyString
  | String c s' => match f c with Some c' => String c' (strings_Map f s') | None => strings_Map f s' end
  end.

Definition sanitizeNodeSubscriberName (nodeName : string) : string :=
  let maxLen := 255%nat in
  let sanitized := strings_Map sanitize_rune nodeName in
  let name := "worker-node-" +:+ sanitized in
  if bool_decide (maxLen < String.length name)%nat then
    let hash := Sha256.Sum (bytes nodeName) in
    let suffix := "-" +:+ hex_EncodeToString (take 16 hash) in
    String.substring 0 (maxLen - String.length suffix) name +:+ suffix
  else name.

(** Characters of a consumer name, and of a node name. *)
Definition consumer_char (c : ascii) : bool :=
  let n := nat_of_ascii c in
  bool_decide (c = "-"%char) || bool_decide (c = "_"%char) ||
  (bool_decide (97 ≤ n)%nat && bool_decide (n ≤ 122)%nat) ||
  (bool_decide (48 ≤ n)%nat && bool_decide (n ≤ 57)%nat).
Definition node_char (c : ascii) : bool :=
  match sanitize_rune c with Some _ => true | None => false end.

Fixpoint all_chars (P : ascii → bool) (s : string) : bool :=
  match s with EmptyString => true | String c s' => P c && all_chars P s' end.

Lemma all_chars_app P s1 s2 : all_chars P (s1 +:+ s2) = all_chars P s1 && all_chars P s2.
Proof. induction s1 as [|c s1 IH]; [done|].
  change (String c s1 +:+ s2) with (String c (s1 +:+ s2)). cbn [all_chars]. by rewrite IH, andb_assoc.
Qed.

Lemma all_chars_substring P n m s : all_chars P s = true → all_chars P (String.substring n m s) = true.
Proof.
  revert n m. induction s as [|c s IH]; intros n m; [by destruct n, m|].
  cbn [all_chars]. intros [Hc Hs]%andb_true_iff.
  destruct n, m; cbn [String.substring all_chars]; try (by apply IH); [done|].
  rewrite Hc. by apply IH.
Qed.

Lemma substring_length m s : (String.length (String.substring 0 m s) ≤ m)%nat.
Proof. revert m. induction s as [|c s IH]; intros [|m]; cbn; try lia. specialize (IH m). lia. Qed.

Lemma sanitize_rune_safe c c' : sanitize_rune c = Some c' → consumer_char c' = true.
Proof.
  unfold sanitize_rune, consumer_char. cbv zeta. case_bool_decide; [by intros [= <-]|].
  destruct (_ || _ || _) eqn:Hc; [|done]. intros [= <-].
  rewrite !orb_true_iff in *. tauto.
Qed.

Lemma sanitized_safe s : all_chars consumer_char (strings_Map sanitize_rune s) = true.
Proof.
  induction s as [|c s IH]; [done|]. cbn. destruct (sanitize_rune c) eqn:Hc; [|done].
  cbn. by rewrite (sanitize_rune_safe _ _ Hc), IH.
Qed.

Lemma hex_safe bs : Forall (λ b, 0 ≤ b < 256)%Z bs → all_chars consumer_char (hex_EncodeToString bs) = true.
Proof.
  assert (∀ n, (0 ≤ n < 16)%Z → consumer_char (hex_char n) = true) as Hhex.
  { intros n Hn. assert (n = 0 ∨ n = 1 ∨ n = 2 ∨ n = 3 ∨ n = 4 ∨ n = 5 ∨ n = 6 ∨ n = 7 ∨ n = 8 ∨ n = 9 ∨ n = 10 ∨
      n = 11 ∨ n = 12 ∨ n = 13 ∨ n = 14 ∨ n = 15)%Z as Hcases by lia.
    repeat (destruct Hcases as [->|Hcases]; [vm_compute; reflexivity|]). subst. vm_compute. reflexivity. }
  induction 1 as [|b bs Hb _ IH]; [done|]. cbn [hex_EncodeToString all_chars].
  rewrite IH, !Hhex; [done| |]; [apply Z.mod_pos_bound; lia|].
  split; [apply Z.div_pos; lia|apply Z.div_lt_upper_bound; lia].
Qed.

Lemma Sum_bytes bs : Forall (λ b, 0 ≤ b < 256)%Z (Sha256.Sum bs).
Proof.
  assert (∀ n x, Forall (λ b, 0 ≤ b < 256)%Z (Sha256.big_endian n x)) as Hbe.
  { induction n as [|n IH]; intros x; cbn; [constructor|]. apply Forall_app. split; [done|].
    repeat constructor; apply Z.mod_pos_bound; lia. }
  unfold Sha256.Sum. cbn [Sha256.words_of mbind list_bind].
  rewrite !Forall_app. split_and!; try apply Hbe. constructor.
Qed.

(** The name of a node's consumer is one NATS accepts, whatever the node is
    called: at most 255 characters, all of them lower-case letters, digits,
    dashes and underscores. *)
Theorem node_consumer_name_accepted (nodeName : string) :
  (String.length (sanitizeNodeSubscriberName nodeName) ≤ 255)%nat ∧
  all_chars consumer_char (sanitizeNodeSubscriberName nodeName) = true.
Proof.
  unfold sanitizeNodeSubscriberName. cbv zeta. case_bool_decide as Hlen.
  - rewrite !string_length_app, hex_length, length_take, Sha256.Sum_length. split.
    + pose proof (substring_length (255 - (String.length "-" + 2 * (16 `min` 32)))
                    ("worker-node-" +:+ strings_Map sanitize_rune nodeName)). cbn in *. lia.
    + rewrite !all_chars_app, (hex_safe (take 16 _)) by apply Forall_take, Sum_bytes.
      rewrite all_chars_substring; [done|]. rewrite all_chars_app, sanitized_safe. done.
  - split; [lia|]. by rewrite all_chars_app, sanitized_safe.
Qed.

Lemma sanitize_rune_cases c d :
  sanitize_rune c = Some d → (c = "."%char ∧ d = "_"%char) ∨ (d = c ∧ c ≠ "."%char ∧ c ≠ "_"%char).
Proof.
  destruct (decide (c = "_"%char)) as [->|Hc]; [by vm_compute|].
  unfold sanitize_rune. cbv zeta. case_bool_decide; [intros [= <-]; by left|].
  destruct (_ || _ || _); [|done]. intros [= <-]. by right.
Qed.

Lemma sanitize_rune_inj c c' d : sanitize_rune c = Some d → sanitize_rune c' = Some d → c = c'.
Proof. intros H1%sanitize_rune_cases H2%sanitize_rune_cases. naive_solver. Qed.

Lemma strings_Map_inj s1 s2 :
  all_chars node_char s1 = true → all_chars node_char s2 = true →
  strings_Map sanitize_rune s1 = strings_Map sanitize_rune s2 → s1 = s2.
Proof.
  unfold node_char. revert s2. induction s1 as [|c1 s1 IH]; intros [|c2 s2]; cbn.
  - done.
  - by destruct (sanitize_rune c2).
  - by destruct (sanitize_rune c1).
  - destruct (sanitize_rune c1) as [d1|] eqn:H1, (sanitize_rune c2) as [d2|] eqn:H2; try done; cbn.
    intros Hs1 Hs2 [= -> Heq]. by rewrite (sanitize_rune_inj _ _ _ H1 H2), (IH s2 Hs1 Hs2 Heq).
Qed.

Lemma strings_Map_length f s : (String.length (strings_Map f s) ≤ String.length s)%nat.
Proof. induction s as [|c s IH]; cbn; [lia|]. destruct (f c); cbn; lia. Qed.

Lemma sanitize_short n :
  (String.length n ≤ 243)%nat → sanitizeNodeSubscriberName n = "worker-node-" +:+ strings_Map sanitize_rune n.
Proof.
  intros Hn. unfold sanitizeNodeSubscriberName. cbv zeta. rewrite bool_decide_false; [done|].
  rewrite string_length_app. pose proof (strings_Map_length sanitize_rune n). cbn. lia.
Qed.

(** Two nodes never share a consumer: names of node characters (lower-case
    letters, digits, dashes and dots) short enough not to be truncated are
    mapped to different consumer names. *)
Theorem node_consumers_distinct (n1 n2 : string) :
  all_chars node_char n1 = true → all_chars node_char n2 = true →
  (String.length n1 ≤ 243)%nat → (String.length n2 ≤ 243)%nat →
  sanitizeNodeSubscriberName n1 = sanitizeNodeSubscriberName n2 → n1 = n2.
Proof.
  intros Hc1 Hc2 Hl1 Hl2. rewrite !sanitize_short by done. intros Heq.
  apply strings_Map_inj; [done|done|]. by injection Heq.
Qed.

Lemma node_consumers_distinct_witness :
  sanitizeNodeSubscriberName "node.1" ≠ sanitizeNodeSubscriberName "node-1".
Proof.
  intros Heq. apply node_consumers_distinct in Heq; [discriminate|reflexivity|reflexivity| |]; vm_compute; lia.
Defined.

(** ** The calls of the handlers *)

(** The subjects of registry mode. *)
Definition registry_subjects : list string := [CreateCatalogSubject; GenerateSBOMSubject; ScanSBOMSubject].

(** A handler settles nothing, and sends messages on these subjects only. *)
Definition inner_call A (e : Eff A) : Prop :=
  match e with
  | PublishMsg s _ _ => s ∈ registry_subjects
  | _ => unsettling A e
  end.

(** Every call of every run of [p] satisfies [P]. *)
Definition only (P : ∀ A, Eff A → Prop) {R} (p : go R) : Prop :=
  wp any_answer p [] (λ tr _, Forall (obs_call P) tr).
Abbreviation inner := (only inner_call).

Lemma calls_only P {R} (p : go R) : calls P p → only P p.
Proof. intros Hp. apply calls_wp; [done|constructor]. Qed.

Lemma only_mono (P P' : ∀ A, Eff A → Prop) {R} (p : go R) :
  (∀ A e, P A e → P' A e) → only P p → only P' p.
Proof.
  intros HP. apply wp_mono. intros tr r Htr. eapply Forall_impl; [exact Htr|]. intros [A e a]. apply HP.
Qed.

Lemma only_bind P {A B} (p : go A) (k : A → go B) : only P p → (∀ a, only P (k a)) → only P (p ≫= k).
Proof.
  intros Hp Hk. eapply wp_seq; [exact Hp|]. intros ext a Hext. eapply wp_mono; [|apply Hk].
  intros ext' r Hext'. by apply Forall_app.
Qed.

Lemma only_try P {A B} (p : go (result A)) w (k : A → go (result B)) :
  only P p → (∀ a, only P (k a)) → only P (try_bind p w k).
Proof. intros Hp Hk. apply only_bind; [done|]. intros [a|e]; [apply Hk|constructor]. Qed.

(** [controllerutil.CreateOrUpdate] reads, creates and updates. *)
Lemma only_CreateOrUpdate `{!CreateOrUpdater} (P : ∀ A, Eff A → Prop) k key o mutate :
  P _ (KGet k key) → (∀ o', P _ (KCreate k o')) → (∀ o', P _ (KUpdate k o')) → only P (CreateOrUpdate k key o mutate).
Proof.
  intros Hg Hc Hu. eapply wp_mono; [|apply CreateOrUpdate_ok]. intros tr r (answer & rest & -> & Hcase).
  constructor; [done|]. destruct answer as [existing|e].
  - destruct (mutate existing); [destruct Hcase as [(-> & _)|(answer & -> & _)]|destruct Hcase as [-> _]];
      repeat constructor; apply Hu.
  - destruct (IsNotFound e), (mutate o); first [destruct Hcase as (answer & -> & _)|destruct Hcase as [-> _]];
      repeat constructor; apply Hc.
Qed.

(** The calls of a handler that leaves the status of the job alone. *)
Definition quiet_call A (e : Eff A) : Prop :=
  inner_call A e ∧ match e with KStatusUpdate _ _ => False | _ => True end.

Lemma quiet_inner {R} (p : go R) : only quiet_call p → inner p.
Proof. apply only_mono. by intros A e []. Qed.

Lemma inner_unsettled {R} (p : go R) : inner p → unsettled p.
Proof. apply only_mono. intros A e. by destruct e. Qed.

Lemma registry_inner t A (e : Eff A) : registry_call t A e → inner_call A e.
Proof. by destruct e. Qed.

Lemma inner_registry t {R} (p : go R) : calls (registry_call t) p → calls inner_call p.
Proof. apply calls_mono, registry_inner. Qed.
Lemma quiet_registry t {R} (p : go R) : calls (registry_call t) p → calls quiet_call p.
Proof. apply calls_mono. intros A e He. split; [by eapply registry_inner|]. by destruct e. Qed.

Create HintDb registry.
#[local] Hint Resolve Catalog_calls ListRepositoryContents_calls GetDescriptor_calls
  GetImageDetailsFromIndex_calls GetImageDetails_calls : registry.

Ltac inner_step :=
  lazymatch goal with
  | |- calls _ (let _ := _ in _) => cbv zeta
  | |- calls _ _ => first [calls_step | eapply inner_registry; solve [eauto with registry] | eapply quiet_registry; solve [eauto with registry]]
  | |- quiet_call _ _ => split; [|exact I]
  | |- inner_call _ _ => first [exact I | cbn; set_solver]
  end.

Section worker.
Context `{!StatusConditions, !ControllerUtil, !Names, !MediaTypes, !CEL, !X509, !MapRange, !Retry}.
Context `{!Trivy, !YAML, !CreateOrUpdater, !Float64}.
Context `{!JSON Registry, !JSON CreateCatalogMessage, !JSON GenerateSBOMMessage, !JSON ScanSBOMMessage}.
Context `{!JSON BaseMessage, !JSON (list trivyResult)}.

(** The part of the configuration the handlers use. *)
Record Config := {
  cfg_InstallationNamespace : string;
  cfg_RunDir : string;
  cfg_TrivyDBRepository : string;
  cfg_TrivyJavaDBRepository : string
}.
Context (cfg : Config).

Lemma create_catalog_inner data : inner (CreateCatalog.Handle (cfg_InstallationNamespace cfg) data).
Proof.
  apply (calls_only inner_call).
  unfold CreateCatalog.Handle, start_once, create_catalog, catalog, complete_catalog, transportFromRegistry,
    process_reference, create_image, refToImages, multiArchRefToImages, singleArchRefToImages, index_entry,
    discoverRepositories, discover_one, discoverImages, deleteObsoleteImages, delete_image, finish_once, request_sbom,
    Resolve, readRef, readConfigMapKey, readSecretKey, BuildDockerConfigForRegistry, createDockerConfigJSON,
    RecordScanJobFinished.
  repeat inner_step.
Qed.

Lemma generate_sbom_quiet data :
  only quiet_call (GenerateSBOM.Handle (cfg_RunDir cfg) (cfg_TrivyJavaDBRepository cfg) (cfg_InstallationNamespace cfg) data).
Proof.
  apply (calls_only quiet_call).
  unfold GenerateSBOM.Handle, generate, getOrGenerateSBOM, findSBOMByDigest, generateSPDX, run_trivy_image,
    execute_and_read, publish_scan,
    Resolve, readRef, readConfigMapKey, readSecretKey, BuildDockerConfigForRegistry, createDockerConfigJSON.
  repeat inner_step.
Qed.

Lemma CreateOrUpdate_quiet k key o mutate : only quiet_call (CreateOrUpdate k key o mutate).
Proof. by apply only_CreateOrUpdate. Qed.

Lemma runTrivyScan_quiet rawSPDX :
  only quiet_call (runTrivyScan (cfg_RunDir cfg) (cfg_TrivyDBRepository cfg) (cfg_TrivyJavaDBRepository cfg) rawSPDX).
Proof.
  apply (calls_only quiet_call).
  unfold runTrivyScan, scan_with_sbom, scan_in_home, execute_scan, setupVEXHubRepositories. repeat inner_step.
Qed.

Lemma scan_sbom_quiet data :
  only quiet_call (ScanSBOM.Handle (cfg_RunDir cfg) (cfg_TrivyDBRepository cfg) (cfg_TrivyJavaDBRepository cfg) data).
Proof.
  unfold ScanSBOM.Handle, scan. cbv zeta. destruct (Unmarshal data); [|constructor].
  apply only_bind; [by apply (calls_only quiet_call)|]. intros [job|e]; [|by apply (calls_only quiet_call); repeat inner_step].
  destruct (negb _); [by apply (calls_only quiet_call); repeat inner_step|].
  destruct (ScanJob.IsFailed job); [by apply (calls_only quiet_call); repeat inner_step|].
  destruct (registryFromScanJob job); [|constructor].
  apply only_bind; [by apply (calls_only quiet_call)|]. intros [sbom|e]; [|by apply (calls_only quiet_call); repeat inner_step].
  apply only_bind; [apply runTrivyScan_quiet|]. intros r.
  apply only_bind; [by apply (calls_only quiet_call)|]. intros _.
  destruct r as [[results summary]|e]; [|constructor].
  destruct (SetControllerReference _ _ _); [|constructor].
  apply only_try; [apply CreateOrUpdate_quiet|by constructor].
Qed.

Lemma scanjob_failure_inner data errorMessage : inner (ScanJob_HandleFailure data errorMessage).
Proof.
  apply (calls_only inner_call). unfold ScanJob_HandleFailure, fail_job, fail_once, update_once, RecordScanJobFinished. repeat inner_step.
Qed.

(** ** The worker in registry mode *)

Definition registry_handlers : gmap string Handler :=
  <[CreateCatalogSubject := {| hd_unsettled := λ data, inner_unsettled _ (create_catalog_inner data) |}]>
  (<[GenerateSBOMSubject := {| hd_unsettled := λ data, inner_unsettled _ (quiet_inner _ (generate_sbom_quiet data)) |}]>
  (<[ScanSBOMSubject := {| hd_unsettled := λ data, inner_unsettled _ (quiet_inner _ (scan_sbom_quiet data)) |}]> ∅)).

Definition failure_handler : FailureHandler :=
  {| fh_unsettled := λ data errorMessage, inner_unsettled _ (scanjob_failure_inner data errorMessage) |}.

(** [0.2] is the nearest [float64]. *)
Definition retryConfig : RetryConfig :=
  {| rc_BaseDelay := 5 * 1000000000; rc_Jitter := rnd (2 # 10); rc_MaxAttempts := 5 |}.

Definition on_message (subject data : string) : go (result unit) :=
  consume registry_handlers failure_handler retryConfig subject data.

(** ** Facts *)

(** A message goes to a subject of the worker. *)
Definition served A (e : Eff A) : Prop :=
  match e with PublishMsg s _ _ => s ∈ registry_subjects | _ => True end.

Lemma inner_served {R} (p : go R) : inner p → only served p.
Proof. apply only_mono. intros A e. by destruct e. Qed.

Lemma handlers_served subject hd data :
  registry_handlers !! subject = Some hd → only served (hd_Handle hd data).
Proof.
  unfold registry_handlers. rewrite !lookup_insert_Some, lookup_empty.
  intros [[_ <-]|[_ [[_ <-]|[_ [[_ <-]|[_ ?]]]]]]; [| | |done]; apply inner_served;
    [apply create_catalog_inner|apply quiet_inner, generate_sbom_quiet|apply quiet_inner, scan_sbom_quiet].
Qed.

Lemma on_message_served subject data : only served (on_message subject data).
Proof.
  unfold on_message, consume, handleMessage, handleFailure.
  apply only_bind; [by apply calls_only|]. intros [n|e]; [|by apply calls_only].
  apply only_bind.
  { destruct (_ !! subject) eqn:Hs; [|constructor]. apply only_try; [|by constructor].
    by eapply handlers_served. }
  intros r. destruct (panicked r); [constructor|]. destruct r as [[]|e]; [by apply calls_only|].
  case_bool_decide.
  - apply only_bind; [apply inner_served, scanjob_failure_inner|]. intros r.
    destruct (panicked r); [constructor|by apply calls_only].
  - apply calls_only. unfold backoffDelay. repeat calls_step; exact I.
Qed.

Lemma registry_handlers_dom : dom registry_handlers = list_to_set registry_subjects.
Proof. unfold registry_handlers, registry_subjects. rewrite !dom_insert_L, dom_empty_L. done. Qed.

Lemma subjects_served s : s ∈ registry_subjects → is_Some (registry_handlers !! s).
Proof.
  unfold registry_subjects, registry_handlers. intros Hs.
  rewrite !lookup_insert_is_Some. set_solver.
Qed.

(** The pipeline is closed: whatever message the worker is given, and
    whatever happens while it is processed, every message the worker sends is
    on a subject for which it has a handler. *)
Theorem pipeline_closed {W} (h : handler Eff W) (w : W) (subject data : string) :
  Forall (λ m, is_Some (registry_handlers !! m.1.1.1))
    (omap ev_publish (run_trace h (on_message subject data) w)).
Proof.
  pose proof (wp_run_any h (on_message subject data) w _ (on_message_served subject data)) as Hs.
  cbn beta in Hs. induction Hs as [|[A e a] tr He _ IH]; [constructor|].
  destruct e; cbn; try exact IH. constructor; [|exact IH]. by apply subjects_served.
Qed.
End worker.
