(* ===== verification/NodeWorker.v ===== *)
(** * The worker in node mode

    [src/cmd/worker/main.go] with [-mode node]: the handlers of the worker of
    one node, and where the messages it sends go. *)

From stdpp Require Import prelude gmap strings list.
From Stdlib Require Import QArith.
From S2P Require Import Prelude Prog Meta Conditions ScanJob NodeScanJob Filters StorageTypes GoPath Report Effects StatusUpdate Messages GenerateNodeSBOM ScanSBOM NodeScanSBOM FailureHandlers Subscriber Worker.
Import NodeScanJob.

(** A handler of the node worker settles nothing, and writes the status of no scan
    job of a registry. *)
Definition node_call A (e : Eff A) : Prop :=
  unsettling A e ∧ match e with KStatusUpdate KScanJob _ => False | _ => True end.

Lemma node_unsettled {R} (p : go R) : only node_call p → unsettled p.
Proof. apply only_mono. by intros A e []. Qed.

Lemma CreateOrUpdate_only `{!CreateOrUpdater} k key o mutate : only node_call (CreateOrUpdate k key o mutate).
Proof. eapply only_mono; [|apply CreateOrUpdate_quiet]. intros A e []. by destruct e. Qed.

(** Proves [only P p] for a program made of the combinators; what is left are
    the calls themselves. *)
Ltac only_step :=
  lazymatch goal with
  | |- only _ (Ret _) => apply calls_only; exact I
  | |- only _ (trigger _) => apply calls_only; split; [|done]
  | |- only _ (try_bind _ _ _) => apply only_try; [|intros ?]
  | |- only _ (_ ≫= _) => apply only_bind; [|intros ?]
  | |- only _ (RetryOnConflict _) => apply calls_only, calls_retry; repeat calls_step
  | |- only _ (CreateOrUpdate _ _ _ _) => apply CreateOrUpdate_only
  | |- only _ (match ?r with _ => _ end) => destruct r eqn:?
  end.

Section node_worker.
Context `{!StatusConditions, !ControllerUtil, !Retry, !CreateOrUpdater, !Trivy, !YAML, !Float64}.
Context `{!JSON NodeScanConfiguration, !JSON GenerateNodeSBOMMessage, !JSON ScanNodeSBOMMessage}.
Context `{!JSON NodeBaseMessage, !JSON (list trivyResult)}.
Context (cfg : Config) (targetDir : string).

Definition generate_node_handle (data : string) : go (result unit) :=
  GenerateNodeSBOM.Handle (cfg_RunDir cfg) targetDir (cfg_TrivyJavaDBRepository cfg) data.
Definition scan_node_handle (data : string) : go (result unit) :=
  NodeScanSBOM.Handle (cfg_RunDir cfg) (cfg_TrivyDBRepository cfg) (cfg_TrivyJavaDBRepository cfg) data.

Lemma generate_node_calls data : only node_call (generate_node_handle data).
Proof.
  unfold generate_node_handle, GenerateNodeSBOM.Handle, begin_node_scan, begin_once, update_once, scan_live_node,
    generate_node, generateNodeSBOM, node_generateSPDX, request_node_scan. cbv zeta.
  repeat only_step; done.
Qed.

Lemma scan_node_calls data : only node_call (scan_node_handle data).
Proof.
  unfold scan_node_handle, NodeScanSBOM.Handle, begin_scan, scan_node, complete_node_scan, update_once, runTrivyScan,
    scan_with_sbom, scan_in_home, execute_scan, setupVEXHubRepositories, RecordNodeScanJobFinished. cbv zeta.
  repeat only_step; done.
Qed.

Lemma node_failure_calls data errorMessage : only node_call (NodeScanJob_HandleFailure data errorMessage).
Proof.
  unfold NodeScanJob_HandleFailure, fail_job, fail_once, update_once, RecordNodeScanJobFinished. cbv zeta.
  repeat only_step; done.
Qed.

(** ** The handlers of the worker of a node *)

Definition node_handlers (nodeName : string) : gmap string Handler :=
  <[GenerateNodeSBOMSubject +:+ "." +:+ nodeName := {| hd_unsettled := λ data, node_unsettled _ (generate_node_calls data) |}]>
  (<[ScanNodeSBOMSubject +:+ "." +:+ nodeName := {| hd_unsettled := λ data, node_unsettled _ (scan_node_calls data) |}]> ∅).

Lemma node_handlers_dom nodeName :
  dom (node_handlers nodeName) =
  list_to_set [GenerateNodeSBOMSubject +:+ "." +:+ nodeName; ScanNodeSBOMSubject +:+ "." +:+ nodeName].
Proof. unfold node_handlers. rewrite !dom_insert_L, dom_empty_L. done. Qed.

Definition node_failure_handler : FailureHandler := {| fh_unsettled := λ data errorMessage, node_unsettled _ (node_failure_calls data errorMessage) |}.

Definition node_on_message (nodeName subject data : string) : go (result unit) :=
  consume (node_handlers nodeName) node_failure_handler retryConfig subject data.

(** ** Where its messages go *)

(** Every message of a run is on the scan subject of the node of a job that the
    API server answered with in that run. *)
Definition routed (tr : trace Eff) : Prop :=
  Forall (λ m, ∃ (o job : NodeScanJob), (o, Ok job) ∈ omap (ev_status KNodeScanJob) tr ∧
            m.1.1.1 = ScanNodeSBOMSubject +:+ "." +:+ np_NodeName (nj_Spec job))
    (omap ev_publish tr).

Lemma routed_app tr tr' : routed tr → routed tr' → routed (tr ++ tr').
Proof.
  intros H1' H2'. unfold routed. rewrite !omap_app. apply Forall_app.
  split; (eapply Forall_impl; [eassumption|]); intros m (o & job & ? & ?); exists o, job;
    rewrite elem_of_app; auto.
Qed.

Definition unsent A (e : Eff A) : Prop := publishes e = false.

Lemma unsent_routed tr : Forall (obs_call unsent) tr → routed tr.
Proof.
  intros Htr. unfold routed. rewrite (omap_calls unsent ev_publish); [constructor| |done].
  intros A e a. by destruct e.
Qed.

Lemma generate_routed data : wp any_answer (generate_node_handle data) [] (λ tr _, routed tr).
Proof.
  eapply wp_mono; [|apply Handle_outcome]. intros tr r.
  destruct (Unmarshal data) as [message|e]; [|by intros [-> _]; constructor].
  assert (∀ tr, clean tr → routed tr) as Hclean.
  { intros tr' [Hc _]. apply unsent_routed. eapply Forall_impl; [exact Hc|]. intros [A e a]. by destruct e. }
  intros [Hc _|job still pre d a [_ _ (read & written & _ & Hw & _) _] Hc _ -> _]; [by apply Hclean|].
  pose proof (Hclean _ Hc) as Hpre. unfold routed in *. rewrite !omap_app. apply Forall_app. split.
  - eapply Forall_impl; [exact Hpre|]. intros m (o & j & ? & ?). exists o, j. rewrite elem_of_app. auto.
  - repeat constructor. exists written, job. split; [|done]. rewrite elem_of_app. by left.
Qed.

Lemma quiet_routed {R} (p : go R) : only unsent p → wp any_answer p [] (λ tr _, routed tr).
Proof. apply wp_mono. intros tr _. apply unsent_routed. Qed.

Lemma CreateOrUpdate_unsent k key o mutate : only unsent (CreateOrUpdate k key o mutate).
Proof. by apply only_CreateOrUpdate. Qed.

Lemma scan_node_unsent data : only unsent (scan_node_handle data).
Proof.
  unfold scan_node_handle, NodeScanSBOM.Handle, begin_scan, scan_node, complete_node_scan, update_once, runTrivyScan,
    scan_with_sbom, scan_in_home, execute_scan, setupVEXHubRepositories, RecordNodeScanJobFinished. cbv zeta.
  repeat first [apply CreateOrUpdate_unsent | only_step]; done.
Qed.

Lemma node_failure_unsent data errorMessage : only unsent (NodeScanJob_HandleFailure data errorMessage).
Proof.
  unfold NodeScanJob_HandleFailure, fail_job, fail_once, update_once, RecordNodeScanJobFinished. cbv zeta.
  repeat only_step; done.
Qed.

Lemma node_handlers_routed nodeName subject hd data :
  node_handlers nodeName !! subject = Some hd → wp any_answer (hd_Handle hd data) [] (λ tr _, routed tr).
Proof.
  unfold node_handlers. rewrite !lookup_insert_Some, lookup_empty.
  intros [[_ <-]|[_ [[_ <-]|[_ ?]]]]; [apply generate_routed|apply quiet_routed, scan_node_unsent|done].
Qed.

Lemma routed_bind {A B} (p : go A) (k : A → go B) :
  wp any_answer p [] (λ tr _, routed tr) → (∀ a, wp any_answer (k a) [] (λ tr _, routed tr)) →
  wp any_answer (p ≫= k) [] (λ tr _, routed tr).
Proof.
  intros Hp Hk. eapply wp_seq; [exact Hp|]. intros ext a Hext. eapply wp_mono; [|apply Hk].
  intros ext' r. by apply routed_app.
Qed.

Lemma node_on_message_routed nodeName subject data :
  wp any_answer (node_on_message nodeName subject data) [] (λ tr _, routed tr).
Proof.
  unfold node_on_message, consume, handleMessage, handleFailure.
  apply routed_bind; [by apply quiet_routed, calls_only|]. intros [n|e]; [|by apply quiet_routed, calls_only].
  apply routed_bind.
  { destruct (_ !! subject) eqn:Hs; [|constructor]. apply routed_bind; [by eapply node_handlers_routed|].
    intros [?|?]; constructor. }
  intros r. destruct (panicked r); [constructor|]. destruct r as [[]|e]; [by apply quiet_routed, calls_only|].
  case_bool_decide.
  - apply routed_bind; [apply quiet_routed, node_failure_unsent|]. intros r.
    destruct (panicked r); [constructor|by apply quiet_routed, calls_only].
  - apply quiet_routed, calls_only. unfold backoffDelay. repeat calls_step; done.
Qed.

(** The pipeline of the nodes is closed: whatever message the worker of a node
    is given, and whatever happens while it is processed, every message it sends
    is for the node of a job that the API server returned in that run, on a
    subject for which the worker of that node has a handler. *)
Theorem node_pipeline {W} (h : handler Eff W) (w : W) (nodeName subject data : string) :
  let tr := run_trace h (node_on_message nodeName subject data) w in
  Forall (λ m, ∃ o job, (o, Ok job) ∈ omap (ev_status KNodeScanJob) tr ∧
            is_Some (node_handlers (np_NodeName (nj_Spec job)) !! m.1.1.1))
    (omap ev_publish tr).
Proof.
  intros tr. pose proof (wp_run_any h _ w _ (node_on_message_routed nodeName subject data)) as Hr.
  fold tr in Hr. unfold routed in Hr. eapply Forall_impl; [exact Hr|].
  intros m (o & job & Hin & ->). exists o, job. split; [exact Hin|].
  unfold node_handlers. rewrite !lookup_insert_is_Some. right. split; [|by left].
  intros Heq. by injection Heq.
Qed.
End node_worker.
