(* ===== verification/Sql.v ===== *)
(** * The queries of the storage

    The SQL the repositories of [src/internal/storage/repository] build: JSON
    documents, the expressions over the columns of a table, and what a statement
    does to a table.  An expression that is neither true nor false is NULL, and
    a row is selected only when every condition is true, as PostgreSQL's manual
    has it (Functions and Operators: Comparison, JSON Functions, Row and Array
    Comparisons). *)

From stdpp Require Import prelude gmap strings list sorting.
From Stdlib Require Import ZArith Lia Ascii.
From S2P Require Import Prelude Strconv.
Open Scope Z_scope.

(** ** Documents *)

(** A number is its literal. *)
Inductive json :=
| JNull
| JBool (b : bool)
| JNumber (literal : string)
| JString (s : string)
| JArray (l : list json)
| JObject (m : list (string * json)).

(** Induction over the documents inside a document. *)
Section json_induction.
Context (P : json → Prop).
Context (Hnull : P JNull) (Hbool : ∀ b, P (JBool b)) (Hnum : ∀ n, P (JNumber n)) (Hstr : ∀ s, P (JString s)).
Context (Harr : ∀ l, Forall P l → P (JArray l)) (Hobj : ∀ m, Forall (λ f, P f.2) m → P (JObject m)).

Fixpoint json_nested_ind (j : json) : P j :=
  match j with
  | JNull => Hnull
  | JBool b => Hbool b
  | JNumber n => Hnum n
  | JString s => Hstr s
  | JArray l =>
      Harr l ((fix go (l : list json) : Forall P l :=
                 match l with
                 | [] => Forall_nil_2 P
                 | j :: l' => Forall_cons_2 P j l' (json_nested_ind j) (go l')
                 end) l)
  | JObject m =>
      Hobj m ((fix go (m : list (string * json)) : Forall (λ f, P f.2) m :=
                 match m with
                 | [] => Forall_nil_2 _
                 | f :: m' => Forall_cons_2 (λ f, P f.2) f m' (json_nested_ind f.2) (go m')
                 end) m)
  end.
End json_induction.

Definition member (j : json) (k : string) : option json :=
  match j with JObject m => assoc k m | _ => None end.

(** [j @> d]: [d] is contained in [j]. *)
Fixpoint contains (j d : json) {struct d} : bool :=
  match d with
  | JObject dm =>
      match j with
      | JObject jm =>
          (fix all (dm : list (string * json)) : bool :=
             match dm with
             | [] => true
             | (k, d') :: dm' => match assoc k jm with Some j' => contains j' d' | None => false end && all dm'
             end) dm
      | _ => false
      end
  | JArray dl =>
      match j with
      | JArray jl =>
          (fix all (dl : list json) : bool :=
             match dl with
             | [] => true
             | d' :: dl' => existsb (λ j', contains j' d') jl && all dl'
             end) dl
      | _ => false
      end
  | JNull => match j with JNull => true | _ => false end
  | JBool b => match j with JBool b' => Bool.eqb b b' | _ => false end
  | JNumber n => match j with JNumber n' => bool_decide (n = n') | _ => false end
  | JString s => match j with JString s' => bool_decide (s = s') | _ => false end
  end.

(** ** Values and expressions *)

Inductive value :=
| VNull
| VText (s : string)
| VBigint (n : Z)
| VJsonb (j : json)
| VBool (b : bool).

Inductive column := C_id | C_name | C_namespace | C_object.

Inductive expr :=
| Col (c : column)
| Arg (v : value)
| Arrow (e : expr) (k : string)                     (** [e -> k] *)
| ArrowText (e : expr) (k : string)                 (** [e ->> k] *)
| PathText (e : expr) (path : string)               (** [e #>> path] *)
| CastBigint (e : expr)                             (** [e::bigint] *)
| EQ (a b : expr)
| NE (a b : expr)
| GT (a b : expr)                                   (** of two [bigint]s *)
| GE (a b : expr)                                   (** of two [bigint]s *)
| EqAny (e : expr) (vs : list string)               (** [e = ANY(vs)] *)
| NeAll (e : expr) (vs : list string)               (** [e != ALL(vs)] *)
| JsonbExists (e : expr) (k : string)
| Not (e : expr)
| Contains (e : expr) (d : json)                    (** [e @> d] *)
| InRows (es : list expr) (rows : list (list string)).  (** [(es) IN (SELECT ... FROM unnest(...))] *)

(** The identifier is the cursor of list operations; [name] and [namespace] are
    unique together. *)
Record row := { row_id : Z; row_name : string; row_namespace : string; row_object : json }.

(** A part of a path that a text-array literal holds as it is. *)
Definition lower (c : ascii) : ascii :=
  let n := nat_of_ascii c in if bool_decide (65 ≤ n ∧ n ≤ 90)%nat then ascii_of_nat (n + 32) else c.
Definition letter (c : ascii) : bool :=
  let n := nat_of_ascii (lower c) in bool_decide (97 ≤ n ∧ n ≤ 122)%nat.
Definition plain_part (p : string) : bool :=
  bool_decide (p ≠ "") && forallb letter (String.list_ascii_of_string p) &&
  bool_decide (lower <$> String.list_ascii_of_string p ≠ String.list_ascii_of_string "null").

(** The text of a document that is not a string, and the elements of a
    text-array literal. *)
Class Postgres := {
  jsonb_text : json → string;
  text_array : string → option (list string);
  text_array_plain : ∀ parts : list string,
    forallb plain_part parts = true → parts ≠ [] →
    text_array ("{" +:+ join "," parts +:+ "}") = Some parts
}.

Create HintDb sql.

(** ** Evaluation

    [None] is an error that makes the statement fail. *)

Section eval.
Context `{!Postgres}.

Definition column_value (r : row) (c : column) : value :=
  match c with
  | C_id => VBigint (row_id r)
  | C_name => VText (row_name r)
  | C_namespace => VText (row_namespace r)
  | C_object => VJsonb (row_object r)
  end.

Definition arrow (v : value) (k : string) : option value :=
  match v with
  | VNull => Some VNull
  | VJsonb j => Some (match member j k with Some j' => VJsonb j' | None => VNull end)
  | _ => None
  end.

(** JSON null becomes NULL. *)
Definition as_text (v : value) : option value :=
  match v with
  | VNull | VJsonb JNull => Some VNull
  | VJsonb (JString s) => Some (VText s)
  | VJsonb j => Some (VText (jsonb_text j))
  | _ => None
  end.

Fixpoint walk (j : json) (path : list string) : option json :=
  match path with
  | [] => Some j
  | k :: path' => match member j k with Some j' => walk j' path' | None => None end
  end.

Definition path_text (v : value) (path : string) : option value :=
  match v, text_array path with
  | VNull, _ => Some VNull
  | VJsonb j, Some parts => as_text (match walk j parts with Some j' => VJsonb j' | None => VNull end)
  | _, _ => None
  end.

Definition to_bigint (v : value) : option value :=
  match v with
  | VNull => Some VNull
  | VText s => match ParseInt s with Ok n => Some (VBigint n) | Err _ => None end
  | _ => None
  end.

Definition compare_ints (f : Z → Z → bool) (a b : value) : option value :=
  match a, b with
  | VNull, _ | _, VNull => Some VNull
  | VBigint m, VBigint n => Some (VBool (f m n))
  | _, _ => None
  end.

Definition text_eq (s t : string) : bool := bool_decide (s = t).

Definition equal (a b : value) : option value :=
  match a, b with
  | VText s, VText t => Some (VBool (text_eq s t))
  | _, _ => compare_ints Z.eqb a b
  end.

(** The comparison of two rows, field by field. *)
Fixpoint rows_equal (vs : list value) (ss : list string) : option value :=
  match vs, ss with
  | [], [] => Some (VBool true)
  | VText t :: vs', s :: ss' => if text_eq t s then rows_equal vs' ss' else Some (VBool false)
  | VNull :: vs', _ :: ss' =>
      match rows_equal vs' ss' with Some (VBool false) => Some (VBool false) | Some _ => Some VNull | None => None end
  | _, _ => None
  end.

Fixpoint in_rows (vs : list value) (rows : list (list string)) : option value :=
  match rows with
  | [] => Some (VBool false)
  | ss :: rows' =>
      match rows_equal vs ss, in_rows vs rows' with
      | Some (VBool true), Some _ => Some (VBool true)
      | Some (VBool false), o => o
      | Some VNull, Some (VBool true) => Some (VBool true)
      | Some VNull, Some _ => Some VNull
      | _, _ => None
      end
  end.

Definition quantified (v : value) (vs : list string) (some : bool) : option value :=
  match v, vs with
  | _, [] => Some (VBool (negb some))
  | VNull, _ => Some VNull
  | VText t, _ => Some (VBool (if some then existsb (text_eq t) vs else forallb (λ s, negb (text_eq t s)) vs))
  | _, _ => None
  end.

Definition not3 (v : value) : option value :=
  match v with VNull => Some VNull | VBool b => Some (VBool (negb b)) | _ => None end.

Definition exists_key (v : value) (k : string) : option value :=
  match v with
  | VNull => Some VNull
  | VJsonb (JObject m) => Some (VBool (bool_decide (is_Some (assoc k m))))
  | VJsonb (JArray l) => Some (VBool (existsb (λ j, match j with JString s => text_eq s k | _ => false end) l))
  | VJsonb (JString s) => Some (VBool (text_eq s k))
  | VJsonb _ => Some (VBool false)
  | _ => None
  end.

Fixpoint eval (r : row) (e : expr) : option value :=
  match e with
  | Col c => Some (column_value r c)
  | Arg v => Some v
  | Arrow e k => v ← eval r e; arrow v k
  | ArrowText e k => v ← eval r e; v' ← arrow v k; as_text v'
  | PathText e path => v ← eval r e; path_text v path
  | CastBigint e => v ← eval r e; to_bigint v
  | EQ a b => va ← eval r a; vb ← eval r b; equal va vb
  | NE a b => va ← eval r a; vb ← eval r b; v ← equal va vb; not3 v
  | GT a b => va ← eval r a; vb ← eval r b; compare_ints (λ m n, n <? m) va vb
  | GE a b => va ← eval r a; vb ← eval r b; compare_ints (λ m n, n <=? m) va vb
  | EqAny e vs => v ← eval r e; quantified v vs true
  | NeAll e vs => v ← eval r e; quantified v vs false
  | JsonbExists e k => v ← eval r e; exists_key v k
  | Not e => v ← eval r e; not3 v
  | Contains e d => v ← eval r e;
      match v with VNull => Some VNull | VJsonb j => Some (VBool (contains j d)) | _ => None end
  | InRows es rows =>
      vs ← (fix evals (es : list expr) : option (list value) :=
              match es with [] => Some [] | e :: es' => v ← eval r e; vs ← evals es'; Some (v :: vs) end) es;
      in_rows vs rows
  end.

(** The equations of the operators, with their operands left alone. *)
Lemma eval_EQ r a b : eval r (EQ a b) = (va ← eval r a; vb ← eval r b; equal va vb).
Proof. done. Qed.
Lemma eval_NE r a b : eval r (NE a b) = (va ← eval r a; vb ← eval r b; v ← equal va vb; not3 v).
Proof. done. Qed.
Lemma eval_EqAny r e vs : eval r (EqAny e vs) = (v ← eval r e; quantified v vs true).
Proof. done. Qed.
Lemma eval_NeAll r e vs : eval r (NeAll e vs) = (v ← eval r e; quantified v vs false).
Proof. done. Qed.
Lemma eval_Not r e : eval r (Not e) = (v ← eval r e; not3 v).
Proof. done. Qed.

(** A row is selected when every condition is true. *)
Fixpoint selected (conds : list expr) (r : row) : option bool :=
  match conds with
  | [] => Some true
  | e :: conds' =>
      match eval r e with
      | Some (VBool true) => selected conds' r
      | Some (VBool false) | Some VNull => Some false
      | _ => None
      end
  end.

Fixpoint where_rows (conds : list expr) (rows : list row) : option (list row) :=
  match rows with
  | [] => Some []
  | r :: rows' =>
      b ← selected conds r; rs ← where_rows conds rows'; Some (if b : bool then r :: rs else rs)
  end.

End eval.

Create Rewrite HintDb sql.
#[export] Hint Rewrite @eval_EQ @eval_NE @eval_EqAny @eval_NeAll @eval_Not : sql.

(** ** Statements *)

(** A table: its rows and the next value of its identifier.  The order of the
    rows is that of the heap. *)
Record relation := { rl_rows : list row; rl_next : Z }.

Definition empty_relation : relation := {| rl_rows := []; rl_next := 1 |}.

(** A selection: [LIMIT] is absent when it is [None], and an error when it is negative. *)
Record select := { sel_where : list expr; sel_order_by_id : bool; sel_limit : option Z }.

Definition row_key (r : row) : string * string := (row_name r, row_namespace r).

#[export] Instance row_le_dec : RelDecision (λ r1 r2, row_id r1 ≤ row_id r2).
Proof. intros r1 r2. apply _. Defined.

Definition order_by_id (rows : list row) : list row := merge_sort (λ r1 r2, row_id r1 ≤ row_id r2) rows.

Section statements.
Context `{!Postgres}.

Definition sql_select (q : select) (t : relation) : option (list row) :=
  match where_rows (sel_where q) (rl_rows t) with
  | None => None
  | Some rows =>
      let rows := if sel_order_by_id q then order_by_id rows else rows in
      match sel_limit q with
      | Some n => if n <? 0 then None else Some (take (Z.to_nat n) rows)
      | None => Some rows
      end
  end.

(** [INSERT ... ON CONFLICT DO NOTHING]: the number of rows, and the table.  The
    identifier is drawn in either case. *)
Definition sql_insert (name namespace : string) (object : json) (t : relation) : Z * relation :=
  let t' := {| rl_rows := rl_rows t; rl_next := rl_next t + 1 |} in
  if existsb (λ r, bool_decide (row_key r = (name, namespace))) (rl_rows t) then (0, t')
  else (1, {| rl_rows := rl_rows t ++
                [{| row_id := rl_next t; row_name := name; row_namespace := namespace; row_object := object |}];
              rl_next := rl_next t + 1 |}).

(** [DELETE ... RETURNING object]. *)
Definition sql_delete (conds : list expr) (t : relation) : option (list json * relation) :=
  match where_rows conds (rl_rows t) with
  | None => None
  | Some gone =>
      Some (row_object <$> gone,
            {| rl_rows := List.filter (λ r, negb (bool_decide (row_id r ∈ (row_id <$> gone)))) (rl_rows t);
               rl_next := rl_next t |})
  end.

(** [UPDATE ... SET object]. *)
Definition set_object (object : json) (r : row) : row :=
  {| row_id := row_id r; row_name := row_name r; row_namespace := row_namespace r; row_object := object |}.
Definition sql_update (object : json) (conds : list expr) (t : relation) : option (Z * relation) :=
  match where_rows conds (rl_rows t) with
  | None => None
  | Some hit =>
      Some (Z.of_nat (length hit),
            {| rl_rows := (λ r, if bool_decide (row_id r ∈ (row_id <$> hit)) then set_object object r else r) <$> rl_rows t;
               rl_next := rl_next t |})
  end.

Definition sql_count (conds : list expr) (t : relation) : option Z :=
  Z.of_nat ∘ length <$> where_rows conds (rl_rows t).

End statements.

(** ** Tables *)

(** What the constraints of the schema keep: the primary keys are unique, and
    identifiers come from the sequence. *)
Record table_ok (t : relation) : Prop := {
  ok_ids : NoDup (row_id <$> rl_rows t);
  ok_keys : NoDup (row_key <$> rl_rows t);
  ok_next : Forall (λ r, 0 < row_id r < rl_next t) (rl_rows t);
  ok_positive : 0 < rl_next t
}.

(** A table as a map from names to documents. *)
Definition objects (t : relation) : gmap (string * string) json :=
  list_to_map ((λ r, (row_key r, row_object r)) <$> rl_rows t).

Lemma empty_ok : table_ok empty_relation.
Proof. by repeat constructor. Qed.
