(* ===== verification/StorageEffects.v ===== *)
(** * What the storage API server asks of its environment

    The calls of [src/internal/storage]: the statements its repositories send
    to PostgreSQL ([src/internal/storage/repository/repository.go]), the
    callbacks [k8s.io/apiserver] gives to a store, the messages it publishes on
    NATS and the local broadcaster of watch events; and the interfaces of the
    libraries it is built on. *)

From stdpp Require Import prelude gmap strings list.
From Stdlib Require Import ZArith.
From S2P Require Import Prelude Prog Meta Strconv Sql Effects.

(** ** Resources

    A resource type of the API server: [meta.Accessor], the constructor
    [newFunc], and the JSON encoding, as a [jsonb] column holds it.  The laws
    are those of the struct tags of [metav1.ObjectMeta]: a field that is empty
    is left out, and the label map is an object of strings.  An error is
    one of [encoding/json]'s own, and decoding what was encoded keeps the fields
    the storage looks at. *)
Record identity := { id_Name : string; id_Namespace : string; id_UID : string; id_ResourceVersion : string }.

Definition identity_of (m : ObjectMeta) : identity := {|
  id_Name := om_Name m; id_Namespace := om_Namespace m; id_UID := om_UID m;
  id_ResourceVersion := om_ResourceVersion m |}.

Definition with_ResourceVersion (rv : string) (m : ObjectMeta) : ObjectMeta := {|
  om_Name := om_Name m; om_GenerateName := om_GenerateName m; om_Namespace := om_Namespace m;
  om_UID := om_UID m; om_ResourceVersion := rv;
  om_Generation := om_Generation m; om_CreationTimestamp := om_CreationTimestamp m;
  om_DeletionTimestamp := om_DeletionTimestamp m;
  om_Labels := om_Labels m; om_Annotations := om_Annotations m;
  om_OwnerReferences := om_OwnerReferences m
|}.

(** [omitempty] on a string. *)
Definition omit_empty (s : string) : option json := if bool_decide (s = "") then None else Some (JString s).

Definition member_of (o : option json) (k : string) : option json := o ≫= λ j, member j k.

Class Resource (T : Type) := {
  accessor : T → ObjectMeta;
  with_accessor : ObjectMeta → T → T;
  newFunc : T;
  encode : T → result json;
  decode : json → result T;
  accessor_with : ∀ m o, accessor (with_accessor m o) = m;
  encode_rv : ∀ o j, encode o = Ok j →
    member_of (member j "metadata") "resourceVersion" = omit_empty (om_ResourceVersion (accessor o));
  encode_labels : ∀ o j, encode o = Ok j →
    if bool_decide (om_Labels (accessor o) = ∅)
    then member_of (member j "metadata") "labels" = None
    else ∃ m, member_of (member j "metadata") "labels" = Some (JObject m) ∧
              ∀ k, assoc k m = JString <$> om_Labels (accessor o) !! k;
  encode_err : ∀ o e, encode o = Err e → ∃ msg, e = errors_New msg;
  decode_err : ∀ j e, decode j = Err e → ∃ msg, e = errors_New msg;
  decode_encode : ∀ o j, encode o = Ok j → ∃ o', decode j = Ok o' ∧
    identity_of (accessor o') = identity_of (accessor o) ∧ om_Labels (accessor o') = om_Labels (accessor o)
}.

(** A resource version as [storage.APIObjectVersioner] writes it, and its
    [UpdateObject]. *)
Definition version_string (rv : Z) : string := if bool_decide (rv = 0%Z) then "" else FormatInt rv.

Definition UpdateObject `{!Resource T} (o : T) (rv : Z) : T :=
  with_accessor (with_ResourceVersion (version_string rv) (accessor o)) o.

(** ** Calls *)

Inductive EventType := Added | Modified | Deleted | Bookmark.

#[export] Instance EventType_eq_dec : EqDecision EventType.
Proof. solve_decision. Defined.

(** A statement is sent through the pool or within the transaction of the
    operation ([repository.Querier]). *)
Inductive Querier := Pool | Tx.

(** The rows of a query: what each [rows.Scan] gives, and [rows.Err] at the end. *)
Record Rows (A : Type) := { rows_scan : list (result A); rows_err : option error }.
Arguments rows_scan {A}. Arguments rows_err {A}.

Inductive SEff (T : Type) : Type → Type :=
| Begin : SEff T (result unit)
| Commit : SEff T (result unit)
| Rollback : SEff T (result unit)
| Insert (table name namespace : string) (object : json) : SEff T (result Z)
| DeleteReturning (table : string) (conds : list expr) : SEff T (result (option json))
| UpdateSet (table : string) (object : json) (conds : list expr) : SEff T (result Z)
| QueryRow (db : Querier) (table : string) (conds : list expr) : SEff T (result (option json))
| Query (db : Querier) (table : string) (q : select) : SEff T (result (Rows (Z * json)))
| QueryCount (db : Querier) (table : string) (conds : list expr) : SEff T (result Z)
| QueryGroups (db : Querier) (table : string) (conds group : list expr) : SEff T (result (Rows (list string * Z)))
| NextVal : SEff T (result Z)
| LastValue : SEff T (result (Z * bool))
| TryUpdate (o : T) : SEff T (result T)
| ValidateDeletion (o : T) : SEff T (result unit)
| NatsPublish (subject data : string) : SEff T (result unit)
| LocalAction (type : EventType) (o : T) : SEff T (result unit)
| LocalWatch (prefix : list (EventType * T)) : SEff T (result unit).
Arguments Begin {T}. Arguments Commit {T}. Arguments Rollback {T}.
Arguments Insert {T}. Arguments DeleteReturning {T}. Arguments UpdateSet {T}.
Arguments QueryRow {T}. Arguments Query {T}. Arguments QueryCount {T}. Arguments QueryGroups {T}.
Arguments NextVal {T}. Arguments LastValue {T}. Arguments TryUpdate {T}. Arguments ValidateDeletion {T}.
Arguments NatsPublish {T}. Arguments LocalAction {T}. Arguments LocalWatch {T}.

Abbreviation db_prog T := (prog (SEff T)).

(** ** Errors of [k8s.io/apiserver/pkg/storage] *)

Definition ErrCodeKeyExists := "storage.ErrCodeKeyExists".
Definition ErrCodeKeyNotFound := "storage.ErrCodeKeyNotFound".
Definition NewKeyExistsError (key : string) : error := fmt_Errorf ("key exists: " +:+ key) (err_var ErrCodeKeyExists).
Definition NewKeyNotFoundError (key : string) : error := fmt_Errorf ("key not found: " +:+ key) (err_var ErrCodeKeyNotFound).
Definition NewInternalError (err : error) : error := errorf "Internal error occurred" err.
Definition storage_IsNotFound (err : error) : bool := errors_Is err ErrCodeKeyNotFound.
