(* ===== verification/StorageSample.v ===== *)
(** * Instances of the interfaces of the storage

    A resource that is nothing but its metadata, and PostgreSQL's array literals
    for the paths of a field selector: they show that the laws of [Resource] and
    [Postgres] can hold, and let the operations of the storage be evaluated. *)

From stdpp Require Import prelude gmap strings list.
From Stdlib Require Import ZArith Ascii.
From S2P Require Import Prelude Meta GoPath Strconv Sql StorageEffects.

(** ** Encoding an object *)

Fixpoint present (fields : list (string * option json)) : list (string * json) :=
  match fields with
  | [] => []
  | (k, Some j) :: fields' => (k, j) :: present fields'
  | (_, None) :: fields' => present fields'
  end.

Definition encode_label_map (ls : gmap string string) : option json :=
  if bool_decide (ls = ∅) then None else Some (JObject (prod_map id JString <$> map_to_list ls)).

Definition sample_metadata (m : ObjectMeta) : list (string * json) :=
  present [("name", omit_empty (om_Name m)); ("namespace", omit_empty (om_Namespace m));
           ("uid", omit_empty (om_UID m)); ("resourceVersion", omit_empty (om_ResourceVersion m));
           ("labels", encode_label_map (om_Labels m))].

Definition sample_encode (m : ObjectMeta) : result json := Ok (JObject [("metadata", JObject (sample_metadata m))]).

(** ** Decoding it *)

Definition text_field (j : option json) : string := match j with Some (JString s) => s | _ => "" end.

Definition decode_label_map (j : option json) : gmap string string :=
  match j with
  | Some (JObject m) => list_to_map (omap (λ f, match f.2 with JString s => Some (f.1, s) | _ => None end) m)
  | _ => ∅
  end.

Definition sample_decode (j : json) : result ObjectMeta :=
  match member j "metadata" with
  | None => Err (errors_New "no metadata")
  | Some m =>
      Ok {| om_Name := text_field (member m "name"); om_GenerateName := "";
            om_Namespace := text_field (member m "namespace");
            om_UID := text_field (member m "uid"); om_ResourceVersion := text_field (member m "resourceVersion");
            om_Generation := 0; om_CreationTimestamp := 0; om_DeletionTimestamp := None;
            om_Labels := decode_label_map (member m "labels"); om_Annotations := ∅; om_OwnerReferences := [] |}
  end.

(** ** The laws *)

Lemma assoc_present k fields :
  NoDup (fst <$> fields) → assoc k (present fields) = default None (assoc k fields).
Proof.
  induction fields as [|[k' o] fields IH]; [done|]. cbn. intros [Hk Hnd]%NoDup_cons. specialize (IH Hnd).
  unfold assoc in *. case_bool_decide as Heq.
  - subst k'. destruct o as [j|]; cbn; [by rewrite bool_decide_true|].
    rewrite IH. destruct (List.find _ fields) as [[k' o]|] eqn:Hf; [|done].
    apply List.find_some in Hf as [Hin Hb]. apply bool_decide_eq_true in Hb. cbn in Hb. subst k'.
    destruct Hk. apply list_elem_of_fmap. exists (k, o). split; [done|]. by apply list_elem_of_In.
  - destruct o as [j|]; cbn; [by rewrite bool_decide_false|done].
Qed.

Lemma assoc_map_to_list (ls : gmap string string) k :
  assoc k (prod_map id JString <$> map_to_list ls) = JString <$> ls !! k.
Proof.
  unfold assoc. destruct (List.find _ _) as [[k' j]|] eqn:Hf; cbn.
  - apply List.find_some in Hf as [Hin Hb]. apply bool_decide_eq_true in Hb. cbn in Hb. subst k'.
    apply list_elem_of_In, list_elem_of_fmap in Hin as ([k' v] & [= -> ->] & Hin).
    apply elem_of_map_to_list in Hin. by rewrite Hin.
  - destruct (ls !! k) as [v|] eqn:Hv; [|done]. apply elem_of_map_to_list in Hv.
    assert (bool_decide (k = k) = false) as Hno; [|by rewrite bool_decide_true in Hno].
    apply (List.find_none _ _ Hf (k, JString v)), list_elem_of_In, list_elem_of_fmap. by exists (k, v).
Qed.

Lemma sample_member m f :
  f ∈ ["name"; "namespace"; "uid"; "resourceVersion"; "labels"] →
  member_of (member (JObject [("metadata", JObject (sample_metadata m))]) "metadata") f =
    default None (assoc f [("name", omit_empty (om_Name m)); ("namespace", omit_empty (om_Namespace m));
           ("uid", omit_empty (om_UID m)); ("resourceVersion", omit_empty (om_ResourceVersion m));
           ("labels", encode_label_map (om_Labels m))]).
Proof.
  intros _. unfold member_of. cbn [member assoc mbind option_bind]. unfold assoc at 1. cbn -[assoc sample_metadata].
  unfold sample_metadata. apply assoc_present. cbn. apply (bool_decide_unpack _). vm_compute. exact I.
Qed.

Lemma sample_fields m :
  let j := JObject (sample_metadata m) in
  member j "name" = omit_empty (om_Name m) ∧ member j "namespace" = omit_empty (om_Namespace m) ∧
  member j "uid" = omit_empty (om_UID m) ∧ member j "resourceVersion" = omit_empty (om_ResourceVersion m) ∧
  member j "labels" = encode_label_map (om_Labels m).
Proof.
  split_and!; [exact (sample_member m "name" ltac:(set_solver)) | exact (sample_member m "namespace" ltac:(set_solver)) |
    exact (sample_member m "uid" ltac:(set_solver)) | exact (sample_member m "resourceVersion" ltac:(set_solver)) |
    exact (sample_member m "labels" ltac:(set_solver))].
Qed.

Lemma text_omit s : text_field (omit_empty s) = s.
Proof. unfold omit_empty. case_bool_decide; by subst. Qed.

Lemma decode_label_encode ls : decode_label_map (encode_label_map ls) = ls.
Proof.
  unfold encode_label_map. case_bool_decide as He; [by subst|]. cbn.
  rewrite <- (list_to_map_to_list ls) at 2. f_equal.
  induction (map_to_list ls) as [|[k v] l IH]; [done|]. cbn. by f_equal.
Qed.

#[export] Instance sample_resource : Resource ObjectMeta.
Proof.
  refine {| accessor := λ m, m; with_accessor := λ m _, m; newFunc := new_meta "" "" "" ∅ ∅;
            encode := sample_encode; decode := sample_decode |}.
  - done.
  - intros o j [= <-]. by rewrite sample_member by set_solver.
  - intros o j [= <-]. rewrite sample_member by set_solver. cbn. unfold encode_label_map.
    case_bool_decide; [done|]. eexists. split; [done|]. apply assoc_map_to_list.
  - done.
  - intros j e. unfold sample_decode. destruct (member j "metadata"); [done|]. intros [= <-]. eauto.
  - intros o j [= <-]. unfold sample_decode. cbn [member assoc]. unfold assoc at 1. cbn -[assoc sample_metadata member].
    eexists. split; [reflexivity|].
    destruct (sample_fields o) as (Hn & Hns & Hu & Hrv & Hl). cbn in Hn, Hns, Hu, Hrv, Hl.
    unfold identity_of. cbn. rewrite Hn, Hns, Hu, Hrv, Hl.
    by rewrite !text_omit, decode_label_encode.
Defined.

(** ** Array literals *)

Definition literal_elements (s : string) : option (list string) :=
  match s with
  | String "{" s' =>
      match CutSuffix s' "}" with Some body => Some (split_byte ","%char body) | None => None end
  | _ => None
  end.

Lemma letter_not_comma c : letter c = true → c ≠ ","%char ∧ c ≠ "}"%char.
Proof. by destruct c as [[] [] [] [] [] [] [] []]; vm_compute; intros ?. Qed.

Lemma plain_no_comma p : plain_part p = true → no_byte ","%char p = true.
Proof.
  unfold plain_part. intros [[_ Hl]%andb_true_iff _]%andb_true_iff.
  induction p as [|c p IH]; [done|]. cbn in *. apply andb_true_iff in Hl as [Hc Hl].
  rewrite IH by done. apply letter_not_comma in Hc as [Hc _]. by rewrite bool_decide_false.
Qed.

#[export] Instance sample_postgres : Postgres.
Proof.
  refine {| jsonb_text := λ _, ""; text_array := literal_elements |}.
  intros parts Hp Hne. change ("{" +:+ join "," parts +:+ "}") with (String "{" (join "," parts +:+ "}")).
  unfold literal_elements. rewrite CutSuffix_app. f_equal. apply (split_byte_join ","%char); [done|].
  apply Forall_forall. intros p Hin. apply plain_no_comma.
  rewrite forallb_forall in Hp. by apply Hp, list_elem_of_In.
Defined.

(** ** Documents as text

    A document is a tree of strings; its number in an enumeration of those,
    written in decimal, is a text form of it that can be read back. *)

Fixpoint json_tree (j : json) : gen_tree (bool + string) :=
  match j with
  | JNull => GenNode 0 []
  | JBool b => GenLeaf (inl b)
  | JNumber n => GenNode 1 [GenLeaf (inr n)]
  | JString s => GenNode 2 [GenLeaf (inr s)]
  | JArray l => GenNode 3 (json_tree <$> l)
  | JObject m => GenNode 4 ((λ f, GenNode 5 [GenLeaf (inr f.1); json_tree f.2]) <$> m)
  end.

Fixpoint tree_json (t : gen_tree (bool + string)) : json :=
  match t with
  | GenLeaf (inl b) => JBool b
  | GenNode 1 [GenLeaf (inr n)] => JNumber n
  | GenNode 2 [GenLeaf (inr s)] => JString s
  | GenNode 3 l => JArray (tree_json <$> l)
  | GenNode 4 l =>
      JObject ((λ t, match t with GenNode 5 [GenLeaf (inr k); t'] => (k, tree_json t') | _ => ("", JNull) end) <$> l)
  | _ => JNull
  end.

Lemma tree_json_tree j : tree_json (json_tree j) = j.
Proof.
  induction j as [|b|n|s|l IH|m IH] using json_nested_ind; [done..| |]; cbn.
  - f_equal. induction IH as [|j l Hj _ IH]; [done|]. cbn. by f_equal.
  - f_equal. induction IH as [|[k j] m Hj _ IH]; [done|]. cbn in *. by rewrite Hj, IH.
Qed.

#[export] Instance json_eq_dec : EqDecision json.
Proof.
  refine (λ j1 j2, cast_if (decide (json_tree j1 = json_tree j2))); [|congruence].
  rewrite <- (tree_json_tree j1), <- (tree_json_tree j2). by f_equal.
Defined.
#[export] Instance json_countable : Countable json := inj_countable' json_tree tree_json tree_json_tree.

Definition number_text {A} `{Countable A} (a : A) : string := FormatInt (Zpos (countable.encode a)).
Definition text_number {A} `{Countable A} (s : string) : option A :=
  match magnitude s with Some (Zpos p) => countable.decode p | _ => None end.

Lemma text_number_text {A} `{Countable A} (a : A) : text_number (number_text a) = Some a.
Proof.
  unfold text_number, number_text. rewrite pretty_Z_nonneg, magnitude_pretty, Z2N.id by lia. apply countable.decode_encode.
Qed.
