(* ===== verification/Repository.v ===== *)
(** * The repository of a resource

    [src/internal/storage/repository]: [GenericObjectRepository], which keeps
    the objects of one resource in a table ([generic_object_repository.go]),
    and the list operation with its filters and its pages ([list.go]).

    A statement that can be built is built: the error paths of [Build] are not
    modelled. *)

From stdpp Require Import prelude gmap strings list.
From Stdlib Require Import ZArith Lia Ascii.
From S2P Require Import Prelude Prog Meta Strconv Sql Effects StorageEffects StorageSample.
Open Scope Z_scope.

#[export] Instance result_ret : MRet result := λ A a, Ok a.
#[export] Instance result_bind : MBind result := λ A B f r, match r with Ok a => f a | Err e => Err e end.

Definition wrap_err {A} (msg : string) (r : result A) : result A :=
  match r with Ok a => Ok a | Err e => Err (errorf msg e) end.

(** ** Selectors *)

(** [selection.Operator]. *)
Inductive Operator := DoesNotExist | Equals | DoubleEquals | In | NotEquals | NotIn | Exists | GreaterThan | LessThan.

Definition operator_name (op : Operator) : string :=
  match op with
  | DoesNotExist => "!" | Equals => "=" | DoubleEquals => "==" | In => "in" | NotEquals => "!="
  | NotIn => "notin" | Exists => "exists" | GreaterThan => "gt" | LessThan => "lt"
  end.

(** [labels.Requirement]; the values are those of [Values().List()]. *)
Record Requirement := { rq_Key : string; rq_Operator : Operator; rq_Values : list string }.

(** [labels.Selector], through its method [Requirements]: a selector that
    selects nothing is not selectable. *)
Record LabelsSelector := { ls_requirements : list Requirement; ls_selectable : bool }.

(** [fields.Requirement]. *)
Record FieldRequirement := { fr_Operator : Operator; fr_Field : string; fr_Value : string }.

(** [storage.ListOptions] and its [Predicate]. *)
Record ListOptions := {
  lo_ResourceVersion : string;
  lo_SendInitialEvents : option bool;
  lo_Label : option LabelsSelector;
  lo_Field : option (list FieldRequirement);
  lo_Limit : Z;
  lo_Continue : string;
  lo_AllowWatchBookmarks : bool
}.

Definition labels_column : expr := Arrow (Arrow (Col C_object) "metadata") "labels".

(** [req.Values().List()[0]]. *)
Definition first_value (req : Requirement) : result expr :=
  match rq_Values req with
  | v :: _ => Ok (Arg (VText v))
  | [] => Err (go_panic "index out of range [0] with length 0")
  end.

Definition label_expression (req : Requirement) : result expr :=
  match rq_Operator req with
  | Equals | DoubleEquals => v ← first_value req; Ok (EQ (ArrowText labels_column (rq_Key req)) v)
  | NotEquals => v ← first_value req; Ok (NE (ArrowText labels_column (rq_Key req)) v)
  | In => Ok (EqAny (ArrowText labels_column (rq_Key req)) (rq_Values req))
  | NotIn => Ok (NeAll (ArrowText labels_column (rq_Key req)) (rq_Values req))
  | Exists => Ok (JsonbExists labels_column (rq_Key req))
  | DoesNotExist => Ok (Not (JsonbExists labels_column (rq_Key req)))
  | GreaterThan | LessThan =>
      Err (errors_New ("unsupported label selector operator: " +:+ operator_name (rq_Operator req)))
  end.

Fixpoint expressions {A} (expression : A → result expr) (reqs : list A) : result (list expr) :=
  match reqs with
  | [] => Ok []
  | req :: reqs' => e ← expression req; es ← expressions expression reqs'; Ok (e :: es)
  end.

Definition buildLabelSelectorExpressions (labelSelector : LabelsSelector) : result (list expr) :=
  if ls_selectable labelSelector then expressions label_expression (ls_requirements labelSelector) else Ok [].

Definition field_expression (req : FieldRequirement) : result expr :=
  let jsonPath := "{" +:+ join "," (split_byte "."%char (fr_Field req)) +:+ "}" in
  match fr_Operator req with
  | Equals | DoubleEquals => Ok (EQ (PathText (Col C_object) jsonPath) (Arg (VText (fr_Value req))))
  | NotEquals => Ok (NE (PathText (Col C_object) jsonPath) (Arg (VText (fr_Value req))))
  | In | NotIn | Exists | DoesNotExist | GreaterThan | LessThan =>
      Err (errors_New ("unsupported field selector operator: " +:+ operator_name (fr_Operator req)))
  end.

Definition buildFieldSelectorExpressions (fieldSelector : list FieldRequirement) : result (list expr) :=
  expressions field_expression fieldSelector.

(** ** Listing *)

Definition int64 (n : Z) : Z := (n + 2 ^ 63) mod 2 ^ 64 - 2 ^ 63.

Definition resourceVersion_column : expr :=
  CastBigint (ArrowText (Arrow (Col C_object) "metadata") "resourceVersion").

Definition namespace_condition (namespace : string) : list expr :=
  if bool_decide (namespace = "") then [] else [EQ (Col C_namespace) (Arg (VText namespace))].

Definition continue_condition (token : string) : result (list expr) :=
  if bool_decide (token = "") then Ok []
  else continueID ← wrap_err "invalid continue token" (ParseInt token);
       Ok [GT (Col C_id) (Arg (VBigint continueID))].

Definition version_condition (opts : ListOptions) : result (list expr) :=
  if bool_decide (lo_ResourceVersion opts = "") || bool_decide (lo_ResourceVersion opts = "0") then Ok []
  else rv ← wrap_err "invalid resource version" (ParseUint (lo_ResourceVersion opts));
       if negb (default false (lo_SendInitialEvents opts))
       then Ok [GE resourceVersion_column (Arg (VBigint rv))] else Ok [].

(** The query of a list operation, from the conditions of the caller's query. *)
Definition list_query (namespace : string) (opts : ListOptions) : result select :=
  continue ← continue_condition (lo_Continue opts);
  version ← version_condition opts;
  labels ← match lo_Label opts with Some l => buildLabelSelectorExpressions l | None => Ok [] end;
  fields ← match lo_Field opts with Some f => buildFieldSelectorExpressions f | None => Ok [] end;
  Ok {| sel_where := namespace_condition namespace ++ continue ++ version ++ labels ++ fields;
        sel_order_by_id := true;
        sel_limit := if bool_decide (0 < lo_Limit opts) then Some (int64 (lo_Limit opts + 1)) else None |}.

Section repository.
Context {T : Type} `{!Resource T}.

(** The loop over the rows: the objects, the last identifier, and whether a row
    was left over. *)
Fixpoint scan_rows (limit count lastID : Z) (items : list T) (rows : list (result (Z * json)))
    (err : option error) : result (list T * Z * bool) :=
  match rows with
  | [] =>
      match err with
      | Some e => Err (errorf "failed to iterate rows" e)
      | None => Ok (items, lastID, false)
      end
  | row :: rows' =>
      if bool_decide (0 < limit) && bool_decide (count = limit) then Ok (items, lastID, true)
      else
        match row with
        | Err e => Err (errorf "failed to scan row" e)
        | Ok (id, objectBytes) =>
            match decode objectBytes with
            | Err e => Err (errorf "failed to unmarshal object" e)
            | Ok obj => scan_rows limit (count + 1) id (items ++ [obj]) rows' err
            end
        end
  end.

Definition list_objects (db : Querier) (table namespace : string) (opts : ListOptions)
  : db_prog T (result (list T * string)) :=
  match list_query namespace opts with
  | Err e => Ret (Err e)
  | Ok q =>
      rows ←? trigger (Query db table q) wrap errorf "failed to execute list query";
      match scan_rows (lo_Limit opts) 0 0 [] (rows_scan rows) (rows_err rows) with
      | Err e => Ret (Err e)
      | Ok (items, lastID, hasMore) =>
          let continueToken := if hasMore : bool then FormatInt lastID else "" in
          Ret (Ok (items, continueToken))
      end
  end.

(** ** GenericObjectRepository *)

Definition ErrAlreadyExists := "object already exists".
Definition ErrNotFound := "object not found".

Definition key_conditions (name namespace : string) : list expr :=
  [EQ (Col C_name) (Arg (VText name)); EQ (Col C_namespace) (Arg (VText namespace))].

Definition unmarshal_object (bytes : json) : result T := wrap_err "failed to unmarshal object" (decode bytes).

Definition repo_Create (table : string) (obj : T) : db_prog T (result unit) :=
  match wrap_err "failed to marshal object" (encode obj) with
  | Err e => Ret (Err e)
  | Ok bytes =>
      n ←? trigger (Insert table (om_Name (accessor obj)) (om_Namespace (accessor obj)) bytes)
        wrap errorf "failed to execute insert";
      if bool_decide (n = 0) then Ret (Err (err_var ErrAlreadyExists)) else Ret (Ok tt)
  end.

Definition repo_Delete (table name namespace : string) : db_prog T (result T) :=
  bytes ←? trigger (DeleteReturning table (key_conditions name namespace)) wrap errorf "failed to execute delete";
  match bytes with
  | None => Ret (Err (err_var ErrNotFound))
  | Some bytes => Ret (unmarshal_object bytes)
  end.

Definition repo_Get (db : Querier) (table name namespace : string) : db_prog T (result T) :=
  bytes ←? trigger (QueryRow db table (key_conditions name namespace)) wrap errorf "failed to execute select";
  match bytes with
  | None => Ret (Err (err_var ErrNotFound))
  | Some bytes => Ret (unmarshal_object bytes)
  end.

Definition repo_List (db : Querier) (table namespace : string) (opts : ListOptions)
  : db_prog T (result (list T * string)) :=
  list_objects db table namespace opts.

Definition repo_Update (table name namespace : string) (obj : T) : db_prog T (result unit) :=
  match wrap_err "failed to marshal object" (encode obj) with
  | Err e => Ret (Err e)
  | Ok bytes =>
      n ←? trigger (UpdateSet table bytes (key_conditions name namespace)) wrap errorf "failed to execute update";
      if bool_decide (n = 0) then Ret (Err (err_var ErrNotFound)) else Ret (Ok tt)
  end.

Definition repo_Count (db : Querier) (table namespace : string) : db_prog T (result Z) :=
  count ←? trigger (QueryCount db table (namespace_condition namespace)) wrap errorf "failed to execute count query";
  Ret (Ok count).

End repository.

(** The interface [Repository], and the generic implementation of it. *)
Record Repository (T : Type) := {
  rp_Create : T → db_prog T (result unit);
  rp_Delete : string → string → db_prog T (result T);
  rp_Get : Querier → string → string → db_prog T (result T);
  rp_List : Querier → string → ListOptions → db_prog T (result (list T * string));
  rp_Update : string → string → T → db_prog T (result unit);
  rp_Count : Querier → string → db_prog T (result Z)
}.
Arguments rp_Create {T}. Arguments rp_Delete {T}. Arguments rp_Get {T}.
Arguments rp_List {T}. Arguments rp_Update {T}. Arguments rp_Count {T}.

Definition GenericObjectRepository `{!Resource T} (table : string) : Repository T := {|
  rp_Create := repo_Create table;
  rp_Delete := repo_Delete table;
  rp_Get := λ db, repo_Get db table;
  rp_List := λ db, repo_List db table;
  rp_Update := repo_Update table;
  rp_Count := λ db, repo_Count db table
|}.

(** ** What the label conditions select *)

(** [labels.Requirement.Matches], for the operators on sets. *)
Definition requirement_matches (req : Requirement) (ls : gmap string string) : bool :=
  match rq_Operator req with
  | In | Equals | DoubleEquals =>
      match ls !! rq_Key req with Some v => bool_decide (v ∈ rq_Values req) | None => false end
  | NotIn | NotEquals =>
      match ls !! rq_Key req with Some v => negb (bool_decide (v ∈ rq_Values req)) | None => true end
  | Exists => bool_decide (is_Some (ls !! rq_Key req))
  | DoesNotExist => negb (bool_decide (is_Some (ls !! rq_Key req)))
  | GreaterThan | LessThan => false
  end.

(** [labels.NewRequirement] accepts these. *)
Definition valid_requirement (req : Requirement) : bool :=
  match rq_Operator req with
  | In | NotIn => bool_decide (rq_Values req ≠ [])
  | Equals | DoubleEquals | NotEquals => bool_decide (length (rq_Values req) = 1%nat)
  | Exists | DoesNotExist => bool_decide (rq_Values req = [])
  | GreaterThan | LessThan => false
  end.

(** A negative condition is NULL on a label that is absent: [NotIn] and
    [NotEquals] need the label, [DoesNotExist] needs some label. *)
Definition negation_defined (req : Requirement) (ls : gmap string string) : bool :=
  match rq_Operator req with
  | NotIn | NotEquals => bool_decide (is_Some (ls !! rq_Key req))
  | DoesNotExist => bool_decide (ls ≠ ∅)
  | _ => true
  end.

Section selectors.
Context {T : Type} `{!Resource T, !Postgres}.

Definition row_of (o : T) (r : row) : Prop := encode o = Ok (row_object r).

Lemma eval_labels o r :
  row_of o r → eval r labels_column =
    Some (match member_of (member (row_object r) "metadata") "labels" with Some j => VJsonb j | None => VNull end).
Proof.
  intros _. unfold labels_column, member_of. cbn.
  by destruct (member (row_object r) "metadata") as [j|].
Qed.

Lemma eval_label o r k :
  row_of o r → eval r (ArrowText labels_column k) =
    Some (match om_Labels (accessor o) !! k with Some v => VText v | None => VNull end).
Proof.
  intros Hr. pose proof (encode_labels o _ Hr) as Hl. cbn [eval]. rewrite (eval_labels o r Hr). cbn [mbind option_bind].
  case_bool_decide as He.
  - rewrite Hl, He, lookup_empty. done.
  - destruct Hl as (m & -> & Hm). cbn. rewrite Hm. by destruct (om_Labels (accessor o) !! k).
Qed.

Lemma exists_label o r k :
  row_of o r → eval r (JsonbExists labels_column k) =
    Some (if bool_decide (om_Labels (accessor o) = ∅) then VNull
          else VBool (bool_decide (is_Some (om_Labels (accessor o) !! k)))).
Proof.
  intros Hr. pose proof (encode_labels o _ Hr) as Hl. cbn [eval]. rewrite (eval_labels o r Hr). cbn [mbind option_bind].
  case_bool_decide as He; [by rewrite Hl|].
  destruct Hl as (m & -> & Hm). cbn. rewrite Hm. do 2 f_equal. apply bool_decide_ext. by rewrite fmap_is_Some.
Qed.

Lemma existsb_text v vs : existsb (text_eq v) vs = bool_decide (v ∈ vs).
Proof.
  apply eq_iff_eq_true. rewrite bool_decide_eq_true, existsb_exists. unfold text_eq.
  setoid_rewrite bool_decide_eq_true. setoid_rewrite <- list_elem_of_In. naive_solver.
Qed.

Lemma forallb_text v vs : forallb (λ s, negb (text_eq v s)) vs = negb (bool_decide (v ∈ vs)).
Proof. rewrite <- existsb_text. induction vs as [|s vs IH]; [done|]. cbn. by rewrite IH, negb_orb. Qed.

Lemma text_eq_single u v : text_eq u v = bool_decide (u ∈ [v]).
Proof. apply bool_decide_ext. set_solver. Qed.

(** [C35] The condition the storage makes of a label requirement selects an
    object exactly when Kubernetes matches the requirement and, for a negative
    requirement, the condition is not NULL: an object without the label is left
    out by [key != v] and [key notin (...)], and one without any label by
    [!key], though all of them match. *)
Theorem label_condition_selects (req : Requirement) (o : T) (r : row) :
  valid_requirement req = true → row_of o r →
  ∃ e, label_expression req = Ok e ∧
    selected [e] r = Some (requirement_matches req (om_Labels (accessor o)) &&
                           negation_defined req (om_Labels (accessor o))).
Proof.
  unfold valid_requirement, label_expression, requirement_matches, negation_defined, first_value.
  destruct req as [k op vs]. cbn [rq_Key rq_Operator rq_Values]. intros Hv Hr.
  pose proof (eval_label o r k Hr) as Hk. pose proof (exists_label o r k Hr) as He.
  destruct op; try discriminate Hv; try apply bool_decide_eq_true in Hv.
  all: try (destruct vs as [|v [|? ?]]; [done| |done]); eexists; (split; [reflexivity|]).
  all: cbn [selected]; autorewrite with sql; rewrite ?Hk, ?He; clear Hk He.
  all: try (case_bool_decide as Hem; [rewrite Hem, ?lookup_empty|]).
  all: try (destruct (om_Labels (accessor o) !! k) as [u|] eqn:Hu).
  all: try (destruct vs as [|v vs]; [done|]).
  all: cbn -[existsb forallb]; rewrite ?existsb_text, ?forallb_text, ?text_eq_single.
  all: repeat case_bool_decide; naive_solver.
Qed.

(** A selector that selects nothing lists everything. *)
Lemma nothing_lists_all reqs :
  buildLabelSelectorExpressions {| ls_requirements := reqs; ls_selectable := false |} = Ok [].
Proof. done. Qed.
End selectors.

(** An object without labels, and the selector [tier!=web] that matches it. *)
Lemma label_condition_selects_witness :
  let req := {| rq_Key := "tier"; rq_Operator := NotEquals; rq_Values := ["web"] |} in
  let o := new_meta "a" "" "default" ∅ ∅ in
  let r := {| row_id := 1; row_name := "a"; row_namespace := "default";
              row_object := JObject [("metadata", JObject (sample_metadata o))] |} in
  requirement_matches req (om_Labels o) = true ∧
  ∃ e, label_expression req = Ok e ∧ selected [e] r = Some false.
Proof.
  cbv zeta. split; [reflexivity|].
  exact (label_condition_selects {| rq_Key := "tier"; rq_Operator := NotEquals; rq_Values := ["web"] |}
    (new_meta "a" "" "default" ∅ ∅)
    {| row_id := 1; row_name := "a"; row_namespace := "default";
       row_object := JObject [("metadata", JObject (sample_metadata (new_meta "a" "" "default" ∅ ∅)))] |} eq_refl eq_refl).
Defined.
