(* ===== verification/Store.v ===== *)
(** * The store of a resource

    [src/internal/storage/store.go]: the operations of [storage.Interface] over
    a repository, with the watch events they send
    ([src/internal/storage/watcher.go], [natsBroadcaster]).

    The object an operation writes to ([out], [destination], [listObj]) is its
    result.  Conversions of API objects to their own type never fail, so their
    error paths are not modelled.  [GuaranteedUpdate] loops without a bound;
    its model has fuel, and [None] means that it ran out. *)

From stdpp Require Import prelude gmap strings list.
From Stdlib Require Import ZArith Lia Ascii.
From S2P Require Import Prelude Prog Meta Strconv Sql Effects StorageEffects Repository.

(** [strings.Contains]. *)
Fixpoint strings_Contains (s sub : string) : bool :=
  HasPrefix s sub || match s with EmptyString => false | String _ s' => strings_Contains s' sub end.

(** [registry.OptimisticLockErrorMsg] of [k8s.io/apiserver]. *)
Definition OptimisticLockErrorMsg : string :=
  "the object has been modified; please apply your changes to the latest version and try again".

(** The payload of a message: [event]. *)
Record event := { ev_EventType : EventType; ev_Object : json }.

(** A list object: its items, resource version and continue token. *)
Record ObjectList (T : Type) := { ol_Items : list T; ol_ResourceVersion : string; ol_Continue : string }.
Arguments ol_Items {T}. Arguments ol_ResourceVersion {T}. Arguments ol_Continue {T}.

(** ** Keys *)

Section keys.
Context (clusterScoped : bool).

Definition key_parts (key : string) : list string := split_byte "/"%char (TrimPrefix key "/").

(** The name and the namespace. *)
Definition extractKeyNameAndNamespace (key : string) : string * string :=
  let parts := key_parts key in
  if clusterScoped then
    match parts with [_; _; name] => (name, "") | _ => ("", "") end
  else
    match parts with [_; _; namespace; name] => (name, namespace) | _ => ("", "") end.

Definition extractKeyNamespace (key : string) : string :=
  if clusterScoped then ""
  else match key_parts key with [_; _; namespace] => namespace | _ => "" end.

(** The key of an object, as [natsWatcher.rehydrate] makes it. *)
Definition GroupName := "storage.sbomscanner.kubewarden.io".
Definition object_key (resource : string) (m : ObjectMeta) : string :=
  if clusterScoped then GroupName +:+ "/" +:+ resource +:+ "/" +:+ om_Name m
  else GroupName +:+ "/" +:+ resource +:+ "/" +:+ om_Namespace m +:+ "/" +:+ om_Name m.
End keys.

Section store.
Context {T : Type} `{!Resource T, !JSON event}.

Record store := {
  st_repository : Repository T;
  st_resource : string;
  st_transform : T → result T;
  st_clusterScoped : bool
}.
Context (s : store).

(** ** Resource versions *)

Definition nextResourceVersion : db_prog T (result Z) :=
  rv ←? trigger NextVal wrap errorf "failed to get next resource version";
  Ret (Ok rv).

Definition GetCurrentResourceVersion : db_prog T (result Z) :=
  v ←? trigger LastValue wrap errorf "failed to get current resource version";
  let '(rv, isCalled) := v in
  if isCalled : bool then Ret (Ok rv) else nextResourceVersion.

(** ** Broadcasting *)

Definition publish (eventType : EventType) (obj : T) : db_prog T (result unit) :=
  match wrap_err "failed to transform object" (st_transform s obj) with
  | Err e => Ret (Err e)
  | Ok transformedObj =>
    match wrap_err "failed to marshal object" (encode transformedObj) with
    | Err e => Ret (Err e)
    | Ok objectBytes =>
      match wrap_err "marshal payload" (Marshal {| ev_EventType := eventType; ev_Object := objectBytes |}) with
      | Err e => Ret (Err e)
      | Ok payloadBytes =>
          check trigger (NatsPublish ("watch." +:+ st_resource s) payloadBytes) wrap errorf "publish to NATS";
          Ret (Ok tt)
      end
    end
  end.

Definition Action (eventType : EventType) (obj : T) : db_prog T (result unit) := publish eventType obj.

(** A failure to broadcast is logged. *)
Definition broadcast (eventType : EventType) (obj : T) : db_prog T unit :=
  _ ← Action eventType obj; Ret tt.

(** ** Transactions *)

(** [defer tx.Rollback(ctx)]: it closes what [Commit] did not. *)
Definition deferring_rollback {A} (body : db_prog T A) : db_prog T A :=
  r ← body;
  _ ← trigger Rollback;
  Ret r.

(** ** Create *)

Definition create_in_tx (key : string) (obj : T) : db_prog T (result T) :=
  r ← rp_Create (st_repository s) obj;
  match r with
  | Err e => if errors_Is e ErrAlreadyExists then Ret (Err (NewKeyExistsError key)) else Ret (Err (NewInternalError e))
  | Ok _ =>
      check trigger Commit wrap NewInternalError;
      _ ← broadcast Added obj;
      Ret (Ok obj)
  end.

Definition Create (key : string) (obj : T) : db_prog T (result T) :=
  rv ←? nextResourceVersion wrap NewInternalError;
  let obj := UpdateObject obj rv in
  check trigger Begin wrap (λ e, NewInternalError (errorf "failed to begin transaction" e));
  deferring_rollback (create_in_tx key obj).

(** ** Delete *)

Definition delete_in_tx (key name namespace : string) (preconditions : string → T → result unit) : db_prog T (result T) :=
  r ← rp_Delete (st_repository s) name namespace;
  match r with
  | Err e => if errors_Is e ErrNotFound then Ret (Err (NewKeyNotFoundError key)) else Ret (Err (NewInternalError e))
  | Ok obj =>
    match preconditions key obj with
    | Err e => Ret (Err e)
    | Ok _ =>
        check trigger (ValidateDeletion obj) wrap id;
        check trigger Commit wrap NewInternalError;
        _ ← broadcast Deleted obj;
        Ret (Ok obj)
    end
  end.

Definition invalid_key (key : string) : error := NewInternalError (errors_New ("invalid key: " +:+ key)).

Definition Delete (key : string) (preconditions : string → T → result unit) : db_prog T (result T) :=
  let '(name, namespace) := extractKeyNameAndNamespace (st_clusterScoped s) key in
  if bool_decide (name = "") then Ret (Err (invalid_key key))
  else
    check trigger Begin wrap NewInternalError;
    deferring_rollback (delete_in_tx key name namespace preconditions).

(** ** Get *)

Definition Get (key : string) (ignoreNotFound : bool) : db_prog T (result T) :=
  let '(name, namespace) := extractKeyNameAndNamespace (st_clusterScoped s) key in
  if bool_decide (name = "") then Ret (Err (invalid_key key))
  else
    r ← rp_Get (st_repository s) Pool name namespace;
    match r with
    | Err e =>
        if errors_Is e ErrNotFound then
          if ignoreNotFound then Ret (Ok newFunc) else Ret (Err (NewKeyNotFoundError key))
        else Ret (Err (NewInternalError e))
    | Ok obj => Ret (Ok obj)
    end.

(** ** GetList *)

(** [storage.APIObjectVersioner.ParseResourceVersion]. *)
Definition ParseResourceVersion (rv : string) : result Z :=
  if bool_decide (rv = "") || bool_decide (rv = "0") then Ok 0%Z else ParseUint rv.

Definition GetList (key : string) (opts : ListOptions) : db_prog T (result (ObjectList T)) :=
  match ParseResourceVersion (lo_ResourceVersion opts) with
  | Err e => Ret (Err (apierror ReasonBadRequest ("invalid resource version: " +:+ Error e)))
  | Ok _ =>
      let namespace := extractKeyNamespace (st_clusterScoped s) key in
      l ←? rp_List (st_repository s) Pool namespace opts wrap NewInternalError;
      let '(items, continueToken) := l in
      if bool_decide (lo_ResourceVersion opts = "") || bool_decide (lo_ResourceVersion opts = "0") then
        listRV ←? nextResourceVersion wrap NewInternalError;
        Ret (Ok {| ol_Items := items; ol_ResourceVersion := version_string listRV; ol_Continue := continueToken |})
      else
        let listRV := match ParseUint (lo_ResourceVersion opts) with Ok rv => rv | Err _ => 0%Z end in
        Ret (Ok {| ol_Items := items; ol_ResourceVersion := version_string listRV; ol_Continue := continueToken |})
  end.

(** ** Count *)

Definition Count (key : string) : db_prog T (result Z) :=
  let namespace := extractKeyNamespace (st_clusterScoped s) key in
  count ←? rp_Count (st_repository s) Pool namespace wrap NewInternalError;
  Ret (Ok count).

(** ** GuaranteedUpdate *)

Definition write_update (key name namespace : string) (updatedObj : T) : db_prog T (result T) :=
  rv ←? nextResourceVersion wrap NewInternalError;
  let updatedObj := UpdateObject updatedObj rv in
  r ← rp_Update (st_repository s) name namespace updatedObj;
  match r with
  | Err e => if errors_Is e ErrNotFound then Ret (Err (NewKeyNotFoundError key)) else Ret (Err (NewInternalError e))
  | Ok _ =>
      check trigger Commit wrap NewInternalError;
      _ ← broadcast Modified updatedObj;
      Ret (Ok updatedObj)
  end.

Definition lock_conflict (e : error) : bool := IsConflict e && strings_Contains (Error e) OptimisticLockErrorMsg.

Fixpoint update_loop (fuel : nat) (key name namespace : string) (ignoreNotFound : bool)
    (preconditions : string → T → result unit) : db_prog T (option (result T)) :=
  match fuel with
  | O => Ret None
  | S fuel' =>
      r ← rp_Get (st_repository s) Tx name namespace;
      match r with
      | Err e =>
          if errors_Is e ErrNotFound then
            if negb ignoreNotFound then Ret (Some (Err (NewKeyNotFoundError key))) else Ret (Some (Ok newFunc))
          else Ret (Some (Err (NewInternalError e)))
      | Ok obj =>
          match preconditions key obj with
          | Err e => Ret (Some (Err e))
          | Ok _ =>
              r ← trigger (TryUpdate obj);
              match r with
              | Err e =>
                  if lock_conflict e then update_loop fuel' key name namespace ignoreNotFound preconditions
                  else Ret (Some (Err e))
              | Ok updatedObj => r ← write_update key name namespace updatedObj; Ret (Some r)
              end
          end
      end
  end.

Definition GuaranteedUpdate (fuel : nat) (key : string) (ignoreNotFound : bool)
    (preconditions : string → T → result unit) : db_prog T (option (result T)) :=
  let '(name, namespace) := extractKeyNameAndNamespace (st_clusterScoped s) key in
  if bool_decide (name = "") then Ret (Some (Err (invalid_key key)))
  else
    r ← trigger Begin;
    match r with
    | Err e => Ret (Some (Err (NewInternalError e)))
    | Ok _ => deferring_rollback (update_loop fuel key name namespace ignoreNotFound preconditions)
    end.

(** ** Watch *)

Definition initial_events_end := "k8s.io/initial-events-end".

Definition WatchWithPrefix (events : list (EventType * T)) : db_prog T (result unit) :=
  check trigger (LocalWatch events) wrap errorf "failed to add new watcher with prefix";
  Ret (Ok tt).

Definition bookmark (rv : Z) : T :=
  let b := UpdateObject newFunc rv in
  with_accessor (with_Annotations (<[initial_events_end := "true"]> (om_Annotations (accessor b))) (accessor b)) b.

Definition watchList (key : string) (opts : ListOptions) : db_prog T (result unit) :=
  listObj ←? GetList key opts wrap id;
  match wrap_err "failed to parse resource version" (ParseUint (ol_ResourceVersion listObj)) with
  | Err e => Ret (Err e)
  | Ok rv => WatchWithPrefix (((λ item, (Added, item)) <$> ol_Items listObj) ++ [(Bookmark, bookmark rv)])
  end.

Definition Watch (key : string) (opts : ListOptions) : db_prog T (result unit) :=
  if default false (lo_SendInitialEvents opts) && lo_AllowWatchBookmarks opts then watchList key opts
  else if bool_decide (lo_ResourceVersion opts = "") then
    check trigger (LocalWatch []) wrap errorf "failed to add new watcher";
    Ret (Ok tt)
  else if bool_decide (lo_ResourceVersion opts = "0") then
    obj ←? Get key false wrap id;
    WatchWithPrefix [(Added, obj)]
  else
    listObj ←? GetList key opts wrap id;
    WatchWithPrefix ((λ item, (Added, item)) <$> ol_Items listObj).

End store.
Arguments store : clear implicits.
