(* ===== verification/StoreEvents.v ===== *)
(** * Writes and their events

    What the store operations of [src/internal/storage/store.go] guarantee
    whatever the database and the message broker answer: an object is announced
    to the watchers only after the transaction that wrote it has been
    committed, and an operation that fails announces nothing. *)

From stdpp Require Import prelude gmap strings list.
From Stdlib Require Import ZArith Lia.
From S2P Require Import Prelude Prog Meta Strconv Sql Effects StorageEffects StorageSample Repository Store.

(** ** The interface of a repository

    Its operations send statements, and leave the transaction to the store. *)
Definition statement {T} A (e : SEff T A) : Prop :=
  match e with
  | Insert _ _ _ _ | DeleteReturning _ _ | UpdateSet _ _ _ | QueryRow _ _ _ | Query _ _ _
  | QueryCount _ _ _ | QueryGroups _ _ _ _ => True
  | _ => False
  end.

Class SendsStatements {T} (repo : Repository T) : Prop := {
  Create_statements : ∀ o, calls statement (rp_Create repo o);
  Delete_statements : ∀ n ns, calls statement (rp_Delete repo n ns);
  Get_statements : ∀ db n ns, calls statement (rp_Get repo db n ns);
  List_statements : ∀ db ns opts, calls statement (rp_List repo db ns opts);
  Update_statements : ∀ n ns o, calls statement (rp_Update repo n ns o);
  Count_statements : ∀ db ns, calls statement (rp_Count repo db ns)
}.

#[export] Instance generic_statements `{!Resource T} table : SendsStatements (GenericObjectRepository (T:=T) table).
Proof.
  split; intros; unfold GenericObjectRepository;
    cbn [rp_Create rp_Delete rp_Get rp_List rp_Update rp_Count];
    unfold repo_Create, repo_Delete, repo_Get, repo_List, list_objects, repo_Update, repo_Count;
    repeat first [calls_step | exact I].
Qed.

(** ** Outcomes *)

Section events.
Context {T : Type} `{!Resource T, !JSON event} (s : store T) `{!SendsStatements (st_repository s)}.

(** Calls before the end of the transaction. *)
Definition pending A (e : SEff T A) : Prop :=
  match e with Commit | NatsPublish _ _ | LocalAction _ _ | LocalWatch _ => False | _ => True end.

Lemma statement_pending A (e : SEff T A) : statement A e → pending A e.
Proof. by destruct e. Qed.

(** The message that announces an object. *)
Definition announcement (type : EventType) (obj : T) (subject data : string) : Prop :=
  subject = "watch." +:+ st_resource s ∧
  ∃ stripped bytes, st_transform s obj = Ok stripped ∧ encode stripped = Ok bytes ∧
    Marshal {| ev_EventType := type; ev_Object := bytes |} = Ok data.

(** What follows a commit: at most one message, announcing the object. *)
Inductive announced (type : EventType) (obj : T) : trace (SEff T) → Prop :=
| Announced subject data a :
    announcement type obj subject data → announced type obj [Ev (NatsPublish subject data) a]
| Unannounced :
    (∀ subject data, ¬ announcement type obj subject data) → announced type obj [].

(** A result that does not claim a write: an error, no result, or the zero value
    of an update that ignores a missing object. *)
Definition unwritten (ignoreNotFound : bool) (r : option (result T)) : Prop :=
  match r with Some (Ok o) => ignoreNotFound = true ∧ o = newFunc | _ => True end.

(** The end of a write: nothing was committed or announced; or the transaction
    was committed and then the object announced.  A commit that fails is the
    last thing that happens. *)
Inductive write_outcome (ign : bool) (type : EventType) (tr : trace (SEff T)) : option (result T) → Prop :=
| Nothing_written r :
    unwritten ign r → Forall (obs_call pending) tr → write_outcome ign type tr r
| Commit_failed pre e e' :
    Forall (obs_call pending) pre → tr = pre ++ [Ev Commit (Err e)] → write_outcome ign type tr (Some (Err e'))
| Committed pre post obj :
    Forall (obs_call pending) pre → tr = pre ++ [Ev Commit (Ok tt)] ++ post → announced type obj post →
    write_outcome ign type tr (Some (Ok obj)).

Lemma outcome_prefix ign type pre tr r :
  Forall (obs_call pending) pre → write_outcome ign type tr r → write_outcome ign type (pre ++ tr) r.
Proof.
  intros Hpre [r' Hr Htr|p e e' Hp ->|p post obj Hp -> Ha].
  - apply Nothing_written; [done|]. by apply Forall_app.
  - eapply Commit_failed; [apply Forall_app; split; [exact Hpre|exact Hp]|]. by rewrite <- app_assoc.
  - eapply Committed; [apply Forall_app; split; [exact Hpre|exact Hp]| |exact Ha]. by rewrite <- app_assoc.
Qed.

Lemma broadcast_announces type obj : wp any_answer (broadcast s type obj) [] (λ tr _, announced type obj tr).
Proof.
  unfold broadcast, Action, publish.
  destruct (st_transform s obj) as [stripped|e] eqn:Ht; cbn [wrap_err];
    [|apply Unannounced; intros ? ? (_ & ? & ? & Ht' & _); congruence].
  destruct (encode stripped) as [bytes|e] eqn:He; cbn [wrap_err];
    [|apply Unannounced; intros ? ? (_ & ? & ? & Ht' & He' & _); congruence].
  destruct (Marshal _) as [data|e] eqn:Hm; cbn [wrap_err];
    [|apply Unannounced; intros ? ? (_ & ? & ? & Ht' & He' & Hm'); congruence].
  intros a _. assert (announced type obj [Ev (NatsPublish ("watch." +:+ st_resource s) data) a]) as Ha.
  { apply Announced. split; [done|]. by exists stripped, bytes. }
  by destruct a.
Qed.

Lemma commit_outcome ign type obj :
  wp any_answer (check trigger Commit wrap NewInternalError; _ ← broadcast s type obj; Ret (Ok obj)) []
    (λ tr r, write_outcome ign type tr (Some r)).
Proof.
  intros a _. destruct a as [[]|e]; cbn [wp pbind]; [|by eapply (Commit_failed _ _ _ [])].
  apply wp_bind. eapply (wp_frame _ _ [_]); [apply broadcast_announces|].
  intros ext [] Hext. cbn [wp]. by eapply (Committed _ _ _ []).
Qed.

(** [defer tx.Rollback] adds nothing once the transaction is closed. *)
Inductive then_rollback (ign : bool) (type : EventType) (r : option (result T)) : trace (SEff T) → Prop :=
| Then_rollback tr a : write_outcome ign type tr r → then_rollback ign type r (tr ++ [Ev Rollback a]).

Lemma deferring_outcome {A} ign type (f : A → option (result T)) (body : db_prog T A) :
  wp any_answer body [] (λ tr r, write_outcome ign type tr (f r)) →
  wp any_answer (deferring_rollback body) [] (λ tr r, then_rollback ign type (f r) tr).
Proof.
  intros Hb. eapply wp_seq; [exact Hb|]. intros ext r Hext. intros a _. cbn. by constructor.
Qed.

(** Parts of an operation before its commit. *)
Lemma skip_pending {A B} ign type (f : B → option (result T)) (p : db_prog T A) (k : A → db_prog T B) :
  calls pending p → (∀ a, wp any_answer (k a) [] (λ tr r, write_outcome ign type tr (f r))) →
  wp any_answer (p ≫= k) [] (λ tr r, write_outcome ign type tr (f r)).
Proof.
  intros Hp Hk. apply (wp_closed_bind pending); [|done|done]. intros pre tr r. apply outcome_prefix.
Qed.

Lemma skip_statements {A B} ign type (f : B → option (result T)) (p : db_prog T A) (k : A → db_prog T B) :
  calls statement p → (∀ a, wp any_answer (k a) [] (λ tr r, write_outcome ign type tr (f r))) →
  wp any_answer (p ≫= k) [] (λ tr r, write_outcome ign type tr (f r)).
Proof. intros Hp. apply skip_pending. eapply calls_mono, Hp. apply statement_pending. Qed.

Lemma ret_outcome ign type (r : option (result T)) : unwritten ign r → write_outcome ign type [] r.
Proof. intros Hr. apply Nothing_written; [done|]. constructor. Qed.

Lemma nextResourceVersion_pending : calls pending (nextResourceVersion (T:=T)).
Proof. unfold nextResourceVersion. repeat first [calls_step | exact I]. Qed.

Lemma create_outcome key obj :
  wp any_answer (create_in_tx s key obj) [] (λ tr r, write_outcome false Added tr (Some r)).
Proof using Type*.
  unfold create_in_tx. apply (skip_statements false Added Some); [apply Create_statements|].
  intros [[]|e]; [apply commit_outcome|]. destruct (errors_Is _ _); by apply ret_outcome.
Qed.

Lemma delete_outcome key name namespace preconditions :
  wp any_answer (delete_in_tx s key name namespace preconditions) [] (λ tr r, write_outcome false Deleted tr (Some r)).
Proof using Type*.
  unfold delete_in_tx. apply (skip_statements false Deleted Some); [apply Delete_statements|].
  intros [obj|e]; [|destruct (errors_Is _ _); by apply ret_outcome].
  destruct (preconditions key obj) as [_|e]; [|by apply ret_outcome].
  apply (skip_pending false Deleted Some); [by split|]. intros [_|e]; [apply commit_outcome|by apply ret_outcome].
Qed.

Lemma write_update_outcome ignoreNotFound key name namespace obj :
  wp any_answer (write_update s key name namespace obj) [] (λ tr r, write_outcome ignoreNotFound Modified tr (Some r)).
Proof using Type*.
  unfold write_update. apply (skip_pending ignoreNotFound Modified Some); [apply nextResourceVersion_pending|].
  intros [rv|e]; [|by apply ret_outcome]. cbv zeta.
  apply (skip_statements ignoreNotFound Modified Some); [apply Update_statements|].
  intros [[]|e]; [apply commit_outcome|]. destruct (errors_Is _ _); by apply ret_outcome.
Qed.

Lemma update_loop_outcome fuel key name namespace ignoreNotFound preconditions :
  wp any_answer (update_loop s fuel key name namespace ignoreNotFound preconditions) []
    (λ tr r, write_outcome ignoreNotFound Modified tr r).
Proof using Type*.
  induction fuel as [|fuel IH]; [by apply ret_outcome|]. cbn [update_loop].
  apply (skip_statements ignoreNotFound Modified id); [apply Get_statements|].
  intros [obj|e]; [|destruct (errors_Is _ _); [destruct ignoreNotFound|]; by apply ret_outcome].
  destruct (preconditions key obj) as [_|e]; [|by apply ret_outcome].
  apply (skip_pending ignoreNotFound Modified id); [by split|].
  intros [updated|e]; [|destruct (lock_conflict e); [exact IH|by apply ret_outcome]].
  apply wp_bind. eapply wp_mono; [|apply write_update_outcome]. intros tr r Hr. exact Hr.
Qed.

(** ** The operations *)

Inductive operation :=
| OpCreate (key : string) (obj : T)
| OpDelete (key : string) (preconditions : string → T → result unit)
| OpUpdate (fuel : nat) (key : string) (ignoreNotFound : bool) (preconditions : string → T → result unit).

Definition op_event (op : operation) : EventType :=
  match op with OpCreate _ _ => Added | OpDelete _ _ => Deleted | OpUpdate _ _ _ _ => Modified end.
Definition op_ignores (op : operation) : bool :=
  match op with OpUpdate _ _ ign _ => ign | _ => false end.

Definition perform (op : operation) : db_prog T (option (result T)) :=
  match op with
  | OpCreate key obj => r ← Create s key obj; Ret (Some r)
  | OpDelete key preconditions => r ← Delete s key preconditions; Ret (Some r)
  | OpUpdate fuel key ign preconditions => GuaranteedUpdate s fuel key ign preconditions
  end.

(** The end of an operation: it failed before its transaction, or it closed it. *)
Inductive settled (op : operation) (r : option (result T)) : trace (SEff T) → Prop :=
| Not_begun tr : unwritten false r → Forall (obs_call pending) tr → settled op r tr
| Closed pre tr a :
    Forall (obs_call pending) pre → write_outcome (op_ignores op) (op_event op) tr r →
    settled op r (pre ++ tr ++ [Ev Rollback a]).

Lemma settled_prefix op r pre tr :
  Forall (obs_call pending) pre → settled op r tr → settled op r (pre ++ tr).
Proof.
  intros Hpre [tr' Hr Htr|p tr' a Hp Ho].
  - apply Not_begun; [done|]. by apply Forall_app.
  - rewrite app_assoc. apply Closed; [|done]. by apply Forall_app.
Qed.

Lemma in_transaction {A} op (f : A → option (result T)) (body : db_prog T A) :
  wp any_answer body [] (λ tr r, write_outcome (op_ignores op) (op_event op) tr (f r)) →
  wp any_answer (deferring_rollback body) [] (λ tr r, settled op (f r) tr).
Proof.
  intros Hb. eapply wp_mono; [|by apply deferring_outcome]. intros tr r [tr' a Ho]. by apply (Closed _ _ []).
Qed.

Lemma skip_before {A B} op (f : B → option (result T)) (p : db_prog T A) (k : A → db_prog T B) :
  calls pending p → (∀ a, wp any_answer (k a) [] (λ tr r, settled op (f r) tr)) →
  wp any_answer (p ≫= k) [] (λ tr r, settled op (f r) tr).
Proof. intros Hp Hk. apply (wp_closed_bind pending); [|done|done]. intros pre tr r. apply settled_prefix. Qed.

Lemma not_begun op r : unwritten false r → settled op r [].
Proof. intros Hr. by apply Not_begun. Qed.

Lemma perform_settled op : wp any_answer (perform op) [] (λ tr r, settled op r tr).
Proof using Type*.
  destruct op as [key obj|key pre|fuel key ign pre]; cbn [perform].
  - apply wp_bind. unfold Create.
    apply (skip_before (OpCreate key obj) Some); [apply nextResourceVersion_pending|].
    intros [rv|e]; [|by apply not_begun]. apply (skip_before (OpCreate key obj) Some); [by split|].
    intros [_|e]; [|by apply not_begun].
    apply (in_transaction (OpCreate key obj) Some), create_outcome.
  - apply wp_bind. unfold Delete. destruct (extractKeyNameAndNamespace _ key) as [name ns].
    case_bool_decide; [by apply not_begun|]. apply (skip_before (OpDelete key pre) Some); [by split|].
    intros [_|e]; [|by apply not_begun].
    apply (in_transaction (OpDelete key pre) Some), delete_outcome.
  - unfold GuaranteedUpdate. destruct (extractKeyNameAndNamespace _ key) as [name ns].
    case_bool_decide; [by apply not_begun|]. apply (skip_before (OpUpdate fuel key ign pre) id); [by split|].
    intros [_|e]; [|by apply not_begun].
    apply (in_transaction (OpUpdate fuel key ign pre) id), update_loop_outcome.
Qed.

(** The messages and the commits of a trace. *)
Definition ev_nats (o : obs (SEff T)) : option (string * string) :=
  match o with Ev e _ => match e with NatsPublish subject data => Some (subject, data) | _ => None end end.
Definition ev_commit (o : obs (SEff T)) : option (result unit) :=
  match o with
  | Ev e a => match e in SEff _ A return A → option (result unit) with Commit => Some | _ => λ _, None end a
  end.

(** [C15] A write is announced once, after it is durable: whatever the database,
    the broker and the callbacks answer, an operation that returns an object it
    wrote has committed exactly one transaction and then, with nothing in
    between, sent the message that announces this object (none if the object
    cannot be encoded); an operation that fails, or that could not find the
    object, has announced nothing and its only commit, if any, failed. *)
Theorem announced_after_commit {W} (h : handler (SEff T) W) (w : W) (op : operation) :
  let tr := run_trace h (perform op) w in
  let r := run_result h (perform op) w in
  (∃ obj pre post a, r = Some (Ok obj) ∧ tr = pre ++ [Ev Commit (Ok tt)] ++ post ++ [Ev Rollback a] ∧
     Forall (obs_call pending) pre ∧ announced (op_event op) obj post) ∨
  (unwritten (op_ignores op) r ∧ omap ev_nats tr = [] ∧ Forall (λ a, is_ok a = false) (omap ev_commit tr)).
Proof using Type*.
  intros tr r. pose proof (wp_run_any h _ w _ (perform_settled op)) as Hs. fold tr r in Hs.
  assert (∀ tr, Forall (obs_call pending) tr → omap ev_nats tr = []) as Hn.
  { intros tr'. apply omap_calls. intros A e a. by destruct e. }
  assert (∀ tr, Forall (obs_call pending) tr → omap ev_commit tr = []) as Hc.
  { intros tr'. apply omap_calls. intros A e a. by destruct e. }
  clearbody tr r. destruct Hs as [tr Hr Htr|pre tr a Hpre [r' Hr Htr|p e e' Hp ->|p post obj Hp -> Ha]].
  - right. rewrite Hn, Hc by done. split_and!; [|done|constructor]. destruct r as [[o|e]|]; [by destruct Hr|done|done].
  - right. rewrite !omap_app, !Hn, !Hc by done. split_and!; [done|done|constructor].
  - right. rewrite !omap_app, !Hn, !Hc by done. split_and!; [done|done|by repeat constructor].
  - left. exists obj, (pre ++ p), post, a. split_and!; [done| |by apply Forall_app|done].
    by rewrite <- !app_assoc.
Qed.
End events.

(** A text form of an event that can be read back. *)
Definition event_tag (t : EventType) : bool * bool :=
  match t with Added => (false, false) | Modified => (false, true) | Deleted => (true, false) | Bookmark => (true, true) end.
Definition tag_event (t : bool * bool) : EventType :=
  match t with (false, false) => Added | (false, true) => Modified | (true, false) => Deleted | (true, true) => Bookmark end.

Definition sample_event_json : JSON event := {|
  Marshal := λ e, Ok (number_text (event_tag (ev_EventType e), ev_Object e));
  Unmarshal := λ s, match text_number (A:=(bool * bool) * json) s with
                    | Some (t, j) => Ok {| ev_EventType := tag_event t; ev_Object := j |}
                    | None => Err (errors_New "not an event")
                    end |}.

Lemma sample_event_roundtrip e data : @Marshal _ sample_event_json e = Ok data → @Unmarshal _ sample_event_json data = Ok e.
Proof.
  intros [= <-]. cbn [Unmarshal sample_event_json]. rewrite text_number_text. by destruct e as [[] j].
Qed.

(** A database that is never there. *)
Definition refuse_storage {T} : handler (SEff T) unit := λ A e w,
  (match e in SEff _ A return A with
   | Begin | Commit | Rollback | Insert _ _ _ _ | DeleteReturning _ _ | UpdateSet _ _ _ | QueryRow _ _ _ | Query _ _ _
   | QueryCount _ _ _ | QueryGroups _ _ _ _ | NextVal | LastValue | TryUpdate _ | ValidateDeletion _
   | NatsPublish _ _ | LocalAction _ _ | LocalWatch _ => Err (errors_New "refused")
   end, w).

Definition image_store : store ObjectMeta := {|
  st_repository := GenericObjectRepository "images"; st_resource := "images"; st_transform := λ o, Ok o;
  st_clusterScoped := false |}.

Lemma announced_after_commit_witness :
  let op := OpCreate "images/default/a" (new_meta "a" "" "default" ∅ ∅) in
  omap ev_nats (run_trace refuse_storage (@perform _ _ sample_event_json image_store op) tt) = [].
Proof.
  cbv zeta.
  destruct (@announced_after_commit _ _ sample_event_json image_store (generic_statements "images") _ refuse_storage tt
    (OpCreate "images/default/a" (new_meta "a" "" "default" ∅ ∅))) as [(obj & pre & post & a & Hr & _)|(_ & Hn & _)];
    [discriminate Hr|exact Hn].
Defined.
