(* ===== verification/Database.v ===== *)
(** * The database under the storage

    An environment for the programs of the storage: tables with PostgreSQL's
    read-committed transactions, the sequence of resource versions of
    [src/internal/storage/migrations.go], the messages on NATS and the local
    watchers.  Every call may fail, before or after it took effect, and other
    clients may change the database before it: the script of the world says
    which. *)

From stdpp Require Import prelude gmap strings list sorting.
From Stdlib Require Import ZArith Lia.
From S2P Require Import Prelude Prog Meta Strconv Sql Effects StorageEffects Repository.
Open Scope Z_scope.

(** What all clients share.  The sequence is as [last_value] and [is_called]
    have it. *)
Record database := {
  d_tables : gmap string relation;
  d_last_value : Z;
  d_is_called : bool;
  d_sent : list (string * string)
}.

(** A statement of an open transaction that writes. *)
Inductive write :=
| WInsert (table : string) (r : row)
| WDelete (table : string) (conds : list expr)
| WUpdate (table : string) (object : json) (conds : list expr).

Inductive fault := Fine | Fails | FailsAfter.

(** What happens at a call: the other clients first, then the call. *)
Record turn := { t_others : database → database; t_fault : fault }.

Record world (T : Type) := {
  w_db : database;
  w_tx : option (list write);
  w_streams : list (list (EventType * T));
  w_script : list turn
}.
Arguments w_db {T}. Arguments w_tx {T}. Arguments w_streams {T}. Arguments w_script {T}.

Definition table_of (name : string) (ts : gmap string relation) : relation := default empty_relation (ts !! name).

Section database.
Context {T : Type} `{!Postgres}.

Definition has_key (key : string * string) (t : relation) : bool :=
  existsb (λ r, bool_decide (row_key r = key)) (rl_rows t).

Definition append_row (r : row) (t : relation) : relation :=
  if has_key (row_key r) t then t else {| rl_rows := rl_rows t ++ [r]; rl_next := rl_next t |}.

(** A statement that fails leaves the table as it is. *)
Definition apply_write (ts : gmap string relation) (wr : write) : gmap string relation :=
  match wr with
  | WInsert table r => <[table := append_row r (table_of table ts)]> ts
  | WDelete table conds =>
      match sql_delete conds (table_of table ts) with Some (_, t) => <[table := t]> ts | None => ts end
  | WUpdate table object conds =>
      match sql_update object conds (table_of table ts) with Some (_, t) => <[table := t]> ts | None => ts end
  end.

Definition with_tables (ts : gmap string relation) (d : database) : database :=
  {| d_tables := ts; d_last_value := d_last_value d; d_is_called := d_is_called d; d_sent := d_sent d |}.
Definition with_db (d : database) (w : world T) : world T :=
  {| w_db := d; w_tx := w_tx w; w_streams := w_streams w; w_script := w_script w |}.
Definition with_tx (tx : option (list write)) (w : world T) : world T :=
  {| w_db := w_db w; w_tx := tx; w_streams := w_streams w; w_script := w_script w |}.
Definition with_streams (ss : list (list (EventType * T))) (w : world T) : world T :=
  {| w_db := w_db w; w_tx := w_tx w; w_streams := ss; w_script := w_script w |}.
Definition with_script (sc : list turn) (w : world T) : world T :=
  {| w_db := w_db w; w_tx := w_tx w; w_streams := w_streams w; w_script := sc |}.

(** A statement sees what is committed and the writes of its own transaction. *)
Definition visible (q : Querier) (w : world T) : gmap string relation :=
  match q, w_tx w with
  | Tx, Some log => fold_left apply_write log (d_tables (w_db w))
  | _, _ => d_tables (w_db w)
  end.

Definition log_write (wr : write) (w : world T) : world T := with_tx (Some (default [] (w_tx w) ++ [wr])) w.

Definition sql_error : error := errors_New "ERROR: the statement failed".
Definition fault_error : error := errors_New "connection lost".
Definition or_error {A} (o : option A) : result A := match o with Some a => Ok a | None => Err sql_error end.

(** Draws an identifier of a table; this is not undone by a rollback. *)
Definition draw_id (table : string) (w : world T) : Z * world T :=
  let t := table_of table (d_tables (w_db w)) in
  (rl_next t, with_db (with_tables (<[table := {| rl_rows := rl_rows t; rl_next := rl_next t + 1 |}]> (d_tables (w_db w))) (w_db w)) w).

Definition draw_version (w : world T) : Z * world T :=
  let d := w_db w in
  let v := if d_is_called d then d_last_value d + 1 else d_last_value d in
  (v, with_db {| d_tables := d_tables d; d_last_value := v; d_is_called := true; d_sent := d_sent d |} w).

(** Groups, in the order of their first row; a value that is not text is an error. *)
Definition text_of (v : option value) : option string := match v with Some (VText s) => Some s | _ => None end.
Fixpoint texts (r : row) (es : list expr) : option (list string) :=
  match es with
  | [] => Some []
  | e :: es' => s ← text_of (eval r e); ss ← texts r es'; Some (s :: ss)
  end.
Definition add_group (k : list string) (gs : list (list string * Z)) : list (list string * Z) :=
  if existsb (λ g, bool_decide (g.1 = k)) gs
  then (λ g, if bool_decide (g.1 = k) then (g.1, g.2 + 1) else g) <$> gs
  else gs ++ [(k, 1)].
Fixpoint groups (group : list expr) (rows : list row) (gs : list (list string * Z)) : option (list (list string * Z)) :=
  match rows with
  | [] => Some gs
  | r :: rows' => match texts r group with Some k => groups group rows' (add_group k gs) | None => None end
  end.

Context (tryUpdate : T → result T) (validateDeletion : T → result unit).

(** The effect of a call that does not fail. *)
Definition effect A (e : SEff T A) (w : world T) : A * world T :=
  match e in SEff _ A return A * world T with
  | Begin => (Ok tt, with_tx (Some []) w)
  | Commit =>
      match w_tx w with
      | Some log => (Ok tt, with_tx None (with_db (with_tables (fold_left apply_write log (d_tables (w_db w))) (w_db w)) w))
      | None => (Err (errors_New "tx is closed"), w)
      end
  | Rollback =>
      match w_tx w with Some _ => (Ok tt, with_tx None w) | None => (Err (errors_New "tx is closed"), w) end
  | Insert table name namespace object =>
      let '(id, w') := draw_id table w in
      if has_key (name, namespace) (table_of table (visible Tx w)) then (Ok 0, w')
      else (Ok 1, log_write (WInsert table {| row_id := id; row_name := name; row_namespace := namespace;
                                              row_object := object |}) w')
  | DeleteReturning table conds =>
      match sql_delete conds (table_of table (visible Tx w)) with
      | Some (objects, _) => (Ok (head objects), log_write (WDelete table conds) w)
      | None => (Err sql_error, w)
      end
  | UpdateSet table object conds =>
      match sql_update object conds (table_of table (visible Tx w)) with
      | Some (n, _) => (Ok n, log_write (WUpdate table object conds) w)
      | None => (Err sql_error, w)
      end
  | QueryRow q table conds =>
      (or_error (head ∘ fmap row_object <$> where_rows conds (rl_rows (table_of table (visible q w)))), w)
  | Query q table sel =>
      (match sql_select sel (table_of table (visible q w)) with
       | Some rows => Ok {| rows_scan := (λ r, Ok (row_id r, row_object r)) <$> rows; rows_err := None |}
       | None => Err sql_error
       end, w)
  | QueryCount q table conds => (or_error (sql_count conds (table_of table (visible q w))), w)
  | QueryGroups q table conds group =>
      (match where_rows conds (rl_rows (table_of table (visible q w))) with
       | Some rows =>
           match groups group rows [] with
           | Some gs => Ok {| rows_scan := Ok <$> gs; rows_err := None |}
           | None => Err sql_error
           end
       | None => Err sql_error
       end, w)
  | NextVal => let '(v, w') := draw_version w in (Ok v, w')
  | LastValue => (Ok (d_last_value (w_db w), d_is_called (w_db w)), w)
  | TryUpdate o => (tryUpdate o, w)
  | ValidateDeletion o => (validateDeletion o, w)
  | NatsPublish subject data =>
      (Ok tt, with_db {| d_tables := d_tables (w_db w); d_last_value := d_last_value (w_db w);
                         d_is_called := d_is_called (w_db w); d_sent := d_sent (w_db w) ++ [(subject, data)] |} w)
  | LocalAction type o => (Ok tt, with_streams ((λ st, st ++ [(type, o)]) <$> w_streams w) w)
  | LocalWatch prefix => (Ok tt, with_streams (w_streams w ++ [prefix]) w)
  end.

(** A failed call: a transaction whose commit fails is closed. *)
Definition failed A (e : SEff T A) (w : world T) : A * world T :=
  match e in SEff _ A return A * world T with
  | Commit => (Err fault_error, with_tx None w)
  | Begin | Rollback | Insert _ _ _ _ | DeleteReturning _ _ | UpdateSet _ _ _ | QueryRow _ _ _ | Query _ _ _
  | QueryCount _ _ _ | QueryGroups _ _ _ _ | NextVal | LastValue | TryUpdate _ | ValidateDeletion _
  | NatsPublish _ _ | LocalAction _ _ | LocalWatch _ => (Err fault_error, w)
  end.

Definition pg : handler (SEff T) (world T) := λ A e w,
  match w_script w with
  | [] => effect A e w
  | turn :: script =>
      let w' := with_script script (with_db (t_others turn (w_db w)) w) in
      match t_fault turn with
      | Fine => effect A e w'
      | Fails => failed A e w'
      | FailsAfter => ((failed A e w').1, (effect A e w').2)
      end
  end.

End database.
