(* ===== verification/Pagination.v ===== *)
(** * Paging through a list

    The continue tokens of [src/internal/storage/repository/list.go]: a client
    that follows them gets every object of the list once, in the order of the
    unpaged list, and reaches the end. *)

From stdpp Require Import prelude gmap strings list sorting.
From Stdlib Require Import ZArith Lia.
From S2P Require Import Prelude Prog Meta Strconv Sql Effects StorageEffects StorageSample Repository Database.
Open Scope Z_scope.

(** ** Conditions *)

Section conditions.
Context `{!Postgres}.

Lemma selected_app c1 c2 r :
  selected (c1 ++ c2) r = match selected c1 r with Some true => selected c2 r | o => o end.
Proof.
  induction c1 as [|e c1 IH]; [done|]. cbn [selected app].
  destruct (eval r e) as [[| | | |[]]|]; done.
Qed.

(** A cursor among the conditions keeps the rows after it. *)
Lemma selected_cursor c1 c2 c r b :
  selected (c1 ++ c2) r = Some b →
  selected (c1 ++ [GT (Col C_id) (Arg (VBigint c))] ++ c2) r = Some (b && bool_decide (c < row_id r)).
Proof.
  rewrite !selected_app. destruct (selected c1 r) as [[]|]; [|by intros [= <-]|done].
  cbn. intros Hb. destruct (Z.ltb_spec c (row_id r)).
  - rewrite Hb, bool_decide_true by lia. by rewrite andb_true_r.
  - rewrite bool_decide_false by lia. by rewrite andb_false_r.
Qed.

Lemma where_cursor c1 c2 c rows sel :
  where_rows (c1 ++ c2) rows = Some sel →
  where_rows (c1 ++ [GT (Col C_id) (Arg (VBigint c))] ++ c2) rows = Some (filter (λ r, c < row_id r) sel).
Proof.
  revert sel. induction rows as [|r rows IH]; intros sel; [by intros [= <-]|]. cbn [where_rows].
  destruct (selected (c1 ++ c2) r) as [b|] eqn:Hb; [|done].
  rewrite (selected_cursor _ _ _ _ _ Hb). cbn [mbind option_bind].
  destruct (where_rows (c1 ++ c2) rows) as [sel'|]; [|done]. rewrite (IH _ eq_refl). cbn [mbind option_bind]. intros [= <-]. f_equal.
  destruct b; [|done]. cbn [andb]. rewrite filter_cons. case_decide; case_bool_decide; done.
Qed.

Lemma where_sublist conds rows sel : where_rows conds rows = Some sel → sel `sublist_of` rows.
Proof.
  revert sel. induction rows as [|r rows IH]; intros sel; [by intros [= <-]|]. cbn.
  destruct (selected conds r) as [b|]; [|done]. cbn. destruct (where_rows conds rows) as [sel'|]; [|done].
  cbn. intros [= <-]. destruct b; constructor; by apply IH.
Qed.
End conditions.

(** ** Sorting and cutting *)

Definition by_id (r1 r2 : row) : Prop := row_id r1 ≤ row_id r2.
#[export] Instance by_id_total : Total by_id.
Proof. intros r1 r2. unfold by_id. lia. Qed.
#[export] Instance by_id_trans : Transitive by_id.
Proof. intros r1 r2 r3. unfold by_id. lia. Qed.

Lemma fmap_sublist {A B} (f : A → B) l1 l2 : l1 `sublist_of` l2 → f <$> l1 `sublist_of` f <$> l2.
Proof. induction 1; cbn; by constructor. Qed.

Definition after (c : Z) (rows : list row) : list row := filter (λ r, c < row_id r) rows.

Lemma order_sorted rows : StronglySorted by_id (order_by_id rows).
Proof. apply (StronglySorted_merge_sort by_id). Qed.
Lemma order_perm rows : order_by_id rows ≡ₚ rows.
Proof. apply merge_sort_Permutation. Qed.

Lemma filter_sorted c rows : StronglySorted by_id rows → StronglySorted by_id (after c rows).
Proof.
  unfold after. induction 1 as [|r rows Hs IH Hr]; [constructor|]. rewrite filter_cons. case_decide; [|done].
  constructor; [done|]. apply Forall_forall. intros r' [_ Hr']%list_elem_of_filter.
  rewrite Forall_forall in Hr. by apply Hr.
Qed.

Lemma ids_distinct rows r1 r2 :
  NoDup (row_id <$> rows) → r1 ∈ rows → r2 ∈ rows → row_id r1 = row_id r2 → r1 = r2.
Proof.
  intros Hnd H1 H2 Heq. apply list_elem_of_lookup in H1 as [i Hi], H2 as [j Hj].
  assert (i = j) as ->; [|by simplify_eq].
  apply (NoDup_lookup (row_id <$> rows) i j (row_id r1)); [done| |]; rewrite list_lookup_fmap;
    [by rewrite Hi|rewrite Hj; cbn; by rewrite Heq].
Qed.

Lemma order_after c rows : NoDup (row_id <$> rows) → order_by_id (after c rows) = after c (order_by_id rows).
Proof.
  intros Hnd. apply (StronglySorted_unique_strong by_id).
  - unfold after. intros r1 r2 Hr1 Hr2 Hle Hge. rewrite order_perm in Hr1.
    apply list_elem_of_filter in Hr1 as [_ Hr1], Hr2 as [_ Hr2]. rewrite order_perm in Hr2.
    apply (ids_distinct rows); [done..|]. unfold by_id in Hle, Hge. lia.
  - apply order_sorted.
  - apply filter_sorted, order_sorted.
  - unfold after. by rewrite !order_perm.
Qed.

Lemma after_after c c' rows : c ≤ c' → after c' (after c rows) = after c' rows.
Proof.
  intros Hc. unfold after. rewrite list_filter_filter. apply list_filter_iff. intros r. lia.
Qed.

Lemma after_all c rows : Forall (λ r, c < row_id r) rows → after c rows = rows.
Proof. induction 1 as [|r rows Hr _ IH]; [done|]. unfold after in *. by rewrite filter_cons_True, IH. Qed.

Lemma after_none c rows : Forall (λ r, row_id r ≤ c) rows → after c rows = [].
Proof.
  induction 1 as [|r rows Hr _ IH]; [done|]. unfold after in *. rewrite filter_cons_False by lia. done.
Qed.

(** The rows after the last one of a page. *)
Lemma after_page c k rows r :
  StronglySorted by_id rows → NoDup (row_id <$> rows) → last (take k (after c rows)) = Some r →
  after (row_id r) rows = drop k (after c rows) ∧ c < row_id r.
Proof.
  intros Hs Hnd Hl. assert (c < row_id r) as Hc.
  { apply last_Some_elem_of in Hl. apply elem_of_take in Hl as (i & Hi & _).
    apply list_elem_of_lookup_2 in Hi. unfold after in Hi. by apply list_elem_of_filter in Hi as [? _]. }
  split; [|done]. rewrite <- (after_after c) by lia.
  assert (StronglySorted by_id (after c rows)) as Hs' by by apply filter_sorted.
  assert (NoDup (row_id <$> after c rows)) as Hnd'.
  { eapply sublist_NoDup; [exact Hnd|apply fmap_sublist, sublist_filter]. }
  revert Hs' Hnd' Hl. generalize (after c rows). intros L Hs' Hnd' Hl. clear Hs Hnd Hc.
  assert (L = take k L ++ drop k L) as HL by (by rewrite take_drop). revert Hl HL.
  generalize (take k L) (drop k L). intros A B [pre ->]%last_Some ->.
  unfold after. rewrite !filter_app. fold (after (row_id r) pre) (after (row_id r) [r]) (after (row_id r) B).
  rewrite !fmap_app, !NoDup_app in Hnd'. destruct Hnd' as [_ [Hdisj _]].
  apply StronglySorted_app in Hs' as (Hord & Hpr & _). apply StronglySorted_app in Hpr as (Hpr & _ & _).
  rewrite (after_none _ pre), (after_none _ [r]), (after_all _ B); [done| | |].
  - apply Forall_forall. intros b Hb. pose proof (Hord r b ltac:(set_solver) Hb) as Hle. unfold by_id in Hle.
    assert (row_id r ≠ row_id b); [|lia]. intros Heq.
    apply (Hdisj (row_id r)); [set_solver|]. rewrite Heq. by apply list_elem_of_fmap_2.
  - repeat constructor. lia.
  - apply Forall_forall. intros a Ha. exact (Hpr a r Ha ltac:(set_solver)).
Qed.

(** ** One page *)

Definition with_Continue (token : string) (opts : ListOptions) : ListOptions := {|
  lo_ResourceVersion := lo_ResourceVersion opts; lo_SendInitialEvents := lo_SendInitialEvents opts;
  lo_Label := lo_Label opts; lo_Field := lo_Field opts; lo_Limit := lo_Limit opts; lo_Continue := token;
  lo_AllowWatchBookmarks := lo_AllowWatchBookmarks opts |}.
Definition with_Limit (limit : Z) (opts : ListOptions) : ListOptions := {|
  lo_ResourceVersion := lo_ResourceVersion opts; lo_SendInitialEvents := lo_SendInitialEvents opts;
  lo_Label := lo_Label opts; lo_Field := lo_Field opts; lo_Limit := limit; lo_Continue := lo_Continue opts;
  lo_AllowWatchBookmarks := lo_AllowWatchBookmarks opts |}.
Definition unpaged (opts : ListOptions) : ListOptions := with_Limit 0 (with_Continue "" opts).

(** The token of a position: none at the start. *)
Definition token_at (c : option Z) : string := match c with Some c => FormatInt c | None => "" end.
Definition position (c : option Z) : Z := default 0 c.

Section pages.
Context {T : Type} `{!Resource T, !Postgres}.

Definition scanned (rows : list row) : list (result (Z * json)) := (λ r, Ok (row_id r, row_object r)) <$> rows.
Definition decodes (r : row) (o : T) : Prop := decode (row_object r) = Ok o.

Lemma scan_unlimited rows count lastID (items : list T) items' l m :
  scan_rows 0 count lastID items (scanned rows) None = Ok (items', l, m) →
  ∃ os, Forall2 decodes rows os ∧ items' = items ++ os ∧ m = false.
Proof.
  revert count lastID items. induction rows as [|r rows IH]; intros count lastID items; cbn.
  { intros [= <- <- <-]. exists []. by rewrite app_nil_r. }
  destruct (decode (row_object r)) as [o|e] eqn:Ho; [|done]. intros (os & Hos & -> & ->)%IH.
  exists (o :: os). rewrite <- app_assoc. by repeat constructor.
Qed.

(** A page: the first [limit] rows, and whether there are more. *)
Lemma scan_page limit rows os count lastID (items : list T) :
  Forall2 decodes rows os → 0 < limit → 0 ≤ count ≤ limit →
  let k := Z.to_nat (limit - count) in
  scan_rows limit count lastID items (scanned (take (S k) rows)) None =
    Ok (items ++ take k os, default lastID (row_id <$> last (take k rows)), bool_decide (k < length rows)%nat).
Proof.
  intros Hos Hl. revert count lastID items.
  induction Hos as [|r o rows os Ho Hos IH]; intros count lastID items Hc k.
  { cbn. rewrite !take_nil, app_nil_r. rewrite bool_decide_false by lia. done. }
  unfold scanned. cbn [take fmap list_fmap scan_rows]. rewrite bool_decide_true by lia.
  case_bool_decide as Heq; cbn [andb].
  { subst count. replace k with 0%nat by lia. cbn. by rewrite app_nil_r. }
  rewrite Ho. destruct k as [|k'] eqn:Hk; [lia|].
  replace (take (S k') rows) with (take (S (Z.to_nat (limit - (count + 1)))) rows) by (f_equal; lia).
  fold (scanned (take (S (Z.to_nat (limit - (count + 1)))) rows)). rewrite IH by lia.
  replace (Z.to_nat (limit - (count + 1))) with k' by lia. cbn [take length]. rewrite <- app_assoc. cbn [app].
  do 2 f_equal; [|apply bool_decide_ext; lia]. f_equal. rewrite last_cons. by destruct (last (take k' rows)).
Qed.

Lemma list_query_page namespace opts q c :
  list_query namespace (unpaged opts) = Ok q → 0 < lo_Limit opts < 2 ^ 63 - 1 →
  (match c with Some c => 0 ≤ c < 2 ^ 63 | None => True end) →
  ∃ c1 c2, sel_where q = c1 ++ c2 ∧ sel_order_by_id q = true ∧ sel_limit q = None ∧
    list_query namespace (with_Continue (token_at c) opts) =
      Ok {| sel_where := c1 ++ (match c with Some c => [GT (Col C_id) (Arg (VBigint c))] | None => [] end) ++ c2;
            sel_order_by_id := true; sel_limit := Some (lo_Limit opts + 1) |}.
Proof.
  intros Hq Hl Hc. unfold list_query in *. cbn [lo_Continue lo_Limit lo_Label lo_Field with_Continue with_Limit unpaged] in *.
  change (version_condition (unpaged opts)) with (version_condition opts) in Hq.
  change (version_condition (with_Continue (token_at c) opts)) with (version_condition opts).
  assert (continue_condition (token_at c) =
    Ok (match c with Some c => [GT (Col C_id) (Arg (VBigint c))] | None => [] end)) as ->.
  { unfold continue_condition, token_at. destruct c as [c|]; [|done].
    rewrite bool_decide_false by (apply FormatInt_nonempty; lia). by rewrite ParseInt_FormatInt. }
  unfold mbind, result_bind in *. rewrite (bool_decide_true (0 < lo_Limit opts)) by lia.
  replace (int64 (lo_Limit opts + 1)) with (lo_Limit opts + 1) by
    (unfold int64; rewrite Z.mod_small by lia; lia).
  change (continue_condition "") with (Ok (A:=list expr) []) in Hq. cbv beta iota in Hq |- *.
  destruct (version_condition opts) as [version|e]; [|done].
  destruct (match lo_Label opts with Some _ => _ | None => _ end) as [labels|e]; [|done].
  destruct (match lo_Field opts with Some _ => _ | None => _ end) as [fields|e]; [|done].
  injection Hq as <-. eexists (namespace_condition namespace), (version ++ labels ++ fields). done.
Qed.
(** ** Following the tokens *)

Context (tryUpdate : T → result T) (validateDeletion : T → result unit).
Abbreviation answers := (pg tryUpdate validateDeletion).

(** A client that asks for the next page as long as there is one; [None] when
    it gives up after [fuel] pages. *)
Fixpoint follow (fuel : nat) (table namespace : string) (opts : ListOptions) (token : string)
  : db_prog T (option (result (list T))) :=
  match fuel with
  | O => Ret None
  | S fuel' =>
      r ← repo_List Pool table namespace (with_Continue token opts);
      match r with
      | Err e => Ret (Some (Err e))
      | Ok (items, token') =>
          if bool_decide (token' = "") then Ret (Some (Ok items))
          else
            rest ← follow fuel' table namespace opts token';
            match rest with
            | Some (Ok items') => Ret (Some (Ok (items ++ items')))
            | _ => Ret rest
            end
      end
  end.

Context (w : world T) (table namespace : string) (opts : ListOptions).
Context (Hquiet : w_script w = []) (Hok : table_ok (table_of table (d_tables (w_db w)))).
Context (Hint : rl_next (table_of table (d_tables (w_db w))) ≤ 2 ^ 63) (Hlimit : 0 < lo_Limit opts < 2 ^ 63 - 1).
Let rows := rl_rows (table_of table (d_tables (w_db w))).

Lemma run_list opts' :
  run answers (repo_List Pool table namespace opts') w =
    match list_query namespace opts' with
    | Err e => ([], Err e, w)
    | Ok q =>
        let rs := match sql_select q (table_of table (d_tables (w_db w))) with
                  | Some rows => Ok {| rows_scan := scanned rows; rows_err := None |}
                  | None => Err sql_error
                  end in
        ([Ev (Query Pool table q) rs],
         match rs with
         | Err e => Err (errorf "failed to execute list query" e)
         | Ok rs =>
             match scan_rows (lo_Limit opts') 0 0 [] (rows_scan rs) (rows_err rs) with
             | Err e => Err e
             | Ok (items, lastID, hasMore) => Ok (items, if hasMore : bool then FormatInt lastID else "")
             end
         end, w)
    end.
Proof using Hquiet.
  unfold repo_List, list_objects. destruct (list_query namespace opts') as [q|e]; [|done].
  unfold try_bind. cbn [run mbind prog_bind pbind trigger]. unfold pg. rewrite Hquiet. cbn [effect].
  unfold visible. destruct (sql_select q _) as [rs|]; [|done]. cbv zeta. cbn [rows_scan rows_err pbind].
  fold (scanned rs). by destruct (scan_rows _ _ _ _ _ _) as [[[items l] []]|e].
Qed.

(** The rows of the unpaged list. *)
Lemma unpaged_rows items token :
  run_result answers (repo_List Pool table namespace (unpaged opts)) w = Ok (items, token) →
  ∃ q sel, list_query namespace (unpaged opts) = Ok q ∧ where_rows (sel_where q) rows = Some sel ∧
    Forall2 decodes (order_by_id sel) items.
Proof using Hquiet Hlimit.
  unfold run_result. rewrite run_list. destruct (list_query namespace (unpaged opts)) as [q|e] eqn:Hq; [|done].
  destruct (list_query_page namespace opts q None Hq Hlimit I) as (c1 & c2 & _ & Ho & Hl & _).
  cbv zeta. cbn [fst snd]. unfold sql_select. rewrite Ho, Hl. fold rows.
  destruct (where_rows (sel_where q) rows) as [sel|] eqn:Hsel; [|done]. cbn [rows_scan rows_err].
  destruct (scan_rows _ _ _ _ _ _) as [[[items' l] m]|e] eqn:Hs; [|done]. intros [= -> _].
  apply scan_unlimited in Hs as (os & Hos & -> & _). by exists q, sel.
Qed.

Lemma run_page q sel c os :
  list_query namespace (unpaged opts) = Ok q → where_rows (sel_where q) rows = Some sel →
  Forall2 decodes (after (position c) (order_by_id sel)) os →
  (match c with Some c => 0 ≤ c < 2 ^ 63 | None => True end) →
  let L := after (position c) (order_by_id sel) in
  let k := Z.to_nat (lo_Limit opts) in
  ∃ tr, run answers (repo_List Pool table namespace (with_Continue (token_at c) opts)) w =
    (tr, Ok (take k os, if bool_decide (k < length L)%nat then FormatInt (default 0 (row_id <$> last (take k L))) else ""), w).
Proof using Hquiet Hok Hlimit.
  intros Hq Hsel Hos Hc L k. rewrite run_list.
  destruct (list_query_page namespace opts q c Hq Hlimit Hc) as (c1 & c2 & Hw & _ & _ & ->).
  cbv zeta. eexists. f_equal. f_equal.
  assert (NoDup (row_id <$> sel)) as Hnd.
  { eapply sublist_NoDup; [apply (ok_ids _ Hok)|]. apply fmap_sublist. by eapply where_sublist. }
  unfold sql_select. cbn [sel_where sel_order_by_id sel_limit]. fold rows.
  assert (where_rows (c1 ++ (match c with Some c => [GT (Col C_id) (Arg (VBigint c))] | None => [] end) ++ c2) rows =
          Some (after (position c) sel)) as ->.
  { rewrite Hw in Hsel. destruct c as [c|]; [by apply where_cursor|]. cbn [app]. rewrite Hsel. f_equal.
    symmetry. apply after_all, Forall_forall. intros r Hr.
    pose proof (ok_next _ Hok) as Hn. rewrite Forall_forall in Hn. cbn.
    apply (Hn r). eapply elem_of_sublist; [exact Hr|by eapply where_sublist]. }
  rewrite order_after by done. fold L. destruct (Z.ltb_spec (lo_Limit opts + 1) 0); [lia|].
  cbn [rows_scan rows_err lo_Limit with_Continue].
  replace (Z.to_nat (lo_Limit opts + 1)) with (S (Z.to_nat (lo_Limit opts - 0))) by lia.
  rewrite (scan_page _ _ os) by (done || lia). rewrite Z.sub_0_r. fold k. by destruct (bool_decide _).
Qed.

Lemma follow_all q sel fuel c os :
  list_query namespace (unpaged opts) = Ok q → where_rows (sel_where q) rows = Some sel →
  Forall2 decodes (after (position c) (order_by_id sel)) os →
  (match c with Some c => 0 ≤ c < 2 ^ 63 | None => True end) →
  (length os < fuel)%nat →
  run_result answers (follow fuel table namespace opts (token_at c)) w = Some (Ok os).
Proof using Hquiet Hok Hlimit Hint.
  intros Hq Hsel. revert c os. induction fuel as [|fuel IH]; intros c os Hos Hc Hf; [lia|]. cbn [follow].
  destruct (run_page q sel c os Hq Hsel Hos Hc) as [tr Hp]. unfold run_result at 1. rewrite (run_bind _ _ _ _ _ _ _ Hp).
  cbn [fst snd]. clear Hp tr. set (L := after (position c) (order_by_id sel)) in *. set (k := Z.to_nat (lo_Limit opts)).
  pose proof (Forall2_length _ _ _ Hos) as Hlen. assert (0 < k)%nat as Hk by lia.
  destruct (decide (k < length L)%nat) as [Hmore|Hmore];
    [rewrite (bool_decide_true (k < length L)%nat) by done|rewrite (bool_decide_false (k < length L)%nat) by done].
  2: { rewrite bool_decide_true by done. unfold run_result. cbn. rewrite take_ge by lia. done. }
  assert (NoDup (row_id <$> order_by_id sel)) as Hnd.
  { rewrite order_perm. eapply sublist_NoDup; [apply (ok_ids _ Hok)|]. apply fmap_sublist. by eapply where_sublist. }
  destruct (last (take k L)) as [r|] eqn:Hr.
  2: { apply last_None in Hr. apply (f_equal length) in Hr. rewrite length_take in Hr. cbn in Hr. lia. }
  destruct (after_page _ _ _ _ (order_sorted sel) Hnd Hr) as [Hnext Hlt]. fold L in Hnext. cbn [fmap option_fmap option_map default id].
  assert (0 ≤ row_id r < 2 ^ 63) as Hid.
  { pose proof (ok_next _ Hok) as Hn. rewrite Forall_forall in Hn.
    assert (r ∈ rows) as Hin; [|specialize (Hn r Hin); cbv beta in Hn; lia].
    apply last_Some_elem_of, elem_of_take in Hr as (i & Hi%list_elem_of_lookup_2 & _).
    unfold L, after in Hi. apply list_elem_of_filter in Hi as [_ Hi]. rewrite order_perm in Hi.
    eapply elem_of_sublist; [exact Hi|by eapply where_sublist]. }
  rewrite bool_decide_false by (apply FormatInt_nonempty; lia).
  specialize (IH (Some (row_id r)) (drop k os)). cbn [position token_at default id] in IH. rewrite Hnext in IH.
  specialize (IH ltac:(by apply Forall2_drop) Hid ltac:(rewrite length_drop; lia)).
  unfold run_result in IH |- *. destruct (run answers (follow _ _ _ _ _) w) as [[tr r'] w'] eqn:Hrest. cbn in IH. subst r'.
  rewrite (run_bind _ _ _ _ _ _ _ Hrest). cbn. by rewrite take_drop.
Qed.

(** [C18] Paging is complete and ends: on a table that does not change, a client
    that follows the continue tokens from the first page gets, after at most as
    many pages as there are objects (and one), exactly the objects of the
    unpaged list, each once and in the same order, whatever the limit and the
    filters.  Identifiers are below 2^63, and so is the limit plus one. *)
Theorem pages_cover (items : list T) (token : string) (fuel : nat) :
  run_result answers (repo_List Pool table namespace (unpaged opts)) w = Ok (items, token) →
  (length items < fuel)%nat →
  run_result answers (follow fuel table namespace opts "") w = Some (Ok items).
Proof using Hquiet Hok Hlimit Hint.
  intros (q & sel & Hq & Hsel & Hos)%unpaged_rows Hf.
  apply (follow_all q sel fuel None items Hq Hsel); [|done|done]. cbn [position default].
  rewrite after_all; [done|]. apply Forall_forall. intros r Hr. rewrite order_perm in Hr.
  pose proof (ok_next _ Hok) as Hn. rewrite Forall_forall in Hn.
  apply (Hn r). eapply elem_of_sublist; [exact Hr|by eapply where_sublist].
Qed.

End pages.

(** A table of three objects, listed two at a time. *)
Definition sample_object (name namespace uid : string) (rv : Z) (labels : gmap string string) : ObjectMeta :=
  with_ResourceVersion (FormatInt rv)
    {| om_Name := name; om_GenerateName := ""; om_Namespace := namespace; om_UID := uid; om_ResourceVersion := "";
       om_Generation := 0; om_CreationTimestamp := 0; om_DeletionTimestamp := None; om_Labels := labels;
       om_Annotations := ∅; om_OwnerReferences := [] |}.
Definition sample_row (id : Z) (o : ObjectMeta) : row :=
  {| row_id := id; row_name := om_Name o; row_namespace := om_Namespace o;
     row_object := JObject [("metadata", JObject (sample_metadata o))] |}.
Definition sample_database : database := {|
  d_tables := {[ "images" := {| rl_rows := [sample_row 1 (sample_object "a" "default" "u1" 5 ∅);
                                            sample_row 2 (sample_object "b" "default" "u2" 6 ∅);
                                            sample_row 4 (sample_object "c" "default" "u3" 9 ∅)]; rl_next := 5 |} ]};
  d_last_value := 9; d_is_called := true; d_sent := [] |}.
Definition quiet_world (d : database) : world ObjectMeta :=
  {| w_db := d; w_tx := None; w_streams := []; w_script := [] |}.
Definition list_opts (limit : Z) : ListOptions :=
  {| lo_ResourceVersion := ""; lo_SendInitialEvents := None; lo_Label := None; lo_Field := None; lo_Limit := limit;
     lo_Continue := ""; lo_AllowWatchBookmarks := false |}.

Lemma sample_table_ok : table_ok (table_of "images" (d_tables sample_database)).
Proof.
  split; [apply (bool_decide_unpack _); vm_compute; exact I|apply (bool_decide_unpack _); vm_compute; exact I| |done]. repeat constructor; cbn; lia.
Qed.

Lemma pages_cover_witness :
  run_result (pg (λ o, Ok o) (λ _, Ok tt)) (follow 4 "images" "default" (list_opts 2) "") (quiet_world sample_database) =
    Some (Ok [sample_object "a" "default" "u1" 5 ∅; sample_object "b" "default" "u2" 6 ∅; sample_object "c" "default" "u3" 9 ∅]).
Proof.
  apply (pages_cover (λ o, Ok o) (λ _, Ok tt) (quiet_world sample_database) "images" "default" (list_opts 2)
           eq_refl sample_table_ok) with (token := ""); [vm_compute; congruence|cbn; lia|vm_compute; reflexivity|cbn; lia].
Defined.
