(* ===== verification/StoreRefinement.v ===== *)
(** * The store against its specification

    [storage.Interface] promises a map from keys to objects, with a version that
    grows with every write.  This file gives that specification and shows that
    the operations of [src/internal/storage/store.go] over the generic
    repository implement it on the database of [Database.v]. *)

From stdpp Require Import prelude gmap strings list sorting.
From Stdlib Require Import ZArith Lia.
From S2P Require Import Prelude Prog Meta Strconv Sql Effects StorageEffects StorageSample Repository Store StoreEvents Database Pagination.
Open Scope Z_scope.

(** ** Tables as maps *)

Section tables.
Context `{!Postgres}.

Definition at_key (name namespace : string) (rows : list row) : list row :=
  filter (λ r, row_key r = (name, namespace)) rows.

Lemma where_key name namespace rows :
  where_rows (key_conditions name namespace) rows = Some (at_key name namespace rows).
Proof.
  unfold at_key. induction rows as [|r rows IH]; [done|]. cbn [where_rows]. rewrite IH, filter_cons.
  cbn -[filter]. unfold text_eq, row_key. case_bool_decide; [case_bool_decide|]; cbn -[filter]; case_decide; naive_solver.
Qed.

Lemma objects_lookup t name namespace :
  objects t !! (name, namespace) = head (row_object <$> at_key name namespace (rl_rows t)).
Proof.
  unfold objects, at_key. induction (rl_rows t) as [|r rows IH]; [done|]. cbn [fmap list_fmap list_to_map foldr].
  rewrite filter_cons. cbn -[filter]. case_decide as Hk.
  - rewrite Hk. by rewrite lookup_insert_eq.
  - rewrite lookup_insert_ne by done. exact IH.
Qed.

Lemma has_key_spec k t : has_key k t = bool_decide (is_Some (objects t !! k)).
Proof.
  unfold has_key, objects. induction (rl_rows t) as [|r rows IH]; [by destruct k|].
  cbn [existsb fmap list_fmap]. rewrite IH. cbn [list_to_map foldr]. cbn [fst snd].
  destruct (decide (row_key r = k)) as [Hk|Hk].
  - subst k. rewrite (bool_decide_true (row_key r = _)) by done. cbn [orb]. rewrite lookup_insert_eq, bool_decide_true; eauto.
  - rewrite (bool_decide_false (row_key r = _)) by done. cbn [orb]. by rewrite lookup_insert_ne.
Qed.

Lemma objects_append t r :
  objects t !! row_key r = None →
  objects {| rl_rows := rl_rows t ++ [r]; rl_next := rl_next t |} = <[row_key r := row_object r]> (objects t).
Proof.
  unfold objects. cbn [rl_rows]. rewrite fmap_app, list_to_map_app. cbn. intros Hn.
  rewrite <- insert_union_r by exact Hn. by rewrite map_union_empty.
Qed.

Lemma append_row_objects t r :
  objects t !! row_key r = None → objects (append_row r t) = <[row_key r := row_object r]> (objects t).
Proof.
  intros Hn. unfold append_row. rewrite has_key_spec, bool_decide_false; [by apply objects_append|].
  rewrite Hn. by intros [? ?].
Qed.

Lemma append_row_ok t r :
  table_ok t → 0 < row_id r < rl_next t → row_id r ∉ (row_id <$> rl_rows t) → table_ok (append_row r t).
Proof.
  intros [Hi Hk Hn Hp] Hr Hfresh. unfold append_row. destruct (has_key (row_key r) t) eqn:Hh; [done|].
  split; cbn [rl_rows rl_next].
  - rewrite fmap_app. apply NoDup_app. split; [done|]. split; [|apply NoDup_singleton].
    intros x Hx ->%list_elem_of_singleton. done.
  - rewrite fmap_app. apply NoDup_app. split; [done|]. split; [|apply NoDup_singleton].
    intros x Hx ->%list_elem_of_singleton. unfold has_key in Hh.
    apply list_elem_of_fmap in Hx as (r' & Heq & Hr').
    assert (existsb (λ r'', bool_decide (row_key r'' = row_key r)) (rl_rows t) = true); [|congruence].
    apply existsb_exists. exists r'. split; [by apply list_elem_of_In|]. by apply bool_decide_eq_true.
  - rewrite Forall_app. split; [exact Hn|]. apply Forall_singleton. exact Hr.
  - done.
Qed.

Lemma key_ids t name namespace r :
  table_ok t → r ∈ rl_rows t →
  row_id r ∈ (row_id <$> at_key name namespace (rl_rows t)) ↔ row_key r = (name, namespace).
Proof.
  intros [Hi _ _ _] Hr. unfold at_key. split.
  - intros (r' & Heq & [Hk Hr']%list_elem_of_filter)%list_elem_of_fmap.
    by rewrite (ids_distinct _ r r' Hi Hr Hr' Heq).
  - intros Hk. apply list_elem_of_fmap. exists r. by rewrite list_elem_of_filter.
Qed.

(** Removing the row of a key. *)
Definition without_key (name namespace : string) (t : relation) : relation :=
  {| rl_rows := filter (λ r, row_key r ≠ (name, namespace)) (rl_rows t); rl_next := rl_next t |}.

Lemma delete_rows t name namespace :
  table_ok t →
  sql_delete (key_conditions name namespace) t =
    Some (row_object <$> at_key name namespace (rl_rows t), without_key name namespace t).
Proof.
  intros Hok. unfold sql_delete, without_key. rewrite where_key. do 3 f_equal.
  assert (∀ rs, (∀ r, r ∈ rs → r ∈ rl_rows t) →
    List.filter (λ r, negb (bool_decide (row_id r ∈ (row_id <$> at_key name namespace (rl_rows t))))) rs =
    filter (λ r, row_key r ≠ (name, namespace)) rs) as Hf; [|by apply Hf].
  induction rs as [|r rs IH]; intros Hrs; [done|]. cbn [List.filter]. rewrite filter_cons, IH by set_solver.
  pose proof (key_ids t name namespace r Hok ltac:(set_solver)) as Hk.
  case_bool_decide; case_decide; cbn; naive_solver.
Qed.

Lemma without_key_objects t name namespace :
  objects (without_key name namespace t) = delete (name, namespace) (objects t).
Proof.
  apply map_eq. intros [n ns]. rewrite objects_lookup. unfold without_key, at_key. cbn [rl_rows].
  destruct (decide ((n, ns) = (name, namespace))) as [->|Hne].
  - rewrite lookup_delete_eq, list_filter_filter. induction (rl_rows t) as [|r rs IH]; [done|].
    rewrite filter_cons_False; [done|]. tauto.
  - rewrite lookup_delete_ne by done. rewrite objects_lookup. unfold at_key. f_equal. f_equal.
    rewrite list_filter_filter. apply list_filter_iff. intros r. split; [tauto|]. intros ->. split; [done|]. congruence.
Qed.

Lemma filter_ok t (P : row → Prop) `{!∀ r, Decision (P r)} :
  table_ok t → table_ok {| rl_rows := filter P (rl_rows t); rl_next := rl_next t |}.
Proof.
  intros [Hi Hk Hn Hp]. split; cbn [rl_rows rl_next]; [| | |done].
  - eapply sublist_NoDup; [exact Hi|apply fmap_sublist, sublist_filter].
  - eapply sublist_NoDup; [exact Hk|apply fmap_sublist, sublist_filter].
  - apply Forall_forall. intros r [_ Hr]%list_elem_of_filter. rewrite Forall_forall in Hn. by apply Hn.
Qed.

(** Replacing the object of a key. *)
Definition with_object (name namespace : string) (object : json) (t : relation) : relation :=
  {| rl_rows := (λ r, if decide (row_key r = (name, namespace)) then set_object object r else r) <$> rl_rows t;
     rl_next := rl_next t |}.

Lemma update_rows t name namespace object :
  table_ok t →
  sql_update object (key_conditions name namespace) t =
    Some (Z.of_nat (length (at_key name namespace (rl_rows t))), with_object name namespace object t).
Proof.
  intros Hok. unfold sql_update, with_object. rewrite where_key. do 3 f_equal.
  apply list_fmap_ext. intros i r Hr%list_elem_of_lookup_2.
  pose proof (key_ids t name namespace r Hok Hr). case_bool_decide; case_decide; naive_solver.
Qed.

Lemma with_object_objects t name namespace object :
  is_Some (objects t !! (name, namespace)) →
  objects (with_object name namespace object t) = <[(name, namespace) := object]> (objects t).
Proof.
  intros Hsome. apply map_eq. intros [n ns]. rewrite objects_lookup. unfold with_object, at_key. cbn [rl_rows].
  destruct (decide ((n, ns) = (name, namespace))) as [[= -> ->]|Hne].
  - rewrite lookup_insert_eq. rewrite objects_lookup in Hsome. unfold at_key in Hsome.
    induction (rl_rows t) as [|r rs IH]; [by destruct Hsome|]. cbn [fmap list_fmap]. rewrite filter_cons in Hsome |- *.
    destruct (decide (row_key r = (name, namespace))) as [Hk|Hk].
    + rewrite decide_True by done. done.
    + rewrite decide_False by done. by apply IH.
  - rewrite lookup_insert_ne by congruence. rewrite objects_lookup. unfold at_key. f_equal. clear Hsome.
    induction (rl_rows t) as [|r rs IH]; [done|]. cbn [fmap list_fmap]. rewrite !filter_cons.
    destruct (decide (row_key r = (name, namespace))) as [Hk|Hk].
    + rewrite decide_False; [|unfold set_object, row_key in *; cbn in *; congruence].
      rewrite decide_False by congruence. exact IH.
    + case_decide; cbn [fmap list_fmap]; [by f_equal|exact IH].
Qed.

Lemma with_object_ok t name namespace object : table_ok t → table_ok (with_object name namespace object t).
Proof.
  intros [Hi Hk Hn Hp]. split; cbn [rl_rows rl_next with_object]; [| | |done].
  - rewrite <- list_fmap_compose. erewrite list_fmap_ext; [exact Hi|]. intros i r _. cbn. by case_decide.
  - rewrite <- list_fmap_compose. erewrite list_fmap_ext; [exact Hk|]. intros i r _. cbn. by case_decide.
  - apply Forall_fmap. eapply Forall_impl; [exact Hn|]. intros r Hr. cbn. by case_decide.
Qed.

Lemma at_key_length t name namespace :
  (length (at_key name namespace (rl_rows t)) = 0)%nat ↔ objects t !! (name, namespace) = None.
Proof. rewrite objects_lookup. by destruct (at_key name namespace (rl_rows t)). Qed.
End tables.

(** ** The specification *)

(** The objects by name and namespace, the last version given out, and the
    messages sent. *)
Record abstract := {
  a_objects : gmap (string * string) json;
  a_version : Z;
  a_sent : list (string * string)
}.

Section spec.
Context {T : Type} `{!Resource T, !JSON event}.
Context (resource : string) (transform : T → result T) (clusterScoped : bool).
Context (tryUpdate : T → result T) (validateDeletion : T → result unit).

(** The message that announces an object, if it can be encoded. *)
Definition messages (type : EventType) (obj : T) : list (string * string) :=
  match transform obj with
  | Err _ => []
  | Ok stripped =>
      match encode stripped with
      | Err _ => []
      | Ok j =>
          match Marshal {| ev_EventType := type; ev_Object := j |} with
          | Ok data => [("watch." +:+ resource, data)]
          | Err _ => []
          end
      end
  end.

Definition tick (σ : abstract) : abstract :=
  {| a_objects := a_objects σ; a_version := a_version σ + 1; a_sent := a_sent σ |}.

(** A write and its announcement. *)
Definition set_objects (m : gmap (string * string) json) (type : EventType) (obj : T) (σ : abstract) : abstract :=
  {| a_objects := m; a_version := a_version σ; a_sent := a_sent σ ++ messages type obj |}.

(** A new object gets the next version; its key must be free. *)
Definition spec_Create (key : string) (obj : T) (σ : abstract) : result T * abstract :=
  let σ := tick σ in
  let obj := UpdateObject obj (a_version σ) in
  match encode obj with
  | Err e => (Err (NewInternalError (errorf "failed to marshal object" e)), σ)
  | Ok j =>
      let k := (om_Name (accessor obj), om_Namespace (accessor obj)) in
      match a_objects σ !! k with
      | Some _ => (Err (NewKeyExistsError key), σ)
      | None => (Ok obj, set_objects (<[k := j]> (a_objects σ)) Added obj σ)
      end
  end.

(** The object a key names; the error of a key that names none. *)
Definition spec_lookup (key : string) (absent : result T) (σ : abstract) : T + result T :=
  let k := extractKeyNameAndNamespace clusterScoped key in
  if bool_decide (k.1 = "") then inr (Err (invalid_key key))
  else match a_objects σ !! k with
       | None => inr absent
       | Some j => match unmarshal_object j with Ok o => inl o | Err e => inr (Err (NewInternalError e)) end
       end.

(** An object is removed if its preconditions and its validation hold. *)
Definition spec_Delete (key : string) (preconditions : string → T → result unit) (σ : abstract) : result T * abstract :=
  match spec_lookup key (Err (NewKeyNotFoundError key)) σ with
  | inr r => (r, σ)
  | inl obj =>
      match preconditions key obj, validateDeletion obj with
      | Err e, _ => (Err e, σ)
      | Ok _, Err e => (Err e, σ)
      | Ok _, Ok _ => (Ok obj, set_objects (delete (extractKeyNameAndNamespace clusterScoped key) (a_objects σ)) Deleted obj σ)
      end
  end.

Definition spec_Get (key : string) (ignoreNotFound : bool) (σ : abstract) : result T :=
  match spec_lookup key (if ignoreNotFound then Ok newFunc else Err (NewKeyNotFoundError key)) σ with
  | inr r => r
  | inl obj => Ok obj
  end.

(** An object is replaced by what [tryUpdate] makes of it, with the next
    version; [None] stands for an update that does not return. *)
Definition spec_Update (key : string) (ignoreNotFound : bool) (preconditions : string → T → result unit)
    (σ : abstract) : option (result T) * abstract :=
  match spec_lookup key (if ignoreNotFound then Ok newFunc else Err (NewKeyNotFoundError key)) σ with
  | inr r => (Some r, σ)
  | inl obj =>
      match preconditions key obj, tryUpdate obj with
      | Err e, _ => (Some (Err e), σ)
      | Ok _, Err e => if lock_conflict e then (None, σ) else (Some (Err e), σ)
      | Ok _, Ok updated =>
          let σ := tick σ in
          let updated := UpdateObject updated (a_version σ) in
          match encode updated with
          | Err e => (Some (Err (NewInternalError (errorf "failed to marshal object" e))), σ)
          | Ok j => (Some (Ok updated),
                     set_objects (<[extractKeyNameAndNamespace clusterScoped key := j]> (a_objects σ)) Modified updated σ)
          end
      end
  end.

Definition spec (op : operation (T:=T)) (σ : abstract) : option (result T) * abstract :=
  match op with
  | OpCreate key obj => let '(r, σ') := spec_Create key obj σ in (Some r, σ')
  | OpDelete key preconditions => let '(r, σ') := spec_Delete key preconditions σ in (Some r, σ')
  | OpUpdate _ key ign preconditions => spec_Update key ign preconditions σ
  end.
End spec.

(** ** Running the store *)

(** The version of a database. *)
Definition version_of (d : database) : Z := if d_is_called d then d_last_value d else d_last_value d - 1.
Definition abs (table : string) (d : database) : abstract :=
  {| a_objects := objects (table_of table (d_tables d)); a_version := version_of d; a_sent := d_sent d |}.

Section refinement.
Context {T : Type} `{!Resource T, !Postgres, !JSON event}.
Context (tryUpdate : T → result T) (validateDeletion : T → result unit).
Abbreviation answers := (pg tryUpdate validateDeletion).
Context (table resource : string) (transform : T → result T) (clusterScoped : bool).

Definition generic_store : store T := {|
  st_repository := GenericObjectRepository table; st_resource := resource; st_transform := transform;
  st_clusterScoped := clusterScoped |}.

(** [p] run in a world gives [r] and ends in another world. *)
Definition steps {A} (p : db_prog T A) (w : world T) (r : A) (w' : world T) : Prop :=
  ∃ tr, run answers p w = (tr, r, w').

Lemma steps_ret {A} (r : A) w : steps (Ret r) w r w.
Proof. by exists []. Qed.

Lemma steps_bind {A B} (p : db_prog T A) (k : A → db_prog T B) w a w1 r w2 :
  steps p w a w1 → steps (k a) w1 r w2 → steps (p ≫= k) w r w2.
Proof.
  intros [tr1 H1] [tr2 H2]. eexists. rewrite (run_bind _ _ _ _ _ _ _ H1).
  unfold run_trace, run_result, run_state. by rewrite H2.
Qed.

Lemma steps_try {A B} (p : db_prog T (result A)) f (k : A → db_prog T (result B)) w a w1 r w2 :
  steps p w (Ok a) w1 → steps (k a) w1 r w2 → steps (try_bind p f k) w r w2.
Proof. intros H1 H2. by eapply steps_bind. Qed.

Lemma steps_call {A} (e : SEff T A) w a w' :
  w_script w = [] → effect tryUpdate validateDeletion A e w = (a, w') → steps (trigger e) w a w'.
Proof. intros Hq He. unfold steps, trigger. cbn. unfold pg. rewrite Hq, He. by eexists. Qed.

(** A world in which nobody else is at work. *)
Definition still (d : database) (tx : option (list write)) (ss : list (list (EventType * T))) : world T :=
  {| w_db := d; w_tx := tx; w_streams := ss; w_script := [] |}.

Definition bump (d : database) : database :=
  {| d_tables := d_tables d; d_last_value := version_of d + 1; d_is_called := true; d_sent := d_sent d |}.
Definition add_sent (msgs : list (string * string)) (d : database) : database :=
  {| d_tables := d_tables d; d_last_value := d_last_value d; d_is_called := d_is_called d; d_sent := d_sent d ++ msgs |}.
Definition drawn (d : database) : database :=
  let t := table_of table (d_tables d) in
  with_tables (<[table := {| rl_rows := rl_rows t; rl_next := rl_next t + 1 |}]> (d_tables d)) d.
Definition committed (wr : write) (d : database) : database := with_tables (apply_write (d_tables d) wr) d.

Lemma table_of_insert (ts : gmap string relation) t : table_of table (<[table := t]> ts) = t.
Proof. unfold table_of. by rewrite lookup_insert_eq. Qed.

Lemma steps_version d tx ss :
  steps nextResourceVersion (still d tx ss) (Ok (version_of d + 1)) (still (bump d) tx ss).
Proof.
  eapply steps_try; [|apply steps_ret]. apply steps_call; [done|]. cbn. unfold still, with_db, bump, version_of. cbn.
  destruct (d_is_called d); [reflexivity|]. by replace (d_last_value d - 1 + 1) with (d_last_value d) by lia.
Qed.

Abbreviation sends := (messages resource transform).

Lemma steps_action (s : store T) type obj d tx ss :
  ∃ r, steps (Action s type obj) (still d tx ss) r
    (still (add_sent (messages (st_resource s) (st_transform s) type obj) d) tx ss).
Proof.
  assert (still d tx ss = still (add_sent [] d) tx ss) as Hnil.
  { unfold still, add_sent. f_equal. destruct d. cbn. by rewrite app_nil_r. }
  unfold Action, publish, messages.
  destruct (st_transform s obj) as [o|e]; cbn [wrap_err]; [|rewrite <- Hnil; eexists; apply steps_ret].
  destruct (encode o) as [j|e]; cbn [wrap_err]; [|rewrite <- Hnil; eexists; apply steps_ret].
  destruct (Marshal _) as [data|e]; cbn [wrap_err]; [|rewrite <- Hnil; eexists; apply steps_ret].
  eexists. eapply steps_try; [by eapply steps_call|]. apply steps_ret.
Qed.

Lemma steps_broadcast type obj d tx ss :
  steps (broadcast generic_store type obj) (still d tx ss) tt (still (add_sent (sends type obj) d) tx ss).
Proof.
  destruct (steps_action generic_store type obj d tx ss) as [r Hr]. eapply steps_bind; [exact Hr|]. apply steps_ret.
Qed.

(** Committing one write, announcing it and closing. *)
Lemma steps_commit type obj wr d ss :
  steps (check trigger Commit wrap NewInternalError; _ ← broadcast generic_store type obj; Ret (Ok obj))
    (still d (Some [wr]) ss) (Ok obj) (still (add_sent (sends type obj) (committed wr d)) None ss).
Proof.
  eapply steps_try; [by eapply steps_call|]. eapply steps_bind; [apply steps_broadcast|]. apply steps_ret.
Qed.

(** What a commit leaves, from what its write does to the table. *)
Lemma abs_sent type obj d m v :
  abs table d = {| a_objects := m; a_version := v; a_sent := d_sent d |} →
  abs table (add_sent (sends type obj) d) =
    {| a_objects := m; a_version := v; a_sent := d_sent d ++ sends type obj |}.
Proof.
  intros Heq. pose proof (f_equal a_objects Heq) as Hm. pose proof (f_equal a_version Heq) as Hv.
  unfold abs. f_equal; [exact Hm|exact Hv].
Qed.

(** The deferred rollback drops an open transaction. *)
Lemma steps_rollback {A} (body : db_prog T A) w r d tx ss :
  steps body w r (still d tx ss) → steps (deferring_rollback body) w r (still d None ss).
Proof.
  intros Hb. eapply steps_bind; [exact Hb|].
  destruct tx as [log|]; (eapply steps_bind; [by eapply steps_call|]); apply steps_ret.
Qed.

Lemma abs_drawn d : abs table (drawn d) = abs table d.
Proof. unfold abs, drawn. cbn. by rewrite table_of_insert. Qed.

Lemma drawn_ok d : table_ok (table_of table (d_tables d)) → table_ok (table_of table (d_tables (drawn d))).
Proof.
  intros [Hi Hk Hn Hp]. unfold drawn. cbn. rewrite table_of_insert. split; cbn; [done|done| |lia].
  eapply Forall_impl; [exact Hn|]. cbn. lia.
Qed.

(** ** Create *)

Definition new_row (d : database) (obj : T) (j : json) : row :=
  {| row_id := rl_next (table_of table (d_tables d)); row_name := om_Name (accessor obj);
     row_namespace := om_Namespace (accessor obj); row_object := j |}.

Lemma steps_repo_create obj j d ss :
  encode obj = Ok j →
  let k := (om_Name (accessor obj), om_Namespace (accessor obj)) in
  steps (repo_Create table obj) (still d (Some []) ss)
    (if decide (objects (table_of table (d_tables d)) !! k = None) then Ok tt else Err (err_var ErrAlreadyExists))
    (still (drawn d) (Some (if decide (objects (table_of table (d_tables d)) !! k = None)
                            then [WInsert table (new_row d obj j)] else [])) ss).
Proof.
  intros Hj k. unfold repo_Create. rewrite Hj. cbn [wrap_err].
  case_decide as Hk.
  - eapply steps_try; [apply steps_call; [done|]|].
    + cbn [effect draw_id]. cbv zeta. cbn [visible still w_tx w_db fold_left]. fold k.
      rewrite has_key_spec, bool_decide_false; [reflexivity|]. rewrite Hk. by intros [? ?].
    + rewrite bool_decide_false by done. apply steps_ret.
  - eapply steps_try; [apply steps_call; [done|]|].
    + cbn [effect draw_id]. cbv zeta. cbn [visible still w_tx w_db fold_left]. fold k.
      rewrite has_key_spec, bool_decide_true; [reflexivity|]. by apply not_eq_None_Some.
    + rewrite bool_decide_true by done. apply steps_ret.
Qed.

Lemma insert_abs d obj j :
  table_ok (table_of table (d_tables d)) →
  objects (table_of table (d_tables d)) !! (om_Name (accessor obj), om_Namespace (accessor obj)) = None →
  let d' := committed (WInsert table (new_row d obj j)) (drawn d) in
  abs table d' = {| a_objects := <[(om_Name (accessor obj), om_Namespace (accessor obj)) := j]>
                      (objects (table_of table (d_tables d))); a_version := version_of d;
                    a_sent := d_sent d' |} ∧
  table_ok (table_of table (d_tables d')).
Proof.
  intros Hok Hk d'. unfold abs, d', committed, drawn. cbn. rewrite !table_of_insert. split.
  - f_equal. etransitivity; [apply (append_row_objects _ (new_row d obj j)); exact Hk|reflexivity].
  - apply append_row_ok.
    + pose proof (drawn_ok d Hok) as Hd. unfold drawn in Hd. cbn in Hd. by rewrite table_of_insert in Hd.
    + cbn. destruct Hok as [_ _ _ Hp]. lia.
    + cbn. destruct Hok as [_ _ Hn _]. intros (r & Hr & Hin)%list_elem_of_fmap.
      rewrite Forall_forall in Hn. specialize (Hn r Hin). cbv beta in Hn. lia.
Qed.

Lemma create_refines key obj d ss :
  table_ok (table_of table (d_tables d)) →
  ∃ d', steps (Create generic_store key obj) (still d None ss) (spec_Create resource transform key obj (abs table d)).1 (still d' None ss) ∧
    abs table d' = (spec_Create resource transform key obj (abs table d)).2 ∧ table_ok (table_of table (d_tables d')).
Proof.
  intros Hok. set (obj' := UpdateObject obj (version_of d + 1)).
  assert (∀ r d' tx, steps (create_in_tx generic_store key obj') (still (bump d) (Some []) ss) r (still d' tx ss) →
    steps (Create generic_store key obj) (still d None ss) r (still d' None ss)) as Hstart.
  { intros r d' tx Hb. eapply steps_try; [apply steps_version|]. eapply steps_try; [by eapply steps_call|].
    eapply steps_rollback, Hb. }
  unfold spec_Create. cbn [tick a_version a_objects abs set_objects]. fold obj'. cbv zeta.
  destruct (encode obj') as [j|e] eqn:Hj.
  2: { exists (bump d). split_and!; [|done|done]. eapply Hstart. unfold create_in_tx.
       change (rp_Create (st_repository generic_store) obj') with (repo_Create table obj'). unfold repo_Create. rewrite Hj.
       eapply steps_bind; [apply steps_ret|]. destruct (encode_err _ _ Hj) as [msg ->]. apply steps_ret. }
  pose proof (steps_repo_create obj' j (bump d) ss Hj) as Hc. cbv zeta in Hc. cbn [bump d_tables] in Hc.
  case_decide as Hk; [rewrite Hk|apply not_eq_None_Some in Hk as [j' Hk]; rewrite Hk].
  - destruct (insert_abs (bump d) obj' j Hok Hk) as [Ha Hok'].
    eexists (add_sent (sends Added obj') _). split_and!; [|exact (abs_sent _ _ _ _ _ Ha)|exact Hok'].
    eapply Hstart. eapply steps_bind; [exact Hc|]. apply steps_commit.
  - exists (drawn (bump d)). split_and!; [|by rewrite abs_drawn|by apply drawn_ok].
    eapply Hstart. eapply steps_bind; [exact Hc|]. apply steps_ret.
Qed.

(** ** Get *)

Lemma steps_repo_get q d tx ss name namespace :
  (tx = None ∨ tx = Some []) →
  steps (repo_Get q table name namespace) (still d tx ss)
    (match objects (table_of table (d_tables d)) !! (name, namespace) with
     | None => Err (err_var ErrNotFound)
     | Some j => unmarshal_object j
     end) (still d tx ss).
Proof.
  intros Htx. unfold repo_Get. eapply steps_try.
  - apply steps_call; [done|]. cbn [effect].
    assert (visible q (still d tx ss) = d_tables d) as -> by by destruct q, Htx as [->| ->].
    rewrite where_key. reflexivity.
  - cbn [compose fmap option_fmap option_map or_error]. rewrite <- objects_lookup.
    destruct (objects _ !! _); apply steps_ret.
Qed.

Lemma unmarshal_err j e : unmarshal_object (T:=T) j = Err e → ∃ msg, e = fmt_Errorf "failed to unmarshal object" (errors_New msg).
Proof.
  unfold unmarshal_object, wrap_err. destruct (decode j) as [o|e'] eqn:Hd; [done|].
  destruct (decode_err _ _ Hd) as [msg ->]. intros [= <-]. by exists msg.
Qed.

Lemma get_refines key ign d ss :
  steps (Get generic_store key ign) (still d None ss) (spec_Get clusterScoped key ign (abs table d)) (still d None ss).
Proof.
  unfold Get, spec_Get, spec_lookup. cbn [st_clusterScoped generic_store a_objects abs].
  destruct (extractKeyNameAndNamespace clusterScoped key) as [name ns]. cbn [fst].
  case_bool_decide; [apply steps_ret|].
  eapply steps_bind; [apply (steps_repo_get Pool); by left|].
  destruct (objects _ !! (name, ns)) as [j|]; [|by destruct ign; apply steps_ret].
  destruct (unmarshal_object j) as [o|e] eqn:Hu; [apply steps_ret|].
  destruct (unmarshal_err _ _ Hu) as [msg ->]. apply steps_ret.
Qed.

(** ** Delete *)

Lemma steps_repo_delete d ss name namespace :
  table_ok (table_of table (d_tables d)) →
  steps (repo_Delete table name namespace) (still d (Some []) ss)
    (match objects (table_of table (d_tables d)) !! (name, namespace) with
     | None => Err (err_var ErrNotFound)
     | Some j => unmarshal_object j
     end) (still d (Some [WDelete table (key_conditions name namespace)]) ss).
Proof.
  intros Hok. unfold repo_Delete. eapply steps_try.
  - apply steps_call; [done|]. cbn [effect visible still w_tx w_db fold_left]. rewrite delete_rows by done. reflexivity.
  - rewrite <- objects_lookup. destruct (objects _ !! _); apply steps_ret.
Qed.

Lemma delete_abs d name namespace :
  table_ok (table_of table (d_tables d)) →
  let d' := committed (WDelete table (key_conditions name namespace)) d in
  abs table d' = {| a_objects := delete (name, namespace) (objects (table_of table (d_tables d))); a_version := version_of d;
                    a_sent := d_sent d' |} ∧
  table_ok (table_of table (d_tables d')).
Proof.
  intros Hok d'. unfold abs, d', committed. cbn [apply_write]. rewrite delete_rows by done. cbn [with_tables d_tables].
  rewrite table_of_insert. split; [f_equal; apply without_key_objects|]. by apply filter_ok.
Qed.

Lemma delete_refines key pre d ss :
  table_ok (table_of table (d_tables d)) →
  let s := spec_Delete resource transform clusterScoped validateDeletion key pre (abs table d) in
  ∃ d', steps (Delete generic_store key pre) (still d None ss) s.1 (still d' None ss) ∧
    abs table d' = s.2 ∧ table_ok (table_of table (d_tables d')).
Proof.
  intros Hok. unfold Delete, spec_Delete, spec_lookup. cbn [st_clusterScoped generic_store a_objects abs set_objects].
  destruct (extractKeyNameAndNamespace clusterScoped key) as [name ns]. cbn [fst].
  case_bool_decide; [exists d; split_and!; [apply steps_ret|done|done]|].
  assert (∀ r d' tx, steps (delete_in_tx generic_store key name ns pre) (still d (Some []) ss) r (still d' tx ss) →
    steps (check trigger Begin wrap NewInternalError; deferring_rollback (delete_in_tx generic_store key name ns pre))
      (still d None ss) r (still d' None ss)) as Hstart.
  { intros r d' tx Hb. eapply steps_try; [by eapply steps_call|]. eapply steps_rollback, Hb. }
  pose proof (steps_repo_delete d ss name ns Hok) as Hc. cbv zeta.
  destruct (objects _ !! (name, ns)) as [j|] eqn:Hk.
  2: { exists d. split_and!; [|done|done]. eapply Hstart, steps_bind; [exact Hc|]. apply steps_ret. }
  destruct (unmarshal_object j) as [o|e] eqn:Hu.
  2: { exists d. split_and!; [|done|done]. eapply Hstart, steps_bind; [exact Hc|].
       destruct (unmarshal_err _ _ Hu) as [msg ->]. apply steps_ret. }
  destruct (pre key o) as [[]|e] eqn:Hp.
  2: { exists d. split_and!; [|done|done]. eapply Hstart, steps_bind; [exact Hc|]. cbv beta iota. rewrite Hp. apply steps_ret. }
  destruct (validateDeletion o) as [[]|e] eqn:Hv.
  2: { exists d. split_and!; [|done|done]. eapply Hstart, steps_bind; [exact Hc|]. cbv beta iota. rewrite Hp.
       eapply steps_bind; [apply steps_call; [done|]; cbn; by rewrite Hv|]. apply steps_ret. }
  destruct (delete_abs d name ns Hok) as [Ha Hok'].
  eexists (add_sent (sends Deleted o) _). split_and!; [|exact (abs_sent _ _ _ _ _ Ha)|exact Hok']. eapply Hstart, steps_bind; [exact Hc|]. cbv beta iota. rewrite Hp.
  eapply steps_try; [apply steps_call; [done|]; cbn; by rewrite Hv|]. apply steps_commit.
Qed.

(** ** GuaranteedUpdate *)

Lemma steps_repo_update d ss name namespace obj j :
  table_ok (table_of table (d_tables d)) → encode obj = Ok j →
  is_Some (objects (table_of table (d_tables d)) !! (name, namespace)) →
  steps (repo_Update table name namespace obj) (still d (Some []) ss) (Ok tt)
    (still d (Some [WUpdate table j (key_conditions name namespace)]) ss).
Proof.
  intros Hok Hj Hk. unfold repo_Update. rewrite Hj. eapply steps_try.
  - apply steps_call; [done|]. cbn [effect visible still w_tx w_db fold_left]. rewrite update_rows by done. reflexivity.
  - rewrite bool_decide_false; [apply steps_ret|]. intros Hz.
    assert (objects (table_of table (d_tables d)) !! (name, namespace) = None) as Hn; [apply at_key_length; lia|].
    rewrite Hn in Hk. by destruct Hk.
Qed.

Lemma update_abs d name namespace j :
  table_ok (table_of table (d_tables d)) → is_Some (objects (table_of table (d_tables d)) !! (name, namespace)) →
  let d' := committed (WUpdate table j (key_conditions name namespace)) d in
  abs table d' = {| a_objects := <[(name, namespace) := j]> (objects (table_of table (d_tables d))); a_version := version_of d;
                    a_sent := d_sent d' |} ∧
  table_ok (table_of table (d_tables d')).
Proof.
  intros Hok Hk d'. unfold abs, d', committed. cbn [apply_write]. rewrite update_rows by done. cbn [with_tables d_tables].
  rewrite table_of_insert. split; [f_equal; by apply with_object_objects|]. by apply with_object_ok.
Qed.

(** The turn of the loop that ends it; a conflict repeats it. *)
Lemma loop_spins fuel key name ns ign pre d ss j o e :
  objects (table_of table (d_tables d)) !! (name, ns) = Some j → unmarshal_object j = Ok o → pre key o = Ok tt →
  tryUpdate o = Err e → lock_conflict e = true →
  steps (update_loop generic_store fuel key name ns ign pre) (still d (Some []) ss) None (still d (Some []) ss).
Proof.
  intros Hk Hu Hp Ht He. induction fuel as [|fuel IH]; [apply steps_ret|]. cbn [update_loop].
  eapply steps_bind; [apply (steps_repo_get Tx); by right|]. rewrite Hk, Hu, Hp.
  eapply steps_bind; [by eapply steps_call|]. cbn [effect]. rewrite Ht, He. exact IH.
Qed.

(** Writing back what [tryUpdate] returned, in a transaction that has written nothing yet. *)
Lemma steps_write_update key name ns u d ss :
  table_ok (table_of table (d_tables d)) → is_Some (objects (table_of table (d_tables d)) !! (name, ns)) →
  let u' := UpdateObject u (version_of d + 1) in
  ∃ d' tx, steps (write_update generic_store key name ns u) (still d (Some []) ss)
    (match encode u' with Ok _ => Ok u' | Err e => Err (NewInternalError (errorf "failed to marshal object" e)) end)
    (still d' tx ss) ∧
    abs table d' =
      {| a_objects := match encode u' with
                      | Ok j => <[(name, ns) := j]> (objects (table_of table (d_tables d)))
                      | Err _ => objects (table_of table (d_tables d))
                      end; a_version := version_of d + 1;
         a_sent := d_sent d ++ match encode u' with Ok _ => sends Modified u' | Err _ => [] end |} ∧
    table_ok (table_of table (d_tables d')) ∧ (is_ok (encode u') = true → tx = None).
Proof.
  intros Hok Hsome u'. destruct (encode u') as [j|e] eqn:Hj.
  - destruct (update_abs (bump d) name ns j Hok Hsome) as [Ha Hok'].
    eexists (add_sent (sends Modified u') _), None. split_and!; [|exact (abs_sent _ _ _ _ _ Ha)|exact Hok'|done].
    eapply steps_try; [apply steps_version|]. cbv zeta. fold u'.
    eapply steps_bind; [by apply (steps_repo_update (bump d) ss name ns u' j)|]. apply steps_commit.
  - exists (bump d), (Some []). split_and!; [|by rewrite app_nil_r|done|done]. eapply steps_try; [apply steps_version|].
    cbv zeta. fold u'. change (rp_Update (st_repository generic_store) name ns u') with (repo_Update table name ns u').
    unfold repo_Update. rewrite Hj. eapply steps_bind; [apply steps_ret|].
    destruct (encode_err _ _ Hj) as [msg ->]. apply steps_ret.
Qed.

Lemma update_refines fuel key ign pre d ss :
  (0 < fuel)%nat → table_ok (table_of table (d_tables d)) →
  let s := spec_Update resource transform clusterScoped tryUpdate key ign pre (abs table d) in
  ∃ d', steps (GuaranteedUpdate generic_store fuel key ign pre) (still d None ss) s.1 (still d' None ss) ∧
    abs table d' = s.2 ∧ table_ok (table_of table (d_tables d')).
Proof.
  intros Hf Hok. unfold GuaranteedUpdate, spec_Update, spec_lookup.
  cbn [st_clusterScoped generic_store a_objects abs set_objects].
  destruct (extractKeyNameAndNamespace clusterScoped key) as [name ns]. cbn [fst].
  case_bool_decide; [exists d; split_and!; [apply steps_ret|done|done]|].
  assert (∀ r d' tx, steps (update_loop generic_store fuel key name ns ign pre) (still d (Some []) ss) r (still d' tx ss) →
    steps (r ← trigger Begin; match r with
           | Err e => Ret (Some (Err (NewInternalError e)))
           | Ok _ => deferring_rollback (update_loop generic_store fuel key name ns ign pre) end)
      (still d None ss) r (still d' None ss)) as Hstart.
  { intros r d' tx Hb. eapply steps_bind; [by eapply steps_call|]. eapply steps_rollback, Hb. }
  destruct fuel as [|fuel]; [lia|]. cbv zeta.
  pose proof (steps_repo_get Tx d (Some []) ss name ns ltac:(by right)) as Hc.
  destruct (objects _ !! (name, ns)) as [j|] eqn:Hk.
  2: { exists d. split_and!; [|done|done]. eapply Hstart, steps_bind; [exact Hc|]. destruct ign; apply steps_ret. }
  destruct (unmarshal_object j) as [o|e] eqn:Hu.
  2: { exists d. split_and!; [|done|done]. eapply Hstart, steps_bind; [exact Hc|].
       destruct (unmarshal_err _ _ Hu) as [msg ->]. apply steps_ret. }
  destruct (pre key o) as [[]|e] eqn:Hp.
  2: { exists d. split_and!; [|done|done]. eapply Hstart, steps_bind; [exact Hc|]. cbv beta iota. rewrite Hp. apply steps_ret. }
  destruct (tryUpdate o) as [u|e] eqn:Ht.
  2: { exists d. destruct (lock_conflict e) eqn:He; (split_and!; [|done|done]); eapply Hstart.
       - by eapply loop_spins.
       - eapply steps_bind; [exact Hc|]. cbv beta iota. rewrite Hp. eapply steps_bind; [by eapply steps_call|].
         cbv beta. rewrite Ht, He. apply steps_ret. }
  assert (∀ r d' tx, steps (write_update generic_store key name ns u) (still d (Some []) ss) r (still d' tx ss) →
    steps (update_loop generic_store (S fuel) key name ns ign pre) (still d (Some []) ss) (Some r) (still d' tx ss)) as Hwrite.
  { intros r d' tx Hb. eapply steps_bind; [exact Hc|]. cbv beta iota. rewrite Hp. eapply steps_bind; [by eapply steps_call|].
    cbv beta. rewrite Ht. eapply steps_bind; [exact Hb|]. apply steps_ret. }
  cbn [tick a_version a_objects abs].
  destruct (steps_write_update key name ns u d ss Hok ltac:(eauto)) as (d' & tx & Hw & Ha & Hok' & _).
  exists d'. destruct (encode _) as [j'|e]; (split_and!; [eapply Hstart, Hwrite; exact Hw| |exact Hok']); rewrite Ha; [done|].
  by rewrite app_nil_r.
Qed.

(** ** Sequences of operations *)

(** The operations of a client, one after the other; an update gets at least one turn. *)
Fixpoint perform_all (ops : list (operation (T:=T))) : db_prog T (list (option (result T))) :=
  match ops with
  | [] => Ret []
  | op :: ops' => r ← perform generic_store op; rs ← perform_all ops'; Ret (r :: rs)
  end.

Fixpoint spec_all (ops : list (operation (T:=T))) (σ : abstract) : list (option (result T)) * abstract :=
  match ops with
  | [] => ([], σ)
  | op :: ops' =>
      let '(r, σ1) := spec resource transform clusterScoped tryUpdate validateDeletion op σ in
      let '(rs, σ2) := spec_all ops' σ1 in (r :: rs, σ2)
  end.

Definition fuelled (op : operation (T:=T)) : bool :=
  match op with OpUpdate fuel _ _ _ => bool_decide (0 < fuel)%nat | _ => true end.

Lemma perform_refines op d ss :
  fuelled op = true → table_ok (table_of table (d_tables d)) →
  let s := spec resource transform clusterScoped tryUpdate validateDeletion op (abs table d) in
  ∃ d', steps (perform generic_store op) (still d None ss) s.1 (still d' None ss) ∧
    abs table d' = s.2 ∧ table_ok (table_of table (d_tables d')).
Proof.
  intros Hf Hok. destruct op as [key obj|key pre|fuel key ign pre]; cbn [perform spec].
  - destruct (create_refines key obj d ss Hok) as (d' & Hs & Ha & Hok'). exists d'.
    destruct (spec_Create resource transform key obj (abs table d)) as [r σ]. split_and!; [|done|done].
    eapply steps_bind; [exact Hs|apply steps_ret].
  - destruct (delete_refines key pre d ss Hok) as (d' & Hs & Ha & Hok'). exists d'.
    destruct (spec_Delete resource transform clusterScoped validateDeletion key pre (abs table d)) as [r σ]. split_and!; [|done|done].
    eapply steps_bind; [exact Hs|apply steps_ret].
  - apply update_refines; [by apply bool_decide_eq_true in Hf|done].
Qed.

Lemma perform_all_refines ops d ss :
  forallb fuelled ops = true → table_ok (table_of table (d_tables d)) →
  let s := spec_all ops (abs table d) in
  ∃ d', steps (perform_all ops) (still d None ss) s.1 (still d' None ss) ∧
    abs table d' = s.2 ∧ table_ok (table_of table (d_tables d')).
Proof.
  revert d. induction ops as [|op ops IH]; intros d Hf Hok.
  { exists d. split_and!; [apply steps_ret|done|done]. }
  cbn in Hf. apply andb_true_iff in Hf as [Hf Hfs]. destruct (perform_refines op d ss Hf Hok) as (d1 & Hs & Ha & Hok1).
  destruct (IH d1 Hfs Hok1) as (d2 & Hs2 & Ha2 & Hok2). exists d2. cbn [spec_all].
  destruct (spec resource transform clusterScoped tryUpdate validateDeletion op (abs table d)) as [r σ1]. cbn [fst snd] in *. subst σ1.
  destruct (spec_all ops (abs table d1)) as [rs σ2]. split_and!; [|done|done].
  eapply steps_bind; [exact Hs|]. eapply steps_bind; [exact Hs2|]. apply steps_ret.
Qed.

(** [C4] The store implements its specification: any sequence of creates,
    deletes and updates over the generic repository, on a database whose table
    respects its constraints and in which nobody else is at work, gives exactly
    the results and the objects of the abstract map with versions, on every
    branch (missing and existing keys, refused preconditions and validations,
    failing callbacks, encoding errors), and the table respects its constraints
    again. *)
Theorem store_refines (ops : list (operation (T:=T))) (d : database) (ss : list (list (EventType * T))) :
  forallb fuelled ops = true → table_ok (table_of table (d_tables d)) →
  let w' := run_state answers (perform_all ops) (still d None ss) in
  (run_result answers (perform_all ops) (still d None ss), abs table (w_db w')) = spec_all ops (abs table d) ∧
  table_ok (table_of table (d_tables (w_db w'))) ∧ w_tx w' = None.
Proof.
  intros Hf Hok w'. destruct (perform_all_refines ops d ss Hf Hok) as (d' & [tr Hs] & Ha & Hok').
  unfold w', run_state, run_result. rewrite Hs. cbn. rewrite Ha. split_and!; [|done|done].
  by destruct (spec_all ops (abs table d)).
Qed.

(** ** Conflicts *)

(** An update with a stale version does not return: if [tryUpdate] answers
    the stored object with an optimistic-lock conflict, as the API server does
    when the version the client sent is not the stored one, then no number of
    turns of the loop of [GuaranteedUpdate] is enough, as long as nobody else
    writes the object. *)
Theorem stale_update_never_returns (fuel : nat) (key : string) (ign : bool) (pre : string → T → result unit)
    (d : database) (ss : list (list (EventType * T))) (obj : T) (e : error) :
  table_ok (table_of table (d_tables d)) →
  spec_lookup clusterScoped key (Err (NewKeyNotFoundError key)) (abs table d) = inl obj →
  pre key obj = Ok tt → tryUpdate obj = Err e → lock_conflict e = true →
  run_result answers (GuaranteedUpdate generic_store fuel key ign pre) (still d None ss) = None.
Proof.
  intros Hok Hl Hp Ht He. destruct fuel as [|fuel].
  { unfold GuaranteedUpdate. cbn [st_clusterScoped generic_store]. unfold spec_lookup in Hl.
    destruct (extractKeyNameAndNamespace clusterScoped key) as [name ns]. cbn [fst] in Hl.
    case_bool_decide; done. }
  destruct (update_refines (S fuel) key ign pre d ss ltac:(lia) Hok) as (d' & [tr Hs] & _ & _).
  unfold run_result. rewrite Hs. cbn [fst snd]. unfold spec_Update, spec_lookup in *.
  case_bool_decide; [done|]. destruct (a_objects (abs table d) !! _) as [j|]; [|done].
  destruct (unmarshal_object j) as [o|]; [|done]. injection Hl as ->. by rewrite Hp, Ht, He.
Qed.

End refinement.

(** ** An example *)

Definition image_key (name : string) : string := object_key false "images" (new_meta name "" "default" ∅ ∅).

Lemma store_refines_witness :
  let ops := [OpDelete (image_key "a") (λ _ _, Ok tt); OpCreate (image_key "a") (new_meta "a" "" "default" ∅ ∅);
              OpCreate (image_key "b") (new_meta "b" "" "default" ∅ ∅)] in
  (λ r, match r with Some (Ok _) => true | _ => false end) <$>
    run_result (pg (λ o, Ok o) (λ _, Ok tt))
      (@perform_all _ _ sample_event_json "images" "images" (λ o, Ok o) false ops) (still sample_database None []) =
  [true; true; false].
Proof.
  cbv zeta.
  destruct (@store_refines _ _ _ sample_event_json (λ o, Ok o) (λ _, Ok tt) "images" "images" (λ o, Ok o) false
    [OpDelete (image_key "a") (λ _ _, Ok tt); OpCreate (image_key "a") (new_meta "a" "" "default" ∅ ∅);
     OpCreate (image_key "b") (new_meta "b" "" "default" ∅ ∅)] sample_database [] eq_refl sample_table_ok) as [Heq _].
  apply (f_equal fst) in Heq. cbn [fst] in Heq. rewrite Heq. vm_compute. reflexivity.
Defined.

(** A client that sends a version that is not the stored one. *)
Definition stale_conflict : error :=
  apierror ReasonConflict ("Operation cannot be fulfilled: " +:+ OptimisticLockErrorMsg).

Lemma stale_update_never_returns_witness :
  run_result (pg (λ _, Err stale_conflict) (λ _, Ok tt))
    (@GuaranteedUpdate _ _ sample_event_json (generic_store "images" "images" (λ o, Ok o) false) 100 (image_key "a") false (λ _ _, Ok tt))
    (still sample_database None []) = None.
Proof.
  apply (@stale_update_never_returns _ _ _ sample_event_json (λ _, Err stale_conflict) (λ _, Ok tt) "images" "images"
    (λ o, Ok o) false 100 (image_key "a") false (λ _ _, Ok tt) sample_database []
    (sample_object "a" "default" "u1" 5 ∅) stale_conflict sample_table_ok); vm_compute; reflexivity.
Defined.
