(* ===== verification/StoreLiveness.v ===== *)
(** * Progress of updates, and writes that cross

    When [GuaranteedUpdate] of [src/internal/storage/store.go] returns; the
    versions the store gives out; and what happens when two clients, or a list
    and a write, are at work at the same time. *)

From stdpp Require Import prelude gmap strings list sorting.
From Stdlib Require Import ZArith Lia.
From S2P Require Import Prelude Prog Meta Strconv Sql Effects StorageEffects StorageSample Repository Store StoreEvents Database Pagination StoreRefinement.
Open Scope Z_scope.

(** ** The turns of an update *)

Section turns.
Context {T : Type} `{!Resource T, !JSON event} (s : store T) `{!SendsStatements (st_repository s)}.

(** The optimistic-lock conflicts among the answers of [tryUpdate]. *)
Definition ev_conflict (o : obs (SEff T)) : option unit :=
  match o with
  | Ev e a => match e in SEff _ A return A → option unit with
              | TryUpdate _ => λ a, match a with Err err => if lock_conflict err then Some tt else None | Ok _ => None end
              | _ => λ _, None
              end a
  end.
Definition conflicts (tr : trace (SEff T)) : nat := length (omap ev_conflict tr).

Lemma conflicts_app tr1 tr2 : conflicts (tr1 ++ tr2) = (conflicts tr1 + conflicts tr2)%nat.
Proof. unfold conflicts. by rewrite omap_app, length_app. Qed.

(** Calls that ask [tryUpdate] nothing. *)
Definition unasked A (e : SEff T A) : Prop := match e with TryUpdate _ => False | _ => True end.

Lemma unasked_conflicts tr : Forall (obs_call unasked) tr → conflicts tr = 0%nat.
Proof.
  intros Htr. unfold conflicts. rewrite (omap_calls unasked ev_conflict); [done| |done].
  intros A e a. by destruct e.
Qed.

Lemma statement_unasked A (e : SEff T A) : statement A e → unasked A e.
Proof. by destruct e. Qed.

(** A program that reaches its end, or the end of its fuel. *)
Definition counted (fuel : nat) (tr : trace (SEff T)) (r : option (result T)) : Prop :=
  match r with None => conflicts tr = fuel | Some _ => (conflicts tr < fuel)%nat end.

Lemma write_update_unasked key name ns obj : calls unasked (write_update s key name ns obj).
Proof using Type*.
  unfold write_update, nextResourceVersion, broadcast, Action, publish.
  repeat first [calls_step | exact I | eapply calls_mono, Update_statements; apply statement_unasked].
Qed.

Lemma update_loop_counted fuel key name ns ign pre :
  wp any_answer (update_loop s fuel key name ns ign pre) [] (counted fuel).
Proof using Type*.
  induction fuel as [|fuel IH]; [done|]. cbn [update_loop].
  eapply wp_skip; [eapply calls_mono, Get_statements; apply statement_unasked|]. intros ext [obj|e] Hext.
  2: { assert (∀ x, counted (S fuel) (ext ++ []) (Some x)) as Hc.
       { intros x. cbn. rewrite app_nil_r, unasked_conflicts by done. lia. }
       destruct (errors_Is _ _); [destruct ign|]; apply Hc. }
  destruct (pre key obj) as [_|e].
  2: { cbn. rewrite app_nil_r, unasked_conflicts by done. lia. }
  apply wp_bind. intros a _. cbn [wp app].
  destruct a as [updated|e]; [|destruct (lock_conflict e) eqn:He].
  - eapply wp_bind, (wp_frame _ _ [_]); [apply (calls_wp unasked); [apply write_update_unasked|constructor]|].
    intros ext' r Hext'. cbn [wp counted]. rewrite !conflicts_app, (unasked_conflicts ext), (unasked_conflicts ext') by done.
    unfold conflicts. cbn. lia.
  - eapply (wp_frame _ _ [_]); [exact IH|]. intros ext' r. unfold counted.
    assert (conflicts [Ev (TryUpdate obj) (Err e)] = 1%nat) as H1 by (unfold conflicts; cbn; by rewrite He).
    rewrite !conflicts_app, (unasked_conflicts ext), H1 by done. destruct r; lia.
  - cbn [wp counted]. rewrite conflicts_app, unasked_conflicts by done. unfold conflicts. cbn. rewrite He. cbn. lia.
Qed.

(** [C31] An update returns as soon as the conflicts stop: whatever the database
    and the callback answer, a run of [GuaranteedUpdate] that is given more
    turns than there are optimistic-lock conflicts among the answers of
    [tryUpdate] returns; with fewer, it has used every turn for a conflict. *)
Theorem update_returns {W} (h : handler (SEff T) W) (w : W) (fuel : nat) (key : string) (ign : bool)
    (pre : string → T → result unit) :
  let tr := run_trace h (GuaranteedUpdate s fuel key ign pre) w in
  (conflicts tr ≤ fuel)%nat ∧
  ((conflicts tr < fuel)%nat → is_Some (run_result h (GuaranteedUpdate s fuel key ign pre) w)).
Proof using Type*.
  cbv zeta. pattern (run_trace h (GuaranteedUpdate s fuel key ign pre) w),
    (run_result h (GuaranteedUpdate s fuel key ign pre) w).
  apply wp_run_any. unfold GuaranteedUpdate.
  destruct (extractKeyNameAndNamespace (st_clusterScoped s) key) as [name ns].
  assert (∀ tr r, counted fuel tr r → (conflicts tr ≤ fuel)%nat ∧ ((conflicts tr < fuel)%nat → is_Some r)) as Hc.
  { intros tr [r|]; cbn; [|lia]. intros ?. split; [lia|eauto]. }
  case_bool_decide; [cbn; split; [lia|eauto]|]. apply wp_bind. intros a _. cbn [wp]. destruct a as [[]|e].
  - unfold deferring_rollback. apply wp_bind. eapply (wp_frame _ _ [_]); [apply update_loop_counted|].
    intros ext r Hr. cbn. intros a _. apply Hc. destruct r as [r|]; cbn [counted] in *;
      rewrite !conflicts_app; unfold conflicts in *; cbn; lia.
  - unfold conflicts. cbn. split; [lia|eauto].
Qed.
End turns.

(** ** Versions *)

Definition version_in (j : json) : option json := member_of (member j "metadata") "resourceVersion".

(** Every object carries a version that was given out, and no two carry the same. *)
Record versions_ok (σ : abstract) : Prop := {
  vo_bound : ∀ k j, a_objects σ !! k = Some j →
    ∃ v, 0 < v ≤ a_version σ ∧ version_in j = Some (JString (FormatInt v));
  vo_distinct : ∀ k1 k2 j1 j2, a_objects σ !! k1 = Some j1 → a_objects σ !! k2 = Some j2 →
    version_in j1 = version_in j2 → k1 = k2;
  vo_nonneg : 0 ≤ a_version σ
}.

Section versions.
Context {T : Type} `{!Resource T, !JSON event} (resource : string) (transform : T → result T).
Context (clusterScoped : bool) (tryUpdate : T → result T) (validateDeletion : T → result unit).

Lemma versioned (o : T) v j :
  0 < v → encode (UpdateObject o v) = Ok j → version_in j = Some (JString (FormatInt v)).
Proof.
  intros Hv Hj. unfold version_in. rewrite (encode_rv _ _ Hj). unfold UpdateObject. rewrite accessor_with. cbn.
  unfold version_string. rewrite bool_decide_false by lia.
  unfold omit_empty. rewrite bool_decide_false; [done|]. apply FormatInt_nonempty. lia.
Qed.

(** Writing an object with the next version. *)
Lemma versions_insert σ k j sent :
  versions_ok σ → version_in j = Some (JString (FormatInt (a_version σ + 1))) →
  versions_ok {| a_objects := <[k := j]> (a_objects σ); a_version := a_version σ + 1; a_sent := sent |}.
Proof.
  intros [Hb Hd Hn] Hj.
  assert (∀ k' j', a_objects σ !! k' = Some j' → version_in j' ≠ version_in j) as Hnew.
  { intros k' j' Hk'. destruct (Hb k' j' Hk') as (v & Hv & ->). rewrite Hj. intros [= Heq].
    apply FormatInt_inj in Heq; lia. }
  split; cbn; [| |lia].
  - intros k' j' [[<- <-]|[_ Hk']]%lookup_insert_Some; [exists (a_version σ + 1); split; [lia|done]|].
    destruct (Hb k' j' Hk') as (v & Hv & ?). exists v. split; [lia|done].
  - intros k1 k2 j1 j2 [[<- <-]|[_ Hk1]]%lookup_insert_Some [[<- <-]|[_ Hk2]]%lookup_insert_Some Heq; [done| | |eauto].
    + by destruct (Hnew k2 j2 Hk2).
    + by destruct (Hnew k1 j1 Hk1).
Qed.

Lemma versions_tick σ : versions_ok σ → versions_ok (tick σ).
Proof.
  intros [Hb Hd Hn]. split; cbn; [|exact Hd|lia].
  intros k j Hk. destruct (Hb k j Hk) as (v & Hv & ?). exists v. split; [lia|done].
Qed.

Lemma versions_delete σ k type obj :
  versions_ok σ → versions_ok (set_objects resource transform (delete k (a_objects σ)) type obj σ).
Proof.
  intros [Hb Hd Hn]. split; cbn; [| |done].
  - intros k' j [_ Hk]%lookup_delete_Some. eauto.
  - intros k1 k2 j1 j2 [_ Hk1]%lookup_delete_Some [_ Hk2]%lookup_delete_Some. eauto.
Qed.

Lemma spec_versions op σ : versions_ok σ → versions_ok (spec resource transform clusterScoped tryUpdate validateDeletion op σ).2.
Proof.
  intros Hσ. destruct op as [key obj|key pre|fuel key ign pre]; cbn [spec].
  - unfold spec_Create. cbv zeta. cbn [tick a_version a_objects].
    destruct (encode _) as [j|e] eqn:Hj; [|by apply versions_tick].
    destruct (a_objects σ !! _); [by apply versions_tick|]. cbn. apply versions_insert; [done|].
    apply (versioned obj); [|done]. pose proof (vo_nonneg _ Hσ). lia.
  - unfold spec_Delete. destruct (spec_lookup _ _ _ _) as [o|r]; [|done].
    destruct (pre key o); [|done]. destruct (validateDeletion o); [|done]. by apply versions_delete.
  - unfold spec_Update. destruct (spec_lookup _ _ _ _) as [o|r]; [|done].
    destruct (pre key o); [|done]. destruct (tryUpdate o) as [u|e]; [|by destruct (lock_conflict e)].
    cbv zeta. cbn [tick a_version a_objects]. destruct (encode _) as [j|e] eqn:Hj; [|by apply versions_tick].
    cbn. apply versions_insert; [done|]. apply (versioned u); [|done]. pose proof (vo_nonneg _ Hσ). lia.
Qed.

Lemma spec_all_versions ops σ :
  versions_ok σ → versions_ok (spec_all tryUpdate validateDeletion resource transform clusterScoped ops σ).2.
Proof.
  revert σ. induction ops as [|op ops IH]; intros σ Hσ; [done|]. cbn [spec_all].
  pose proof (spec_versions op σ Hσ) as H1. destruct (spec _ _ _ _ _ op σ) as [r σ1]. cbn in H1.
  specialize (IH σ1 H1). by destruct (spec_all _ _ _ _ _ ops σ1).
Qed.
End versions.

Section writes.
Context {T : Type} `{!Resource T, !Postgres, !JSON event}.
Context (tryUpdate : T → result T) (validateDeletion : T → result unit).
Context (table resource : string) (transform : T → result T) (clusterScoped : bool).
Abbreviation answers := (pg tryUpdate validateDeletion).
Abbreviation the_store := (generic_store table resource transform clusterScoped).

(** The database after the migrations of [migrations.go]. *)
Definition new_database : database :=
  {| d_tables := ∅; d_last_value := 1; d_is_called := false; d_sent := [] |}.

Lemma new_database_abs : abs table new_database = {| a_objects := ∅; a_version := 0; a_sent := [] |}.
Proof. done. Qed.

(** [C32] Versions identify writes: after any sequence of creates, deletes and
    updates on a new database, every stored object carries a version the
    sequence of the database has given out, and no two objects carry the same
    version. *)
Theorem versions_unique (ops : list (operation (T:=T))) (ss : list (list (EventType * T))) :
  forallb fuelled ops = true →
  let w := run_state answers (perform_all table resource transform clusterScoped ops) (still new_database None ss) in
  versions_ok (abs table (w_db w)).
Proof.
  intros Hf w. destruct (perform_all_refines tryUpdate validateDeletion table resource transform clusterScoped
    ops new_database ss Hf empty_ok) as (d' & [tr Hs] & Ha & _).
  unfold w, run_state. rewrite Hs. cbn [snd still w_db]. rewrite Ha. apply spec_all_versions.
  rewrite new_database_abs. split; cbn; [|done|lia]. intros k j. by rewrite lookup_empty.
Qed.
End writes.

Lemma update_returns_witness :
  is_Some (run_result refuse_storage (@GuaranteedUpdate _ _ sample_event_json image_store 1 (image_key "a") false (λ _ _, Ok tt)) tt).
Proof.
  apply (@update_returns _ _ sample_event_json image_store (generic_statements "images") _ refuse_storage tt 1
           (image_key "a") false (λ _ _, Ok tt)). vm_compute. lia.
Defined.

Lemma versions_unique_witness :
  versions_ok (abs "images" (w_db (run_state (pg (λ o, Ok o) (λ _, Ok tt))
    (@perform_all _ _ sample_event_json "images" "images" (λ o, Ok o) false
       [OpCreate (image_key "a") (new_meta "a" "" "default" ∅ ∅); OpCreate (image_key "b") (new_meta "b" "" "default" ∅ ∅)])
    (still new_database None [])))).
Proof. apply (@versions_unique _ _ _ sample_event_json (λ o, Ok o) (λ _, Ok tt) "images" "images" (λ o, Ok o) false). reflexivity. Defined.
