(* ===== verification/StoreRaces.v ===== *)
(** * Writes that cross

    What two clients of the store of [src/internal/storage/store.go] can do to
    each other: an update between the read and the write of another, an object
    written while a list is taken, and a deletion between a list and the watch
    that starts from it. *)

From stdpp Require Import prelude gmap strings list sorting.
From Stdlib Require Import ZArith Lia.
From S2P Require Import Prelude Prog Meta Strconv Sql Effects StorageEffects StorageSample Repository Store StoreEvents Database Pagination StoreRefinement StoreLiveness.
Open Scope Z_scope.

Definition calm : turn := {| t_others := id; t_fault := Fine |}.

Section crossing.
Context {T : Type} `{!Resource T, !Postgres, !JSON event}.
Context (table resource : string) (transform : T → result T) (clusterScoped : bool).
Context (tryUpdate tryUpdate' : T → result T) (validateDeletion : T → result unit).
Abbreviation the_store := (generic_store table resource transform clusterScoped).
Abbreviation answers := (pg tryUpdate validateDeletion).
Abbreviation no_preconditions := (λ (_ : string) (_ : T), Ok tt).

(** The other client: a whole update, with its own callback. *)
Definition other_update (key : string) : db_prog T (option (result T)) :=
  GuaranteedUpdate the_store 1 key false no_preconditions.
Definition update_by_other (key : string) (d : database) : database :=
  w_db (run_state (pg tryUpdate' validateDeletion) (other_update key) (still d None [])).

(** It runs after this client has read the object and before it writes it: the
    calls before are [BEGIN], the query and the callback. *)
Definition crossed (key : string) (d : database) : world T :=
  {| w_db := d; w_tx := None; w_streams := [];
     w_script := [calm; calm; calm; {| t_others := update_by_other key; t_fault := Fine |}] |}.

Lemma steps_turn {A} (e : SEff T A) w o sc a w' :
  w_script w = {| t_others := o; t_fault := Fine |} :: sc →
  effect tryUpdate validateDeletion A e (with_script sc (with_db (o (w_db w)) w)) = (a, w') →
  steps tryUpdate validateDeletion (trigger e) w a w'.
Proof. intros Hq He. unfold steps, trigger. cbn. unfold pg. rewrite Hq. cbn [t_fault t_others]. rewrite He. by eexists. Qed.

(** A call between two turns does not depend on who goes first, if the other
    client's turn comes right before it. *)
Lemma steps_before {A} (p : db_prog T A) o d tx ss a w' :
  (∃ B (e : SEff T B) k, p = Vis e k) →
  steps tryUpdate validateDeletion p (still (o d) tx ss) a w' →
  steps tryUpdate validateDeletion p
    {| w_db := d; w_tx := tx; w_streams := ss; w_script := [{| t_others := o; t_fault := Fine |}] |} a w'.
Proof. intros (B & e & k & ->) [tr Hs]. exists tr. exact Hs. Qed.

(** An update can be lost: when another client's update of the same object
    runs between the read and the write of this one, both succeed, and what is
    stored is this client's change of the object as it was before the other's
    update, of which nothing is left. *)
Theorem update_lost (key : string) (d : database) (obj u u' : T) (j j' : json) :
  table_ok (table_of table (d_tables d)) →
  spec_lookup clusterScoped key (Err (NewKeyNotFoundError key)) (abs table d) = inl obj →
  tryUpdate obj = Ok u → tryUpdate' obj = Ok u' →
  encode (UpdateObject u' (version_of d + 1)) = Ok j' → encode (UpdateObject u (version_of d + 2)) = Ok j →
  run_result (pg tryUpdate' validateDeletion) (other_update key) (still d None []) =
    Some (Ok (UpdateObject u' (version_of d + 1))) ∧
  run_result answers (GuaranteedUpdate the_store 1 key false no_preconditions) (crossed key d) =
    Some (Ok (UpdateObject u (version_of d + 2))) ∧
  a_objects (abs table (w_db (run_state answers (GuaranteedUpdate the_store 1 key false no_preconditions) (crossed key d)))) =
    <[extractKeyNameAndNamespace clusterScoped key := j]> (a_objects (abs table d)).
Proof.
  intros Hok Hl Hu Hu' Hj' Hj.
  destruct (update_refines tryUpdate' validateDeletion table resource transform clusterScoped 1 key false no_preconditions
    d [] ltac:(lia) Hok) as (d1 & [tr1 Hs1] & Ha1 & Hok1).
  assert (run_result (pg tryUpdate' validateDeletion) (other_update key) (still d None []) =
    Some (Ok (UpdateObject u' (version_of d + 1))) ∧ update_by_other key d = d1 ∧
    abs table d1 = {| a_objects := <[extractKeyNameAndNamespace clusterScoped key := j']> (a_objects (abs table d));
                      a_version := version_of d + 1;
                      a_sent := d_sent d ++ messages resource transform Modified (UpdateObject u' (version_of d + 1)) |}) as (Hr1 & Hd1 & Habs1).
  { unfold run_result, update_by_other, run_state, other_update. rewrite Hs1. cbn [fst snd still w_db]. rewrite Ha1.
    unfold spec_Update, spec_lookup in *. case_bool_decide; [done|].
    destruct (a_objects (abs table d) !! _) as [j0|]; [|done]. destruct (unmarshal_object j0) as [o|]; [|done].
    injection Hl as ->. rewrite Hu'. cbn [tick a_version a_objects abs]. by rewrite Hj'. }
  split; [done|].
  unfold spec_lookup in Hl. destruct (extractKeyNameAndNamespace clusterScoped key) as [name ns] eqn:Hkey.
  cbn [fst] in Hl. case_bool_decide as Hname; [done|].
  destruct (a_objects (abs table d) !! (name, ns)) as [j0|] eqn:Hj0; [|done].
  destruct (unmarshal_object j0) as [o|] eqn:Ho; [|done]. injection Hl as ->.
  assert (version_of d1 = version_of d + 1) as Hv1 by (by apply (f_equal a_version) in Habs1).
  assert (objects (table_of table (d_tables d1)) = <[(name, ns) := j']> (objects (table_of table (d_tables d)))) as Hobj1
    by (by apply (f_equal a_objects) in Habs1).
  destruct (steps_write_update tryUpdate validateDeletion table resource transform clusterScoped key name ns u d1 []
    Hok1) as (d2 & tx & Hw & Ha2 & _ & Htx).
  { rewrite Hobj1, lookup_insert_eq. eauto. }
  cbv zeta in Hw, Ha2, Htx. rewrite Hv1 in Hw, Ha2, Htx. replace (version_of d + 1 + 1) with (version_of d + 2) in * by lia.
  rewrite Hj in Hw, Ha2, Htx. rewrite (Htx eq_refl) in Hw.
  assert (steps tryUpdate validateDeletion (GuaranteedUpdate the_store 1 key false no_preconditions) (crossed key d)
    (Some (Ok (UpdateObject u (version_of d + 2)))) (still d2 None [])) as [tr Hs].
  { unfold GuaranteedUpdate. cbn [st_clusterScoped generic_store]. rewrite Hkey, bool_decide_false by done.
    eapply steps_bind; [by eapply steps_turn|]. cbv beta iota. eapply steps_rollback.
    cbn [update_loop]. eapply steps_bind.
    { eapply steps_try; [eapply steps_turn; [reflexivity|]; cbn [effect]; rewrite where_key; reflexivity|].
      cbn [compose fmap option_fmap option_map or_error]. rewrite <- objects_lookup. cbn [a_objects abs] in Hj0.
      cbn. rewrite Hj0. apply steps_ret. }
    rewrite Ho. cbv beta iota. eapply steps_bind; [by eapply steps_turn|]. cbv beta. rewrite Hu.
    eapply steps_bind; [|apply steps_ret].
    apply (steps_before _ (update_by_other key) d (Some []) []); [by do 3 eexists|]. rewrite Hd1. exact Hw. }
  unfold run_result, run_state. rewrite Hs. cbn [fst snd still w_db]. rewrite Ha2. split; [done|].
  cbn [a_objects]. rewrite Hobj1, insert_insert_eq. done.
Qed.
End crossing.

(** ** Watching *)

Section watching.
Context {T : Type} `{!Resource T, !Postgres, !JSON event}.
Context (table resource : string) (transform : T → result T) (clusterScoped : bool).
Context (tryUpdate : T → result T) (validateDeletion : T → result unit).
Abbreviation the_store := (generic_store table resource transform clusterScoped).
Abbreviation answers := (pg tryUpdate validateDeletion).
Abbreviation steps_to := (steps tryUpdate validateDeletion).

(** A watch is not confined to its key: a watch without a version, whatever
    its key and its selectors, receives every event of the resource, also of
    other namespaces. *)
Theorem watch_unfiltered (key : string) (opts : ListOptions) (type : EventType) (o : T) (d : database)
    (ss : list (list (EventType * T))) :
  lo_ResourceVersion opts = "" → lo_SendInitialEvents opts = None →
  w_streams (run_state answers (_ ← Watch the_store key opts; trigger (LocalAction type o)) (still d None ss)) =
    ((λ st, st ++ [(type, o)]) <$> ss) ++ [[(type, o)]].
Proof.
  intros Hrv Hs.
  assert (steps_to (_ ← Watch the_store key opts; trigger (LocalAction type o)) (still d None ss) (Ok tt)
    (still d None (((λ st, st ++ [(type, o)]) <$> ss) ++ [[(type, o)]]))) as [tr Hrun].
  { eapply steps_bind.
    - unfold Watch. rewrite Hrv, Hs. cbn [default andb]. rewrite bool_decide_true by done.
      eapply steps_try; [by eapply steps_call|]. apply steps_ret.
    - eapply steps_call; [done|]. cbn. rewrite fmap_app. reflexivity. }
  unfold run_state. by rewrite Hrun.
Qed.

(** ** The objects a version selects *)

Definition row_versions_below (v : Z) (rows : list row) : Prop :=
  Forall (λ r, ∃ v', 0 ≤ v' < v ∧ v' < 2 ^ 63 ∧ version_in (row_object r) = Some (JString (FormatInt v'))) rows.

Lemma selected_none ns v conds r :
  (∃ v', 0 ≤ v' < v ∧ v' < 2 ^ 63 ∧ version_in (row_object r) = Some (JString (FormatInt v'))) →
  selected (namespace_condition ns ++ [GE resourceVersion_column (Arg (VBigint v))] ++ conds) r = Some false.
Proof.
  intros (v' & Hv & Hm & Hr). rewrite selected_app.
  assert (selected ([GE resourceVersion_column (Arg (VBigint v))] ++ conds) r = Some false) as Hno.
  { cbn. unfold version_in, member_of in Hr. destruct (member (row_object r) "metadata") as [m|]; [|done].
    cbn in Hr |- *. rewrite Hr. cbn. rewrite ParseInt_FormatInt by lia. cbn.
    destruct (Z.leb_spec v v'); [lia|done]. }
  rewrite Hno. unfold namespace_condition. case_bool_decide; [done|]. cbn.
  by destruct (text_eq (row_namespace r) ns).
Qed.

Lemma where_none ns v conds rows :
  row_versions_below v rows →
  where_rows (namespace_condition ns ++ [GE resourceVersion_column (Arg (VBigint v))] ++ conds) rows = Some [].
Proof.
  induction 1 as [|r rows Hr _ IH]; [done|]. cbn [where_rows]. rewrite selected_none by done. cbn [mbind option_bind].
  by rewrite IH.
Qed.

Lemma rows_below d v :
  table_ok (table_of table (d_tables d)) →
  (∀ k j, objects (table_of table (d_tables d)) !! k = Some j →
     ∃ v', 0 ≤ v' < v ∧ v' < 2 ^ 63 ∧ version_in j = Some (JString (FormatInt v'))) →
  row_versions_below v (rl_rows (table_of table (d_tables d))).
Proof.
  intros Hok Hb. apply Forall_forall. intros r Hr. apply (Hb (row_key r)).
  unfold objects. apply elem_of_list_to_map_1.
  - rewrite <- list_fmap_compose. apply (ok_keys _ Hok).
  - apply list_elem_of_fmap. by exists r.
Qed.

(** ** A list and the watch that follows *)

Definition with_rv (rv : string) (opts : ListOptions) : ListOptions := {|
  lo_ResourceVersion := rv; lo_SendInitialEvents := lo_SendInitialEvents opts;
  lo_Label := lo_Label opts; lo_Field := lo_Field opts; lo_Limit := lo_Limit opts; lo_Continue := lo_Continue opts;
  lo_AllowWatchBookmarks := lo_AllowWatchBookmarks opts |}.

(** A plain list request: no version, no token, no limit, no streaming. *)
Definition plain_list (opts : ListOptions) : bool :=
  bool_decide (lo_ResourceVersion opts = "") && bool_decide (lo_SendInitialEvents opts = None) &&
  bool_decide (lo_Continue opts = "") && bool_decide (lo_Limit opts = 0).

(** A list takes its version after it has read the table. *)
Lemma steps_list key opts d ss l :
  plain_list opts = true →
  run_result answers (GetList the_store key opts) (still d None ss) = Ok l →
  ol_ResourceVersion l = version_string (version_of d + 1) ∧
  run_state answers (GetList the_store key opts) (still d None ss) = still (bump d) None ss ∧
  is_ok (list_query (extractKeyNamespace clusterScoped key) opts) = true.
Proof.
  unfold plain_list. rewrite !andb_true_iff, !bool_decide_eq_true. intros (((Hrv & Hs) & Hc) & Hl).
  unfold run_result, run_state, GetList, ParseResourceVersion. rewrite Hrv. cbn [st_repository st_clusterScoped generic_store].
  rewrite bool_decide_true by done. cbn [orb].
  pose proof (run_list tryUpdate validateDeletion (still d None ss) table (extractKeyNamespace clusterScoped key) eq_refl opts) as Hrun.
  destruct (list_query (extractKeyNamespace clusterScoped key) opts) as [q|e] eqn:Hq.
  - destruct (run answers (repo_List _ _ _ _) (still d None ss)) as [[tr r] w] eqn:Hw. injection Hrun as -> -> ->.
    unfold try_bind. change (rp_List (GenericObjectRepository table) Pool) with (repo_List (T:=T) Pool table).
    rewrite (run_bind _ _ _ _ _ _ _ Hw). cbn [fst snd].
    destruct (match sql_select q _ with Some _ => _ | None => _ end) as [rs|e]; [|done].
    destruct (scan_rows _ _ _ _ _ _) as [[[items last] more]|e]; [|done].
    cbv beta iota. destruct (steps_version tryUpdate validateDeletion d None ss) as [tr' Hv].
    unfold run_result, run_state. rewrite (run_bind _ _ _ _ _ _ _ Hv). cbn. intros [= <-]. done.
  - destruct (run answers (repo_List _ _ _ _) (still d None ss)) as [[tr r] w] eqn:Hw. injection Hrun as -> -> ->.
    unfold try_bind. change (rp_List (GenericObjectRepository table) Pool) with (repo_List (T:=T) Pool table).
    rewrite (run_bind _ _ _ _ _ _ _ Hw). cbn. done.
Qed.

Lemma FormatInt_not_zero v : 0 < v → FormatInt v ≠ "0".
Proof. intros Hv Heq. change "0" with (FormatInt 0) in Heq. apply FormatInt_inj in Heq; lia. Qed.

Lemma query_from_version namespace opts v :
  plain_list opts = true → is_ok (list_query namespace opts) = true → 0 < v < 2 ^ 64 →
  ∃ conds, list_query namespace (with_rv (FormatInt v) opts) =
    Ok {| sel_where := namespace_condition namespace ++ [GE resourceVersion_column (Arg (VBigint v))] ++ conds;
          sel_order_by_id := true; sel_limit := None |}.
Proof.
  unfold plain_list. rewrite !andb_true_iff, !bool_decide_eq_true. intros (((Hrv & Hs) & Hc) & Hl) Hq Hv.
  unfold list_query, version_condition in *. cbn [lo_ResourceVersion lo_SendInitialEvents lo_Label lo_Field lo_Limit lo_Continue with_rv].
  rewrite Hc, Hs, Hl in *. rewrite Hrv in Hq. cbn [default negb] in *.
  rewrite (bool_decide_false (FormatInt v = "")) by (apply FormatInt_nonempty; lia).
  rewrite (bool_decide_false (FormatInt v = "0")) by (apply FormatInt_not_zero; lia).
  rewrite ParseUint_FormatInt by lia. change (continue_condition "") with (Ok (A:=list expr) []) in *.
  unfold mbind, result_bind in *. cbn [orb wrap_err] in *. rewrite bool_decide_true in Hq by done. cbn [orb] in Hq.
  destruct (match lo_Label opts with Some _ => _ | None => _ end) as [labels|e]; [|done].
  destruct (match lo_Field opts with Some _ => _ | None => _ end) as [fields|e]; [|done].
  exists (labels ++ fields). done.
Qed.

Lemma steps_watch_empty key opts d ss v :
  plain_list opts = true → is_ok (list_query (extractKeyNamespace clusterScoped key) opts) = true → 0 < v < 2 ^ 64 →
  row_versions_below v (rl_rows (table_of table (d_tables d))) →
  steps_to (Watch the_store key (with_rv (FormatInt v) opts)) (still d None ss) (Ok tt) (still d None (ss ++ [[]])).
Proof.
  intros Hp Hq Hv Hb. destruct (query_from_version _ _ _ Hp Hq Hv) as [conds Hq'].
  unfold plain_list in Hp. rewrite !andb_true_iff, !bool_decide_eq_true in Hp. destruct Hp as (((Hrv & Hs) & Hc) & Hl).
  pose proof (FormatInt_nonempty v ltac:(lia)) as Hne. pose proof (FormatInt_not_zero v ltac:(lia)) as Hnz.
  unfold Watch. cbn [lo_SendInitialEvents lo_ResourceVersion with_rv]. rewrite Hs. cbn [default andb].
  rewrite !bool_decide_false by done. eapply steps_try.
  - unfold GetList, ParseResourceVersion. cbn [lo_ResourceVersion with_rv]. rewrite !bool_decide_false by done. cbn [orb].
    rewrite ParseUint_FormatInt by lia. eapply (steps_try _ _ _ _ _ _ ([], "")); [|apply steps_ret].
    eexists. change (rp_List (st_repository the_store) Pool) with (repo_List (T:=T) Pool table).
    rewrite run_list by done. cbn [st_clusterScoped generic_store]. rewrite Hq'. cbv zeta. unfold sql_select.
    cbn [sel_where sel_order_by_id sel_limit w_db still]. rewrite where_none by done. reflexivity.
  - unfold WatchWithPrefix. eapply steps_try; [by eapply steps_call|]. apply steps_ret.
Qed.

(** A deletion between a list and the watch that starts from its version is
    never seen: if an object is listed, then deleted, and the client then
    watches from the version of its list, the new watch starts with nothing,
    although the object the client holds is gone; the message of the deletion
    was delivered before the watch existed. *)
Theorem deletion_not_replayed (key list_key : string) (opts : ListOptions) (pre : string → T → result unit)
    (d : database) (l : ObjectList T) (obj : T) :
  table_ok (table_of table (d_tables d)) → versions_ok (abs table d) → version_of d + 1 < 2 ^ 63 →
  plain_list opts = true →
  run_result answers (GetList the_store list_key opts) (still d None []) = Ok l →
  let d1 := w_db (run_state answers (GetList the_store list_key opts) (still d None [])) in
  run_result answers (Delete the_store key pre) (still d1 None []) = Ok obj →
  let d2 := w_db (run_state answers (Delete the_store key pre) (still d1 None [])) in
  a_objects (abs table d2) = delete (extractKeyNameAndNamespace clusterScoped key) (a_objects (abs table d)) ∧
  w_streams (run_state answers (Watch the_store list_key (with_rv (ol_ResourceVersion l) opts)) (still d2 None [])) = [[]].
Proof.
  intros Hok Hvs Hmax Hp Hl d1 Hdel d2.
  destruct (steps_list list_key opts d [] l Hp Hl) as (Hrv & Hst & Hq).
  assert (d1 = bump d) as Hd1 by (unfold d1; by rewrite Hst). clearbody d1. subst d1.
  destruct (delete_refines tryUpdate validateDeletion table resource transform clusterScoped key pre (bump d) [] Hok)
    as (d' & [tr Hs] & Ha & Hok').
  assert (d2 = d') as -> by (unfold d2, run_state; by rewrite Hs).
  unfold run_result in Hdel. rewrite Hs in Hdel. cbn [fst snd] in Hdel.
  assert (a_objects (abs table d') = delete (extractKeyNameAndNamespace clusterScoped key) (a_objects (abs table d))) as Hobj.
  { rewrite Ha. unfold spec_Delete in Hdel |- *. destruct (spec_lookup _ _ _ _) as [o|r] eqn:Hlk.
    - destruct (pre key o); [|done]. by destruct (validateDeletion o).
    - cbn in Hdel. subst r. unfold spec_lookup in Hlk. case_bool_decide; [done|].
      destruct (a_objects _ !! _) as [j|]; [|done]. by destruct (unmarshal_object j). }
  split; [done|]. pose proof (vo_nonneg _ Hvs) as Hnn. cbn [a_version abs] in Hnn.
  rewrite Hrv. unfold version_string. rewrite bool_decide_false by lia.
  destruct (steps_watch_empty list_key opts d' [] (version_of d + 1) Hp Hq ltac:(lia)) as [tr' Hw].
  2: { unfold run_state. by rewrite Hw. }
  apply rows_below; [done|]. intros k j Hk. cbn [a_objects abs] in Hobj. rewrite Hobj in Hk.
  apply lookup_delete_Some in Hk as [_ Hk]. destruct (vo_bound _ Hvs k j Hk) as (v & Hv & Hj).
  cbn [a_version abs] in Hv. exists v. split_and!; [lia|lia|lia|done].
Qed.

(** ** A list and a write that cross *)

Definition create_by_other (key : string) (obj : T) (d : database) : database :=
  w_db (run_state answers (Create the_store key obj) (still d None [])).

(** The other client creates its object after the list has read the table and
    before it takes its version. *)
Definition crossed_list (key : string) (obj : T) (d : database) : world T :=
  {| w_db := d; w_tx := None; w_streams := [];
     w_script := [calm; {| t_others := create_by_other key obj; t_fault := Fine |}] |}.

Lemma list_crossed key obj list_key opts d l :
  plain_list opts = true →
  run_result answers (GetList the_store list_key opts) (still d None []) = Ok l →
  let d1 := create_by_other key obj d in
  steps_to (GetList the_store list_key opts) (crossed_list key obj d)
    (Ok {| ol_Items := ol_Items l; ol_ResourceVersion := version_string (version_of d1 + 1); ol_Continue := ol_Continue l |})
    (still (bump d1) None []).
Proof.
  unfold plain_list. rewrite !andb_true_iff, !bool_decide_eq_true. intros (((Hrv & Hs) & Hc) & Hl) Hr.
  unfold run_result, GetList, ParseResourceVersion in *. rewrite Hrv in *. cbn [st_repository st_clusterScoped generic_store] in *.
  rewrite bool_decide_true in * by done. cbn [orb] in *.
  change (rp_List (GenericObjectRepository table) Pool) with (repo_List (T:=T) Pool table) in *.
  set (ns := extractKeyNamespace clusterScoped list_key) in *.
  pose proof (run_list tryUpdate validateDeletion (still d None []) table ns eq_refl opts) as Hrun.
  unfold repo_List, list_objects in *. destruct (list_query ns opts) as [q|e] eqn:Hq.
  2: { unfold try_bind in Hr. rewrite (run_bind _ _ _ _ _ _ _ Hrun) in Hr. done. }
  unfold try_bind at 1 in Hr. rewrite (run_bind _ _ _ _ _ _ _ Hrun) in Hr. clear Hrun. cbn [fst snd] in Hr.
  cbn [visible still w_db w_tx] in Hr.
  destruct (sql_select q (table_of table (d_tables d))) as [rows|] eqn:Hsel; [|done].
  cbn [rows_scan rows_err] in Hr. destruct (scan_rows _ _ _ _ (scanned rows) _) as [[[items last] more]|e] eqn:Hscan; [|done].
  eapply steps_bind.
  - unfold try_bind at 1. eapply steps_bind.
    + eapply steps_turn; [reflexivity|]. cbn [effect visible with_script with_db w_tx w_db t_others calm id crossed_list].
      rewrite Hsel. reflexivity.
    + cbv beta iota. cbn [rows_scan rows_err]. fold (scanned rows). rewrite Hscan. apply steps_ret.
  - cbv beta iota in *.
    destruct (steps_version tryUpdate validateDeletion d None []) as [tr' Hv].
    unfold run_result, try_bind in Hr. rewrite (run_bind _ _ _ _ _ _ _ Hv) in Hr. cbn in Hr. injection Hr as <-.
    cbn [ol_Items ol_Continue]. eapply steps_try; [|apply steps_ret].
    apply (steps_before tryUpdate validateDeletion _ (create_by_other key obj) d None []); [by do 3 eexists|].
    apply steps_version.
Qed.

(** An object created while a list is taken can be missed by the list and by
    the watch that follows: the list reads the table, the object is written, the
    list takes its version; the object is not among the items, and a watch from
    the version of the list starts without it, because its version is lower. *)
Theorem creation_missed (key list_key : string) (opts : ListOptions) (d : database) (l : ObjectList T) (obj obj' : T) :
  table_ok (table_of table (d_tables d)) → versions_ok (abs table d) → version_of d + 2 < 2 ^ 63 →
  plain_list opts = true →
  run_result answers (GetList the_store list_key opts) (still d None []) = Ok l →
  run_result answers (Create the_store key obj) (still d None []) = Ok obj' →
  let k := (om_Name (accessor obj'), om_Namespace (accessor obj')) in
  let r := run answers (GetList the_store list_key opts) (crossed_list key obj d) in
  ∃ l', r.1.2 = Ok l' ∧ ol_Items l' = ol_Items l ∧
    a_objects (abs table d) !! k = None ∧ is_Some (a_objects (abs table (w_db r.2)) !! k) ∧
    w_streams (run_state answers (Watch the_store list_key (with_rv (ol_ResourceVersion l') opts)) (still (w_db r.2) None [])) = [[]].
Proof.
  intros Hok Hvs Hmax Hp Hl Hcr k r. pose proof (vo_nonneg _ Hvs) as Hnn. cbn [a_version abs] in Hnn.
  destruct (list_crossed key obj list_key opts d l Hp Hl) as [tr Hrun]. unfold r. rewrite Hrun. cbn [fst snd still w_db].
  destruct (steps_list list_key opts d [] l Hp Hl) as (_ & _ & Hq).
  destruct (create_refines tryUpdate validateDeletion table resource transform clusterScoped key obj d [] Hok)
    as (d1 & [tr1 Hs1] & Ha1 & Hok1).
  assert (create_by_other key obj d = d1) as -> by (unfold create_by_other, run_state; by rewrite Hs1).
  pose proof (spec_versions resource transform clusterScoped tryUpdate validateDeletion (OpCreate key obj) _ Hvs) as Hvs1.
  cbn [spec] in Hvs1. destruct (spec_Create resource transform key obj (abs table d)) as [rc σ1] eqn:Hspec.
  cbn [fst snd] in *. subst σ1. unfold run_result in Hcr. rewrite Hs1 in Hcr. cbn [fst snd] in Hcr. subst rc.
  unfold spec_Create in Hspec. cbv zeta in Hspec. destruct (encode _) as [j|e] eqn:Hj; [|done].
  destruct (a_objects (tick (abs table d)) !! _) eqn:Hk; [done|].
  pose proof (f_equal snd Hspec) as Ha1. apply (f_equal fst) in Hspec. cbn [fst snd] in Hspec, Ha1. injection Hspec as <-.
  assert (version_of d1 = version_of d + 1) as Hv1 by (by apply (f_equal a_version) in Ha1).
  eexists. split_and!; [reflexivity|done|exact Hk| |].
  - change (a_objects (abs table (bump d1))) with (a_objects (abs table d1)). rewrite <- Ha1. cbn.
    unfold k. rewrite lookup_insert_eq. eauto.
  - cbn [ol_ResourceVersion]. unfold version_string. rewrite bool_decide_false by lia.
    destruct (steps_watch_empty list_key opts (bump d1) [] (version_of d1 + 1) Hp Hq ltac:(lia)) as [tr' Hw].
    2: { unfold run_state. by rewrite Hw. }
    apply rows_below; [done|]. intros k' j' Hk'. destruct (vo_bound _ Hvs1 k' j' Hk') as (v & Hv & Hj').
    cbn [a_version abs] in Hv. exists v. split_and!; [lia|lia|lia|done].
Qed.
End watching.

(** ** Examples *)

Lemma sample_versions_ok : versions_ok (abs "images" sample_database).
Proof.
  assert (a_objects (abs "images" sample_database) = list_to_map
    [(("a", "default"), row_object (sample_row 1 (sample_object "a" "default" "u1" 5 ∅)));
     (("b", "default"), row_object (sample_row 2 (sample_object "b" "default" "u2" 6 ∅)));
     (("c", "default"), row_object (sample_row 4 (sample_object "c" "default" "u3" 9 ∅)))]) as Ho by reflexivity.
  split; [| |by vm_compute].
  - intros k j. rewrite Ho. intros Hk%elem_of_list_to_map_2.
    rewrite !elem_of_cons in Hk. destruct Hk as [[= -> ->]|[[= -> ->]|[[= -> ->]|Hk%elem_of_nil]]]; [| | |done].
    + exists 5. split; [vm_compute; split; congruence|reflexivity].
    + exists 6. split; [vm_compute; split; congruence|reflexivity].
    + exists 9. split; [vm_compute; split; congruence|reflexivity].
  - intros k1 k2 j1 j2. rewrite Ho. intros Hk1%elem_of_list_to_map_2 Hk2%elem_of_list_to_map_2.
    rewrite !elem_of_cons in Hk1, Hk2.
    destruct Hk1 as [[= -> ->]|[[= -> ->]|[[= -> ->]|Hk%elem_of_nil]]], Hk2 as [[= -> ->]|[[= -> ->]|[[= -> ->]|Hk'%elem_of_nil]]];
      done || (vm_compute; discriminate).
Qed.

Abbreviation images_store := (@generic_store ObjectMeta _ "images" "images" (λ o, Ok o) false).

(** One client adds a label, the other another one: only one of the two is left. *)
Definition add_label (k : string) (m : ObjectMeta) : result ObjectMeta := Ok (with_Labels (<[k := "true"]> (om_Labels m)) m).

Lemma update_lost_witness :
  a_objects (abs "images" (w_db (run_state (pg (add_label "mine") (λ _, Ok tt))
    (@GuaranteedUpdate _ _ sample_event_json images_store 1 (image_key "a") false (λ _ _, Ok tt))
    (@crossed _ _ _ sample_event_json "images" "images" (λ o, Ok o) false (add_label "theirs") (λ _, Ok tt) (image_key "a") sample_database))))
  !! ("a", "default") =
  Some (row_object (sample_row 1 (sample_object "a" "default" "u1" 11 {[ "mine" := "true" ]}))).
Proof.
  destruct (@update_lost _ _ _ sample_event_json "images" "images" (λ o, Ok o) false (add_label "mine") (add_label "theirs")
    (λ _, Ok tt) (image_key "a") sample_database (sample_object "a" "default" "u1" 5 ∅)
    (sample_object "a" "default" "u1" 5 {[ "mine" := "true" ]}) (sample_object "a" "default" "u1" 5 {[ "theirs" := "true" ]})
    (row_object (sample_row 1 (sample_object "a" "default" "u1" 11 {[ "mine" := "true" ]})))
    (row_object (sample_row 1 (sample_object "a" "default" "u1" 10 {[ "theirs" := "true" ]}))) sample_table_ok) as (_ & _ & Ho);
    [vm_compute; reflexivity..|].
  rewrite Ho. vm_compute. reflexivity.
Defined.

Lemma watch_unfiltered_witness :
  w_streams (run_state (pg (λ o, Ok o) (λ _, Ok tt))
    (_ ← Watch images_store "storage.sbomscanner.kubewarden.io/images/default" (list_opts 0);
     trigger (LocalAction Added (sample_object "x" "kube-system" "u9" 7 ∅))) (still sample_database None [])) =
  [[(Added, sample_object "x" "kube-system" "u9" 7 ∅)]].
Proof.
  exact (watch_unfiltered "images" "images" (λ o, Ok o) false (λ o, Ok o) (λ _, Ok tt)
    "storage.sbomscanner.kubewarden.io/images/default" (list_opts 0) Added (sample_object "x" "kube-system" "u9" 7 ∅)
    sample_database [] eq_refl eq_refl).
Defined.

Definition images_in_default : string := "storage.sbomscanner.kubewarden.io/images/default".

Definition sample_list : ObjectList ObjectMeta := {|
  ol_Items := [sample_object "a" "default" "u1" 5 ∅; sample_object "b" "default" "u2" 6 ∅; sample_object "c" "default" "u3" 9 ∅];
  ol_ResourceVersion := "10"; ol_Continue := "" |}.

Lemma deletion_not_replayed_witness :
  let d1 := w_db (run_state (pg (λ o, Ok o) (λ _, Ok tt)) (GetList images_store images_in_default (list_opts 0)) (still sample_database None [])) in
  let d2 := w_db (run_state (pg (λ o, Ok o) (λ _, Ok tt)) (@Delete _ _ sample_event_json images_store (image_key "b") (λ _ _, Ok tt)) (still d1 None [])) in
  w_streams (run_state (pg (λ o, Ok o) (λ _, Ok tt)) (Watch images_store images_in_default (with_rv "10" (list_opts 0))) (still d2 None [])) = [[]].
Proof.
  exact (proj2 (@deletion_not_replayed _ _ _ sample_event_json "images" "images" (λ o, Ok o) false (λ o, Ok o) (λ _, Ok tt)
    (image_key "b") images_in_default (list_opts 0) (λ _ _, Ok tt) sample_database sample_list (sample_object "b" "default" "u2" 6 ∅)
    sample_table_ok sample_versions_ok ltac:(vm_compute; reflexivity) eq_refl ltac:(vm_compute; reflexivity) ltac:(vm_compute; reflexivity))).
Defined.

Lemma creation_missed_witness :
  let r := run (pg (λ o, Ok o) (λ _, Ok tt)) (GetList images_store images_in_default (list_opts 0))
             (@crossed_list _ _ _ sample_event_json "images" "images" (λ o, Ok o) false (λ o, Ok o) (λ _, Ok tt)
                (image_key "d") (new_meta "d" "" "default" ∅ ∅) sample_database) in
  ∃ l', r.1.2 = Ok l' ∧ ol_Items l' = ol_Items sample_list ∧
    is_Some (a_objects (abs "images" (w_db r.2)) !! ("d", "default")) ∧
    w_streams (run_state (pg (λ o, Ok o) (λ _, Ok tt)) (Watch images_store images_in_default (with_rv (ol_ResourceVersion l') (list_opts 0)))
      (still (w_db r.2) None [])) = [[]].
Proof.
  destruct (@creation_missed _ _ _ sample_event_json "images" "images" (λ o, Ok o) false (λ o, Ok o) (λ _, Ok tt)
    (image_key "d") images_in_default (list_opts 0) sample_database sample_list (new_meta "d" "" "default" ∅ ∅)
    (sample_object "d" "default" "" 10 ∅) sample_table_ok sample_versions_ok ltac:(vm_compute; reflexivity) eq_refl
    ltac:(vm_compute; reflexivity) ltac:(vm_compute; reflexivity)) as (l' & Hr & Hi & _ & Hs & Hw).
  exists l'. split; [exact Hr|]. split; [exact Hi|]. split; [exact Hs|exact Hw].
Defined.
