(* ===== verification/Watcher.v ===== *)
(** * Watch events

    [src/internal/storage/watcher.go]: how a replica of the storage turns the
    message of a write back into an event for its local watchers.  The fields
    that were stripped from the message are read again from the store. *)

From stdpp Require Import prelude gmap strings list sorting.
From Stdlib Require Import ZArith Lia Ascii.
From S2P Require Import Prelude Prog Meta GoPath Strconv Sql Effects StorageEffects StorageSample Repository Store StoreEvents Database Pagination StoreRefinement.
Open Scope Z_scope.

Section watcher.
Context {T : Type} `{!Resource T, !JSON event} (s : store T).

Definition rehydrate (payloadObj : T) : db_prog T (result T) :=
  let key := object_key (st_clusterScoped s) (st_resource s) (accessor payloadObj) in
  r ← Get s key false;
  match r with
  | Err e =>
      if negb (storage_IsNotFound e)
      then Ret (Err (errorf "failed to get object from store while handling message" e))
      else Ret (Ok payloadObj)
  | Ok fetched =>
      if negb (bool_decide (om_UID (accessor fetched) = om_UID (accessor payloadObj))) then Ret (Ok payloadObj)
      else Ret (Ok fetched)
  end.

Definition broadcast_locally (type : EventType) (obj : T) : db_prog T (option EventType * result unit) :=
  r ← trigger (LocalAction type obj);
  match r with
  | Err e => Ret (Some type, Err (errorf "failed to broadcast action while handling message" e))
  | Ok _ => Ret (Some type, Ok tt)
  end.

(** The event type, as soon as it is known, and the error. *)
Definition processMessage (data : string) : db_prog T (option EventType * result unit) :=
  match Unmarshal data with
  | Err e => Ret (None, Err (errorf "failed to unmarshal payload" e))
  | Ok payload =>
      let type := ev_EventType payload in
      match decode (ev_Object payload) with
      | Err e => Ret (Some type, Err (errorf "failed to decode object" e))
      | Ok obj =>
          if negb (bool_decide (type = Deleted)) then
            r ← rehydrate obj;
            match r with
            | Err e => Ret (Some type, Err e)
            | Ok rehydrated => broadcast_locally type rehydrated
            end
          else broadcast_locally type obj
      end
  end.
End watcher.

(** ** Keys *)

(** A name of Kubernetes has no slash, and is not empty. *)
Definition segment (s : string) : bool := no_byte "/"%char s && bool_decide (s ≠ "").

Lemma key_parts_join parts :
  parts ≠ [] → Forall (λ p, segment p = true) parts → key_parts (join "/" parts) = parts.
Proof.
  intros Hne Hp. unfold key_parts.
  assert (TrimPrefix (join "/" parts) "/" = join "/" parts) as ->.
  { destruct parts as [|p ps]; [done|]. inversion Hp as [|? ? Hseg]; subst.
    unfold segment in Hseg. apply andb_true_iff in Hseg as [Hno Hnn]. apply bool_decide_eq_true in Hnn.
    destruct p as [|c p]; [done|]. unfold TrimPrefix.
    assert (∃ rest, join "/" (String c p :: ps) = String c rest) as [rest ->] by (destruct ps; eexists; reflexivity).
    cbn [no_byte] in Hno. apply andb_true_iff in Hno as [Hc _]. apply negb_true_iff, bool_decide_eq_false in Hc.
    cbn [CutPrefix]. rewrite bool_decide_false by congruence. done. }
  apply (split_byte_join "/"%char); [done|]. eapply Forall_impl; [exact Hp|].
  intros p [? _]%andb_true_iff. done.
Qed.

(** [C34] Keys round-trip: the name and the namespace the store extracts from the
    key that the watcher makes of an object are those of the object. *)
Theorem key_roundtrip (clusterScoped : bool) (resource : string) (m : ObjectMeta) :
  segment resource = true → segment (om_Name m) = true →
  (clusterScoped = false → segment (om_Namespace m) = true) →
  extractKeyNameAndNamespace clusterScoped (object_key clusterScoped resource m) =
    (om_Name m, if clusterScoped then "" else om_Namespace m).
Proof.
  intros Hr Hn Hns. unfold extractKeyNameAndNamespace, object_key. destruct clusterScoped.
  - change (GroupName +:+ "/" +:+ resource +:+ "/" +:+ om_Name m) with (join "/" [GroupName; resource; om_Name m]).
    rewrite key_parts_join; [done|done|]. by repeat constructor.
  - specialize (Hns eq_refl).
    change (GroupName +:+ "/" +:+ resource +:+ "/" +:+ om_Namespace m +:+ "/" +:+ om_Name m)
      with (join "/" [GroupName; resource; om_Namespace m; om_Name m]).
    rewrite key_parts_join; [done|done|]. by repeat constructor.
Qed.

Lemma key_roundtrip_witness :
  extractKeyNameAndNamespace false (object_key false "images" (new_meta "a" "" "default" ∅ ∅)) = ("a", "default").
Proof. apply (key_roundtrip false "images" (new_meta "a" "" "default" ∅ ∅)); done. Defined.

(** ** From a write to the watchers *)

Section delivery.
Context {T : Type} `{!Resource T, !Postgres, !JSON event}.
Context (tryUpdate : T → result T) (validateDeletion : T → result unit).
Context (table resource : string) (transform : T → result T) (clusterScoped : bool).
Abbreviation answers := (pg tryUpdate validateDeletion).
Abbreviation the_store := (generic_store table resource transform clusterScoped).
Abbreviation steps_to := (steps tryUpdate validateDeletion).

(** What is known of the encoding of messages, and of the transform of a
    resource: it strips payload, not identity. *)
Context (event_roundtrip : ∀ (e : event) data, Marshal e = Ok data → Unmarshal data = Ok e).
Context (transform_identity : ∀ o o', transform o = Ok o' → identity_of (accessor o') = identity_of (accessor o)).

(** The key under which an object with valid names is stored. *)
Definition named (m : ObjectMeta) : bool :=
  segment resource && segment (om_Name m) &&
  (if clusterScoped then bool_decide (om_Namespace m = "") else segment (om_Namespace m)).

Lemma named_key m :
  named m = true → extractKeyNameAndNamespace clusterScoped (object_key clusterScoped resource m) = (om_Name m, om_Namespace m).
Proof.
  unfold named. intros [[Hr Hn]%andb_true_iff Hns]%andb_true_iff. rewrite key_roundtrip; [|done|done|].
  - destruct clusterScoped; [|done]. apply bool_decide_eq_true in Hns. by rewrite Hns.
  - intros ->. done.
Qed.

Lemma steps_rehydrate payload stored j d ss :
  named (accessor payload) = true →
  objects (table_of table (d_tables d)) !! (om_Name (accessor payload), om_Namespace (accessor payload)) = Some j →
  decode j = Ok stored → om_UID (accessor stored) = om_UID (accessor payload) →
  steps_to (rehydrate the_store payload) (still d None ss) (Ok stored) (still d None ss).
Proof.
  intros Hn Hj Hd Hu. unfold rehydrate. cbn [st_clusterScoped st_resource generic_store].
  eapply steps_bind; [apply get_refines|]. unfold spec_Get, spec_lookup. rewrite named_key by done. cbn [fst].
  rewrite bool_decide_false.
  2: { unfold named, segment in Hn. rewrite !andb_true_iff in Hn. destruct Hn as [[_ [_ Hne]] _].
       by apply bool_decide_eq_true in Hne. }
  cbn [a_objects abs]. rewrite Hj. unfold unmarshal_object. rewrite Hd. cbn [wrap_err].
  rewrite Hu, bool_decide_true by done. apply steps_ret.
Qed.

(** A message about an object that is stored gives the stored object to every
    local watcher. *)
Lemma process_delivers type obj stored j data d ss :
  type ≠ Deleted → named (accessor obj) = true →
  messages resource transform type obj = [("watch." +:+ resource, data)] →
  objects (table_of table (d_tables d)) !! (om_Name (accessor obj), om_Namespace (accessor obj)) = Some j →
  decode j = Ok stored → om_UID (accessor stored) = om_UID (accessor obj) →
  steps_to (processMessage the_store data) (still d None ss) (Some type, Ok tt)
    (still d None ((λ st, st ++ [(type, stored)]) <$> ss)).
Proof using event_roundtrip transform_identity.
  intros Ht Hn Hm Hj Hd Hu. unfold messages in Hm.
  destruct (transform obj) as [stripped|] eqn:Htr; [|done]. destruct (encode stripped) as [bytes|] eqn:He; [|done].
  destruct (Marshal _) as [data'|] eqn:Hma; [|done]. injection Hm as ->.
  apply transform_identity in Htr. destruct (decode_encode _ _ He) as (payload & Hp & Hid & _).
  rewrite Htr in Hid. injection Hid as Hi1 Hi2 Hi3 Hi4.
  unfold processMessage. rewrite (event_roundtrip _ _ Hma). cbn [ev_EventType ev_Object]. rewrite Hp.
  rewrite bool_decide_false by done. cbn [negb]. eapply steps_bind.
  - apply (steps_rehydrate payload stored j); [|by rewrite Hi1, Hi2|done|congruence].
    unfold named in *. by rewrite Hi1, Hi2.
  - cbv beta iota. unfold broadcast_locally. eapply steps_bind; [by eapply steps_call|]. apply steps_ret.
Qed.

(** A created object reaches the watchers whole: if [Create] returns an
    object, the message it sent makes a replica give each of its watchers an
    [Added] event with the object as it is stored, the fields that the message
    left out included; a message is sent unless the object cannot be encoded. *)
Theorem created_object_delivered (key : string) (obj obj' stripped : T) (bytes : json) (data : string)
    (d : database) (ss : list (list (EventType * T))) :
  table_ok (table_of table (d_tables d)) →
  run_result answers (Create the_store key obj) (still d None ss) = Ok obj' →
  named (accessor obj') = true →
  transform obj' = Ok stripped → encode stripped = Ok bytes →
  Marshal {| ev_EventType := Added; ev_Object := bytes |} = Ok data →
  let w := run_state answers (Create the_store key obj) (still d None ss) in
  d_sent (w_db w) = d_sent d ++ [("watch." +:+ resource, data)] ∧
  ∃ j stored, encode obj' = Ok j ∧ decode j = Ok stored ∧
    run_result answers (processMessage the_store data) w = (Some Added, Ok tt) ∧
    w_streams (run_state answers (processMessage the_store data) w) = (λ st, st ++ [(Added, stored)]) <$> ss.
Proof using event_roundtrip transform_identity.
  intros Hok Hr Hn Htr He Hma w.
  destruct (create_refines tryUpdate validateDeletion table resource transform clusterScoped key obj d ss Hok)
    as (d' & [tr Hs] & Ha & _).
  unfold run_result in Hr. unfold w, run_state. rewrite Hs in *. cbn [fst snd] in *.
  unfold spec_Create in Hr, Ha. cbv zeta in Hr, Ha. cbn [tick a_version a_objects abs set_objects] in Hr, Ha.
  destruct (encode (UpdateObject obj (version_of d + 1))) as [j|] eqn:Hj; [|done].
  destruct (objects _ !! _) as [j'|] eqn:Hk; [done|]. cbn [fst snd] in *. injection Hr as <-.
  assert (messages resource transform Added (UpdateObject obj (version_of d + 1)) = [("watch." +:+ resource, data)]) as Hm.
  { unfold messages. by rewrite Htr, He, Hma. }
  unfold set_objects in Ha. cbn [a_sent a_version tick abs] in Ha. rewrite Hm in Ha. split; [by apply (f_equal a_sent) in Ha|].
  destruct (decode_encode _ _ Hj) as (stored & Hst & Hid & _). exists j, stored. split_and!; [done|done|..].
  all: destruct (process_delivers Added (UpdateObject obj (version_of d + 1)) stored j data d' ss) as [tr' Hp];
    [done|done|done| |done| |].
  all: try (apply (f_equal id_UID) in Hid; exact Hid).
  all: try (apply (f_equal a_objects) in Ha; cbn [a_objects abs] in Ha; rewrite Ha, lookup_insert_eq; done).
  - unfold run_result. rewrite Hp. done.
  - rewrite Hp. done.
Qed.
End delivery.

Lemma created_object_delivered_witness :
  let answers := pg (λ o, Ok o) (λ _, Ok tt) in
  let st := generic_store "images" "images" (λ o, Ok o) false in
  let obj' := sample_object "d" "default" "" 10 ∅ in
  let w := run_state answers (@Create _ _ sample_event_json st (image_key "d") (new_meta "d" "" "default" ∅ ∅))
             (still sample_database None [[]]) in
  ∃ data, d_sent (w_db w) = [("watch.images", data)] ∧
    w_streams (run_state answers (@processMessage _ _ sample_event_json st data) w) = [[(Added, obj')]].
Proof.
  cbv zeta.
  set (bytes := JObject [("metadata", JObject (sample_metadata (sample_object "d" "default" "" 10 ∅)))]).
  exists (number_text (event_tag Added, bytes)).
  destruct (@created_object_delivered _ _ _ sample_event_json (λ o, Ok o) (λ _, Ok tt) "images" "images" (λ o, Ok o) false
    sample_event_roundtrip ltac:(by intros ? ? [= ->]) (image_key "d") (new_meta "d" "" "default" ∅ ∅)
    (sample_object "d" "default" "" 10 ∅) (sample_object "d" "default" "" 10 ∅) bytes (number_text (event_tag Added, bytes))
    sample_database [[]] sample_table_ok) as (Hsent & j & stored & Hj & Hd & _ & Hss);
    [vm_compute; reflexivity|vm_compute; reflexivity|reflexivity|reflexivity|reflexivity|].
  split; [exact Hsent|]. rewrite Hss. injection Hj as <-. vm_compute in Hd. injection Hd as <-. vm_compute. reflexivity.
Defined.
