(* ===== verification/WorkloadReport.v ===== *)
(** * Workload scan reports

    [src/api/storage/v1alpha1/workloadscanreport_types.go] and
    [src/internal/storage/repository/workloadscanreport_repository.go]: a report
    lists the containers of a workload; when it is read, the scan status, the
    vulnerability reports and the summary of each container are computed from
    the tables of images and of vulnerability reports. *)

From stdpp Require Import prelude gmap strings list.
From Stdlib Require Import ZArith Lia.
From S2P Require Import Prelude Prog Meta StorageTypes Strconv Sql Effects StorageEffects Repository StoreEvents.
Open Scope Z_scope.

(** ** Status and summary *)

Definition computeScanStatus (imageCount vulnReportCount : Z) : ScanStatus :=
  if bool_decide (imageCount = 0) then ScanStatusWaitingForScan
  else if bool_decide (vulnReportCount < imageCount) then ScanStatusScanInProgress
  else ScanStatusScanComplete.

(** [DeepCopy] of the report is the same value. *)
Definition buildContainerResult (container : ContainerRef) (vulnerabilityReports : list VulnerabilityReport) : ContainerResult := {|
  ct_Name := cr_Name container;
  ct_VulnerabilityReports :=
    (λ vr, {| wv_Name := om_Name (vr_Meta vr); wv_Namespace := om_Namespace (vr_Meta vr);
              wv_ImageMetadata := vr_ImageMetadata vr; wv_Report := vr_Report vr |}) <$> vulnerabilityReports
|}.

(** [vulnerabilityKey]: the CVE, whether it is suppressed, the package and its version. *)
Definition vulnerabilityKey (vuln : Vulnerability) : string * bool * string * string :=
  (v_CVE vuln, v_Suppressed vuln, v_PackageName vuln, v_InstalledVersion vuln).

Definition seen_keys := gset (string * bool * string * string).

Definition summarize_vulnerability (acc : seen_keys * Summary) (vuln : Vulnerability) : seen_keys * Summary :=
  let '(seen, summary) := acc in
  if bool_decide (vulnerabilityKey vuln ∈ seen) then (seen, summary)
  else ({[vulnerabilityKey vuln]} ∪ seen, Summary_Add summary vuln).

Definition summarize_container (summary : Summary) (container : ContainerResult) : Summary :=
  (fold_left (λ acc vulnReport,
     fold_left (λ acc result, fold_left summarize_vulnerability (r_Vulnerabilities result) acc)
       (rep_Results (wv_Report vulnReport)) acc)
    (ct_VulnerabilityReports container) (∅ : seen_keys, summary)).2.

Definition calculateSummary (report : WorkloadScanReport) : WorkloadScanReport := {|
  ws_Meta := ws_Meta report; ws_Spec_Containers := ws_Spec_Containers report;
  ws_Status_ContainerStatuses := ws_Status_ContainerStatuses report;
  ws_Summary := fold_left summarize_container (ws_Containers report) empty_Summary;
  ws_Containers := ws_Containers report
|}.

(** ** Queries *)

Definition image_field (f : string) : expr := ArrowText (Arrow (Col C_object) "imageMetadata") f.

Definition ref_columns : list expr :=
  [Col C_namespace; image_field "registry"; image_field "repository"; image_field "tag"].

Definition buildImageRefConditions (containers : list ContainerRef) : list expr :=
  [InRows ref_columns
     ((λ c, let ref := cr_ImageRef c in [ir_Namespace ref; ir_Registry ref; ir_Repository ref; ir_Tag ref]) <$> containers)].

Definition ref_of_report (vulnReport : VulnerabilityReport) : ImageRef := {|
  ir_Registry := im_Registry (vr_ImageMetadata vulnReport);
  ir_Namespace := om_Namespace (vr_Meta vulnReport);
  ir_Repository := im_Repository (vr_ImageMetadata vulnReport);
  ir_Tag := im_Tag (vr_ImageMetadata vulnReport)
|}.

Section repository.
Context `{!Resource WorkloadScanReport, !Resource VulnerabilityReport}.
Context (table vulnerabilityReportsTable imagesTable : string).
Abbreviation wprog := (db_prog WorkloadScanReport).

(** The select list of the query is [registry, repository, tag, namespace, COUNT]. *)
Definition count_columns : list expr :=
  [image_field "registry"; image_field "repository"; image_field "tag"; Col C_namespace].

Fixpoint scan_counts (acc : gmap ImageRef Z) (rows : list (result (list string * Z))) (err : option error)
  : result (gmap ImageRef Z) :=
  match rows with
  | [] => match err with Some e => Err (errorf "failed to iterate images" e) | None => Ok acc end
  | Err e :: _ => Err (errorf "failed to scan image row" e)
  | Ok ([registry; repository; tag; namespace], count) :: rows' =>
      let key := {| ir_Registry := registry; ir_Namespace := namespace; ir_Repository := repository; ir_Tag := tag |} in
      scan_counts (<[key := count]> acc) rows' err
  | Ok _ :: _ => Err (errorf "failed to scan image row" (errors_New "number of field descriptions must equal number of destinations"))
  end.

Definition fetchImageCounts (db : Querier) (containers : list ContainerRef) : wprog (result (gmap ImageRef Z)) :=
  match containers with
  | [] => Ret (Ok ∅)
  | _ =>
      rows ←? trigger (QueryGroups db imagesTable (buildImageRefConditions containers) count_columns)
        wrap errorf "failed to query images";
      Ret (scan_counts ∅ (rows_scan rows) (rows_err rows))
  end.

(** [result[key] = append(result[key], vulnReport)]. *)
Definition append_report (acc : gmap ImageRef (list VulnerabilityReport)) (vulnReport : VulnerabilityReport)
  : gmap ImageRef (list VulnerabilityReport) :=
  let key := ref_of_report vulnReport in <[key := default [] (acc !! key) ++ [vulnReport]]> acc.

Fixpoint scan_reports (acc : gmap ImageRef (list VulnerabilityReport)) (rows : list (result (Z * json)))
    (err : option error) : result (gmap ImageRef (list VulnerabilityReport)) :=
  match rows with
  | [] => match err with Some e => Err (errorf "failed to iterate vulnerability reports" e) | None => Ok acc end
  | Err e :: _ => Err (errorf "failed to scan vulnerability report" e)
  | Ok (_, bytes) :: rows' =>
      match decode bytes with
      | Err e => Err (errorf "failed to unmarshal vulnerability report" e)
      | Ok vulnReport => scan_reports (append_report acc vulnReport) rows' err
      end
  end.

Definition unordered (conds : list expr) : select :=
  {| sel_where := conds; sel_order_by_id := false; sel_limit := None |}.

Definition fetchVulnerabilityReports (db : Querier) (containers : list ContainerRef)
  : wprog (result (gmap ImageRef (list VulnerabilityReport))) :=
  match containers with
  | [] => Ret (Ok ∅)
  | _ =>
      rows ←? trigger (Query db vulnerabilityReportsTable (unordered (buildImageRefConditions containers)))
        wrap errorf "failed to query vulnerability reports";
      Ret (scan_reports ∅ (rows_scan rows) (rows_err rows))
  end.

(** ** Populating reports *)

(** The containers of the reports, one for each image reference. *)
Definition collect_container (acc : list ContainerRef * gset ImageRef) (container : ContainerRef)
  : list ContainerRef * gset ImageRef :=
  let '(containers, seen) := acc in
  if bool_decide (cr_ImageRef container ∈ seen) then (containers, seen)
  else (containers ++ [container], {[cr_ImageRef container]} ∪ seen).
Definition collect_containers (reports : list WorkloadScanReport) : list ContainerRef :=
  (fold_left (λ acc report, fold_left collect_container (ws_Spec_Containers report) acc) reports ([], ∅)).1.

Definition populate_report (imageCounts : gmap ImageRef Z) (vulnReports : gmap ImageRef (list VulnerabilityReport))
    (report : WorkloadScanReport) : WorkloadScanReport :=
  match ws_Spec_Containers report with
  | [] => report
  | containers =>
      calculateSummary {|
        ws_Meta := ws_Meta report;
        ws_Spec_Containers := containers;
        ws_Status_ContainerStatuses :=
          (λ c, let matches := default [] (vulnReports !! cr_ImageRef c) in
                {| cs_Name := cr_Name c;
                   cs_ScanStatus := computeScanStatus (default 0 (imageCounts !! cr_ImageRef c)) (Z.of_nat (length matches)) |})
          <$> containers;
        ws_Summary := ws_Summary report;
        ws_Containers :=
          (λ c, buildContainerResult c (default [] (vulnReports !! cr_ImageRef c))) <$> containers
      |}
  end.

Definition populateContainerResults (db : Querier) (reports : list WorkloadScanReport)
  : wprog (result (list WorkloadScanReport)) :=
  match collect_containers reports with
  | [] => Ret (Ok reports)
  | containers =>
      imageCounts ←? fetchImageCounts db containers wrap errorf "failed to fetch image counts";
      vulnReports ←? fetchVulnerabilityReports db containers wrap errorf "failed to fetch vulnerability reports";
      Ret (Ok (populate_report imageCounts vulnReports <$> reports))
  end.

(** ** The repository *)

Definition wsr_Get (db : Querier) (name namespace : string) : wprog (result WorkloadScanReport) :=
  report ←? repo_Get db table name namespace wrap id;
  reports ←? populateContainerResults db [report] wrap id;
  match reports with report :: _ => Ret (Ok report) | [] => Ret (Ok report) end.

Definition wsr_List (db : Querier) (namespace : string) (opts : ListOptions)
  : wprog (result (list WorkloadScanReport * string)) :=
  l ←? repo_List db table namespace opts wrap id;
  let '(objects, continueToken) := l in
  reports ←? populateContainerResults db objects wrap id;
  Ret (Ok (reports, continueToken)).

Definition WorkloadScanReportRepository : Repository WorkloadScanReport := {|
  rp_Create := repo_Create table;
  rp_Delete := repo_Delete table;
  rp_Get := wsr_Get;
  rp_List := wsr_List;
  rp_Update := repo_Update table;
  rp_Count := λ db, repo_Count db table
|}.

#[export] Instance workload_statements : SendsStatements WorkloadScanReportRepository.
Proof.
  destruct (generic_statements (T:=WorkloadScanReport) table) as [Hc Hd Hg Hl Hu Hn].
  cbn [rp_Create rp_Delete rp_Get rp_List rp_Update rp_Count GenericObjectRepository] in *.
  assert (∀ db reports, calls statement (populateContainerResults db reports)) as Hp.
  { intros db reports. unfold populateContainerResults, fetchImageCounts, fetchVulnerabilityReports.
    repeat first [calls_step | exact I]. }
  split; cbn [rp_Create rp_Delete rp_Get rp_List rp_Update rp_Count WorkloadScanReportRepository]; try assumption.
  - intros db n ns. unfold wsr_Get. repeat first [calls_step | apply Hg | apply Hp].
  - intros db ns opts. unfold wsr_List. repeat first [calls_step | apply Hl | apply Hp].
Qed.

(** ** Finding the reports of an image *)

Definition ref_json (ref : ImageRef) : json :=
  JArray [JObject [("imageRef", JObject [("registry", JString (ir_Registry ref)); ("namespace", JString (ir_Namespace ref));
                                         ("repository", JString (ir_Repository ref)); ("tag", JString (ir_Tag ref))])]].

Fixpoint scan_found (reports : list WorkloadScanReport) (rows : list (result (Z * json))) (err : option error)
  : result (list WorkloadScanReport) :=
  match rows with
  | [] => match err with Some e => Err (errorf "error iterating rows" e) | None => Ok reports end
  | Err e :: _ => Err (errorf "failed to scan row" e)
  | Ok (_, objectBytes) :: rows' =>
      match decode objectBytes with
      | Err e => Err (errorf "failed to unmarshal WorkloadScanReport" e)
      | Ok report => scan_found (reports ++ [report]) rows' err
      end
  end.

Definition FindByImageRef (db : Querier) (ref : ImageRef) : wprog (result (list WorkloadScanReport)) :=
  rows ←? trigger (Query db table (unordered [Contains (Arrow (Arrow (Col C_object) "spec") "containers") (ref_json ref)]))
    wrap errorf "failed to execute query";
  Ret (scan_found [] (rows_scan rows) (rows_err rows)).

End repository.
