(* ===== verification/WorkloadPopulate.v ===== *)
(** * What a workload scan report shows

    The queries and maps of
    [src/internal/storage/repository/workloadscanreport_repository.go] against a
    direct reading of the tables, and the summary against the distinct
    vulnerabilities of each container. *)

From stdpp Require Import prelude gmap strings list.
From Stdlib Require Import ZArith Lia.
From S2P Require Import Prelude Prog Meta StorageTypes Strconv Sql Effects StorageEffects StorageSample Repository Database Pagination StoreRefinement WorkloadReport.
Open Scope Z_scope.

(** ** The summary *)

Definition summary_plus (a b : Summary) : Summary := {|
  s_Critical := s_Critical a + s_Critical b; s_High := s_High a + s_High b; s_Medium := s_Medium a + s_Medium b;
  s_Low := s_Low a + s_Low b; s_Unknown := s_Unknown a + s_Unknown b; s_Suppressed := s_Suppressed a + s_Suppressed b |}.

Definition container_vulnerabilities (c : ContainerResult) : list Vulnerability :=
  concat ((λ vr, all_vulnerabilities (rep_Results (wv_Report vr))) <$> ct_VulnerabilityReports c).

(** The first of the vulnerabilities that agree on the CVE, the suppression, the
    package and the installed version. *)
Definition distinct : seen_keys → list Vulnerability → list Vulnerability :=
  firsts (λ v, (v_CVE v, v_Suppressed v, v_PackageName v, v_InstalledVersion v)).

Lemma Summary_Add_plus a b v : Summary_Add (summary_plus a b) v = summary_plus a (Summary_Add b v).
Proof. unfold Summary_Add, summary_plus. repeat case_match; cbn; f_equal; lia. Qed.

Lemma summarize_distinct vs seen a b :
  (fold_left summarize_vulnerability vs (seen, summary_plus a b)).2 =
    summary_plus a (fold_left Summary_Add (distinct seen vs) b).
Proof.
  revert seen b. induction vs as [|v vs IH]; intros seen b; [done|]. unfold distinct. cbn [fold_left firsts summarize_vulnerability].
  case_bool_decide; case_bool_decide; [apply IH|done|done|]. cbn [fold_left]. rewrite Summary_Add_plus. apply IH.
Qed.

Lemma fold_concat {A B} (f : A → B → A) (ls : list (list B)) a :
  fold_left (λ a l, fold_left f l a) ls a = fold_left f (concat ls) a.
Proof. revert a. induction ls as [|l ls IH]; intros a; [done|]. cbn. by rewrite IH, fold_left_app. Qed.

Lemma fold_map {A B C} (f : A → B → A) (g : C → B) l a : fold_left (λ a c, f a (g c)) l a = fold_left f (g <$> l) a.
Proof. revert a. induction l as [|c l IH]; intros a; [done|]. apply IH. Qed.

Lemma summarize_container_fold s c :
  summarize_container s c = (fold_left summarize_vulnerability (container_vulnerabilities c) (∅, s)).2.
Proof.
  unfold summarize_container, container_vulnerabilities, all_vulnerabilities. f_equal.
  rewrite <- fold_concat, <- fold_map. generalize (∅ : seen_keys, s).
  induction (ct_VulnerabilityReports c) as [|vr vrs IH]; intros acc; [done|]. cbn. rewrite IH. f_equal.
  by rewrite <- fold_concat, <- fold_map.
Qed.

(** The sum of the summaries of some lists of vulnerabilities. *)
Definition total_summary (vss : list (list Vulnerability)) : Summary :=
  fold_left (λ s vs, summary_plus s (summary_of vs)) vss empty_Summary.

Lemma workload_summary_total (report : WorkloadScanReport) :
  ws_Summary (calculateSummary report) =
    total_summary (distinct ∅ ∘ container_vulnerabilities <$> ws_Containers report).
Proof.
  unfold calculateSummary, total_summary. cbn [ws_Summary]. rewrite <- fold_map.
  generalize empty_Summary at 1 2. induction (ws_Containers report) as [|c cs IH]; intros s; [done|]. cbn [fold_left].
  rewrite IH. f_equal. rewrite summarize_container_fold.
  assert (s = summary_plus s (summary_of [])) as Hs by 
    (destruct s; change (summary_of []) with empty_Summary; unfold summary_plus; cbn -[Z.add]; f_equal; lia).
  rewrite Hs at 1. rewrite summarize_distinct, fold_Summary_Add. done.
Qed.

(** The summary of a workload scan report is, counter by counter, the sum
    over the containers of the number of distinct vulnerabilities of each
    container, where two findings are the same when they agree on the CVE, the
    suppression, the package and the installed version. *)
Theorem workload_summary_correct (report : WorkloadScanReport) :
  ws_Summary (calculateSummary report) =
    total_summary (distinct ∅ ∘ container_vulnerabilities <$> ws_Containers report).
Proof. apply workload_summary_total. Qed.

(** ** Reading the tables *)

Section population.
Context `{!Postgres, !Resource WorkloadScanReport, !Resource VulnerabilityReport}.

(** The image reference of a row: its namespace, and the registry, the
    repository and the tag of the image metadata of its object. *)
Definition row_text (r : row) (f : string) : option string :=
  match member_of (member (row_object r) "imageMetadata") f with Some (JString s) => Some s | _ => None end.
Definition row_ref (r : row) : option ImageRef :=
  registry ← row_text r "registry"; repository ← row_text r "repository"; tag ← row_text r "tag";
  Some {| ir_Registry := registry; ir_Namespace := row_namespace r; ir_Repository := repository; ir_Tag := tag |}.

Definition ref_texts (ref : ImageRef) : list string :=
  [ir_Registry ref; ir_Repository ref; ir_Tag ref; ir_Namespace ref].

Lemma image_field_text r f s : row_text r f = Some s → text_of (eval r (image_field f)) = Some s.
Proof.
  unfold row_text, member_of, image_field. cbn [eval column_value mbind option_bind arrow].
  destruct (member (row_object r) "imageMetadata") as [j|]; [|done].
  cbn [mbind option_bind arrow]. destruct (member j f) as [[]|]; intros [= <-]. reflexivity.
Qed.

Lemma row_ref_texts r ref :
  row_ref r = Some ref → texts r count_columns = Some (ref_texts ref) ∧
    texts r ref_columns = Some [ir_Namespace ref; ir_Registry ref; ir_Repository ref; ir_Tag ref].
Proof.
  unfold row_ref, ref_columns, count_columns. cbn [texts].
  destruct (row_text r "registry") as [reg|] eqn:H1; [|done]. destruct (row_text r "repository") as [repo|] eqn:H2; [|done].
  destruct (row_text r "tag") as [tag|] eqn:H3; [|done]. cbn [mbind option_bind]. intros [= <-].
  by rewrite !(image_field_text _ _ _ H1), !(image_field_text _ _ _ H2), !(image_field_text _ _ _ H3).
Qed.

Lemma text_of_eval r e s : text_of (eval r e) = Some s → eval r e = Some (VText s).
Proof. unfold text_of. by destruct (eval r e) as [[]|]; intros [= <-]. Qed.

Lemma rows_equal_texts ts ss :
  length ts = length ss → rows_equal (VText <$> ts) ss = Some (VBool (bool_decide (ts = ss))).
Proof.
  revert ss. induction ts as [|t ts IH]; intros [|s ss] Hlen; try done. cbn in Hlen |- *. unfold text_eq.
  case_bool_decide as Hts.
  - subst. rewrite IH by lia. do 2 f_equal. apply bool_decide_ext. naive_solver.
  - rewrite bool_decide_false; [done|]. congruence.
Qed.

Lemma in_rows_texts ts rows :
  Forall (λ ss, length ts = length ss) rows → in_rows (VText <$> ts) rows = Some (VBool (bool_decide (ts ∈ rows))).
Proof.
  induction 1 as [|ss rows Hlen _ IH]; [done|]. cbn [in_rows]. rewrite rows_equal_texts, IH by done.
  destruct (decide (ts = ss)) as [->|Hne].
  - rewrite bool_decide_true by done. rewrite (bool_decide_true (ss ∈ ss :: rows)) by by left. done.
  - rewrite bool_decide_false by done. do 2 f_equal. apply bool_decide_ext. rewrite elem_of_cons. tauto.
Qed.

Lemma selected_ref containers r ref :
  row_ref r = Some ref →
  selected (buildImageRefConditions containers) r = Some (bool_decide (ref ∈ (cr_ImageRef <$> containers))).
Proof.
  intros Hr. destruct (row_ref_texts r ref Hr) as [_ Ht]. unfold buildImageRefConditions.
  set (rows := (λ c : ContainerRef, _) <$> containers).
  assert (eval r (InRows ref_columns rows) =
    in_rows (VText <$> [ir_Namespace ref; ir_Registry ref; ir_Repository ref; ir_Tag ref]) rows) as He.
  { unfold ref_columns in *. cbn [texts] in Ht.
    destruct (text_of (eval r (Col C_namespace))) as [ns|] eqn:H1; [|done].
    destruct (text_of (eval r (image_field "registry"))) as [reg|] eqn:H2; [|done].
    destruct (text_of (eval r (image_field "repository"))) as [repo|] eqn:H3; [|done].
    destruct (text_of (eval r (image_field "tag"))) as [tag|] eqn:H4; [|done]. cbn in Ht.
    injection Ht as <- <- <- <-. apply text_of_eval in H1, H2, H3, H4.
    cbn [eval] in *. rewrite H1, H2, H3, H4. reflexivity. }
  cbn [selected]. rewrite He, in_rows_texts.
  2: { apply Forall_forall. intros ss (c & -> & _)%list_elem_of_fmap. done. }
  assert (bool_decide ([ir_Namespace ref; ir_Registry ref; ir_Repository ref; ir_Tag ref] ∈ rows) =
    bool_decide (ref ∈ (cr_ImageRef <$> containers))) as ->; [|by case_bool_decide].
  apply bool_decide_ext. unfold rows. rewrite !list_elem_of_fmap. split; intros (c & Hc & Hin); exists c; (split; [|done]).
  - destruct ref, (cr_ImageRef c). by injection Hc as -> -> -> ->.
  - by subst.
Qed.

(** Every row has a reference: the fields of the image metadata are never left out. *)
Definition complete (rows : list row) : Prop := Forall (λ r, is_Some (row_ref r)) rows.
Definition wanted (containers : list ContainerRef) (r : row) : bool :=
  match row_ref r with Some ref => bool_decide (ref ∈ (cr_ImageRef <$> containers)) | None => false end.
Definition has_ref (ref : ImageRef) (r : row) : bool := bool_decide (row_ref r = Some ref).
Definition ref_count (ref : ImageRef) (rows : list row) : Z := Z.of_nat (length (List.filter (has_ref ref) rows)).

Lemma where_refs containers rows :
  complete rows → where_rows (buildImageRefConditions containers) rows = Some (List.filter (wanted containers) rows).
Proof.
  induction 1 as [|r rows [ref Hr] _ IH]; [done|]. cbn [where_rows List.filter]. unfold wanted at 1.
  rewrite (selected_ref containers r ref Hr), IH, Hr. done.
Qed.

Lemma filter_wanted containers ref rows :
  ref ∈ (cr_ImageRef <$> containers) →
  List.filter (has_ref ref) (List.filter (wanted containers) rows) = List.filter (has_ref ref) rows.
Proof.
  intros Href. induction rows as [|r rows IH]; [done|]. cbn [List.filter]. unfold wanted at 1, has_ref at 2.
  destruct (decide (row_ref r = Some ref)) as [Hr|Hr].
  - rewrite Hr, (bool_decide_true (ref ∈ _)), (bool_decide_true (Some ref = Some ref)) by done. cbn [List.filter].
    unfold has_ref at 1. by rewrite Hr, bool_decide_true, IH.
  - rewrite (bool_decide_false (row_ref r = Some ref)) by done. rewrite <- IH.
    destruct (match row_ref r with Some _ => _ | None => _ end); [|done]. cbn [List.filter]. unfold has_ref at 1.
    by rewrite bool_decide_false.
Qed.

(** ** Counting images *)

Definition group_count (k : list string) (gs : list (list string * Z)) : Z :=
  default 0 (snd <$> List.find (λ g, bool_decide (g.1 = k)) gs).

Lemma find_app {A} (P : A → bool) l1 l2 :
  List.find P (l1 ++ l2) = match List.find P l1 with Some x => Some x | None => List.find P l2 end.
Proof. induction l1 as [|x l1 IH]; [done|]. cbn. by destruct (P x). Qed.

Lemma find_none_key {A} (k : list string) (gs : list (list string * A)) :
  existsb (λ g, bool_decide (g.1 = k)) gs = false → List.find (λ g, bool_decide (g.1 = k)) gs = None.
Proof. induction gs as [|g gs IH]; [done|]. cbn. by destruct (bool_decide (g.1 = k)). Qed.

Lemma add_group_count k k' gs :
  group_count k (add_group k' gs) = group_count k gs + (if decide (k = k') then 1 else 0).
Proof.
  unfold add_group, group_count. destruct (existsb _ gs) eqn:He.
  - induction gs as [|[g n] gs IH]; [done|]. cbn in He |- *.
    destruct (decide (g = k')) as [->|Hg].
    + rewrite (bool_decide_true (k' = k')) by done. cbn. destruct (decide (k = k')) as [->|Hk].
      * by rewrite bool_decide_true.
      * rewrite bool_decide_false by done. rewrite Z.add_0_r. do 2 f_equal.
        clear He IH. induction gs as [|[g' n'] gs IH]; [done|]. cbn. destruct (decide (g' = k')) as [->|Hg'].
        -- rewrite (bool_decide_true (k' = k')) by done. cbn. by rewrite bool_decide_false.
        -- rewrite (bool_decide_false (g' = k')) by done. cbn. by case_bool_decide.
    + rewrite (bool_decide_false (g = k')) in * by done. cbn in *. case_bool_decide as Hk; [|by apply IH].
      subst g. rewrite decide_False by done. cbn. lia.
  - rewrite find_app. cbn. destruct (List.find _ gs) as [g|] eqn:Hf.
    + case_decide as Hk; [|cbn; lia]. subst k'. by rewrite (find_none_key k gs He) in Hf.
    + case_decide as Hk; [subst; by rewrite bool_decide_true|]. by rewrite bool_decide_false.
Qed.

Lemma add_group_keys k gs :
  fst <$> add_group k gs = if existsb (λ g, bool_decide (g.1 = k)) gs then fst <$> gs else (fst <$> gs) ++ [k].
Proof.
  unfold add_group. destruct (existsb _ gs); [|by rewrite fmap_app].
  rewrite <- list_fmap_compose. apply list_fmap_ext. intros i [g n] _. cbn. by case_bool_decide.
Qed.

Lemma groups_count rows gs :
  complete rows → NoDup (fst <$> gs) → Forall (λ g, ∃ ref, g.1 = ref_texts ref) gs →
  ∃ gs', groups count_columns rows gs = Some gs' ∧ NoDup (fst <$> gs') ∧ Forall (λ g, ∃ ref, g.1 = ref_texts ref) gs' ∧
    ∀ ref, group_count (ref_texts ref) gs' = group_count (ref_texts ref) gs + ref_count ref rows.
Proof.
  intros Hc. revert gs. induction Hc as [|r rows [ref Hr] _ IH]; intros gs Hnd Hall.
  { exists gs. split_and!; [done..|]. intros ref. unfold ref_count. cbn. lia. }
  cbn [groups]. destruct (row_ref_texts r ref Hr) as [-> _].
  destruct (IH (add_group (ref_texts ref) gs)) as (gs' & Hg & Hnd' & Hall' & Hcount).
  - rewrite add_group_keys. destruct (existsb _ gs) eqn:He; [done|]. apply NoDup_app. split; [done|].
    split; [|apply NoDup_singleton]. intros k (g & -> & Hg)%list_elem_of_fmap Heq%list_elem_of_singleton.
    assert (existsb (λ g, bool_decide (g.1 = ref_texts ref)) gs = true); [|congruence].
    apply existsb_exists. exists g. split; [by apply list_elem_of_In|]. by apply bool_decide_eq_true.
  - apply Forall_forall. intros g Hg. apply (list_elem_of_fmap_2 fst) in Hg. rewrite add_group_keys in Hg.
    rewrite Forall_forall in Hall.
    assert (g.1 ∈ (fst <$> gs) → ∃ ref, g.1 = ref_texts ref) as Hold.
    { intros (g' & -> & Hg')%list_elem_of_fmap. by apply Hall. }
    destruct (existsb _ gs); [by apply Hold|]. apply elem_of_app in Hg as [Hg|Hg]; [by apply Hold|].
    apply list_elem_of_singleton in Hg. by exists ref.
  - exists gs'. split_and!; [done..|]. intros ref'. rewrite Hcount, add_group_count. unfold ref_count. cbn [List.filter].
    unfold has_ref at 2. rewrite Hr. destruct (decide (ref_texts ref' = ref_texts ref)) as [Heq|Hne].
    + assert (ref' = ref) as -> by (destruct ref, ref'; by injection Heq as -> -> -> ->).
      rewrite bool_decide_true by done. cbn. lia.
    + rewrite bool_decide_false by congruence. lia.
Qed.

Lemma scan_counts_lookup gs acc :
  NoDup (fst <$> gs) → Forall (λ g, ∃ ref, g.1 = ref_texts ref) gs →
  ∃ m, scan_counts acc (Ok <$> gs) None = Ok m ∧
    ∀ ref, default 0 (m !! ref) =
      if existsb (λ g, bool_decide (g.1 = ref_texts ref)) gs then group_count (ref_texts ref) gs else default 0 (acc !! ref).
Proof.
  revert acc. induction gs as [|[k n] gs IH]; intros acc Hnd Hall; [by exists acc|].
  cbn in Hnd. apply NoDup_cons in Hnd as [Hk Hnd]. apply Forall_cons in Hall as [[ref Href] Hall]. cbn in Href. subst k.
  set (key := ref). destruct (IH (<[ref := n]> acc) Hnd Hall) as (m & Hm & Hlook). exists m. split.
  { cbn. destruct ref. exact Hm. }
  intros ref'. rewrite Hlook. unfold group_count. cbn. destruct (decide (ref = ref')) as [<-|Hne].
  - rewrite (bool_decide_true (ref_texts ref = _)) by done. cbn. rewrite lookup_insert_eq.
    destruct (existsb _ gs) eqn:He; [|done]. apply existsb_exists in He as ([k' n'] & Hin & Hb).
    apply bool_decide_eq_true in Hb. cbn in Hb. subst k'. destruct Hk. apply list_elem_of_fmap. exists (ref_texts ref, n').
    split; [done|]. by apply list_elem_of_In.
  - rewrite (bool_decide_false (ref_texts ref = ref_texts ref')).
    2: { intros Heq. destruct ref, ref'. injection Heq as -> -> -> ->. done. }
    cbn. rewrite lookup_insert_ne by done. done.
Qed.

Lemma group_count_none k gs : existsb (λ g, bool_decide (g.1 = k)) gs = false → group_count k gs = 0.
Proof. intros He. unfold group_count. by rewrite find_none_key. Qed.

(** ** Collecting vulnerability reports *)

(** The image a vulnerability report is about: the namespace of the report, and
    the registry, the repository and the tag of its image metadata. *)
Definition image_of (v : VulnerabilityReport) : ImageRef :=
  let m := vr_ImageMetadata v in
  {| ir_Registry := im_Registry m; ir_Namespace := om_Namespace (vr_Meta v);
     ir_Repository := im_Repository m; ir_Tag := im_Tag m |}.

(** A row that holds a vulnerability report, under the image of the report. *)
Definition report_row (r : row) (v : VulnerabilityReport) : Prop :=
  decode (row_object r) = Ok v ∧ row_ref r = Some (image_of v).

Definition reports_of (ref : ImageRef) (vs : list VulnerabilityReport) : list VulnerabilityReport :=
  List.filter (λ v, bool_decide (image_of v = ref)) vs.

Lemma scan_reports_fold rows vs acc :
  Forall2 report_row rows vs → scan_reports acc (scanned rows) None = Ok (fold_left append_report vs acc).
Proof.
  intros Hrv. revert acc. induction Hrv as [|r v rows vs [Hd _] _ IH]; intros acc; [done|]. cbn. rewrite Hd. apply IH.
Qed.

Lemma append_reports_lookup vs acc ref :
  default [] (fold_left append_report vs acc !! ref) = default [] (acc !! ref) ++ reports_of ref vs.
Proof.
  revert acc. induction vs as [|v vs IH]; intros acc; [by rewrite app_nil_r|]. cbn [fold_left reports_of List.filter].
  rewrite IH. unfold append_report. case_bool_decide as Hv.
  - subst ref. rewrite lookup_insert_eq. cbn. by rewrite <- app_assoc.
  - by rewrite lookup_insert_ne.
Qed.

Lemma wanted_reports containers rows vs :
  Forall2 report_row rows vs →
  ∃ vs', Forall2 report_row (List.filter (wanted containers) rows) vs' ∧
    ∀ ref, ref ∈ (cr_ImageRef <$> containers) → reports_of ref vs' = reports_of ref vs.
Proof.
  induction 1 as [|r v rows vs Hrv _ (vs' & Hvs' & Heq)]; [by exists []|]. cbn [List.filter].
  pose proof Hrv as [_ Hr]. unfold wanted at 1. rewrite Hr. case_bool_decide as Hin.
  - exists (v :: vs'). split; [by constructor|]. intros ref Href. unfold reports_of in *. cbn. rewrite (Heq ref Href). done.
  - exists vs'. split; [done|]. intros ref Href. rewrite (Heq ref Href). unfold reports_of. cbn.
    rewrite bool_decide_false; [done|]. intros <-. done.
Qed.

(** ** Populated reports *)

Section populated.
Context (images : ImageRef → Z) (reports : ImageRef → list VulnerabilityReport).

(** The status of a container compares the images of its reference with the
    reports on it. *)
Definition status_of (c : ContainerRef) (s : ContainerStatus) : Prop :=
  let n := images (cr_ImageRef c) in
  let m := Z.of_nat (length (reports (cr_ImageRef c))) in
  cs_Name s = cr_Name c ∧
  (n = 0 → cs_ScanStatus s = ScanStatusWaitingForScan) ∧
  (n ≠ 0 → m < n → cs_ScanStatus s = ScanStatusScanInProgress) ∧
  (n ≠ 0 → n ≤ m → cs_ScanStatus s = ScanStatusScanComplete).

(** The result of a container holds the reports on its reference, in order. *)
Definition result_of (c : ContainerRef) (r : ContainerResult) : Prop :=
  ct_Name r = cr_Name c ∧
  Forall2 (λ v w, wv_Name w = om_Name (vr_Meta v) ∧ wv_Namespace w = om_Namespace (vr_Meta v) ∧
                  wv_ImageMetadata w = vr_ImageMetadata v ∧ wv_Report w = vr_Report v)
    (reports (cr_ImageRef c)) (ct_VulnerabilityReports r).

Definition vulnerabilities_on (c : ContainerRef) : list Vulnerability :=
  concat ((λ v, all_vulnerabilities (rep_Results (vr_Report v))) <$> reports (cr_ImageRef c)).

(** What a report becomes when it is read. *)
Record populated (report report' : WorkloadScanReport) : Prop := {
  pop_meta : ws_Meta report' = ws_Meta report;
  pop_spec : ws_Spec_Containers report' = ws_Spec_Containers report;
  pop_none : ws_Spec_Containers report = [] → report' = report;
  pop_status : ws_Spec_Containers report ≠ [] →
    Forall2 status_of (ws_Spec_Containers report) (ws_Status_ContainerStatuses report');
  pop_results : ws_Spec_Containers report ≠ [] → Forall2 result_of (ws_Spec_Containers report) (ws_Containers report');
  pop_summary : ws_Spec_Containers report ≠ [] →
    ws_Summary report' = total_summary (distinct ∅ ∘ vulnerabilities_on <$> ws_Spec_Containers report)
}.

Lemma computeScanStatus_spec c :
  status_of c {| cs_Name := cr_Name c;
    cs_ScanStatus := computeScanStatus (images (cr_ImageRef c)) (Z.of_nat (length (reports (cr_ImageRef c)))) |}.
Proof. unfold status_of, computeScanStatus. cbn. split_and!; [done|..]; intros; repeat case_bool_decide; done || lia. Qed.

Lemma buildContainerResult_spec c : result_of c (buildContainerResult c (reports (cr_ImageRef c))).
Proof. split; [done|]. apply Forall2_fmap_r, Forall_Forall2_diag, Forall_true. done. Qed.

Lemma built_vulnerabilities c :
  container_vulnerabilities (buildContainerResult c (reports (cr_ImageRef c))) = vulnerabilities_on c.
Proof. unfold container_vulnerabilities, vulnerabilities_on. cbn. by rewrite <- list_fmap_compose. Qed.
End populated.

Lemma collect_container_refs cs acc :
  (∀ ref, ref ∈ acc.2 ↔ ref ∈ (cr_ImageRef <$> acc.1)) →
  let acc' := fold_left collect_container cs acc in
  (∀ ref, ref ∈ acc'.2 ↔ ref ∈ (cr_ImageRef <$> acc'.1)) ∧
  (∀ ref, ref ∈ (cr_ImageRef <$> acc'.1) ↔ ref ∈ (cr_ImageRef <$> acc.1) ∨ ref ∈ (cr_ImageRef <$> cs)).
Proof.
  revert acc. induction cs as [|c cs IH]; intros [l seen] Hacc; cbn [fold_left].
  { split; [done|]. intros ref. cbn. split; [by left|]. by intros [?|?%elem_of_nil]. }
  destruct (IH (collect_container (l, seen) c)) as [H1 H2].
  { unfold collect_container. cbn in Hacc. case_bool_decide; [done|]. intros ref. cbn.
    rewrite elem_of_union, elem_of_singleton, fmap_app, elem_of_app, list_fmap_singleton, list_elem_of_singleton, Hacc. tauto. }
  split; [done|]. intros ref. rewrite H2. unfold collect_container. cbn [fst snd fmap list_fmap] in *. rewrite elem_of_cons.
  case_bool_decide as Hc; cbn [fst].
  - apply Hacc in Hc. split; [tauto|]. intros [?|[->|?]]; tauto.
  - rewrite fmap_app, elem_of_app, list_fmap_singleton, list_elem_of_singleton. tauto.
Qed.

Lemma collect_refs reports report c :
  report ∈ reports → c ∈ ws_Spec_Containers report → cr_ImageRef c ∈ (cr_ImageRef <$> collect_containers reports).
Proof.
  intros Hr Hc. unfold collect_containers.
  assert (∀ acc, (∀ ref, ref ∈ acc.2 ↔ ref ∈ (cr_ImageRef <$> acc.1)) →
    let acc' := fold_left (λ acc report, fold_left collect_container (ws_Spec_Containers report) acc) reports acc in
    ∀ ref, ref ∈ (cr_ImageRef <$> acc.1) ∨ (∃ r c, r ∈ reports ∧ c ∈ ws_Spec_Containers r ∧ ref = cr_ImageRef c) →
      ref ∈ (cr_ImageRef <$> acc'.1)) as Hgen.
  2: { apply (Hgen ([], ∅)); [|right; by exists report, c]. intros ref. cbn. split; [by intros ?%elem_of_empty|by intros ?%elem_of_nil]. }
  clear report c Hr Hc. induction reports as [|r rs IH]; intros acc Hacc; cbn [fold_left].
  { intros ref [?|(r & c & ?%elem_of_nil & _)]; done. }
  destruct (collect_container_refs (ws_Spec_Containers r) acc Hacc) as [H1 H2].
  intros ref Href. apply (IH _ H1). rewrite H2.
  destruct Href as [?|(r' & c & [->|Hr']%elem_of_cons & Hc & ->)]; [tauto| |].
  - left. right. by apply list_elem_of_fmap_2.
  - right. by exists r', c.
Qed.

Lemma populate_agrees m1 m2 images reports report :
  (∀ c, c ∈ ws_Spec_Containers report → default 0 (m1 !! cr_ImageRef c) = images (cr_ImageRef c) ∧
      default [] (m2 !! cr_ImageRef c) = reports (cr_ImageRef c)) →
  populated images reports report (populate_report m1 m2 report).
Proof.
  intros Hagree. unfold populate_report. destruct (ws_Spec_Containers report) as [|c cs] eqn:Hcs; [by split|].
  rewrite <- Hcs in *.
  split; [done|done|by rewrite Hcs|intros _|intros _|intros _; rewrite workload_summary_total].
  - cbn [ws_Status_ContainerStatuses calculateSummary]. apply Forall2_fmap_r, Forall_Forall2_diag, Forall_forall.
    intros c' Hc'. unfold compose. destruct (Hagree c' Hc') as [-> ->]. apply computeScanStatus_spec.
  - cbn [ws_Containers calculateSummary]. apply Forall2_fmap_r, Forall_Forall2_diag, Forall_forall.
    intros c' Hc'. unfold compose. destruct (Hagree c' Hc') as [_ ->]. apply buildContainerResult_spec.
  - cbn [ws_Containers]. f_equal. rewrite <- list_fmap_compose. apply list_fmap_ext. intros i c' Hc'%list_elem_of_lookup_2.
    cbn. destruct (Hagree c' Hc') as [_ ->]. f_equal. apply built_vulnerabilities.
Qed.

(** ** Running the queries *)

Context (tryUpdate : WorkloadScanReport → result WorkloadScanReport).
Context (validateDeletion : WorkloadScanReport → result unit).
Context (vulnerabilityReportsTable imagesTable : string) (d : database) (ss : list (list (EventType * WorkloadScanReport))).
Let image_rows := rl_rows (table_of imagesTable (d_tables d)).
Let vuln_rows := rl_rows (table_of vulnerabilityReportsTable (d_tables d)).
Abbreviation steps_to := (steps tryUpdate validateDeletion).

Lemma steps_counts containers :
  complete image_rows → containers ≠ [] →
  ∃ m, steps_to (fetchImageCounts imagesTable Pool containers) (still d None ss) (Ok m) (still d None ss) ∧
    ∀ ref, ref ∈ (cr_ImageRef <$> containers) → default 0 (m !! ref) = ref_count ref image_rows.
Proof.
  intros Hc Hne.
  assert (complete (List.filter (wanted containers) image_rows)) as Hc'.
  { apply Forall_forall. intros r [Hr _]%list_elem_of_In%filter_In. unfold complete in Hc. rewrite Forall_forall in Hc.
    by apply Hc, list_elem_of_In. }
  destruct (groups_count _ [] Hc' (NoDup_nil_2) (Forall_nil_2 _)) as (gs & Hg & Hnd & Hall & Hcount).
  destruct (scan_counts_lookup gs ∅ Hnd Hall) as (m & Hm & Hlook). exists m. split.
  - unfold fetchImageCounts. destruct containers as [|c cs]; [done|]. eapply steps_try.
    + eapply steps_call; [done|]. cbn [effect visible still w_tx w_db]. fold image_rows.
      rewrite where_refs by done. rewrite Hg. reflexivity.
    + cbn [rows_scan rows_err]. rewrite Hm. apply steps_ret.
  - intros ref Href. rewrite Hlook, lookup_empty. specialize (Hcount ref). unfold group_count at 2 in Hcount. cbn in Hcount.
    unfold ref_count in *. rewrite filter_wanted in Hcount by done.
    destruct (existsb _ gs) eqn:He; [rewrite Hcount; lia|]. rewrite (group_count_none _ _ He) in Hcount. cbn. lia.
Qed.

Lemma steps_reports containers vs :
  Forall2 report_row vuln_rows vs → containers ≠ [] →
  ∃ m, steps_to (fetchVulnerabilityReports vulnerabilityReportsTable Pool containers) (still d None ss) (Ok m) (still d None ss) ∧
    ∀ ref, ref ∈ (cr_ImageRef <$> containers) → default [] (m !! ref) = reports_of ref vs.
Proof.
  intros Hvs Hne. assert (complete vuln_rows) as Hc.
  { clear Hne. induction Hvs as [|r v rows vs [_ Hr] _ IH]; constructor; [rewrite Hr; eauto|done]. }
  destruct (wanted_reports containers vuln_rows vs Hvs) as (vs' & Hvs' & Heq).
  exists (fold_left append_report vs' ∅). split.
  - unfold fetchVulnerabilityReports. destruct containers as [|c cs]; [done|]. eapply steps_try.
    + eapply steps_call; [done|]. cbn [effect visible still w_tx w_db]. unfold sql_select.
      cbn [sel_where sel_order_by_id sel_limit unordered]. fold vuln_rows. rewrite where_refs by done. reflexivity.
    + cbn [rows_scan rows_err]. fold (scanned (List.filter (wanted (c :: cs)) vuln_rows)).
      rewrite (scan_reports_fold _ vs') by done. apply steps_ret.
  - intros ref Href. rewrite append_reports_lookup, lookup_empty. by apply Heq.
Qed.

(** [C19] What a workload scan report shows is what the tables hold.  A report
    without containers is returned as it is; any other keeps its metadata and
    its specification, and shows for each container, under its name: the
    status, which compares the number of images with the reference of the
    container to the number of vulnerability reports with it (waiting without
    an image, in progress while there are fewer reports than images, complete
    otherwise); and exactly the reports with that reference, with their names,
    image metadata and findings.  The summary is counter by counter the sum,
    over the containers, of the distinct vulnerabilities of those reports.
    Every stored image has a reference, and every stored report decodes and is
    found under its own. *)
Theorem population_correct (reports : list WorkloadScanReport) (vs : list VulnerabilityReport) :
  complete image_rows → Forall2 report_row vuln_rows vs →
  ∃ reports',
    run_result (pg tryUpdate validateDeletion)
      (populateContainerResults vulnerabilityReportsTable imagesTable Pool reports) (still d None ss) = Ok reports' ∧
    Forall2 (populated (λ ref, ref_count ref image_rows) (λ ref, reports_of ref vs)) reports reports'.
Proof.
  intros Hi Hv. set (P := populated _ _).
  cut (∃ reports', steps_to (populateContainerResults vulnerabilityReportsTable imagesTable Pool reports) (still d None ss)
    (Ok reports') (still d None ss) ∧ Forall2 P reports reports').
  { intros (reports' & [tr Hs] & HP). exists reports'. unfold run_result. by rewrite Hs. }
  unfold populateContainerResults. pose proof (collect_refs reports) as Hrefs.
  destruct (collect_containers reports) as [|c cs] eqn:Hcol.
  - exists reports. split; [apply steps_ret|]. apply Forall_Forall2_diag, Forall_forall. intros r Hr.
    destruct (ws_Spec_Containers r) as [|c' cs'] eqn:Hc'; [by split; rewrite ?Hc'|].
    destruct (elem_of_nil (A:=ImageRef) (cr_ImageRef c')) as [Hno _]. destruct Hno.
    apply (Hrefs r c' Hr). rewrite Hc'. by left.
  - destruct (steps_counts (c :: cs) Hi ltac:(done)) as (m1 & H1 & Hm1).
    destruct (steps_reports (c :: cs) vs Hv ltac:(done)) as (m2 & H2 & Hm2).
    exists (populate_report m1 m2 <$> reports). split.
    { eapply steps_try; [exact H1|]. eapply steps_try; [exact H2|]. apply steps_ret. }
    apply Forall2_fmap_r, Forall_Forall2_diag, Forall_forall. intros r Hr. apply populate_agrees. intros c' Hc'.
    split; [apply Hm1|apply Hm2]; by apply (Hrefs r).
Qed.
End population.

(** ** An example

    Vulnerability reports with their metadata and image reference only, one of
    them for one image. *)
Definition sample_image_metadata (registry repository tag : string) : ImageMetadata := {|
  im_Registry := registry; im_RegistryURI := ""; im_Repository := repository; im_Tag := tag; im_Platform := "";
  im_Digest := ""; im_IndexDigest := "" |}.
Definition image_json (m : ImageMetadata) : json :=
  JObject [("registry", JString (im_Registry m)); ("repository", JString (im_Repository m)); ("tag", JString (im_Tag m))].
Definition vulnerability_report_json (v : VulnerabilityReport) : json :=
  JObject [("metadata", JObject (sample_metadata (vr_Meta v))); ("imageMetadata", image_json (vr_ImageMetadata v))].
Definition vulnerability_report_of (j : json) : result VulnerabilityReport :=
  match sample_decode j with
  | Err e => Err e
  | Ok m =>
      let field f := text_field (member_of (member j "imageMetadata") f) in
      Ok {| vr_Meta := m; vr_ImageMetadata := sample_image_metadata (field "registry") (field "repository") (field "tag");
            vr_Report := {| rep_Summary := empty_Summary; rep_Results := [] |} |}
  end.

Definition sample_reports : Resource VulnerabilityReport.
Proof.
  refine {| accessor := vr_Meta;
            with_accessor := λ m v, {| vr_Meta := m; vr_ImageMetadata := vr_ImageMetadata v; vr_Report := vr_Report v |};
            newFunc := {| vr_Meta := new_meta "" "" "" ∅ ∅; vr_ImageMetadata := sample_image_metadata "" "" "";
                          vr_Report := {| rep_Summary := empty_Summary; rep_Results := [] |} |};
            encode := λ v, Ok (vulnerability_report_json v); decode := vulnerability_report_of |}.
  - done.
  - intros v j [= <-]. exact (encode_rv (vr_Meta v) (JObject [("metadata", JObject (sample_metadata (vr_Meta v)))]) eq_refl).
  - intros v j [= <-]. exact (encode_labels (vr_Meta v) (JObject [("metadata", JObject (sample_metadata (vr_Meta v)))]) eq_refl).
  - done.
  - intros j e. unfold vulnerability_report_of. destruct (sample_decode j) as [m|e'] eqn:Hj; [done|]. intros [= <-].
    by apply (decode_err (T:=ObjectMeta) j).
  - intros v j [= <-]. destruct (@decode_encode _ sample_resource (vr_Meta v) (JObject [("metadata", JObject (sample_metadata (vr_Meta v)))]) eq_refl) as (m & Hm & Hid & Hl).
    assert (sample_decode (vulnerability_report_json v) = Ok m) as Hm' by exact Hm.
    unfold vulnerability_report_of. rewrite Hm'. by eexists.
Defined.

Definition example_ref : ImageRef :=
  {| ir_Registry := "docker"; ir_Namespace := "default"; ir_Repository := "nginx"; ir_Tag := "1.0" |}.
Definition example_vulnerability_report : VulnerabilityReport := {|
  vr_Meta := sample_object "r1" "default" "u1" 3 ∅;
  vr_ImageMetadata := sample_image_metadata "docker" "nginx" "1.0";
  vr_Report := {| rep_Summary := empty_Summary; rep_Results := [] |} |}.
Definition example_row (id : Z) (name : string) : row := {|
  row_id := id; row_name := name; row_namespace := "default";
  row_object := vulnerability_report_json example_vulnerability_report |}.
Definition example_database : database := {|
  d_tables := <["images" := {| rl_rows := [example_row 1 "i1"; example_row 2 "i2"]; rl_next := 3 |}]>
              {[ "vulnerabilityreports" := {| rl_rows := [example_row 1 "r1"]; rl_next := 2 |} ]};
  d_last_value := 5; d_is_called := true; d_sent := [] |}.
Definition example_report : WorkloadScanReport := {|
  ws_Meta := new_meta "w" "" "default" ∅ ∅; ws_Spec_Containers := [{| cr_Name := "c"; cr_ImageRef := example_ref |}];
  ws_Status_ContainerStatuses := []; ws_Summary := empty_Summary; ws_Containers := [] |}.

Lemma population_correct_witness :
  ∃ reports',
    run_result (pg (λ o, Ok o) (λ _, Ok tt))
      (@populateContainerResults sample_reports "vulnerabilityreports" "images" Pool [example_report])
      (still example_database None []) = Ok reports' ∧
    Forall2 (λ _ report', ws_Status_ContainerStatuses report' = [{| cs_Name := "c"; cs_ScanStatus := ScanStatusScanInProgress |}])
      [example_report] reports'.
Proof.
  destruct (@population_correct _ sample_reports (λ o, Ok o) (λ _, Ok tt) "vulnerabilityreports" "images"
             example_database [] [example_report] [example_vulnerability_report]) as (reports' & Hr & Hp).
  - apply Forall_cons; split; [vm_compute; eauto|]. apply Forall_cons; split; [vm_compute; eauto|constructor].
  - constructor; [split; vm_compute; reflexivity|constructor].
  - exists reports'. split; [exact Hr|]. apply Forall2_cons_inv_l in Hp as (r' & l & Hr' & ->%Forall2_nil_inv_l & ->).
    constructor; [|constructor]. pose proof (pop_status _ _ _ _ Hr' ltac:(done)) as Hs.
    apply Forall2_cons_inv_l in Hs as (s & l & (Hn & _ & Hp & _) & ->%Forall2_nil_inv_l & ->).
    specialize (Hp ltac:(vm_compute; done) ltac:(vm_compute; done)). destruct s. cbn in *. by subst.
Defined.
