(* ===== verification/WorkloadWatcher.v ===== *)
(** * Events of workload scan reports

    [src/internal/storage/transform.go]: what a message leaves out of an object;
    and [src/internal/storage/workloadscanreport_watcher.go]: when a
    vulnerability report changes, every workload scan report with a container of
    the same image gets a [Modified] event. *)

From stdpp Require Import prelude gmap strings list.
From Stdlib Require Import ZArith Lia.
From S2P Require Import Prelude Prog Meta StorageTypes Strconv Sql Effects StorageEffects StorageSample Repository Store StoreEvents Database Pagination StoreRefinement WorkloadReport WorkloadPopulate.
Open Scope Z_scope.

(** ** Transforms

    Managed fields are not part of [ObjectMeta] here. *)

Definition TransformStripImage (image : Image) : result Image :=
  Ok {| img_Meta := img_Meta image; img_ImageMetadata := img_ImageMetadata image; img_Layers := [];
        img_WorkloadScanReports := img_WorkloadScanReports image |}.

Definition TransformStripSBOM (sbom : SBOM) : result SBOM :=
  Ok {| sb_Meta := sb_Meta sbom; sb_ImageMetadata := sb_ImageMetadata sbom; sb_SPDX := "" |}.

Definition TransformStripNodeSBOM (nodeSBOM : NodeSBOM) : result NodeSBOM :=
  Ok {| nb_Meta := nb_Meta nodeSBOM; nb_NodeMetadata := nb_NodeMetadata nodeSBOM; nb_SPDX := "" |}.

Definition TransformStripVulnerabilityReport (report : VulnerabilityReport) : result VulnerabilityReport :=
  Ok {| vr_Meta := vr_Meta report; vr_ImageMetadata := vr_ImageMetadata report;
        vr_Report := {| rep_Summary := rep_Summary (vr_Report report); rep_Results := [] |} |}.

Definition TransformStripNodeVulnerabilityReport (report : NodeVulnerabilityReport) : result NodeVulnerabilityReport :=
  Ok {| nv_Meta := nv_Meta report; nv_NodeMetadata := nv_NodeMetadata report;
        nv_Report := {| rep_Summary := rep_Summary (nv_Report report); rep_Results := [] |} |}.

Definition TransformStripWorkloadScanReport (report : WorkloadScanReport) : result WorkloadScanReport :=
  Ok {| ws_Meta := ws_Meta report; ws_Spec_Containers := ws_Spec_Containers report; ws_Status_ContainerStatuses := [];
        ws_Summary := ws_Summary report; ws_Containers := [] |}.

(** ** Containers in a document *)

Definition container_json (c : ContainerRef) : json :=
  JObject [("name", JString (cr_Name c));
           ("imageRef", JObject [("registry", JString (ir_Registry (cr_ImageRef c)));
                                 ("namespace", JString (ir_Namespace (cr_ImageRef c)));
                                 ("repository", JString (ir_Repository (cr_ImageRef c)));
                                 ("tag", JString (ir_Tag (cr_ImageRef c)))])].

(** The pattern a container is compared with. *)
Definition image_ref_json (ref : ImageRef) : json :=
  JObject [("imageRef", JObject [("registry", JString (ir_Registry ref)); ("namespace", JString (ir_Namespace ref));
                                 ("repository", JString (ir_Repository ref)); ("tag", JString (ir_Tag ref))])].

Lemma contains_container c ref :
  contains (container_json c) (image_ref_json ref) =
  bool_decide (cr_ImageRef c = ref).
Proof.
  destruct c as [n [a b c' d]], ref as [a' b' c'' d']. 
  transitivity (bool_decide (a' = a) && (bool_decide (b' = b) && (bool_decide (c'' = c') && (bool_decide (d' = d) && true))) && true);
    [reflexivity|]. rewrite !andb_true_r. apply eq_iff_eq_true. rewrite !andb_true_iff, !bool_decide_eq_true. naive_solver.
Qed.

Lemma contains_ref cs ref :
  contains (JArray (container_json <$> cs)) (ref_json ref) = bool_decide (ref ∈ (cr_ImageRef <$> cs)).
Proof.
  transitivity (existsb (λ j, contains j (image_ref_json ref)) (container_json <$> cs) && true); [reflexivity|].
  rewrite andb_true_r. induction cs as [|c cs IH]; [done|]. cbn [fmap list_fmap existsb]. rewrite IH, contains_container.
  apply eq_iff_eq_true. rewrite orb_true_iff, !bool_decide_eq_true, elem_of_cons. naive_solver.
Qed.

Section workload_watcher.
Context `{!Resource WorkloadScanReport, !Resource VulnerabilityReport, !JSON event}.

Definition workloadScanReportResourcePluralName := "workloadscanreports".
Definition vulnerabilityReportResourcePluralName := "vulnerabilityreports".
Definition imageResourcePluralName := "images".

Definition workload_store : store WorkloadScanReport := {|
  st_repository := WorkloadScanReportRepository workloadScanReportResourcePluralName
                     vulnerabilityReportResourcePluralName imageResourcePluralName;
  st_resource := workloadScanReportResourcePluralName;
  st_transform := TransformStripWorkloadScanReport;
  st_clusterScoped := false |}.

Definition processVulnerabilityReportEvent (data : string) : db_prog WorkloadScanReport (result unit) :=
  match Unmarshal data with
  | Err e => Ret (Err (errorf "failed to unmarshal payload" e))
  | Ok payload =>
      match decode (ev_Object payload) with
      | Err e => Ret (Err (errorf "failed to decode VulnerabilityReport" e))
      | Ok vulnReport =>
          let ref := ref_of_report vulnReport in
          workloadReports ←? FindByImageRef workloadScanReportResourcePluralName Pool ref
            wrap errorf "failed to find related WorkloadScanReports";
          for_each (λ _ report, _ ← Action workload_store Modified report; Ret (Ok tt)) tt workloadReports
      end
  end.

(** ** What it sends *)

Context `{!Postgres} (tryUpdate : WorkloadScanReport → result WorkloadScanReport).
Context (validateDeletion : WorkloadScanReport → result unit).
Context (d : database) (ss : list (list (EventType * WorkloadScanReport))).
Let rows := rl_rows (table_of workloadScanReportResourcePluralName (d_tables d)).
Abbreviation steps_to := (steps tryUpdate validateDeletion).
Abbreviation sends := (messages workloadScanReportResourcePluralName TransformStripWorkloadScanReport Modified).

(** A row that holds a workload scan report, with its containers. *)
Definition workload_row (r : row) (report : WorkloadScanReport) : Prop :=
  decode (row_object r) = Ok report ∧
  member_of (member (row_object r) "spec") "containers" = Some (JArray (container_json <$> ws_Spec_Containers report)).

Definition mentions (ref : ImageRef) (report : WorkloadScanReport) : bool :=
  bool_decide (ref ∈ (cr_ImageRef <$> ws_Spec_Containers report)).

Lemma where_containers ref rs reports :
  Forall2 workload_row rs reports →
  ∃ rs', where_rows [Contains (Arrow (Arrow (Col C_object) "spec") "containers") (ref_json ref)] rs = Some rs' ∧
    Forall2 workload_row rs' (List.filter (mentions ref) reports).
Proof.
  induction 1 as [|r report rs reports Hr _ (rs' & Hw & Hf)]; [by exists []|]. cbn [where_rows List.filter]. rewrite Hw.
  assert (selected [Contains (Arrow (Arrow (Col C_object) "spec") "containers") (ref_json ref)] r = Some (mentions ref report)) as ->.
  { destruct Hr as [_ Hc]. unfold member_of in Hc. cbn -[ref_json contains].
    destruct (member (row_object r) "spec") as [sp|]; [|done]. cbn -[ref_json contains] in Hc |- *. rewrite Hc.
    cbn -[ref_json contains]. rewrite contains_ref. unfold mentions. by case_bool_decide. }
  cbn [mbind option_bind]. destruct (mentions ref report); eexists; (split; [reflexivity|]); [by constructor|done].
Qed.

Lemma scan_found_all rs reports acc :
  Forall2 workload_row rs reports → scan_found acc (scanned rs) None = Ok (acc ++ reports).
Proof.
  intros Hrs. revert acc. induction Hrs as [|r report rs reports [Hd _] _ IH]; intros acc; cbn; [by rewrite app_nil_r|].
  rewrite Hd, IH. by rewrite <- app_assoc.
Qed.

Lemma steps_actions reports d' :
  steps_to (for_each (λ _ report, _ ← Action workload_store Modified report; Ret (Ok tt)) tt reports)
    (still d' None ss) (Ok tt) (still (add_sent (concat (sends <$> reports)) d') None ss).
Proof.
  revert d'. induction reports as [|r rs IH]; intros d'.
  { cbn. replace (add_sent [] d') with d'; [apply steps_ret|]. destruct d'. unfold add_sent. cbn. by rewrite app_nil_r. }
  destruct (steps_action tryUpdate validateDeletion workload_store Modified r d' None ss) as [a Ha].
  cbn [for_each fmap list_fmap concat]. eapply steps_bind; [eapply steps_bind; [exact Ha|apply steps_ret]|]. cbv beta iota.
  replace (add_sent (sends r ++ concat (sends <$> rs)) d') with (add_sent (concat (sends <$> rs)) (add_sent (sends r) d')); [apply IH|].
  unfold add_sent. cbn. by rewrite <- app_assoc.
Qed.

(** [C25] A change of a vulnerability report reaches every workload that runs its
    image: the event of a report makes the storage announce, as modified,
    exactly the stored workload scan reports with a container whose image
    reference is that of the report, one message each, whether or not the
    earlier messages could be sent. *)
Theorem affected_workloads_notified (data : string) (payload : event) (vulnReport : VulnerabilityReport)
    (reports : list WorkloadScanReport) :
  Unmarshal data = Ok payload → decode (ev_Object payload) = Ok vulnReport → Forall2 workload_row rows reports →
  let r := run (pg tryUpdate validateDeletion) (processVulnerabilityReportEvent data) (still d None ss) in
  r.1.2 = Ok tt ∧
  d_sent (w_db r.2) = d_sent d ++ concat (sends <$> List.filter (mentions (ref_of_report vulnReport)) reports) ∧
  d_tables (w_db r.2) = d_tables d.
Proof.
  intros Hu Hd Hrows r.
  assert (steps_to (processVulnerabilityReportEvent data) (still d None ss) (Ok tt)
    (still (add_sent (concat (sends <$> List.filter (mentions (ref_of_report vulnReport)) reports)) d) None ss)) as [tr Hs].
  { unfold processVulnerabilityReportEvent. rewrite Hu, Hd. cbv zeta.
    destruct (where_containers (ref_of_report vulnReport) rows reports Hrows) as (rs & Hw & Hrs).
    eapply steps_try; [|apply steps_actions]. unfold FindByImageRef. eapply steps_try.
    - eapply steps_call; [done|]. cbn [effect visible still w_tx w_db]. unfold sql_select.
      cbn [sel_where sel_order_by_id sel_limit unordered]. fold rows. rewrite Hw. reflexivity.
    - cbn [rows_scan rows_err]. fold (scanned rs). rewrite (scan_found_all rs _ [] Hrs). apply steps_ret. }
  unfold r. rewrite Hs. done.
Qed.
End workload_watcher.

(** ** An example *)

Definition text_of (j : json) (f : string) : string :=
  match member j f with Some (JString s) => s | _ => "" end.

Definition container_of (j : json) : ContainerRef :=
  let ref := default JNull (member j "imageRef") in
  {| cr_Name := text_of j "name";
     cr_ImageRef := {| ir_Registry := text_of ref "registry"; ir_Namespace := text_of ref "namespace";
                       ir_Repository := text_of ref "repository"; ir_Tag := text_of ref "tag" |} |}.

Definition workload_json (w : WorkloadScanReport) : json :=
  JObject [("metadata", JObject (sample_metadata (ws_Meta w)));
           ("spec", JObject [("containers", JArray (container_json <$> ws_Spec_Containers w))])].

Definition workload_of (j : json) : result WorkloadScanReport :=
  match sample_decode j with
  | Err e => Err e
  | Ok m =>
      Ok {| ws_Meta := m;
            ws_Spec_Containers := match member_of (member j "spec") "containers" with
                                  | Some (JArray l) => container_of <$> l | _ => [] end;
            ws_Status_ContainerStatuses := []; ws_Summary := empty_Summary; ws_Containers := [] |}
  end.

Definition sample_workloads : Resource WorkloadScanReport.
Proof.
  refine {| accessor := ws_Meta;
            with_accessor := λ m w, {| ws_Meta := m; ws_Spec_Containers := ws_Spec_Containers w;
                                       ws_Status_ContainerStatuses := ws_Status_ContainerStatuses w;
                                       ws_Summary := ws_Summary w; ws_Containers := ws_Containers w |};
            newFunc := {| ws_Meta := new_meta "" "" "" ∅ ∅; ws_Spec_Containers := []; ws_Status_ContainerStatuses := [];
                          ws_Summary := empty_Summary; ws_Containers := [] |};
            encode := λ w, Ok (workload_json w); decode := workload_of |}.
  - done.
  - intros w j [= <-]. exact (encode_rv (ws_Meta w) (JObject [("metadata", JObject (sample_metadata (ws_Meta w)))]) eq_refl).
  - intros w j [= <-]. exact (encode_labels (ws_Meta w) (JObject [("metadata", JObject (sample_metadata (ws_Meta w)))]) eq_refl).
  - done.
  - intros j e. unfold workload_of. destruct (sample_decode j) as [m|e'] eqn:Hj; [done|]. intros [= <-].
    by apply (decode_err (T:=ObjectMeta) j).
  - intros w j [= <-]. destruct (@decode_encode _ sample_resource (ws_Meta w) (JObject [("metadata", JObject (sample_metadata (ws_Meta w)))]) eq_refl) as (m & Hm & Hid & Hl).
    assert (sample_decode (workload_json w) = Ok m) as Hm' by exact Hm.
    unfold workload_of. rewrite Hm'. by eexists.
Defined.

Definition example_workload (name tag : string) : WorkloadScanReport := {|
  ws_Meta := sample_object name "apps" name 4 ∅;
  ws_Spec_Containers := [{| cr_Name := "c"; cr_ImageRef := {| ir_Registry := "docker"; ir_Namespace := "default";
                                                             ir_Repository := "nginx"; ir_Tag := tag |} |}];
  ws_Status_ContainerStatuses := []; ws_Summary := empty_Summary; ws_Containers := [] |}.
Definition example_workload_row (id : Z) (w : WorkloadScanReport) : row := {|
  row_id := id; row_name := om_Name (ws_Meta w); row_namespace := "apps"; row_object := workload_json w |}.
Definition example_workloads : list WorkloadScanReport := [example_workload "w1" "1.0"; example_workload "w2" "2.0"].
Definition workload_database : database := {|
  d_tables := {[ workloadScanReportResourcePluralName :=
                   {| rl_rows := imap (λ i w, example_workload_row (Z.of_nat (S i)) w) example_workloads; rl_next := 3 |} ]};
  d_last_value := 5; d_is_called := true; d_sent := [] |}.

Lemma affected_workloads_notified_witness :
  let data := number_text (event_tag Modified, vulnerability_report_json example_vulnerability_report) in
  length (d_sent (w_db (run_state (pg (λ o, Ok o) (λ _, Ok tt))
    (@processVulnerabilityReportEvent sample_workloads sample_reports sample_event_json data)
    (still workload_database None [])))) = 1%nat.
Proof.
  intros data. unfold run_state.
  destruct (@affected_workloads_notified sample_workloads sample_reports sample_event_json _ (λ o, Ok o) (λ _, Ok tt)
    workload_database [] data {| ev_EventType := Modified; ev_Object := vulnerability_report_json example_vulnerability_report |}
    example_vulnerability_report example_workloads) as (_ & -> & _).
  - apply sample_event_roundtrip. reflexivity.
  - vm_compute. reflexivity.
  - repeat constructor; vm_compute; reflexivity.
  - vm_compute. reflexivity.
Defined.
