(* ===== verification/WorkloadRegistry.v ===== *)
(** * Registries of workload scans

    [src/internal/controller/workloadscan_controller_registry.go]: the images of
    the pods of a namespace become match conditions of managed registries, one
    registry per host.  A registry is shared by namespaces: a condition carries
    a label for each namespace that needs it.

    A list call answers with objects of the program's own, so the labels it
    changes in place are its own too; nothing reads them afterwards, and they
    are returned here as values. *)

From stdpp Require Import prelude gmap strings list sorting.
From S2P Require Import Prelude Prog Meta Encoding Registry Effects.

Definition namespacePrefix := "namespace/".

Abbreviation repositoryTags := (gmap string (gset string)).

Record matchConditionKey := { mk_repository : string; mk_name : string; mk_expression : string }.

#[export] Instance matchConditionKey_eq_dec : EqDecision matchConditionKey.
Proof. solve_decision. Defined.
#[export] Instance matchConditionKey_countable : Countable matchConditionKey.
Proof.
  apply (inj_countable' (λ k, (mk_repository k, mk_name k, mk_expression k))
    (λ '(a, b, c), {| mk_repository := a; mk_name := b; mk_expression := c |})).
  by intros [].
Defined.

(** [fmt.Sprintf("tag-%s", tag)] and [fmt.Sprintf("tag == %q", tag)]. *)
Definition tag_key (repository tag : string) : matchConditionKey :=
  {| mk_repository := repository; mk_name := "tag-" +:+ tag; mk_expression := "tag == " +:+ quote tag |}.

Definition condition_key (repository : string) (mc : MatchCondition) : matchConditionKey :=
  {| mk_repository := repository; mk_name := mc_Name mc; mk_expression := mc_Expression mc |}.

Definition buildNeededMatchConditions (repositories : repositoryTags) : gset matchConditionKey :=
  fold_left (λ needed '(repositoryName, tags),
      fold_left (λ needed tag, {[tag_key repositoryName tag]} ∪ needed) (elements tags) needed)
    (map_to_list repositories) ∅.

Definition extractMatchConditionsFromRegistry (registry : Registry) : gset matchConditionKey :=
  fold_left (λ found repository,
      fold_left (λ found mc, {[condition_key (rp_Name repository) mc]} ∪ found) (rp_MatchConditions repository) found)
    (rs_Repositories (rg_Spec registry)) ∅.

(** ** Merging the needs of a namespace *)

Section merge.
Context (sourceNamespace : string) (neededMatchConditions : gset matchConditionKey).

Let nsLabel := namespacePrefix +:+ sourceNamespace.

(** The body of the loop of [processRepositoryMatchConditions]. *)
Definition process_condition (repository : Repository) (st : list MatchCondition * gset matchConditionKey)
    (mc : MatchCondition) : list MatchCondition * gset matchConditionKey :=
  let key := condition_key (rp_Name repository) mc in
  let needed := bool_decide (key ∈ neededMatchConditions) in
  let labels := if needed then <[nsLabel := "true"]> (mc_Labels mc) else delete nsLabel (mc_Labels mc) in
  let matched := if needed then {[key]} ∪ st.2 else st.2 in
  if bool_decide (labels = ∅) then (st.1, matched)
  else (st.1 ++ [{| mc_Name := mc_Name mc; mc_Expression := mc_Expression mc; mc_Labels := labels |}], matched).

Definition processRepositoryMatchConditions (repository : Repository)
  : list MatchCondition * gset matchConditionKey :=
  fold_left (process_condition repository) (rp_MatchConditions repository) ([], ∅).

Definition process_repository (st : list Repository * gset matchConditionKey) (repository : Repository)
  : list Repository * gset matchConditionKey :=
  let '(repoMatchConditions, processed) := processRepositoryMatchConditions repository in
  (if bool_decide (repoMatchConditions = []) then st.1
   else st.1 ++ [{| rp_Name := rp_Name repository; rp_MatchConditions := repoMatchConditions;
                    rp_MatchOperator := MatchOperatorOr |}],
   st.2 ∪ processed).

Definition processExistingRepositories (repositories : list Repository)
  : list Repository * gset matchConditionKey :=
  fold_left process_repository repositories ([], ∅).

(** The slice, and the index of the repository it points to. *)
Definition findOrAppendRepository (repositories : list Repository) (name : string) : list Repository * nat :=
  match list_find (λ rp, rp_Name rp = name) repositories with
  | Some (i, _) => (repositories, i)
  | None => (repositories ++ [{| rp_Name := name; rp_MatchConditions := []; rp_MatchOperator := MatchOperatorOr |}],
             length repositories)
  end.

Definition new_condition (key : matchConditionKey) : MatchCondition :=
  {| mc_Name := mk_name key; mc_Expression := mk_expression key; mc_Labels := {[nsLabel := "true"]} |}.

Definition add_condition (repositories : list Repository) (key : matchConditionKey) : list Repository :=
  let '(repositories, i) := findOrAppendRepository repositories (mk_repository key) in
  alter (λ rp, with_MatchConditions (rp_MatchConditions rp ++ [new_condition key]) rp) i repositories.

Context `{!MapRange}.

Definition addNewMatchConditions (repositories : list Repository) (matchConditions : gset matchConditionKey)
  : list Repository :=
  fold_left add_condition (range 5 (elements matchConditions)) repositories.
End merge.

(** [strings.Compare(a, b) < 0] on the names. *)
Definition name_less {A} (name : A → string) (a b : A) : bool := negb (bool_decide (String.le (name b) (name a))).

Lemma name_order {A} (name : A → string) : StrictWeakOrder (name_less name).
Proof.
  unfold name_less. split.
  - intros x. apply negb_false_iff, bool_decide_eq_true. reflexivity.
  - intros x y z. rewrite !negb_true_iff, !bool_decide_eq_false. intros Hxy Hyz Hzx.
    destruct (total String.le (name x) (name y)) as [H|H]; [|done]. apply Hyz. by transitivity (name x).
  - intros x y z. rewrite !negb_false_iff, !bool_decide_eq_true. intros Hxy Hyz. by transitivity (name y).
Qed.

Section registries.
Context `{!Names, !GoSort, !MapRange, !JSON RescanRequest}.

Definition sortRepositories (repositories : list Repository) : list Repository :=
  (λ rp, with_MatchConditions (sort_Slice (name_less mc_Name) (rp_MatchConditions rp)) rp)
    <$> sort_Slice (name_less rp_Name) repositories.

(** The repositories of [updateRegistry]. *)
Definition updated_repositories (sourceNamespace : string) (repositories : repositoryTags) (existing : list Repository)
  : list Repository :=
  let neededMatchConditions := buildNeededMatchConditions repositories in
  let '(processedRepositories, processedMatchConditions) :=
    processExistingRepositories sourceNamespace neededMatchConditions existing in
  let newMatchConditions := neededMatchConditions ∖ processedMatchConditions in
  addNewMatchConditions sourceNamespace processedRepositories newMatchConditions.

(** ** Rescan requests *)

Definition add_to_repo (byRepo : gmap string (gset string)) (key : matchConditionKey) : gmap string (gset string) :=
  <[mk_repository key := {[mk_name key]} ∪ default ∅ (byRepo !! mk_repository key)]> byRepo.

Definition buildRescanRequest (matchConditions : gset matchConditionKey) : RescanRequest :=
  let byRepo := fold_left add_to_repo (elements matchConditions) ∅ in
  let repoNames := sort_Strings (map_to_list byRepo).*1 in
  {| rr_Repositories :=
       (λ name, {| sr_Name := name; sr_MatchConditions := sort_Strings (elements (default ∅ (byRepo !! name))) |})
         <$> repoNames |}.

(** [v1alpha1.NewRescanRequestedAnnotationKey]. *)
Definition NewRescanRequestedAnnotationKey : go string :=
  u ← trigger NewUUID; Ret (AnnotationRescanRequestedKeyPrefix +:+ u).

(** ** Updating a registry *)

(** The fields of the specification that come from the configuration. *)
Definition configured_spec (uri catalogType : string) (repositories : list Repository) (config : WorkloadScanConfiguration)
  : RegistrySpec := {|
  rs_URI := uri; rs_CatalogType := catalogType; rs_Repositories := repositories;
  rs_AuthSecret := wc_AuthSecret (wc_Spec config); rs_ScanInterval := wc_ScanInterval (wc_Spec config);
  rs_CABundle := wc_CABundle (wc_Spec config); rs_CABundleRef := wc_CABundleRef (wc_Spec config);
  rs_Insecure := wc_Insecure (wc_Spec config); rs_Platforms := wc_Platforms (wc_Spec config) |}.

Definition with_annotation (key value : string) (registry : Registry) : Registry :=
  with_rg_Meta (with_Annotations (<[key := value]> (om_Annotations (rg_Meta registry))) (rg_Meta registry)) registry.

Definition write_registry (registry : Registry) : go (result bool) :=
  check trigger (KUpdate KRegistry registry) wrap errorf ("failed to update registry " +:+ rg_Name registry);
  Ret (Ok false).

Definition updateRegistry (registry : Registry) (sourceNamespace : string) (repositories : repositoryTags)
    (config : WorkloadScanConfiguration) : go (result bool) :=
  let oldMatchConditions := extractMatchConditionsFromRegistry registry in
  let updatedRepositories := updated_repositories sourceNamespace repositories (rs_Repositories (rg_Spec registry)) in
  if bool_decide (updatedRepositories = []) then Ret (Ok true)
  else
    let updatedRepositories := sortRepositories updatedRepositories in
    let registry := {|
      rg_Meta := rg_Meta registry;
      rg_Spec := configured_spec (rs_URI (rg_Spec registry)) (rs_CatalogType (rg_Spec registry)) updatedRepositories config;
      rg_Conditions := rg_Conditions registry |} in
    let addedMatchConditions := extractMatchConditionsFromRegistry registry ∖ oldMatchConditions in
    if wc_ScanOnChange (wc_Spec config) && negb (bool_decide (addedMatchConditions = ∅)) then
      match Marshal (buildRescanRequest addedMatchConditions) with
      | Err e => Ret (Err (errorf "failed to marshal rescan annotation" e))
      | Ok rescanRequestJSON =>
          rescanKey ← NewRescanRequestedAnnotationKey;
          write_registry (with_annotation rescanKey rescanRequestJSON registry)
      end
    else write_registry registry.

(** ** Creating a registry *)

(** [computeRegistryName]. *)
Definition computeRegistryName (uri : string) : string := "workloadscan-" +:+ sha256_hex uri.

Definition workload_labels : gmap string string :=
  <[LabelManagedByKey := LabelManagedByValue]> {[LabelWorkloadScanKey := LabelWorkloadScanValue]}.

Definition created_repositories (sourceNamespace : string) (repositories : repositoryTags) : list Repository :=
  (λ '(repositoryName, tags),
     {| rp_Name := repositoryName;
        rp_MatchConditions := (λ tag, new_condition sourceNamespace (tag_key repositoryName tag)) <$> range 6 (elements tags);
        rp_MatchOperator := MatchOperatorOr |})
    <$> range 7 (map_to_list repositories).

Definition createRegistry (uri sourceNamespace registryNamespace : string) (repositories : repositoryTags)
    (config : WorkloadScanConfiguration) : go (result unit) :=
  let registryName := computeRegistryName uri in
  let registry := {|
    rg_Meta := new_meta registryName "" registryNamespace workload_labels ∅;
    rg_Spec := configured_spec uri "" (sortRepositories (created_repositories sourceNamespace repositories)) config;
    rg_Conditions := [] |} in
  registry ←? (if wc_ScanOnChange (wc_Spec config) then
                 match Marshal {| rr_Repositories := [] |} with
                 | Err e => Ret (Err (errorf "failed to build rescan annotation" e))
                 | Ok rescanValue =>
                     rescanKey ← NewRescanRequestedAnnotationKey;
                     Ret (Ok (with_annotation rescanKey rescanValue registry))
                 end
               else Ret (Ok registry)) wrap (λ e, e);
  check trigger (KCreate KRegistry registry) wrap errorf ("failed to create registry " +:+ registryName);
  Ret (Ok tt).

(** ** The images of a namespace *)

(** [extractImagesFromPodSpec] of [workloadscan_watch_helpers.go]. *)
Definition extractImagesFromPodSpec (podSpec : PodSpec) : list string :=
  (pc_Image <$> ps_InitContainers podSpec) ++ (pc_Image <$> ps_Containers podSpec).

(** The body of the loop of [groupImagesByRegistry]. *)
Definition group_image (result : gmap string repositoryTags) (image : string) : gmap string repositoryTags :=
  if bool_decide (image = "") then result
  else match ParseReference false image with
       | Err _ => result
       | Ok reference =>
           let uri := ref_RegistryStr reference in
           let repository := ref_RepositoryStr reference in
           let byRepository := default ∅ (result !! uri) in
           <[uri := <[repository := {[ref_Identifier reference]} ∪ default ∅ (byRepository !! repository)]> byRepository]> result
       end.

Definition groupImagesByRegistry (images : gset string) : gmap string repositoryTags :=
  fold_left group_image (elements images) ∅.

Definition images_of (pods : list Pod) : gset string :=
  fold_left (λ images pod, images ∪ list_to_set (extractImagesFromPodSpec (pod_Spec pod))) pods ∅.

(** The namespace of the artifacts of [workloadNamespace]. *)
Definition artifacts_namespace (config : WorkloadScanConfiguration) (workloadNamespace : string) : string :=
  if bool_decide (wc_ArtifactsNamespace (wc_Spec config) = "") then workloadNamespace
  else wc_ArtifactsNamespace (wc_Spec config).

Definition reconcile_registry (workloadNamespace : string) (registriesByURI : gmap string repositoryTags)
    (config : WorkloadScanConfiguration) (processedURIs : gset string) (registry : Registry) : go (result (gset string)) :=
  let uri := rs_URI (rg_Spec registry) in
  let repositories := default ∅ (registriesByURI !! uri) in
  shouldDelete ←? updateRegistry registry workloadNamespace repositories config wrap (λ e, e);
  if (shouldDelete : bool) then
    d ← trigger (KDelete KRegistry registry);
    match d with
    | Err e => if IsNotFound e then Ret (Ok ({[uri]} ∪ processedURIs))
               else Ret (Err (errorf ("failed to delete registry " +:+ rg_Name registry) e))
    | Ok _ => Ret (Ok ({[uri]} ∪ processedURIs))
    end
  else Ret (Ok ({[uri]} ∪ processedURIs)).

Definition create_missing (workloadNamespace registryNamespace : string) (config : WorkloadScanConfiguration)
    (processedURIs : gset string) (_ : unit) (entry : string * repositoryTags) : go (result unit) :=
  let '(uri, repositories) := entry in
  if bool_decide (uri ∈ processedURIs) then Ret (Ok tt)
  else createRegistry uri workloadNamespace registryNamespace repositories config.

Definition managed_registries (registryNamespace : string) : list ListOption :=
  [InNamespace registryNamespace; MatchingLabels LabelManagedByKey LabelManagedByValue;
   MatchingLabels LabelWorkloadScanKey LabelWorkloadScanValue].

Definition reconcileRegistries (workloadNamespace : string) (pods : list Pod) (config : WorkloadScanConfiguration)
  : go (result unit) :=
  let registryNamespace := artifacts_namespace config workloadNamespace in
  let registriesByURI := groupImagesByRegistry (images_of pods) in
  existingRegistries ←? trigger (KList KRegistry (managed_registries registryNamespace)) wrap errorf "failed to list registries";
  processedURIs ←? for_each (reconcile_registry workloadNamespace registriesByURI config) ∅ existingRegistries wrap (λ e, e);
  for_each (create_missing workloadNamespace registryNamespace config processedURIs) tt
    (range 8 (map_to_list registriesByURI)).
End registries.
