(* ===== verification/WorkloadContributions.v ===== *)
(** * What each namespace contributes to a shared registry

    The abstract view of a managed registry is the set of pairs of a match
    condition and a namespace that needs it.  Updating a registry for a
    namespace replaces the pairs of that namespace and keeps all others; the
    registry is removed when no pair is left. *)

From stdpp Require Import prelude gmap strings list sorting.
From S2P Require Import Prelude Prog Meta Registry Effects WorkloadRegistry.

(** ** The abstract view *)

Abbreviation entry := (matchConditionKey * gmap string string)%type.

(** The conditions of the repositories with their labels. *)
Definition repository_entries (rp : Repository) : list entry :=
  (λ mc, (condition_key (rp_Name rp) mc, mc_Labels mc)) <$> rp_MatchConditions rp.
Definition entries (rs : list Repository) : list entry := rs ≫= repository_entries.

Definition namespaces_of (labels : gmap string string) : list string :=
  omap (λ l, CutPrefix l namespacePrefix) (map_to_list labels).*1.

Definition contributions (rs : list Repository) : gset (matchConditionKey * string) :=
  list_to_set (e ← entries rs; (λ ns, (e.1, ns)) <$> namespaces_of e.2).

Lemma elem_of_namespaces_of labels ns : ns ∈ namespaces_of labels ↔ is_Some (labels !! (namespacePrefix +:+ ns)).
Proof.
  unfold namespaces_of. rewrite list_elem_of_omap. setoid_rewrite list_elem_of_fmap. split.
  - intros (l & ([l' v] & Hl' & Hl) & Hc%CutPrefix_Some). cbn in Hl'. subst. apply elem_of_map_to_list in Hl. by eexists.
  - intros [v Hv]. exists (namespacePrefix +:+ ns). split; [|by apply CutPrefix_Some].
    exists (namespacePrefix +:+ ns, v). split; [done|]. by apply elem_of_map_to_list.
Qed.

Lemma elem_of_contributions rs key ns :
  (key, ns) ∈ contributions rs ↔ ∃ labels, (key, labels) ∈ entries rs ∧ is_Some (labels !! (namespacePrefix +:+ ns)).
Proof.
  unfold contributions. rewrite elem_of_list_to_set, list_elem_of_bind. setoid_rewrite list_elem_of_fmap. split.
  - intros ([key' labels] & (ns' & [= -> ->] & Hns) & He). apply elem_of_namespaces_of in Hns. eauto.
  - intros (labels & He & Hns%elem_of_namespaces_of). exists (key, labels). eauto.
Qed.

Lemma contributions_perm rs1 rs2 : entries rs1 ≡ₚ entries rs2 → contributions rs1 = contributions rs2.
Proof. intros Hp. apply set_eq. intros [key ns]. rewrite !elem_of_contributions. by setoid_rewrite Hp. Qed.

Lemma entries_app rs1 rs2 : entries (rs1 ++ rs2) = entries rs1 ++ entries rs2.
Proof. apply bind_app. Qed.

#[export] Instance entries_perm : Proper ((≡ₚ) ==> (≡ₚ)) entries.
Proof. intros rs1 rs2 Hp. unfold entries. by rewrite Hp. Qed.

Lemma elem_of_extract registry key :
  key ∈ extractMatchConditionsFromRegistry registry ↔ key ∈ (entries (rs_Repositories (rg_Spec registry))).*1.
Proof.
  assert (Hmc : ∀ r mcs (acc : gset matchConditionKey), key ∈ fold_left (λ found mc, {[condition_key r mc]} ∪ found) mcs acc ↔
                             key ∈ (condition_key r <$> mcs) ∨ key ∈ acc).
  { intros r mcs. induction mcs as [|mc mcs IH]; intros acc; cbn; [set_solver|]. rewrite IH. set_solver. }
  unfold extractMatchConditionsFromRegistry. generalize (rs_Repositories (rg_Spec registry)) as rs. intros rs.
  transitivity (key ∈ (entries rs).*1 ∨ key ∈ (∅ : gset matchConditionKey)); [|rewrite elem_of_empty; tauto]. generalize (∅ : gset matchConditionKey) as acc.
  induction rs as [|rp rs IH]; intros acc; cbn [fold_left]; [set_solver|].
  rewrite IH, Hmc. change (entries (rp :: rs)) with (repository_entries rp ++ entries rs).
  rewrite fmap_app, elem_of_app. unfold repository_entries. rewrite <- list_fmap_compose. unfold compose. cbn. tauto.
Qed.

(** ** What is needed *)

Lemma elem_of_needed repositories key :
  key ∈ buildNeededMatchConditions repositories ↔
  ∃ repository tags tag, repositories !! repository = Some tags ∧ tag ∈ tags ∧ key = tag_key repository tag.
Proof.
  assert (Htag : ∀ r tags (acc : gset matchConditionKey), key ∈ fold_left (λ needed tag, {[tag_key r tag]} ∪ needed) tags acc ↔
                               (∃ tag, tag ∈ tags ∧ key = tag_key r tag) ∨ key ∈ acc).
  { intros r tags. induction tags as [|t tags IH]; intros acc; cbn; [set_solver|]. rewrite IH. set_solver. }
  unfold buildNeededMatchConditions. setoid_rewrite <- (elem_of_map_to_list repositories).
  generalize (map_to_list repositories) as l. intros l.
  transitivity ((∃ repository tags tag, (repository, tags) ∈ l ∧ tag ∈ tags ∧ key = tag_key repository tag) ∨
                key ∈ (∅ : gset matchConditionKey)); [|split; [intros [H|H%not_elem_of_empty]; [exact H|done]|by left]].
  generalize (∅ : gset matchConditionKey) as acc.
  induction l as [|[r tags] l IH]; intros acc; cbn [fold_left]; [set_solver|].
  rewrite IH, Htag. setoid_rewrite elem_of_elements. setoid_rewrite elem_of_cons. naive_solver.
Qed.

(** ** Merging *)

Section merge.
Context (ns : string) (needed : gset matchConditionKey).
Abbreviation nsLabel := (namespacePrefix +:+ ns).

(** What becomes of an existing condition. *)
Definition relabel (e : entry) : option entry :=
  let labels := if bool_decide (e.1 ∈ needed) then <[nsLabel := "true"]> e.2 else delete nsLabel e.2 in
  if bool_decide (labels = ∅) then None else Some (e.1, labels).

Lemma process_conditions rp mcs st :
  let st' := fold_left (process_condition ns needed rp) mcs st in
  (λ mc, (condition_key (rp_Name rp) mc, mc_Labels mc)) <$> st'.1 =
    ((λ mc, (condition_key (rp_Name rp) mc, mc_Labels mc)) <$> st.1) ++
    omap relabel ((λ mc, (condition_key (rp_Name rp) mc, mc_Labels mc)) <$> mcs) ∧
  ∀ k, k ∈ st'.2 ↔ k ∈ st.2 ∨ k ∈ needed ∧ k ∈ (condition_key (rp_Name rp) <$> mcs).
Proof.
  revert st. induction mcs as [|mc mcs IH]; intros st.
  { cbn. rewrite app_nil_r. set_solver. }
  cbn [fold_left fmap list_fmap omap list_omap]. destruct (IH (process_condition ns needed rp st mc)) as [He Hm]. split.
  - rewrite He. unfold process_condition at 1, relabel at 2. cbn.
    case_bool_decide as Hn; case_bool_decide as Hl; cbn; rewrite ?fmap_app; cbn; rewrite <- ?app_assoc; done.
  - intros k. rewrite Hm. unfold process_condition. case_bool_decide as Hn; case_bool_decide as Hl; cbn; set_solver.
Qed.

Lemma process_repositories rs st :
  let st' := fold_left (process_repository ns needed) rs st in
  entries st'.1 = entries st.1 ++ omap relabel (entries rs) ∧
  ∀ k, k ∈ st'.2 ↔ k ∈ st.2 ∨ k ∈ needed ∧ k ∈ (entries rs).*1.
Proof.
  revert st. induction rs as [|rp rs IH]; intros st.
  { cbn. rewrite app_nil_r. set_solver. }
  cbn [fold_left]. destruct (IH (process_repository ns needed st rp)) as [He Hm].
  destruct (process_conditions rp (rp_MatchConditions rp) ([], ∅)) as [Hce Hcm].
  fold (processRepositoryMatchConditions ns needed rp) in Hce, Hcm.
  change (entries (rp :: rs)) with (repository_entries rp ++ entries rs). split.
  - rewrite He, omap_app, app_assoc. f_equal. unfold process_repository.
    destruct (processRepositoryMatchConditions ns needed rp) as [mcs processed]. cbn in Hce |- *.
    fold (repository_entries rp) in Hce. rewrite <- Hce. case_bool_decide as Hnil; [subst; by rewrite app_nil_r|].
    rewrite entries_app. cbn. by rewrite app_nil_r.
  - intros k. rewrite Hm, fmap_app, elem_of_app. unfold process_repository.
    destruct (processRepositoryMatchConditions ns needed rp) as [mcs processed]. cbn in Hcm |- *.
    unfold repository_entries at 1. rewrite <- list_fmap_compose. unfold compose. cbn.
    rewrite elem_of_union, Hcm, elem_of_empty. tauto.
Qed.

Lemma entries_add_condition rs key :
  entries (add_condition ns rs key) ≡ₚ (key, {[nsLabel := "true"]}) :: entries rs.
Proof.
  assert (Hat : ∀ rs i rp, rs !! i = Some rp → rp_Name rp = mk_repository key →
    entries (alter (λ rp, with_MatchConditions (rp_MatchConditions rp ++ [new_condition ns key]) rp) i rs) ≡ₚ
    (key, {[nsLabel := "true"]}) :: entries rs).
  { clear rs. induction rs as [|rp' rs IH]; intros i rp Hi Hn; [done|]. destruct i as [|i]; cbn in Hi |- *.
    - injection Hi as ->.
      assert ((condition_key (rp_Name rp) (new_condition ns key), {[nsLabel := "true"]} : gmap string string) =
              (key, {[nsLabel := "true"]})) as Hk by (rewrite Hn; by destruct key).
      change (repository_entries (with_MatchConditions (rp_MatchConditions rp ++ [new_condition ns key]) rp) ++ entries rs
              ≡ₚ (key, {[nsLabel := "true"]}) :: repository_entries rp ++ entries rs).
      unfold repository_entries. cbn [with_MatchConditions rp_MatchConditions rp_Name]. rewrite fmap_app, <- app_assoc.
      cbn [fmap list_fmap app mc_Labels new_condition]. rewrite <- Permutation_middle, Hk. done.
    - change (entries (rp' :: rs)) with (repository_entries rp' ++ entries rs).
      change (repository_entries rp' ++ entries (alter (λ rp, with_MatchConditions (rp_MatchConditions rp ++ [new_condition ns key]) rp) i rs)
              ≡ₚ (key, {[nsLabel := "true"]}) :: repository_entries rp' ++ entries rs).
      rewrite (IH i rp Hi Hn). apply Permutation_sym, Permutation_middle. }
  unfold add_condition, findOrAppendRepository.
  destruct (list_find _ _) as [[i rp]|] eqn:Hf.
  - apply list_find_Some in Hf as (Hi & Hn & _). by eapply Hat.
  - rewrite (Hat _ _ {| rp_Name := mk_repository key; rp_MatchConditions := []; rp_MatchOperator := MatchOperatorOr |});
      [|by rewrite list_lookup_middle|done].
    rewrite entries_app. cbn. by rewrite app_nil_r.
Qed.
End merge.

Lemma ns_label_inj ns ns' : namespacePrefix +:+ ns = namespacePrefix +:+ ns' → ns = ns'.
Proof. intros H. pose proof (CutPrefix_app namespacePrefix ns) as H'. rewrite H, CutPrefix_app in H'. by injection H'. Qed.

Section update.
Context `{!GoSort, !MapRange}.

Lemma entries_addNew ns rs keys :
  entries (addNewMatchConditions ns rs keys) ≡ₚ
  ((λ k, (k, {[namespacePrefix +:+ ns := "true"]})) <$> elements keys) ++ entries rs.
Proof.
  unfold addNewMatchConditions. pose proof (range_perm 5 (elements keys)) as Hp. revert Hp.
  generalize (range 5 (elements keys)) as ks. intros ks <-. revert rs.
  induction ks as [|k ks IH]; intros rs; cbn [fold_left fmap list_fmap]; [done|].
  rewrite IH, entries_add_condition. cbn. symmetry. apply Permutation_middle.
Qed.

Lemma entries_sort rs : entries (sortRepositories rs) ≡ₚ entries rs.
Proof.
  transitivity (entries (sort_Slice (name_less rp_Name) rs)); [|by rewrite sort_Slice_perm].
  unfold sortRepositories. induction (sort_Slice (name_less rp_Name) rs) as [|rp rs' IH]; [done|].
  cbn [fmap list_fmap]. change (entries (?a :: ?l)) with (repository_entries a ++ entries l).
  apply Permutation_app; [|exact IH]. unfold repository_entries. cbn. by rewrite sort_Slice_perm.
Qed.

Lemma entries_updated ns repositories rs :
  let needed := buildNeededMatchConditions repositories in
  entries (updated_repositories ns repositories rs) ≡ₚ
  ((λ k, (k, {[namespacePrefix +:+ ns := "true"]})) <$> elements (needed ∖ list_to_set (entries rs).*1)) ++
  omap (relabel ns needed) (entries rs).
Proof.
  intros needed. unfold updated_repositories. fold needed.
  destruct (process_repositories ns needed rs ([], ∅)) as [He Hm].
  fold (processExistingRepositories ns needed rs) in He, Hm.
  destruct (processExistingRepositories ns needed rs) as [processed matched]. cbn [fst snd] in He, Hm. rewrite entries_addNew, He.
  assert (needed ∖ matched = needed ∖ list_to_set (entries rs).*1) as ->; [|done].
  apply set_eq. intros k. rewrite !elem_of_difference, Hm, elem_of_list_to_set, elem_of_empty. tauto.
Qed.

Lemma elem_of_relabel ns needed (es : list entry) key (labels : gmap string string) :
  (key, labels) ∈ omap (relabel ns needed) es ↔
  ∃ labels0, (key, labels0) ∈ es ∧ labels ≠ ∅ ∧
    labels = if bool_decide (key ∈ needed) then <[namespacePrefix +:+ ns := "true"]> labels0
             else delete (namespacePrefix +:+ ns) labels0.
Proof.
  rewrite list_elem_of_omap. unfold relabel. split.
  - intros ([key' labels0] & He & Hr). cbn in Hr. repeat case_bool_decide; simplify_eq; exists labels0; by rewrite ?bool_decide_eq_true_2, ?bool_decide_eq_false_2.
  - intros (labels0 & He & Hne & Hl). exists (key, labels0). split; [done|]. cbn. rewrite <- Hl. by rewrite bool_decide_eq_false_2.
Qed.

(** The update as an operation on the set of contributions. *)
Lemma contributions_updated ns repositories rs :
  contributions (sortRepositories (updated_repositories ns repositories rs)) =
  filter (λ p, p.2 ≠ ns) (contributions rs) ∪ set_map (λ k, (k, ns)) (buildNeededMatchConditions repositories).
Proof.
  set (needed := buildNeededMatchConditions repositories).
  rewrite (contributions_perm _ _ (entries_sort _)). apply set_eq. intros [key ns'].
  rewrite elem_of_union, elem_of_filter, elem_of_map, !elem_of_contributions. cbn [snd].
  setoid_rewrite entries_updated. fold needed. setoid_rewrite elem_of_app. setoid_rewrite elem_of_relabel.
  setoid_rewrite list_elem_of_fmap. setoid_rewrite elem_of_elements. setoid_rewrite elem_of_difference.
  setoid_rewrite elem_of_list_to_set. split.
  - intros (labels & [(k & [= -> ->] & Hk & _) | (labels0 & He & _ & ->)] & Hs).
    + rewrite lookup_singleton_is_Some in Hs. apply ns_label_inj in Hs as ->. right. by exists k.
    + destruct (decide (ns' = ns)) as [->|Hne].
      * right. exists key. split; [done|]. case_bool_decide; [done|]. rewrite lookup_delete_eq in Hs. by destruct Hs.
      * left. split; [done|]. exists labels0. split; [done|].
        assert (namespacePrefix +:+ ns ≠ namespacePrefix +:+ ns') by (intros ?%ns_label_inj; congruence).
        case_bool_decide; [by rewrite lookup_insert_ne in Hs|by rewrite lookup_delete_ne in Hs].
  - intros [[Hne (labels0 & He & Hs)] | (k & [= -> ->] & Hk)].
    + assert (namespacePrefix +:+ ns ≠ namespacePrefix +:+ ns') by (intros ?%ns_label_inj; congruence).
      exists (if bool_decide (key ∈ needed) then <[namespacePrefix +:+ ns := "true"]> labels0
              else delete (namespacePrefix +:+ ns) labels0).
      split; [right; exists labels0; split; [done|]; split; [|reflexivity]|]; cycle 1.
      * case_bool_decide; by rewrite ?lookup_insert_ne, ?lookup_delete_ne.
      * destruct Hs as [v Hv]. intros Hemp. apply (f_equal (λ m : gmap _ _, m !! (namespacePrefix +:+ ns'))) in Hemp.
        rewrite lookup_empty in Hemp. case_bool_decide; by rewrite ?lookup_insert_ne, ?lookup_delete_ne, Hv in Hemp.
    + destruct (decide (k ∈ (entries rs).*1)) as [Hin|Hin].
      * apply list_elem_of_fmap in Hin as ([key' labels0] & Heq & He). cbn in Heq. subst key'.
        exists (<[namespacePrefix +:+ ns := "true"]> labels0). split; [|by rewrite lookup_insert_eq].
        right. exists labels0. rewrite bool_decide_eq_true_2 by done. split; [done|]. split; [apply insert_non_empty|done].
      * exists {[namespacePrefix +:+ ns := "true"]}. split; [|by rewrite lookup_singleton_eq]. left. by exists k.
Qed.
End update.

(** ** Well-formed registries *)

Definition namespace_labels (labels : gmap string string) : Prop :=
  labels ≠ ∅ ∧ ∀ l, is_Some (labels !! l) → HasPrefix l namespacePrefix = true.

Definition alternatives (rp : Repository) : Prop := rp_MatchConditions rp ≠ [] ∧ rp_MatchOperator rp = MatchOperatorOr.

Record managed_ok (rs : list Repository) : Prop := {
  mo_names : NoDup (rp_Name <$> rs);
  mo_keys : NoDup (entries rs).*1;
  mo_labels : Forall (λ e, namespace_labels e.2) (entries rs);
  mo_alternatives : Forall alternatives rs
}.

Lemma add_condition_spec ns rs key :
  ∃ l rp r, add_condition ns rs key = l ++ with_MatchConditions (rp_MatchConditions rp ++ [new_condition ns key]) rp :: r ∧
    rp_Name rp = mk_repository key ∧
    (rs = l ++ rp :: r ∨
     rs = l ∧ r = [] ∧ mk_repository key ∉ (rp_Name <$> rs) ∧
       rp = {| rp_Name := mk_repository key; rp_MatchConditions := []; rp_MatchOperator := MatchOperatorOr |}).
Proof.
  assert (Hat : ∀ (l r : list Repository) rp f, alter f (length l) (l ++ rp :: r) = l ++ f rp :: r).
  { induction l as [|x l IH]; intros; cbn; [done|]. f_equal. apply IH. }
  unfold add_condition, findOrAppendRepository. destruct (list_find _ _) as [[i rp]|] eqn:Hf.
  - apply list_find_Some in Hf as (Hi & Hn & _). exists (take i rs), rp, (drop (S i) rs).
    pose proof (take_drop_middle rs i rp Hi) as Hrs. rewrite Hrs. split; [|eauto].
    rewrite <- Hrs at 1. pose proof (lookup_lt_Some _ _ _ Hi).
    replace i with (length (take i rs)) at 1 by (rewrite length_take_le; lia).
    exact (Hat (take i rs) (drop (S i) rs) rp
             (λ rp, with_MatchConditions (rp_MatchConditions rp ++ [new_condition ns key]) rp)).
  - eexists rs, _, []. split.
    { exact (Hat rs [] _ (λ rp, with_MatchConditions (rp_MatchConditions rp ++ [new_condition ns key]) rp)). }
    split; [done|]. right. split_and!; try done.
    apply list_find_None in Hf. intros (rp & Heq & Hrp)%list_elem_of_fmap. rewrite Forall_forall in Hf. by eapply Hf.
Qed.

Lemma add_condition_names ns rs key :
  NoDup (rp_Name <$> rs) → NoDup (rp_Name <$> add_condition ns rs key).
Proof.
  destruct (add_condition_spec ns rs key) as (l & rp & r & -> & Hn & [-> | (-> & -> & Hnew & ->)]); rewrite !fmap_app; cbn; [done|].
  intros Hl. apply NoDup_app. split_and!; [done| |apply NoDup_singleton]. set_solver.
Qed.

Lemma add_condition_alternatives ns rs key : Forall alternatives rs → Forall alternatives (add_condition ns rs key).
Proof.
  destruct (add_condition_spec ns rs key) as (l & rp & r & -> & Hn & [-> | (-> & -> & Hnew & ->)]); intros Hrs.
  - apply Forall_app in Hrs as [Hl [Hrp Hr]%Forall_cons]. apply Forall_app. split; [done|]. constructor; [|done].
    destruct Hrp. split; [|done]. cbn. by destruct (rp_MatchConditions rp).
  - apply Forall_app. split; [done|]. by repeat constructor.
Qed.

Lemma process_shape ns needed rs st :
  let st' := fold_left (process_repository ns needed) rs st in
  Forall alternatives st.1 →
  Forall alternatives st'.1 ∧ rp_Name <$> st'.1 `sublist_of` (rp_Name <$> st.1) ++ (rp_Name <$> rs).
Proof.
  revert st. induction rs as [|rp rs IH]; intros st st' Hst; [by rewrite app_nil_r|].
  cbn [fold_left] in st'.
  assert (Forall alternatives (process_repository ns needed st rp).1 ∧
          rp_Name <$> (process_repository ns needed st rp).1 `sublist_of` (rp_Name <$> st.1) ++ [rp_Name rp]) as [Ha Hs].
  { unfold process_repository. destruct (processRepositoryMatchConditions ns needed rp) as [mcs processed]. cbn [fst].
    case_bool_decide; [split; [done|by apply sublist_inserts_r]|]. rewrite fmap_app. split; [|done].
    apply Forall_app. split; [done|]. by repeat constructor. }
  destruct (IH _ Ha) as [Ha' Hs']. split; [exact Ha'|]. etransitivity; [exact Hs'|].
  cbn [fmap list_fmap]. change (rp_Name rp :: ?l) with ([rp_Name rp] ++ l). rewrite app_assoc. by apply sublist_app.
Qed.

Lemma relabel_ok ns needed e e' :
  (∀ l, is_Some (e.2 !! l) → HasPrefix l namespacePrefix = true) → relabel ns needed e = Some e' → namespace_labels e'.2.
Proof.
  unfold relabel. intros He. case_bool_decide as Hn; case_bool_decide as Hne; intros [= <-]; (split; [done|]); intros l; cbn; intros Hl.
  - destruct (decide (l = namespacePrefix +:+ ns)) as [->|Hl'].
    + unfold HasPrefix. by rewrite CutPrefix_app.
    + rewrite lookup_insert_ne in Hl by done. auto.
  - apply He. destruct Hl as [v Hv]. apply lookup_delete_Some in Hv as [_ Hv]. by eexists.
Qed.

Lemma relabel_keys ns needed (es : list entry) : (omap (relabel ns needed) es).*1 `sublist_of` es.*1.
Proof.
  induction es as [|[k labels] es IH]; [done|]. cbn [omap list_omap fmap list_fmap]. unfold relabel at 1. cbn [fst snd].
  case_bool_decide as Hn; case_bool_decide as Hne; cbn; by constructor.
Qed.

Section invariant.
Context `{!GoSort, !MapRange}.

Lemma addNew_shape ns rs keys :
  NoDup (rp_Name <$> rs) → Forall alternatives rs →
  NoDup (rp_Name <$> addNewMatchConditions ns rs keys) ∧ Forall alternatives (addNewMatchConditions ns rs keys).
Proof.
  unfold addNewMatchConditions. generalize (range 5 (elements keys)) as ks. intros ks. revert rs.
  induction ks as [|k ks IH]; intros rs Hn Ha; cbn [fold_left]; [done|].
  apply IH; [by apply add_condition_names|by apply add_condition_alternatives].
Qed.

Lemma sort_names rs : rp_Name <$> sortRepositories rs ≡ₚ rp_Name <$> rs.
Proof.
  unfold sortRepositories. rewrite <- list_fmap_compose.
  rewrite (list_fmap_ext (rp_Name ∘ _) rp_Name _ (λ i x Hx, eq_refl)). by rewrite sort_Slice_perm.
Qed.

Lemma sort_alternatives rs : Forall alternatives rs → Forall alternatives (sortRepositories rs).
Proof.
  intros Ha. unfold sortRepositories. apply Forall_fmap. rewrite sort_Slice_perm.
  eapply Forall_impl; [exact Ha|]. intros rp [Hne Hop]. split; [|done]. cbn. intros Hnil.
  apply (f_equal length) in Hnil. rewrite length_sort_Slice in Hnil. by destruct (rp_MatchConditions rp).
Qed.

Lemma sort_managed_ok rs : managed_ok rs → managed_ok (sortRepositories rs).
Proof.
  intros [Hn Hk Hl Ha]. split; [by rewrite sort_names|by rewrite entries_sort|by rewrite entries_sort|by apply sort_alternatives].
Qed.

Lemma new_label_ok ns : namespace_labels {[namespacePrefix +:+ ns := "true"]}.
Proof.
  split; [apply map_non_empty_singleton|]. intros l. rewrite lookup_singleton_is_Some. intros <-.
  unfold HasPrefix. by rewrite CutPrefix_app.
Qed.

Lemma updated_alternatives ns repositories rs :
  NoDup (rp_Name <$> rs) →
  NoDup (rp_Name <$> updated_repositories ns repositories rs) ∧ Forall alternatives (updated_repositories ns repositories rs).
Proof.
  intros Hn. unfold updated_repositories.
  destruct (process_shape ns (buildNeededMatchConditions repositories) rs ([], ∅) (Forall_nil_2 _)) as [Ha Hs].
  fold (processExistingRepositories ns (buildNeededMatchConditions repositories) rs) in Ha, Hs.
  destruct (processExistingRepositories _ _ _) as [processed matched]. apply addNew_shape; [|done].
  by eapply sublist_NoDup.
Qed.

Lemma fmap_pair_fst {A B} (b : B) (l : list A) : ((λ a, (a, b)) <$> l).*1 = l.
Proof. induction l as [|a l IH]; [done|]. cbn. by f_equal. Qed.

Lemma updated_ok ns repositories rs : managed_ok rs → managed_ok (updated_repositories ns repositories rs).
Proof.
  intros [Hn Hk Hl _]. destruct (updated_alternatives ns repositories rs Hn) as [Hn' Ha']. split; [done| | |done].
  - rewrite entries_updated, fmap_app. apply NoDup_app. split_and!.
    + rewrite fmap_pair_fst. apply NoDup_elements.
    + intros k. rewrite fmap_pair_fst, elem_of_elements, elem_of_difference, elem_of_list_to_set. intros [_ Hnot] Hin. apply Hnot.
      eapply elem_of_sublist; [exact Hin|]. apply relabel_keys.
    + eapply sublist_NoDup; [exact Hk|]. apply relabel_keys.
  - rewrite entries_updated. apply Forall_app. split.
    + apply Forall_fmap, Forall_true. intros k. cbn. apply new_label_ok.
    + apply Forall_forall. intros e (e0 & He0 & Hr)%list_elem_of_omap. eapply relabel_ok; [|exact Hr].
      rewrite Forall_forall in Hl. apply (Hl _ He0).
Qed.

(** A well-formed registry without contributions has no repositories. *)
Lemma no_contributions rs : managed_ok rs → contributions rs = ∅ → rs = [].
Proof.
  intros [_ _ Hl Ha] Hc. destruct rs as [|rp rs]; [done|exfalso]. apply Forall_cons in Ha as [[Hne _] _].
  destruct (rp_MatchConditions rp) as [|mc mcs] eqn:Hmcs; [done|].
  assert ((condition_key (rp_Name rp) mc, mc_Labels mc) ∈ entries (rp :: rs)) as He.
  { cbn. apply elem_of_app. left. unfold repository_entries. rewrite Hmcs. cbn. apply elem_of_cons. by left. }
  rewrite Forall_forall in Hl. destruct (Hl _ He) as [Hlne Hpre]. cbn in Hlne, Hpre.
  apply map_choose in Hlne as (l & v & Hlv). pose proof (Hpre l ltac:(by eexists)) as Hp. unfold HasPrefix in Hp.
  destruct (CutPrefix l namespacePrefix) as [ns|] eqn:Hcut; [|done]. apply CutPrefix_Some in Hcut as ->.
  assert ((condition_key (rp_Name rp) mc, ns) ∈ contributions (rp :: rs)) as Hin.
  { apply elem_of_contributions. eexists. split; [exact He|]. by eexists. }
  rewrite Hc in Hin. by apply not_elem_of_empty in Hin.
Qed.
End invariant.
