(* ===== verification/WorkloadReconcile.v ===== *)
(** * Reconciling the registries of a namespace

    What a pass of [reconcileRegistries] leaves in the cluster, whatever the API
    server answers: the namespace contributes exactly the images of its pods,
    and the contributions of the other namespaces are what they were. *)

From stdpp Require Import prelude gmap strings list sorting.
From Stdlib Require Import Ascii.
From S2P Require Import Prelude Prog Meta GoPath Registry Effects WorkloadRegistry WorkloadContributions.

(** ** The registries of the cluster *)

(** The effect of the answer of a call on the managed registries of a
    namespace; a registry that is not found any more counts as deleted. *)
Definition apply_write (regs : list Registry) (o : obs Eff) : list Registry :=
  match ev_create KRegistry o, ev_update KRegistry o, ev_delete KRegistry o with
  | Some (g, Ok _), _, _ => regs ++ [g]
  | _, Some (g, Ok _), _ => (λ g', if bool_decide (rg_Name g' = rg_Name g) then g else g') <$> regs
  | _, _, Some (g, Ok _) => filter (λ g', rg_Name g' ≠ rg_Name g) regs
  | _, _, Some (g, Err e) => if IsNotFound e then filter (λ g', rg_Name g' ≠ rg_Name g) regs else regs
  | _, _, _ => regs
  end.

Definition after (tr : trace Eff) (regs : list Registry) : list Registry := fold_left apply_write tr regs.

Definition repositories_of (g : Registry) : list Repository := rs_Repositories (rg_Spec g).

(** Which namespace needs which condition of which host. *)
Definition cluster_contributions (regs : list Registry) : gset (string * (matchConditionKey * string)) :=
  list_to_set (g ← regs; (λ c, (rs_URI (rg_Spec g), c)) <$> elements (contributions (repositories_of g))).

Lemma elem_of_cluster regs uri c :
  (uri, c) ∈ cluster_contributions regs ↔
  ∃ g, g ∈ regs ∧ rs_URI (rg_Spec g) = uri ∧ c ∈ contributions (repositories_of g).
Proof.
  unfold cluster_contributions. rewrite elem_of_list_to_set, list_elem_of_bind. setoid_rewrite list_elem_of_fmap.
  setoid_rewrite elem_of_elements. naive_solver.
Qed.

Lemma after_app tr1 tr2 regs : after (tr1 ++ tr2) regs = after tr2 (after tr1 regs).
Proof. apply fold_left_app. Qed.

(** Replacing and removing one registry among others. *)
Lemma replace_middle (g g' : Registry) l r :
  rg_Name g' = rg_Name g → rg_Name g ∉ (rg_Name <$> l) → rg_Name g ∉ (rg_Name <$> r) →
  (λ h, if bool_decide (rg_Name h = rg_Name g') then g' else h) <$> (l ++ g :: r) = l ++ g' :: r.
Proof.
  intros Hn Hl Hr. rewrite fmap_app. cbn. rewrite bool_decide_eq_true_2 by done.
  assert (Hid : ∀ m : list Registry, rg_Name g ∉ (rg_Name <$> m) →
    (λ h, if bool_decide (rg_Name h = rg_Name g') then g' else h) <$> m = m).
  { intros m Hm. rewrite <- (list_fmap_id m) at 2. apply list_fmap_ext. intros i h Hh. rewrite bool_decide_eq_false_2; [done|].
    intros Heq. apply Hm. rewrite <- Hn, <- Heq. apply list_elem_of_fmap_2. by eapply list_elem_of_lookup_2. }
  by rewrite !Hid.
Qed.

Lemma remove_middle (g : Registry) l r :
  rg_Name g ∉ (rg_Name <$> l) → rg_Name g ∉ (rg_Name <$> r) →
  filter (λ h, rg_Name h ≠ rg_Name g) (l ++ g :: r) = l ++ r.
Proof.
  assert (Hid : ∀ m : list Registry, rg_Name g ∉ (rg_Name <$> m) → filter (λ h, rg_Name h ≠ rg_Name g) m = m).
  { induction m as [|h m IH]; [done|]. rewrite fmap_cons, not_elem_of_cons. intros [Hh Hm].
    rewrite filter_cons_True by done. by rewrite IH. }
  intros Hl Hr. rewrite filter_app, filter_cons_False by (intros H; by apply H). by rewrite !Hid.
Qed.

(** ** Images and registries *)

Section images.
Context `{!Names, !GoSort, !MapRange}.

(** The host, repository and tag (or digest) of an image that can be parsed. *)
Definition image_parts (image : string) : option (string * string * string) :=
  if bool_decide (image = "") then None
  else match ParseReference false image with
       | Err _ => None
       | Ok ref => Some (ref_RegistryStr ref, ref_RepositoryStr ref, ref_Identifier ref)
       end.

(** The conditions a namespace with these pods needs, with their hosts. *)
Definition needed_images (pods : list Pod) : gset (string * matchConditionKey) :=
  list_to_set (image ← (pods ≫= λ pod, extractImagesFromPodSpec (pod_Spec pod));
               match image_parts image with Some (uri, repository, tag) => [(uri, tag_key repository tag)] | None => [] end).

Lemma elem_of_images_of pods image :
  image ∈ images_of pods ↔ image ∈ (pods ≫= λ pod, extractImagesFromPodSpec (pod_Spec pod)).
Proof.
  unfold images_of. transitivity (image ∈ (∅ : gset string) ∨ image ∈ (pods ≫= λ pod, extractImagesFromPodSpec (pod_Spec pod)));
    [|rewrite elem_of_empty; tauto].
  generalize (∅ : gset string) as acc. induction pods as [|pod pods IH]; intros acc; cbn [fold_left mbind list_bind].
  - rewrite elem_of_nil. tauto.
  - rewrite IH, elem_of_union, elem_of_list_to_set, elem_of_app. tauto.
Qed.

(** An entry of the three-level map. *)
Definition grouped (m : gmap string repositoryTags) (uri repository tag : string) : Prop :=
  ∃ repositories tags, m !! uri = Some repositories ∧ repositories !! repository = Some tags ∧ tag ∈ tags.

Lemma group_image_spec m image uri repository tag :
  grouped (group_image m image) uri repository tag ↔
  grouped m uri repository tag ∨ image_parts image = Some (uri, repository, tag).
Proof.
  unfold group_image, image_parts. case_bool_decide; [naive_solver|].
  destruct (ParseReference false image) as [ref|e]; [|naive_solver]. cbv zeta. unfold grouped.
  destruct (decide (ref_RegistryStr ref = uri)) as [<-|Hu].
  - rewrite lookup_insert_eq. destruct (decide (ref_RepositoryStr ref = repository)) as [<-|Hr].
    + split.
      * intros (rs & tags & [= <-] & Hrs & Ht). rewrite lookup_insert_eq in Hrs. injection Hrs as <-.
        apply elem_of_union in Ht as [->%elem_of_singleton|Ht]; [by right|left].
        destruct (m !! ref_RegistryStr ref) as [rs|]; [|cbn in Ht; by rewrite lookup_empty in Ht]. cbn in Ht.
        destruct (rs !! ref_RepositoryStr ref) as [tags|] eqn:Htags; [|done]. eauto.
      * intros [(rs & tags & Hrs & Ht & Hin) | [= <-]]; do 2 eexists; (split; [reflexivity|]);
          (split; [apply lookup_insert_eq|]); [|set_solver]. rewrite Hrs. cbn. rewrite Ht. set_solver.
    + split.
      * intros (rs & tags & [= <-] & Hrs & Ht). rewrite lookup_insert_ne in Hrs by done. left.
        destruct (m !! ref_RegistryStr ref) as [rs|]; [|cbn in Hrs; by rewrite lookup_empty in Hrs]. eauto.
      * intros [(rs & tags & Hrs & Ht & Hin) | [= ?]]; [|done]. do 2 eexists. split; [reflexivity|].
        rewrite lookup_insert_ne by done. rewrite Hrs. eauto.
  - rewrite lookup_insert_ne by done. naive_solver.
Qed.

Lemma group_spec images uri repository tag :
  grouped (groupImagesByRegistry images) uri repository tag ↔
  ∃ image, image ∈ images ∧ image_parts image = Some (uri, repository, tag).
Proof.
  unfold groupImagesByRegistry. setoid_rewrite <- elem_of_elements. generalize (elements images) as l. intros l.
  transitivity (grouped ∅ uri repository tag ∨ ∃ image, image ∈ l ∧ image_parts image = Some (uri, repository, tag)).
  - generalize (∅ : gmap string repositoryTags) as m. induction l as [|image l IH]; intros m; cbn [fold_left].
    + setoid_rewrite elem_of_nil. naive_solver.
    + rewrite IH, group_image_spec. setoid_rewrite elem_of_cons. naive_solver.
  - unfold grouped. setoid_rewrite lookup_empty. naive_solver.
Qed.

(** Every repository of the map has a tag. *)
Definition tagged (repositories : repositoryTags) : Prop := map_Forall (λ _ tags, tags ≠ ∅) repositories.

Lemma group_tagged images : map_Forall (λ _ repositories, tagged repositories ∧ repositories ≠ ∅) (groupImagesByRegistry images).
Proof.
  unfold groupImagesByRegistry. assert (map_Forall (λ _ repositories, tagged repositories ∧ repositories ≠ ∅) (∅ : gmap string repositoryTags)) as Hm
    by apply map_Forall_empty. revert Hm. generalize (∅ : gmap string repositoryTags) as m.
  induction (elements images) as [|image l IH]; intros m Hm; cbn [fold_left]; [done|]. apply IH.
  unfold group_image. case_bool_decide; [done|]. destruct (ParseReference false image) as [ref|]; [|done].
  apply map_Forall_insert_2; [|done]. split; [|apply insert_non_empty]. apply map_Forall_insert_2; [set_solver|].
  destruct (m !! ref_RegistryStr ref) as [rs|] eqn:Hrs; [by apply (Hm _ _ Hrs)|apply map_Forall_empty].
Qed.

(** The three-level map and the flat set say the same. *)
Lemma elem_of_needed_images pods uri key :
  (uri, key) ∈ needed_images pods ↔
  key ∈ buildNeededMatchConditions (default ∅ (groupImagesByRegistry (images_of pods) !! uri)).
Proof.
  rewrite elem_of_needed. unfold needed_images. rewrite elem_of_list_to_set, list_elem_of_bind.
  setoid_rewrite <- elem_of_images_of. split.
  - intros (image & Hin & Himg). destruct (image_parts image) as [[[u r] t]|] eqn:Hp; [|by apply elem_of_nil in Hin].
    apply list_elem_of_singleton in Hin as [= -> ->].
    assert (grouped (groupImagesByRegistry (images_of pods)) u r t) as (rs & tags & Hrs & Ht & Hin) by (apply group_spec; eauto).
    exists r, tags, t. by rewrite Hrs.
  - intros (r & tags & t & Hrs & Ht & ->).
    destruct (groupImagesByRegistry (images_of pods) !! uri) as [rs|] eqn:Hu; [|cbn in Hrs; by rewrite lookup_empty in Hrs].
    destruct (proj1 (group_spec (images_of pods) uri r t)) as (image & Himg & Hp); [by exists rs, tags|].
    exists image. rewrite Hp. split; [by apply list_elem_of_singleton|done].
Qed.
End images.

(** ** A new registry *)

Section created.
Context `{!GoSort, !MapRange}.

Definition tag_entry (ns repository tag : string) : entry :=
  (tag_key repository tag, {[namespacePrefix +:+ ns := "true"]}).

Lemma created_entries ns repositories :
  entries (created_repositories ns repositories) ≡ₚ
  ('(repository, tags) ← map_to_list repositories; tag_entry ns repository <$> elements tags).
Proof.
  unfold created_repositories. pose proof (range_perm 7 (map_to_list repositories)) as Hp. revert Hp.
  generalize (range 7 (map_to_list repositories)) as l. intros l <-.
  induction l as [|[r tags] l IH]; [done|]. cbn [fmap list_fmap mbind list_bind].
  change (entries (?a :: ?l)) with (repository_entries a ++ entries l). rewrite IH. apply Permutation_app_tail.
  unfold repository_entries. cbn. rewrite <- list_fmap_compose, (range_perm 6). done.
Qed.

Lemma contributions_created ns repositories :
  contributions (sortRepositories (created_repositories ns repositories)) =
  set_map (λ k, (k, ns)) (buildNeededMatchConditions repositories).
Proof.
  rewrite (contributions_perm _ _ (entries_sort _)). apply set_eq. intros [key ns'].
  rewrite elem_of_contributions, elem_of_map. setoid_rewrite created_entries. setoid_rewrite list_elem_of_bind.
  setoid_rewrite elem_of_needed. split.
  - intros (labels & ([r tags] & Hin & Hr%elem_of_map_to_list) & Hs). apply list_elem_of_fmap in Hin as (t & [= -> ->] & Ht%elem_of_elements).
    rewrite lookup_singleton_is_Some in Hs. apply ns_label_inj in Hs as <-. eexists. split; [reflexivity|]. eauto 10.
  - intros (k & [= -> ->] & r & tags & t & Hr & Ht & ->). eexists. split; [|by rewrite lookup_singleton_eq].
    exists (r, tags). split; [|by apply elem_of_map_to_list]. apply list_elem_of_fmap. exists t. split; [done|]. by apply elem_of_elements.
Qed.

Lemma tag_key_inj r tag r' tag' : tag_key r tag = tag_key r' tag' → r = r' ∧ tag = tag'.
Proof.
  intros [= -> Hn _]. done.
Qed.

Lemma elem_of_tag_entries ns (l : list (string * gset string)) k :
  k ∈ (('(r, tags) ← l; tag_entry ns r <$> elements tags) : list entry).*1 ↔
  ∃ r tags tag, (r, tags) ∈ l ∧ tag ∈ tags ∧ k = tag_key r tag.
Proof.
  rewrite list_elem_of_fmap. setoid_rewrite list_elem_of_bind. split.
  - intros (e & -> & [r tags] & Hin & Hr). apply list_elem_of_fmap in Hin as (t & -> & Ht%elem_of_elements). eauto 10.
  - intros (r & tags & t & Hr & Ht & ->). exists (tag_entry ns r t). split; [done|]. exists (r, tags). split; [|done].
    apply list_elem_of_fmap. exists t. split; [done|]. by apply elem_of_elements.
Qed.

Lemma tag_entries_nodup ns (l : list (string * gset string)) :
  NoDup l.*1 → NoDup (('(r, tags) ← l; tag_entry ns r <$> elements tags) : list entry).*1.
Proof.
  induction l as [|[r tags] l IH]; [constructor|]. intros [Hr Hl]%NoDup_cons.
  change (('(r, tags) ← (r, tags) :: l; tag_entry ns r <$> elements tags) : list entry)
    with ((tag_entry ns r <$> elements tags) ++ (('(r, tags) ← l; tag_entry ns r <$> elements tags) : list entry)).
  rewrite fmap_app. apply NoDup_app. split_and!; [| |by apply IH].
  - rewrite <- list_fmap_compose. apply NoDup_fmap_2; [|apply NoDup_elements]. intros t t' Heq. by apply tag_key_inj in Heq as [_ ->].
  - intros k (e & -> & He)%list_elem_of_fmap (r' & tags' & t' & Hin & _ & Heq)%elem_of_tag_entries.
    apply list_elem_of_fmap in He as (t & -> & _). apply tag_key_inj in Heq as [<- _]. apply Hr.
    apply list_elem_of_fmap. by exists (r, tags').
Qed.

Lemma created_ok ns repositories : tagged repositories → managed_ok (created_repositories ns repositories).
Proof.
  intros Htag. split.
  - unfold created_repositories. rewrite <- list_fmap_compose.
    erewrite (list_fmap_ext _ fst); [rewrite range_perm; apply NoDup_fst_map_to_list|by intros i [r tags] _].
  - rewrite created_entries. apply tag_entries_nodup, NoDup_fst_map_to_list.
  - rewrite created_entries. apply Forall_forall. intros e ([r tags] & Hin & _)%list_elem_of_bind.
    apply list_elem_of_fmap in Hin as (t & -> & _). apply new_label_ok.
  - unfold created_repositories. apply Forall_fmap, Forall_forall. intros [r tags] Hin. rewrite range_perm in Hin.
    apply elem_of_map_to_list in Hin. split; [|done]. cbn. intros Hnil%fmap_nil_inv. apply (Htag _ _ Hin).
    apply leibniz_equiv, elements_empty_iff, Permutation_nil_r. by rewrite <- (range_perm 6), Hnil.
Qed.
End created.

(** ** The passes *)

Section passes.
Context `{!Names, !GoSort, !MapRange, !JSON RescanRequest}.
Context (ns : string) (config : WorkloadScanConfiguration).

(** What becomes of an existing registry. *)
Definition settles (repositories : repositoryTags) (g : Registry) (og : option Registry) : Prop :=
  let updated := updated_repositories ns repositories (repositories_of g) in
  match og with
  | None => updated = []
  | Some g' => updated ≠ [] ∧ rg_Name g' = rg_Name g ∧ rs_URI (rg_Spec g') = rs_URI (rg_Spec g) ∧
               repositories_of g' = sortRepositories updated
  end.

Lemma wp_write_registry (g : Registry) pre :
  wp any_answer (write_registry g) pre (λ tr r,
    match r with Ok b => b = false ∧ ∃ a, tr = pre ++ [Ev (KUpdate KRegistry g) (Ok a)] | Err _ => True end).
Proof. by intros [a|e] _; cbn; eauto. Qed.

Lemma wp_updateRegistry registry repositories :
  wp any_answer (updateRegistry registry ns repositories config) [] (λ tr r,
    match r with
    | Ok true => settles repositories registry None ∧ tr = []
    | Ok false => ∃ pre g a, tr = pre ++ [Ev (KUpdate KRegistry g) (Ok a)] ∧ (pre = [] ∨ ∃ u, pre = [Ev NewUUID u]) ∧
                             settles repositories registry (Some g)
    | Err _ => True
    end).
Proof.
  unfold updateRegistry. cbv zeta. case_bool_decide as Hnil; [done|].
  assert (∀ pre g, pre = [] ∨ (∃ u, pre = [Ev NewUUID u]) → settles repositories registry (Some g) →
    wp any_answer (write_registry g) pre (λ tr r, match r with
    | Ok true => settles repositories registry None ∧ tr = []
    | Ok false => ∃ pre g a, tr = pre ++ [Ev (KUpdate KRegistry g) (Ok a)] ∧ (pre = [] ∨ ∃ u, pre = [Ev NewUUID u]) ∧
                             settles repositories registry (Some g)
    | Err _ => True end)) as Hw.
  { intros pre g Hpre Hg. eapply wp_mono; [|apply wp_write_registry]. intros tr [b|e]; [|done]. intros [-> [a ->]]. eauto 10. }
  destruct (wc_ScanOnChange (wc_Spec config) && _); [|apply Hw; [by left|done]].
  destruct (Marshal _) as [data|e]; [|done]. intros u _. apply Hw; [right; by exists u|done].
Qed.

Lemma after_update pre g a regs :
  pre = [] ∨ (∃ u, pre = [Ev NewUUID u]) →
  after (pre ++ [Ev (KUpdate KRegistry g) (Ok a)]) regs =
  (λ h, if bool_decide (rg_Name h = rg_Name g) then g else h) <$> regs.
Proof. by intros [->|[u ->]]. Qed.

Lemma wp_reconcile_registry m processed g :
  wp any_answer (reconcile_registry ns m config processed g) [] (λ tr r,
    match r with
    | Ok processed' => processed' = {[rs_URI (rg_Spec g)]} ∪ processed ∧
        ∃ og, settles (default ∅ (m !! rs_URI (rg_Spec g))) g og ∧
          ∀ l r, rg_Name g ∉ (rg_Name <$> l) → rg_Name g ∉ (rg_Name <$> r) →
                 after tr (l ++ g :: r) = l ++ option_list og ++ r
    | Err _ => True
    end).
Proof.
  unfold reconcile_registry. cbv zeta. eapply wp_try_seq; [apply wp_updateRegistry| |done].
  intros ext [|]; cbv beta iota.
  - intros [Hs ->]. intros [a|e] _; cbn; [|destruct (IsNotFound e) eqn:He; cbn; [|done]].
    all: split; [done|]; exists None; split; [done|]; intros l r Hl Hr; cbn; rewrite ?He; by apply remove_middle.
  - intros (pre & g' & a & -> & Hpre & Hs). split; [done|]. exists (Some g'). split; [done|]. intros l r Hl Hr.
    rewrite app_nil_r, after_update by done. cbn. apply replace_middle; [apply Hs|done|done].
Qed.

Lemma settles_names (m : gmap string repositoryTags) regs ogs :
  Forall2 (λ g og, settles (default ∅ (m !! rs_URI (rg_Spec g))) g og) regs ogs →
  rg_Name <$> omap id ogs `sublist_of` rg_Name <$> regs.
Proof.
  induction 1 as [|g og regs ogs Hg _ IH]; [done|]. cbn. destruct og as [g'|]; cbn; [|by constructor].
  destruct Hg as (_ & -> & _). by constructor.
Qed.

Lemma settles_contributions (m : gmap string repositoryTags) regs ogs :
  Forall2 (λ g og, settles (default ∅ (m !! rs_URI (rg_Spec g))) g og) regs ogs →
  ∀ uri key ns', (uri, (key, ns')) ∈ cluster_contributions (omap id ogs) ↔
    (ns' ≠ ns ∧ (uri, (key, ns')) ∈ cluster_contributions regs) ∨
    (ns' = ns ∧ uri ∈ (λ g, rs_URI (rg_Spec g)) <$> regs ∧ key ∈ buildNeededMatchConditions (default ∅ (m !! uri))).
Proof.
  intros Hf uri key ns'. induction Hf as [|g og regs ogs Hg _ IH].
  { rewrite !elem_of_cluster. set_solver. }
  assert (∀ c, c ∈ contributions (sortRepositories (updated_repositories ns (default ∅ (m !! rs_URI (rg_Spec g))) (repositories_of g))) ↔
    (c.2 ≠ ns ∧ c ∈ contributions (repositories_of g)) ∨
    (c.2 = ns ∧ c.1 ∈ buildNeededMatchConditions (default ∅ (m !! rs_URI (rg_Spec g))))) as Hc.
  { intros [k n]. rewrite contributions_updated, elem_of_union, elem_of_filter, elem_of_map. cbn. naive_solver. }
  assert (∀ h l, (uri, (key, ns')) ∈ cluster_contributions (h :: l) ↔
    (rs_URI (rg_Spec h) = uri ∧ (key, ns') ∈ contributions (repositories_of h)) ∨ (uri, (key, ns')) ∈ cluster_contributions l) as Hcons.
  { intros h l. rewrite !elem_of_cluster. setoid_rewrite elem_of_cons. naive_solver. }
  specialize (Hc (key, ns')). cbn [fst snd] in Hc. rewrite fmap_cons, elem_of_cons, Hcons.
  destruct og as [g'|]; cbn [omap list_omap id].
  - destruct Hg as (_ & _ & Hu & Hr). rewrite Hcons, Hu, Hr, IH, Hc. naive_solver.
  - cbn in Hg. rewrite Hg in Hc. rewrite IH.
    assert ((key, ns') ∉ contributions (sortRepositories [])) as Hno.
    { rewrite (contributions_perm _ [] (entries_sort [])). unfold contributions. cbn. set_solver. }
    naive_solver.
Qed.

Lemma wp_createRegistry uri rns repositories :
  wp any_answer (createRegistry uri ns rns repositories config) [] (λ tr r, r = Ok tt →
    ∃ g, (∀ regs, after tr regs = regs ++ [g]) ∧ rs_URI (rg_Spec g) = uri ∧ rg_Name g = computeRegistryName uri ∧
         repositories_of g = sortRepositories (created_repositories ns repositories)).
Proof.
  unfold createRegistry. cbv zeta. destruct (wc_ScanOnChange (wc_Spec config)); [destruct (Marshal _) as [data|e]; [|done]|].
  - intros u _ [a|e] _; cbn; [|done]. intros _. eexists. split; [intros regs; reflexivity|done].
  - intros [a|e] _; cbn; [|done]. intros _. eexists. split; [intros regs; reflexivity|done].
Qed.

(** The existing registries, in order. *)
Lemma wp_existing m existing :
  wp any_answer (for_each (reconcile_registry ns m config) ∅ existing) [] (λ tr r,
    match r with
    | Ok processed => processed = list_to_set ((λ g, rs_URI (rg_Spec g)) <$> existing) ∧
        (NoDup (rg_Name <$> existing) →
         ∃ ogs, Forall2 (λ g og, settles (default ∅ (m !! rs_URI (rg_Spec g))) g og) existing ogs ∧
                after tr existing = omap id ogs)
    | Err _ => True
    end).
Proof.
  eapply (wp_for_each any_answer _ (λ pre tr processed, processed = list_to_set ((λ g, rs_URI (rg_Spec g)) <$> pre) ∧
    (NoDup (rg_Name <$> existing) → ∃ ogs, Forall2 (λ g og, settles (default ∅ (m !! rs_URI (rg_Spec g))) g og) pre ogs ∧
       ∀ rest, existing = pre ++ rest → after tr existing = omap id ogs ++ rest))).
  - intros pre g rest tr processed Hex [-> Hpre]. eapply wp_frame; [apply wp_reconcile_registry|].
    intros ext [processed'|e]; [|done]. intros [-> (og & Hog & Hafter)]. split.
    { rewrite fmap_app, list_to_set_app_L. cbn. set_solver. }
    intros Hnd. destruct (Hpre Hnd) as (ogs & Hf & Ha). exists (ogs ++ [og]). split; [by apply Forall2_app; [|constructor]|].
    intros rest' Hex'. rewrite <- app_assoc in Hex'. rewrite Hex in Hex'. apply app_inv_head in Hex' as [= <-].
    rewrite after_app, (Ha _ Hex), omap_app, <- app_assoc. rewrite Hex, fmap_app, fmap_cons in Hnd.
    apply NoDup_app in Hnd as (_ & Hdis & [Hr _]%NoDup_cons). rewrite Hafter; [by destruct og| |done].
    intros Hin. eapply Hdis; [|by apply elem_of_cons; left]. eapply elem_of_sublist; [exact Hin|]. by apply (settles_names m).
  - intros tr processed [-> Hpre]. split; [done|]. intros Hnd. destruct (Hpre Hnd) as (ogs & Hf & Ha). exists ogs. split; [done|].
    rewrite (Ha []); by rewrite app_nil_r.
  - split; [done|]. intros _. exists []. by split.
Qed.

(** A registry made for a host. *)
Definition made_for (e : string * repositoryTags) (g : Registry) : Prop :=
  rs_URI (rg_Spec g) = e.1 ∧ repositories_of g = sortRepositories (created_repositories ns e.2).

Lemma wp_missing rns processed l :
  wp any_answer (for_each (create_missing ns rns config processed) tt l) [] (λ tr r, r = Ok tt →
    ∃ created, (∀ regs, after tr regs = regs ++ created) ∧ Forall2 made_for (filter (λ e, e.1 ∉ processed) l) created).
Proof.
  eapply (wp_for_each any_answer _ (λ pre tr _, ∃ created, (∀ regs, after tr regs = regs ++ created) ∧
            Forall2 made_for (filter (λ e, e.1 ∉ processed) pre) created)); [|done|].
  - intros pre [uri repositories] rest tr [] _ (created & Ha & Hf). unfold create_missing. case_bool_decide as Hp.
    + exists created. rewrite filter_app, filter_cons_False, filter_nil, app_nil_r by (intros H'; by apply H'). done.
    + eapply wp_frame; [apply wp_createRegistry|]. intros ext [[]|e] Hg; [|done].
      destruct (Hg eq_refl) as (g & Hag & Hu & _ & Hr). exists (created ++ [g]). split.
      * intros regs. by rewrite after_app, Ha, Hag, app_assoc.
      * rewrite filter_app, filter_cons_True, filter_nil by done. apply Forall2_app; [done|]. by repeat constructor.
  - exists []. split; [|constructor]. intros regs. by rewrite app_nil_r.
Qed.

Lemma made_for_contributions l created :
  Forall2 made_for l created → ∀ uri key ns',
  (uri, (key, ns')) ∈ cluster_contributions created ↔
  ns' = ns ∧ ∃ repositories, (uri, repositories) ∈ l ∧ key ∈ buildNeededMatchConditions repositories.
Proof.
  intros Hf uri key ns'. rewrite elem_of_cluster. induction Hf as [|[u rs] g l created [Hu Hr] _ IH]; [set_solver|].
  setoid_rewrite elem_of_cons. transitivity ((u = uri ∧ (key, ns') ∈ contributions (repositories_of g)) ∨
    ∃ g, g ∈ created ∧ rs_URI (rg_Spec g) = uri ∧ (key, ns') ∈ contributions (repositories_of g)); [cbn in Hu; naive_solver|].
  rewrite IH, Hr, contributions_created, elem_of_map. cbn [snd]. naive_solver.
Qed.

Lemma cluster_app l1 l2 : cluster_contributions (l1 ++ l2) = cluster_contributions l1 ∪ cluster_contributions l2.
Proof. unfold cluster_contributions. by rewrite bind_app, list_to_set_app_L. Qed.

Abbreviation well_formed := (λ g, managed_ok (repositories_of g) ∧ repositories_of g ≠ []).

Lemma sort_nonempty rs : rs ≠ [] → sortRepositories rs ≠ [].
Proof.
  intros Hne Hnil%fmap_nil_inv. apply Hne, Permutation_nil_r. by rewrite <- (sort_Slice_perm (name_less rp_Name)), Hnil.
Qed.

Lemma settles_ok (m : gmap string repositoryTags) regs ogs :
  Forall2 (λ g og, settles (default ∅ (m !! rs_URI (rg_Spec g))) g og) regs ogs →
  Forall (λ g, managed_ok (repositories_of g)) regs → Forall well_formed (omap id ogs).
Proof.
  induction 1 as [|g og regs ogs Hg _ IH]; [constructor|]. intros [Hok Hrs]%Forall_cons. cbn.
  destruct og as [g'|]; cbn; [|by apply IH]. constructor; [|by apply IH]. destruct Hg as (Hne & _ & _ & ->).
  split; [by apply sort_managed_ok, updated_ok|by apply sort_nonempty].
Qed.

Lemma made_for_ok l created :
  Forall2 made_for l created → Forall (λ e, tagged e.2 ∧ e.2 ≠ ∅) l → Forall well_formed created.
Proof.
  induction 1 as [|[u rs] g l created [_ Hr] _ IH]; [constructor|]. intros [[Ht Hne] Hl]%Forall_cons. constructor; [|by apply IH].
  rewrite Hr. split; [by apply sort_managed_ok, created_ok|]. apply sort_nonempty. unfold created_repositories.
  intros Hnil%fmap_nil_inv. apply Hne, map_to_list_empty_iff, Permutation_nil_r. by rewrite <- (range_perm 7), Hnil.
Qed.

Lemma wp_reconcileRegistries (pods : list Pod) :
  wp any_answer (reconcileRegistries ns pods config) [] (λ tr r, r = Ok tt →
    ∃ existing rest,
      tr = Ev (KList KRegistry (managed_registries (artifacts_namespace config ns))) (Ok existing) :: rest ∧
      (NoDup (rg_Name <$> existing) →
       cluster_contributions (after rest existing) =
         filter (λ c, c.2.2 ≠ ns) (cluster_contributions existing) ∪
         set_map (λ c, (c.1, (c.2, ns))) (needed_images pods) ∧
       (Forall (λ g, managed_ok (repositories_of g)) existing → Forall well_formed (after rest existing)))).
Proof.
  unfold reconcileRegistries. cbv zeta. set (m := groupImagesByRegistry (images_of pods)).
  intros [existing|e] _; cbn [pbind]; [|done]. apply (wp_shift _ _ [_] []).
  eapply wp_try_seq; [apply (wp_existing m)| |done]. intros ext1 processed [Hproc Hex].
  eapply wp_mono; [|apply wp_missing]. intros ext2 r Hc Hr. destruct (Hc Hr) as (created & Hac & Hcr).
  exists existing, (ext1 ++ ext2). split; [done|]. intros Hnd. destruct (Hex Hnd) as (ogs & Hf & Ha).
  rewrite after_app, Ha, Hac. split.
  - rewrite cluster_app. apply set_eq. intros [uri [key ns']].
    rewrite !elem_of_union, elem_of_filter, elem_of_map, (settles_contributions m existing ogs Hf), (made_for_contributions _ _ Hcr).
    setoid_rewrite list_elem_of_filter. setoid_rewrite range_perm. setoid_rewrite elem_of_map_to_list.
    cbn [fst snd]. rewrite Hproc. setoid_rewrite (elem_of_list_to_set (A:=string)). split.
    + intros [[[??]|(-> & _ & Hk)]|(-> & rs & [_ Hrs] & Hk)]; [by left|right..].
      * exists (uri, key). split; [done|]. by apply elem_of_needed_images.
      * exists (uri, key). split; [done|]. apply elem_of_needed_images. fold m. by rewrite Hrs.
    + intros [[??]|([u k] & [= -> -> ->] & Hk)]; [by left; left|]. apply elem_of_needed_images in Hk. fold m in Hk.
      destruct (decide (u ∈ (λ g, rs_URI (rg_Spec g)) <$> existing)) as [Hin|Hin]; [left; by right|right].
      destruct (m !! u) as [rs|] eqn:Hu; [by eauto 10|].
      apply elem_of_needed in Hk as (r0 & tags & t & Hlk & _). cbn in Hlk. by rewrite lookup_empty in Hlk.
  - intros Hok. apply Forall_app. split; [by eapply settles_ok|]. eapply made_for_ok; [done|].
    apply Forall_forall. intros [u rs]. rewrite list_elem_of_filter, range_perm, elem_of_map_to_list. intros [_ Hu].
    by apply (group_tagged (images_of pods) u rs).
Qed.

(** [C5] Registries are shared between namespaces without interference: when a
    pass for a namespace succeeds, the conditions labelled for that namespace
    are exactly the images of its pods (those that can be parsed), each in a
    registry of its host, and the conditions labelled for every other namespace
    are what they were; no registry is left empty, and well-formed registries
    (unique repositories and conditions, at least one namespace per condition)
    stay well-formed.  The registries the API server listed are assumed to have
    distinct names. *)
Theorem registries_follow_workloads (pods : list Pod) :
  wp any_answer (reconcileRegistries ns pods config) [] (λ tr r, r = Ok tt →
    ∃ existing rest,
      tr = Ev (KList KRegistry (managed_registries (artifacts_namespace config ns))) (Ok existing) :: rest ∧
      (NoDup (rg_Name <$> existing) →
       cluster_contributions (after rest existing) =
         filter (λ c, c.2.2 ≠ ns) (cluster_contributions existing) ∪
         set_map (λ c, (c.1, (c.2, ns))) (needed_images pods) ∧
       (Forall (λ g, managed_ok (repositories_of g)) existing → Forall well_formed (after rest existing)))).
Proof. apply wp_reconcileRegistries. Qed.
End passes.

(** ** An example *)

(** Images written [host/repository:tag]. *)
Definition sample_ParseReference (image : string) : result Reference :=
  match split_byte slash image with
  | [uri; rest] =>
      match split_byte (ascii_of_nat 58) rest with
      | [repository; tag] =>
          Ok {| ref_Name := image; ref_String := image; ref_ContextName := repository; ref_RegistryStr := uri;
                ref_RepositoryStr := repository; ref_Identifier := tag |}
      | _ => Err (errors_New "no tag")
      end
  | _ => Err (errors_New "no host")
  end.
Definition sample_names : Names := {|
  ParseReference := λ _, sample_ParseReference;
  NewRegistry := λ _ s, Ok s; NewRepository := λ _ s, Ok {| nr_Name := s; nr_RepositoryStr := s |};
  NewDigest := λ _ s, Ok s; NewTag := λ _ s, Ok s; TagString := λ r t, nr_Name r +:+ ":" +:+ t |}.
Definition sample_requests : JSON RescanRequest := {|
  Marshal := λ r, Ok (join "," (sr_Name <$> rr_Repositories r)); Unmarshal := λ _, Err (errors_New "not read") |}.

(** An API server that answers lists from its registries and accepts every write. *)
Definition accepting : handler Eff (list Registry) := λ A e regs,
  match e in Eff A return A * list Registry with
  | KList KRegistry opts => (Ok regs, regs)
  | KCreate KRegistry g => (Ok g, regs ++ [g])
  | KUpdate KRegistry g => (Ok g, (λ g', if bool_decide (rg_Name g' = rg_Name g) then g else g') <$> regs)
  | KDelete KRegistry g => (Ok tt, filter (λ g', rg_Name g' ≠ rg_Name g) regs)
  | e => ((refuse _ e tt).1, regs)
  end.

Definition sample_workload_config : WorkloadScanConfiguration := {|
  wc_Meta := new_meta "default" "" "" ∅ ∅;
  wc_Spec := {| wc_Enabled := true; wc_NamespaceSelector := None; wc_ArtifactsNamespace := "artifacts";
                wc_ScanInterval := None; wc_ScanOnChange := true; wc_AuthSecret := ""; wc_CABundle := "";
                wc_CABundleRef := None; wc_Insecure := false; wc_Platforms := [] |} |}.
Definition sample_pod (name : string) (images : list string) : Pod := {|
  pod_Meta := new_meta name "" "apps" ∅ ∅;
  pod_Spec := {| ps_InitContainers := [];
                 ps_Containers := imap (λ i image, {| pc_Name := "c"; pc_Image := image |}) images |} |}.
(** Namespace [apps] used to run [nginx:1], as [web] still does. *)
Definition sample_registry : Registry := {|
  rg_Meta := new_meta "r1" "" "artifacts" workload_labels ∅;
  rg_Spec := configured_spec "ghcr.io" ""
    [{| rp_Name := "nginx";
        rp_MatchConditions := [{| mc_Name := "tag-1"; mc_Expression := "tag == " +:+ quote "1";
                                  mc_Labels := <["namespace/apps" := "true"]> {["namespace/web" := "true"]} |}];
        rp_MatchOperator := MatchOperatorOr |}] sample_workload_config;
  rg_Conditions := [] |}.

Lemma registries_follow_workloads_witness :
  let images := ["ghcr.io/nginx:2"; "quay.io/db:5"; "not an image"] in
  let tr := run_trace accepting
    (@reconcileRegistries sample_names insertion_GoSort insertion_order sample_requests "apps" [sample_pod "p" images]
       sample_workload_config) [sample_registry] in
  cluster_contributions (after (tail tr) [sample_registry]) =
  {[("ghcr.io", (tag_key "nginx" "1", "web")); ("ghcr.io", (tag_key "nginx" "2", "apps")); ("quay.io", (tag_key "db" "5", "apps"))]}.
Proof.
  intros images tr.
  pose proof (wp_run_any accepting _ [sample_registry] _
    (@registries_follow_workloads sample_names insertion_GoSort insertion_order sample_requests "apps" sample_workload_config
       [sample_pod "p" images])) as H.
  destruct H as (existing & rest & Htr & Hc); [vm_compute; reflexivity|]. fold tr in Htr.
  assert (existing = [sample_registry]) as ->.
  { assert (match omap (ev_list KRegistry) tr with (_, Ok l) :: _ => bool_decide (l = [sample_registry]) | _ => false end = true) as Hl
      by (vm_compute; reflexivity).
    rewrite Htr in Hl. cbn [omap list_omap ev_list cast_kind] in Hl. by apply bool_decide_eq_true in Hl. }
  rewrite Htr. cbn [tail]. destruct Hc as [-> _]; apply (bool_decide_unpack _); vm_compute; exact I.
Defined.
