(* ===== verification/WorkloadScanController.v ===== *)
(** * The workload scan reconciler

    [src/internal/controller/workloadscan_controller.go] and
    [workloadscan_controller_report.go]: for each namespace, the registries of
    its images and one report per workload are kept up to date; when workload
    scans are switched off, everything the controller made is removed. *)

From stdpp Require Import prelude gmap strings list sorting.
From Stdlib Require Import Ascii.
From S2P Require Import Prelude Prog Meta Registry StorageTypes Effects WorkloadRegistry.

(** ** Interfaces of library functions *)

(** [metav1.GetControllerOf]: the owner that is the controller, if any. *)
Class Controllers := {
  GetControllerOf : list OwnerReference → option OwnerReference;
  GetControllerOf_Some : ∀ owners r, GetControllerOf owners = Some r → r ∈ owners ∧ or_Controller r = true;
  GetControllerOf_None : ∀ owners, GetControllerOf owners = None → Forall (λ r, or_Controller r = false) owners
}.

Definition find_controller : Controllers.
Proof.
  refine {| GetControllerOf := List.find or_Controller |}.
  - intros owners r H%List.find_some. by rewrite list_elem_of_In.
  - intros owners H. apply Forall_forall. intros r Hr. apply (List.find_none _ _ H). by apply list_elem_of_In.
Defined.

(** [controllerutil.CreateOrPatch] on a workload scan report, with a function
    that cannot fail and does not touch the status: it fetches the report; one
    that does not exist is created, after [mutate]; one that does is patched to
    what [mutate] makes of it, unless that changes nothing. *)
Definition create_or_patch_spec (key : NamespacedName) (o : WorkloadScanReport)
    (mutate : WorkloadScanReport → WorkloadScanReport) (p : go (result unit)) : Prop :=
  wp any_answer p [] (λ tr r,
    ∃ answer rest, tr = Ev (KGet KWorkloadScanReport key) answer :: rest ∧
      match answer with
      | Ok existing =>
          (rest = [] ∧ r = Ok tt ∧ mutate existing = existing) ∨
          ∃ a, rest = [Ev (KPatch KWorkloadScanReport existing (mutate existing)) a] ∧ is_ok r = is_ok a
      | Err e =>
          if IsNotFound e then ∃ a, rest = [Ev (KCreate KWorkloadScanReport (mutate o)) a] ∧ is_ok r = is_ok a
          else rest = [] ∧ is_ok r = false
      end).

Class CreateOrPatcher := {
  CreateOrPatch : NamespacedName → WorkloadScanReport → (WorkloadScanReport → WorkloadScanReport) → go (result unit);
  CreateOrPatch_ok : ∀ key o mutate,
    (∀ w, ws_Status_ContainerStatuses (mutate w) = ws_Status_ContainerStatuses w) →
    create_or_patch_spec key o mutate (CreateOrPatch key o mutate)
}.

(** An instance that patches whatever it finds. *)
Definition patch_always (key : NamespacedName) (o : WorkloadScanReport) (mutate : WorkloadScanReport → WorkloadScanReport)
  : go (result unit) :=
  r ← trigger (KGet KWorkloadScanReport key);
  match r with
  | Ok existing =>
      a ← trigger (KPatch KWorkloadScanReport existing (mutate existing)); Ret (match a with Ok _ => Ok tt | Err e => Err e end)
  | Err e =>
      if IsNotFound e then
        a ← trigger (KCreate KWorkloadScanReport (mutate o)); Ret (match a with Ok _ => Ok tt | Err e => Err e end)
      else Ret (Err e)
  end.

Definition plain_CreateOrPatcher : CreateOrPatcher.
Proof.
  refine {| CreateOrPatch := patch_always |}. intros key o mutate _ [existing|e] _; cbn.
  - intros [a|e] _; cbn; eexists _, _; (split; [reflexivity|]); cbn; right; eauto.
  - destruct (IsNotFound e) eqn:He; cbn.
    + intros [a|e'] _; cbn; eexists _, _; (split; [reflexivity|]); cbn; rewrite He; eauto.
    + eexists _, _; (split; [reflexivity|]). cbn. by rewrite He.
Defined.

(** [strings.ToLower], on ASCII letters. *)
Definition lower_ascii (c : ascii) : ascii :=
  let n := nat_of_ascii c in
  if (65 <=? n)%nat && (n <=? 90)%nat then ascii_of_nat (n + 32) else c.
Fixpoint ToLower (s : string) : string :=
  match s with EmptyString => EmptyString | String c s' => String (lower_ascii c) (ToLower s') end.

Definition workloadKindPod := "Pod".
Definition workloadKindReplicaSet := "ReplicaSet".
Definition workloadKindDeployment := "Deployment".
Definition workloadKindJob := "Job".
Definition workloadKindCronJob := "CronJob".

Section controller.
Context `{!Names, !GoSort, !MapRange, !JSON RescanRequest, !LabelSelectors, !Controllers, !CreateOrPatcher}.

(** ** Workload owners *)

(** One step up: the controller of the object [ownerReference] names, if it has the wanted kind. *)
Definition owner_of (k : kind) (object_meta : obj k → ObjectMeta) (namespace kindName wanted : string)
    (ownerReference : OwnerReference) : go (result (option OwnerReference)) :=
  r ← trigger (KGet k {| nn_Namespace := namespace; nn_Name := or_Name ownerReference |});
  match r with
  | Err e =>
      if IsNotFound e then Ret (Ok (Some ownerReference))
      else Ret (Err (errorf ("failed to get " +:+ kindName +:+ " " +:+ namespace +:+ "/" +:+ or_Name ownerReference) e))
  | Ok o =>
      match GetControllerOf (om_OwnerReferences (object_meta o)) with
      | Some reference => if bool_decide (or_Kind reference = wanted) then Ret (Ok (Some reference)) else Ret (Ok None)
      | None => Ret (Ok None)
      end
  end.

Definition resolveWorkloadOwner (pod : Pod) : go (result OwnerReference) :=
  let namespace := om_Namespace (pod_Meta pod) in
  match GetControllerOf (om_OwnerReferences (pod_Meta pod)) with
  | None => Ret (Ok {| or_APIVersion := "v1"; or_Kind := workloadKindPod; or_Name := om_Name (pod_Meta pod);
                       or_UID := om_UID (pod_Meta pod); or_Controller := false |})
  | Some ownerReference =>
      deployment ←? (if bool_decide (or_Kind ownerReference = workloadKindReplicaSet)
                     then owner_of KReplicaSetMeta id namespace workloadKindReplicaSet workloadKindDeployment ownerReference
                     else Ret (Ok None)) wrap (λ e, e);
      match deployment with
      | Some reference => Ret (Ok reference)
      | None =>
          cronJob ←? (if bool_decide (or_Kind ownerReference = workloadKindJob)
                      then owner_of KJobMeta id namespace workloadKindJob workloadKindCronJob ownerReference
                      else Ret (Ok None)) wrap (λ e, e);
          match cronJob with
          | Some reference => Ret (Ok reference)
          | None => Ret (Ok ownerReference)
          end
      end
  end.

Definition computeWorkloadScanReportName (kind uid : string) : string := ToLower kind +:+ "-" +:+ uid.

Definition report_of_pod (podsByReport : gmap string Pod) (pod : Pod) : go (result (gmap string Pod)) :=
  ownerReference ←? resolveWorkloadOwner pod
    wrap errorf ("failed to resolve workload owner for pod " +:+ om_Name (pod_Meta pod));
  let reportName := computeWorkloadScanReportName (or_Kind ownerReference) (or_UID ownerReference) in
  Ret (Ok (match podsByReport !! reportName with
           | Some _ => podsByReport
           | None => <[reportName := pod]> podsByReport
           end)).

Definition buildPodsByReport (pods : list Pod) : go (result (gmap string Pod)) := for_each report_of_pod ∅ pods.

(** ** Containers *)

Definition parseImageToImageRef (namespace image : string) : result ImageRef :=
  if bool_decide (image = "") then Err (errors_New "empty image reference")
  else match ParseReference false image with
       | Err e => Err (errorf ("failed to parse image " +:+ quote image) e)
       | Ok reference =>
           Ok {| ir_Registry := computeRegistryName (ref_RegistryStr reference); ir_Namespace := namespace;
                 ir_Repository := ref_RepositoryStr reference; ir_Tag := ref_Identifier reference |}
       end.

Definition container_ref (namespace : string) (result : list ContainerRef) (container : Container) : list ContainerRef :=
  match parseImageToImageRef namespace (pc_Image container) with
  | Err _ => result
  | Ok reference => result ++ [{| cr_Name := pc_Name container; cr_ImageRef := reference |}]
  end.

Definition buildContainerRefs (namespace : string) (podSpec : PodSpec) : list ContainerRef :=
  let result := fold_left (container_ref namespace) (ps_InitContainers podSpec) [] in
  let result := fold_left (container_ref namespace) (ps_Containers podSpec) result in
  sort_Slice (name_less cr_Name) result.

(** ** Reports *)

Definition fill_report (namespace : string) (ownerReference : OwnerReference) (pod : Pod) (config : WorkloadScanConfiguration)
    (report : WorkloadScanReport) : WorkloadScanReport :=
  let m := ws_Meta report in
  {| ws_Meta := with_OwnerReferences [ownerReference]
                  (with_Labels (<[LabelManagedByKey := LabelManagedByValue]> (om_Labels m)) m);
     ws_Spec_Containers := buildContainerRefs (artifacts_namespace config namespace) (pod_Spec pod);
     ws_Status_ContainerStatuses := ws_Status_ContainerStatuses report;
     ws_Summary := ws_Summary report; ws_Containers := ws_Containers report |}.

Definition empty_report (namespace reportName : string) : WorkloadScanReport := {|
  ws_Meta := new_meta reportName "" namespace ∅ ∅; ws_Spec_Containers := []; ws_Status_ContainerStatuses := [];
  ws_Summary := empty_Summary; ws_Containers := [] |}.

Definition createOrPatchWorkloadScanReport (namespace reportName : string) (pod : Pod) (config : WorkloadScanConfiguration)
  : go (result unit) :=
  ownerReference ←? resolveWorkloadOwner pod
    wrap errorf ("failed to resolve workload owner for pod " +:+ om_Name (pod_Meta pod));
  check CreateOrPatch {| nn_Namespace := namespace; nn_Name := reportName |} (empty_report namespace reportName)
          (fill_report namespace ownerReference pod config)
    wrap errorf ("failed to create or update workload scan report " +:+ reportName);
  Ret (Ok tt).

Definition delete_stale (podsByReport : gmap string Pod) (_ : unit) (report : WorkloadScanReport) : go (result unit) :=
  match podsByReport !! om_Name (ws_Meta report) with
  | Some _ => Ret (Ok tt)
  | None =>
      d ← trigger (KDelete KWorkloadScanReport report);
      match d with
      | Err e => if IsNotFound e then Ret (Ok tt)
                 else Ret (Err (errorf ("failed to delete stale WorkloadScanReport " +:+ om_Name (ws_Meta report)) e))
      | Ok _ => Ret (Ok tt)
      end
  end.

Definition reconcileWorkloadScanReports (namespace : string) (pods : list Pod) (config : WorkloadScanConfiguration)
  : go (result unit) :=
  podsByReport ←? buildPodsByReport pods wrap (λ e, e);
  existingReports ←? trigger (KList KWorkloadScanReport
      [InNamespace namespace; MatchingLabels LabelManagedByKey LabelManagedByValue])
    wrap errorf "failed to list WorkloadScanReports";
  check for_each (delete_stale podsByReport) tt existingReports wrap (λ e, e);
  for_each (λ _ '(reportName, pod), createOrPatchWorkloadScanReport namespace reportName pod config) tt
    (range 9 (map_to_list podsByReport)).

(** ** The reconciler *)

Definition delete_managed (k : kind) (object_meta : obj k → ObjectMeta) (what : string) (_ : unit) (o : obj k) : go (result unit) :=
  d ← trigger (KDelete k o);
  match d with
  | Err e => if IsNotFound e then Ret (Ok tt)
             else Ret (Err (errorf ("failed to delete " +:+ what +:+ " " +:+ om_Namespace (object_meta o) +:+ "/" +:+
                                    om_Name (object_meta o)) e))
  | Ok _ => Ret (Ok tt)
  end.

Definition cleanupAllManagedResources : go (result unit) :=
  registries ←? trigger (KList KRegistry [MatchingLabels LabelManagedByKey LabelManagedByValue;
                                          MatchingLabels LabelWorkloadScanKey LabelWorkloadScanValue])
    wrap errorf "failed to list managed registries";
  check for_each (delete_managed KRegistry rg_Meta "registry") tt registries wrap (λ e, e);
  reports ←? trigger (KList KWorkloadScanReport [MatchingLabels LabelManagedByKey LabelManagedByValue])
    wrap errorf "failed to list managed WorkloadScanReports";
  for_each (delete_managed KWorkloadScanReport ws_Meta "WorkloadScanReport") tt reports.

Definition checkNamespaceSelector (namespace : string) (selector : option LabelSelector) : go (result bool) :=
  match selector with
  | None => Ret (Ok true)
  | Some selector =>
      r ← trigger (KGet KNamespaceMeta {| nn_Namespace := ""; nn_Name := namespace |});
      match r with
      | Err e => if IsNotFound e then Ret (Ok false) else Ret (Err (errorf ("failed to get namespace " +:+ namespace) e))
      | Ok ns =>
          match LabelSelectorAsSelector selector with
          | Err e => Ret (Err (errorf "invalid label selector" e))
          | Ok matches => Ret (Ok (matches (om_Labels ns)))
          end
      end
  end.

Definition WorkloadScan_Reconcile (request : NamespacedName) : go (result unit) :=
  let namespace := nn_Namespace request in
  c ← trigger (KGet KWorkloadScanConfiguration {| nn_Namespace := ""; nn_Name := WorkloadScanConfigurationName |});
  match c with
  | Err e =>
      if IsNotFound e then
        check cleanupAllManagedResources wrap errorf "failed to cleanup managed resources"; Ret (Ok tt)
      else Ret (Err (errorf "failed to get WorkloadScanConfiguration" e))
  | Ok config =>
      if negb (wc_Enabled (wc_Spec config)) then
        check cleanupAllManagedResources wrap errorf "failed to cleanup managed resources"; Ret (Ok tt)
      else
        matches ← checkNamespaceSelector namespace (wc_NamespaceSelector (wc_Spec config));
        match matches with
        | Err _ => Ret (Ok tt)
        | Ok false =>
            check reconcileRegistries namespace [] config wrap errorf "failed to cleanup registries";
            check reconcileWorkloadScanReports namespace [] config wrap errorf "failed to cleanup WorkloadScanReports";
            Ret (Ok tt)
        | Ok true =>
            pods ←? trigger (KList KPod [InNamespace namespace]) wrap errorf ("failed to list pods in namespace " +:+ namespace);
            check reconcileRegistries namespace pods config wrap errorf "failed to reconcile registries";
            check reconcileWorkloadScanReports namespace pods config wrap errorf "failed to reconcile WorkloadScanReports";
            Ret (Ok tt)
        end
  end.
End controller.
