(* ===== verification/WorkloadReports.v ===== *)
(** * What a pass of the workload scan reconciler leaves behind

    The reports of a namespace: stale ones are deleted, every workload has one,
    and the image references in it name conditions that the registries hold. *)

From stdpp Require Import prelude gmap strings list sorting.
From S2P Require Import Prelude Prog Meta Encoding Registry StorageTypes Effects WorkloadRegistry WorkloadContributions WorkloadReconcile WorkloadScanController.

Section reports.
Context `{!Names, !GoSort, !MapRange, !JSON RescanRequest, !LabelSelectors, !Controllers, !CreateOrPatcher}.

(** ** Containers *)

Definition ref_of_parts (namespace : string) (parts : string * string * string) : ImageRef :=
  {| ir_Registry := "workloadscan-" +:+ sha256_hex parts.1.1; ir_Namespace := namespace; ir_Repository := parts.1.2; ir_Tag := parts.2 |}.

Definition to_container_ref (namespace : string) (c : Container) : option ContainerRef :=
  parts ← image_parts (pc_Image c); Some {| cr_Name := pc_Name c; cr_ImageRef := ref_of_parts namespace parts |}.

Lemma container_refs_fold namespace cs acc :
  fold_left (container_ref namespace) cs acc = acc ++ omap (to_container_ref namespace) cs.
Proof.
  revert acc. induction cs as [|c cs IH]; intros acc; cbn [fold_left omap list_omap]; [by rewrite app_nil_r|]. rewrite IH.
  unfold container_ref, to_container_ref, parseImageToImageRef, image_parts.
  case_bool_decide; [done|]. destruct (ParseReference false (pc_Image c)) as [ref|e]; cbn; [|done]. by rewrite <- app_assoc.
Qed.

Lemma buildContainerRefs_perm namespace spec :
  buildContainerRefs namespace spec ≡ₚ omap (to_container_ref namespace) (ps_InitContainers spec ++ ps_Containers spec).
Proof. unfold buildContainerRefs. cbv zeta. by rewrite sort_Slice_perm, !container_refs_fold, omap_app. Qed.

(** The containers of a pod whose image can be read, by name. *)
Definition lists_containers (namespace : string) (spec : PodSpec) (refs : list ContainerRef) : Prop :=
  StronglySorted String.le (cr_Name <$> refs) ∧
  refs ≡ₚ omap (to_container_ref namespace) (ps_InitContainers spec ++ ps_Containers spec).

Lemma buildContainerRefs_lists namespace spec : lists_containers namespace spec (buildContainerRefs namespace spec).
Proof.
  split; [|apply buildContainerRefs_perm]. unfold buildContainerRefs. cbv zeta.
  pose proof (sort_Slice_sorted (name_less cr_Name) (fold_left (container_ref namespace) (ps_Containers spec)
    (fold_left (container_ref namespace) (ps_InitContainers spec) [])) (name_order cr_Name)) as Hs.
  induction Hs as [|c cs _ IH Hc]; cbn; constructor; [done|]. apply Forall_fmap. eapply Forall_impl; [exact Hc|]. cbn.
  unfold name_less. intros c' Hc'. by apply negb_false_iff, bool_decide_eq_true in Hc'.
Qed.

Lemma elem_of_container_refs namespace spec refs ref :
  lists_containers namespace spec refs →
  ref ∈ (cr_ImageRef <$> refs) ↔
  ∃ image parts, image ∈ extractImagesFromPodSpec spec ∧ image_parts image = Some parts ∧ ref = ref_of_parts namespace parts.
Proof.
  intros [_ Hp]. rewrite Hp. clear Hp. unfold extractImagesFromPodSpec. rewrite <- fmap_app.
  generalize (ps_InitContainers spec ++ ps_Containers spec) as cs. intros cs. rewrite list_elem_of_fmap.
  setoid_rewrite list_elem_of_omap. setoid_rewrite list_elem_of_fmap. unfold to_container_ref. split.
  - intros (cr & -> & c & Hc & Hp). destruct (image_parts (pc_Image c)) as [parts|] eqn:Hparts; [|done].
    injection Hp as <-. cbn. eauto 10.
  - intros (image & parts & (c & -> & Hc) & Hp & ->).
    exists {| cr_Name := pc_Name c; cr_ImageRef := ref_of_parts namespace parts |}. split; [done|]. exists c. by rewrite Hp.
Qed.

(** ** Owners *)

Definition owner_call A (e : Eff A) : Prop :=
  match e with KGet KReplicaSetMeta _ | KGet KJobMeta _ => True | _ => False end.

Lemma resolve_calls pod : calls owner_call (resolveWorkloadOwner pod).
Proof. unfold resolveWorkloadOwner, owner_of. repeat (calls_step; try done). Qed.

(** One step up from the controller [c] of a pod: the controller of the object it
    names, when that has the kind [above]; [c] itself when it has not, or when
    the object is gone. *)
Inductive one_up (k : kind) (object_meta : obj k → ObjectMeta) (namespace above : string) (c owner : OwnerReference)
    (tr : trace Eff) : Prop :=
| Up o : ({| nn_Namespace := namespace; nn_Name := or_Name c |}, Ok o) ∈ omap (ev_get k) tr →
    GetControllerOf (om_OwnerReferences (object_meta o)) = Some owner → or_Kind owner = above →
    one_up k object_meta namespace above c owner tr
| Top o : ({| nn_Namespace := namespace; nn_Name := or_Name c |}, Ok o) ∈ omap (ev_get k) tr →
    (∀ r, GetControllerOf (om_OwnerReferences (object_meta o)) = Some r → or_Kind r ≠ above) → owner = c →
    one_up k object_meta namespace above c owner tr
| Gone e : ({| nn_Namespace := namespace; nn_Name := or_Name c |}, Err e) ∈ omap (ev_get k) tr → IsNotFound e = true →
    owner = c → one_up k object_meta namespace above c owner tr.

(** The workload a pod belongs to: the pod itself without a controller, the
    Deployment of its ReplicaSet, the CronJob of its Job, and any other
    controller as it is. *)
Inductive workload_of (pod : Pod) (owner : OwnerReference) (tr : trace Eff) : Prop :=
| Bare_pod : GetControllerOf (om_OwnerReferences (pod_Meta pod)) = None →
    owner = {| or_APIVersion := "v1"; or_Kind := "Pod"; or_Name := om_Name (pod_Meta pod); or_UID := om_UID (pod_Meta pod);
               or_Controller := false |} → workload_of pod owner tr
| Of_replicaset c : GetControllerOf (om_OwnerReferences (pod_Meta pod)) = Some c → or_Kind c = "ReplicaSet" →
    one_up KReplicaSetMeta id (om_Namespace (pod_Meta pod)) "Deployment" c owner tr → workload_of pod owner tr
| Of_job c : GetControllerOf (om_OwnerReferences (pod_Meta pod)) = Some c → or_Kind c = "Job" →
    one_up KJobMeta id (om_Namespace (pod_Meta pod)) "CronJob" c owner tr → workload_of pod owner tr
| Of_other : GetControllerOf (om_OwnerReferences (pod_Meta pod)) = Some owner → or_Kind owner ∉ ["ReplicaSet"; "Job"] →
    workload_of pod owner tr.

Lemma one_up_within k object_meta namespace above c owner pre tr post :
  one_up k object_meta namespace above c owner tr → one_up k object_meta namespace above c owner (pre ++ tr ++ post).
Proof. intros [o Ho|o Ho|e He]; [eapply Up|eapply Top|eapply Gone]; eauto using omap_within. Qed.

Lemma workload_of_within pod owner pre tr post : workload_of pod owner tr → workload_of pod owner (pre ++ tr ++ post).
Proof.
  intros [Hn ->|c Hc Hk Hup|c Hc Hk Hup|Hc Hk];
    [by apply Bare_pod|eapply Of_replicaset|eapply Of_job|by apply Of_other]; eauto using one_up_within.
Qed.

Lemma wp_owner_of k (object_meta : obj k → ObjectMeta) namespace kindName wanted c :
  wp any_answer (owner_of k object_meta namespace kindName wanted c) [] (λ tr r,
    ∀ found, r = Ok found → one_up k object_meta namespace wanted c (default c found) tr).
Proof.
  unfold owner_of. intros [o|e] _; cbn [mbind prog_bind pbind wp trigger app].
  - destruct (GetControllerOf _) as [r|] eqn:Hr; [case_bool_decide as Hk|]; cbn [wp]; intros found [= <-]; cbn [default from_option id].
    + eapply Up; [|done..]. destruct k; by left.
    + eapply Top; [| |done]; [destruct k; by left|]. intros r'. rewrite Hr. by intros [= <-].
    + eapply Top; [| |done]; [destruct k; by left|]. by rewrite Hr.
  - destruct (IsNotFound e) eqn:He; cbn [wp]; intros found [= <-]. eapply Gone; [|done..]. destruct k; by left.
Qed.

Lemma wp_resolve pod :
  wp any_answer (resolveWorkloadOwner pod) [] (λ tr r, ∀ owner, r = Ok owner → workload_of pod owner tr).
Proof.
  unfold resolveWorkloadOwner. cbv zeta. destruct (GetControllerOf _) as [c|] eqn:Hc; cbn [wp].
  2: { intros owner [= <-]. by apply Bare_pod. }
  change workloadKindReplicaSet with "ReplicaSet". change workloadKindJob with "Job".
  case_bool_decide as Hr.
  - eapply wp_try_seq; [apply wp_owner_of| |done]. intros tr1 [d|] Hd; specialize (Hd _ eq_refl); cbn [default from_option id] in Hd.
    + cbn [wp]. intros owner [= <-]. rewrite app_nil_r. by eapply Of_replicaset.
    + rewrite bool_decide_false by (by rewrite Hr). apply wp_try. cbn [wp]. intros owner [= <-]. rewrite app_nil_r. by eapply Of_replicaset.
  - apply wp_try. cbn [wp]. case_bool_decide as Hj.
    + eapply wp_try_seq; [apply wp_owner_of| |done]. intros tr1 [d|] Hd; specialize (Hd _ eq_refl); cbn [default from_option id] in Hd;
        cbn [wp]; intros owner [= <-]; rewrite app_nil_r; by eapply Of_job.
    + apply wp_try. cbn [wp]. intros owner [= <-]. apply Of_other; [done|]. set_solver.
Qed.

(** The name of the report of a workload. *)
Definition report_name (owner : OwnerReference) : string := ToLower (or_Kind owner) +:+ "-" +:+ or_UID owner.

(** The first pod of each workload. *)
Definition first_pods (owners : list OwnerReference) (pods : list Pod) : gmap string Pod :=
  list_to_map (zip (report_name <$> owners) pods).

Lemma first_pods_snoc owners pods owner pod :
  length owners = length pods →
  first_pods (owners ++ [owner]) (pods ++ [pod]) =
  match first_pods owners pods !! report_name owner with
  | Some _ => first_pods owners pods
  | None => <[report_name owner := pod]> (first_pods owners pods)
  end.
Proof.
  intros Hlen. unfold first_pods. rewrite fmap_app, zip_with_app by (by rewrite length_fmap). cbn.
  set (l := zip (report_name <$> owners) pods). rewrite list_to_map_app. cbn.
  destruct (list_to_map l !! report_name owner) as [p|] eqn:Hl; apply map_eq; intros n.
  - destruct (decide (n = report_name owner)) as [->|Hne].
    + rewrite Hl. by apply lookup_union_Some_l.
    + rewrite lookup_union, lookup_insert_ne, lookup_empty by done. by destruct (list_to_map l !! n).
  - destruct (decide (n = report_name owner)) as [->|Hne].
    + rewrite lookup_insert_eq, lookup_union, Hl, lookup_insert_eq. done.
    + rewrite lookup_insert_ne, lookup_union, lookup_insert_ne, lookup_empty by done. by destruct (list_to_map l !! n).
Qed.

Lemma wp_buildPodsByReport pods :
  wp any_answer (buildPodsByReport pods) [] (λ tr r, Forall (obs_call owner_call) tr ∧
    match r with
    | Ok m => ∃ owners, Forall2 (λ pod owner, workload_of pod owner tr) pods owners ∧ m = first_pods owners pods
    | Err _ => True
    end).
Proof.
  unfold buildPodsByReport. apply (wp_for_each any_answer _ (λ pre tr m, Forall (obs_call owner_call) tr ∧
    ∃ owners, Forall2 (λ pod owner, workload_of pod owner tr) pre owners ∧ m = first_pods owners pre)); [|done|].
  - intros pre pod rest tr m _ [Htr (owners & Hpre & ->)]. unfold report_of_pod. apply wp_try.
    eapply wp_frame; [apply wp_conj; [apply wp_resolve|apply (calls_wp owner_call); [apply resolve_calls|constructor]]|].
    intros ext [owner|e] [Hof Hext]; cbn [wp]; [|split; [by apply Forall_app|done]].
    split; [by apply Forall_app|]. exists (owners ++ [owner]). split.
    + apply Forall2_app.
      * eapply Forall2_impl; [exact Hpre|]. intros p o Hpo. by apply (workload_of_within p o [] tr ext).
      * constructor; [|constructor]. rewrite <- (app_nil_r ext). by apply workload_of_within, Hof.
    + rewrite first_pods_snoc by (symmetry; by eapply Forall2_length). done.
  - split; [constructor|]. exists []. by split.
Qed.

(** The lookup in [first_pods], spelled out. *)
Lemma first_pods_None owners pods name :
  length owners = length pods → first_pods owners pods !! name = None ↔ name ∉ report_name <$> owners.
Proof.
  intros Hlen. unfold first_pods. rewrite <- not_elem_of_list_to_map, fst_zip; [done|]. rewrite length_fmap. lia.
Qed.

Lemma first_pods_first owners pods i owner pod :
  owners !! i = Some owner → pods !! i = Some pod →
  (∀ j owner', (j < i)%nat → owners !! j = Some owner' → report_name owner' ≠ report_name owner) →
  first_pods owners pods !! report_name owner = Some pod.
Proof.
  unfold first_pods. revert owners pods. induction i as [|i IH]; intros [|o owners] [|p pods]; try done; cbn.
  - intros [= ->] [= ->] _. by rewrite lookup_insert_eq.
  - intros Ho Hp Hfirst. rewrite lookup_insert_ne.
    + apply IH; [done..|]. intros j owner' Hj. apply (Hfirst (S j)). lia.
    + apply (Hfirst 0%nat); [lia|done].
Qed.

(** ** Stored reports *)

(** The report the API server has under a key after a trace. *)
Inductive report_stored (key : NamespacedName) (w : WorkloadScanReport) (tr : trace Eff) : Prop :=
| Report_created a :
    key_of (ws_Meta w) = key → (w, Ok a) ∈ omap (ev_create KWorkloadScanReport) tr → report_stored key w tr
| Report_patched base a :
    (key, Ok base) ∈ omap (ev_get KWorkloadScanReport) tr → (base, w, Ok a) ∈ omap (ev_patch KWorkloadScanReport) tr →
    report_stored key w tr
| Report_unchanged : (key, Ok w) ∈ omap (ev_get KWorkloadScanReport) tr → report_stored key w tr.

Lemma report_stored_within key w pre tr post : report_stored key w tr → report_stored key w (pre ++ tr ++ post).
Proof.
  intros [a Hk Ha|base a Hb Ha|Ha];
    [eapply Report_created|eapply Report_patched|eapply Report_unchanged]; eauto using omap_within.
Qed.

(** A report for [pod]: it lists the containers, with image references in the
    namespace of the artifacts (that of the workload unless the configuration
    names one), and is marked as managed. *)
Definition report_for (config : WorkloadScanConfiguration) (namespace : string) (pod : Pod) (w : WorkloadScanReport) : Prop :=
  let artifacts := wc_ArtifactsNamespace (wc_Spec config) in
  lists_containers (if bool_decide (artifacts = "") then namespace else artifacts) (pod_Spec pod) (ws_Spec_Containers w) ∧
  om_Labels (ws_Meta w) !! "app.kubernetes.io/managed-by" = Some "sbomscanner".

(** It is owned by the workload of the pod. *)
Definition owned_report (config : WorkloadScanConfiguration) (namespace : string) (pod : Pod) (w : WorkloadScanReport)
    (tr : trace Eff) : Prop :=
  report_for config namespace pod w ∧ ∃ owner, workload_of pod owner tr ∧ om_OwnerReferences (ws_Meta w) = [owner].

Lemma owned_report_within config namespace pod w pre tr post :
  owned_report config namespace pod w tr → owned_report config namespace pod w (pre ++ tr ++ post).
Proof. intros [Hf (owner & Ho & Hw)]. split; [done|]. exists owner. split; [by apply workload_of_within|done]. Qed.

Definition report_write A (e : Eff A) : Prop :=
  match e with
  | KGet KReplicaSetMeta _ | KGet KJobMeta _ | KGet KWorkloadScanReport _
  | KCreate KWorkloadScanReport _ | KPatch KWorkloadScanReport _ _ => True
  | _ => False
  end.

Lemma owner_report_write A (e : Eff A) : owner_call A e → report_write A e.
Proof. destruct e as [k key| | | | | | | | | | | | | | | | | | | | | | | | | | | | | | | | | | | | | | | | | | | | | |]; try done. by destruct k. Qed.

Lemma fill_workload_report config namespace owner pod base : report_for config namespace pod (fill_report namespace owner pod config base).
Proof. split; [apply buildContainerRefs_lists|]. apply lookup_insert_eq. Qed.

Lemma wp_createOrPatch config namespace name pod :
  wp any_answer (createOrPatchWorkloadScanReport namespace name pod config) [] (λ tr r,
    Forall (obs_call report_write) tr ∧
    (r = Ok tt → ∃ w, owned_report config namespace pod w tr ∧
                      report_stored {| nn_Namespace := namespace; nn_Name := name |} w tr)).
Proof.
  unfold createOrPatchWorkloadScanReport. set (key := {| nn_Namespace := namespace; nn_Name := name |}).
  eapply wp_try_seq.
  { apply wp_conj; [apply wp_resolve|].
    apply (calls_wp report_write); [|constructor]. eapply calls_mono; [exact owner_report_write|]. apply resolve_calls. }
  2: { intros ext e [_ Hext]. by split. }
  intros ext owner [Hof Hext]. specialize (Hof owner eq_refl).
  set (fill := fill_report namespace owner pod config).
  assert (∀ base rest, owned_report config namespace pod (fill base) (ext ++ rest)) as Hown.
  { intros base rest. split; [apply fill_workload_report|]. exists owner. split; [by apply (workload_of_within _ _ [])|done]. }
  eapply wp_try_seq; [apply (CreateOrPatch_ok key _ fill); done| |].
  - intros ext' [] (answer & rest & -> & Hcase). cbn [wp]. rewrite app_nil_r.
    destruct answer as [existing|e]; [destruct Hcase as [(-> & _ & Hsame)|(a & -> & Ha)]|].
    + split; [apply Forall_app; split; [done|]; by repeat constructor|]. intros _. exists existing. split.
      { rewrite <- Hsame. apply Hown. }
      apply Report_unchanged. rewrite omap_app. apply elem_of_app. right. by left.
    + split; [apply Forall_app; split; [done|]; by repeat constructor|]. intros _. destruct a as [a|]; [|done].
      eexists. split; [apply Hown|]. eapply Report_patched; rewrite omap_app; apply elem_of_app; right; by left.
    + destruct (IsNotFound e); [|by destruct Hcase]. destruct Hcase as (a & -> & Ha).
      split; [apply Forall_app; split; [done|]; by repeat constructor|]. intros _. destruct a as [a|]; [|done].
      exists (fill (empty_report namespace name)). split; [apply Hown|].
      eapply Report_created; [done|]. rewrite omap_app. apply elem_of_app. right. by left.
  - intros ext' e (answer & rest & -> & Hcase). split; [|done]. apply Forall_app. split; [done|].
    destruct answer as [existing|e']; [destruct Hcase as [(-> & _ & _)|(a & -> & _)]|destruct (IsNotFound e'); [destruct Hcase as (a & -> & _)|destruct Hcase as [-> _]]];
      by repeat constructor.
Qed.

Definition report_delete A (e : Eff A) : Prop := match e with KDelete KWorkloadScanReport _ => True | _ => False end.

Definition deleted_reports (tr : trace Eff) : list WorkloadScanReport := (omap (ev_delete KWorkloadScanReport) tr).*1.

Lemma wp_delete_stale (m : gmap string Pod) existing :
  wp any_answer (for_each (delete_stale m) tt existing) [] (λ tr r,
    Forall (obs_call report_delete) tr ∧
    (r = Ok tt → deleted_reports tr = filter (λ w, m !! om_Name (ws_Meta w) = None) existing)).
Proof.
  apply (wp_for_each any_answer _ (λ pre tr _, Forall (obs_call report_delete) tr ∧
    deleted_reports tr = filter (λ w, m !! om_Name (ws_Meta w) = None) pre)); [|intros tr [] [??]; by split|done].
  intros pre w rest tr [] _ [Htr Hd]. unfold delete_stale. rewrite filter_app.
  destruct (m !! om_Name (ws_Meta w)) as [p|] eqn:Hm.
  { split; [done|]. by rewrite filter_cons_False, filter_nil, app_nil_r by (by rewrite Hm). }
  rewrite filter_cons_True, filter_nil by done. intros d _.
  assert (Forall (obs_call report_delete) (tr ++ [Ev (KDelete KWorkloadScanReport w) d]) ∧
          deleted_reports (tr ++ [Ev (KDelete KWorkloadScanReport w) d]) =
          filter (λ w, m !! om_Name (ws_Meta w) = None) pre ++ [w]) as H'.
  { split; [apply Forall_app; split; [done|]; by repeat constructor|]. unfold deleted_reports in *.
    by rewrite omap_app, fmap_app, Hd. }
  destruct d as [[]|e]; [exact H'|]. cbn [mbind prog_bind pbind]. destruct (IsNotFound e); [exact H'|].
  split; [apply H'|done].
Qed.

(** The calls of the pass over the reports. *)
Definition report_call A (e : Eff A) : Prop :=
  report_write A e ∨ report_delete A e ∨ match e with KList KWorkloadScanReport _ => True | _ => False end.

Lemma forall_report_write tr : Forall (obs_call report_write) tr → Forall (obs_call report_call) tr.
Proof. intros H'. eapply Forall_impl; [exact H'|]. intros [A e a] He. by left. Qed.
Lemma forall_report_delete tr : Forall (obs_call report_delete) tr → Forall (obs_call report_call) tr.
Proof. intros H'. eapply Forall_impl; [exact H'|]. intros [A e a] He. by right; left. Qed.
Lemma forall_owner_call tr : Forall (obs_call owner_call) tr → Forall (obs_call report_call) tr.
Proof. intros H'. apply forall_report_write. eapply Forall_impl; [exact H'|]. intros [A e a]. apply owner_report_write. Qed.

Lemma wp_write_reports config namespace l :
  wp any_answer (for_each (λ _ '(reportName, pod), createOrPatchWorkloadScanReport namespace reportName pod config) tt l) []
    (λ tr r, Forall (obs_call report_write) tr ∧
      (r = Ok tt → ∀ name pod, (name, pod) ∈ l → ∃ w, owned_report config namespace pod w tr ∧
         report_stored {| nn_Namespace := namespace; nn_Name := name |} w tr)).
Proof.
  apply (wp_for_each any_answer _ (λ pre tr _, Forall (obs_call report_write) tr ∧
      ∀ name pod, (name, pod) ∈ pre → ∃ w, owned_report config namespace pod w tr ∧
         report_stored {| nn_Namespace := namespace; nn_Name := name |} w tr)).
  - intros pre [name pod] rest tr [] _ [Htr Hpre]. eapply wp_frame; [apply wp_createOrPatch|].
    intros ext [[]|e] [Hext Hw]; [|by split; [apply Forall_app|]]. split; [by apply Forall_app|]. intros name' pod' Hin.
    apply elem_of_app in Hin as [Hin|[= -> ->]%list_elem_of_singleton].
    + destruct (Hpre _ _ Hin) as (w & Hf & Hs). exists w.
      split; [by apply (owned_report_within _ _ _ _ [] tr ext)|by apply (report_stored_within _ _ [] tr ext)].
    + destruct (Hw eq_refl) as (w & Hf & Hs). exists w. rewrite <- (app_nil_r ext).
      split; [by apply owned_report_within|by apply report_stored_within].
  - intros tr [] [Htr Hall]. by split.
  - split; [constructor|]. intros name pod []%not_elem_of_nil.
Qed.

Lemma report_write_no_delete tr : Forall (obs_call report_write) tr → deleted_reports tr = [].
Proof.
  intros Htr. unfold deleted_reports. rewrite (omap_calls report_write _ tr); [done| |done].
  intros A e a He. by destruct e.
Qed.
Lemma report_write_no_list tr : Forall (obs_call report_write) tr → omap (ev_list KWorkloadScanReport) tr = [].
Proof. apply omap_calls. intros A e a He. by destruct e. Qed.
Lemma report_delete_no_list tr : Forall (obs_call report_delete) tr → omap (ev_list KWorkloadScanReport) tr = [].
Proof. apply omap_calls. intros A e a He. by destruct e. Qed.

(** What a successful pass over the reports of a namespace has done: [owners] are
    the workloads of the pods, in order. *)
Definition reports_reconciled (config : WorkloadScanConfiguration) (namespace : string) (pods : list Pod) (tr : trace Eff) : Prop :=
  ∃ owners existing, Forall2 (λ pod owner, workload_of pod owner tr) pods owners ∧
    omap (ev_list KWorkloadScanReport) tr =
      [([InNamespace namespace; MatchingLabels "app.kubernetes.io/managed-by" "sbomscanner"], Ok existing)] ∧
    deleted_reports tr = filter (λ w, om_Name (ws_Meta w) ∉ report_name <$> owners) existing ∧
    ∀ i owner pod, owners !! i = Some owner → pods !! i = Some pod →
      (∀ j owner', (j < i)%nat → owners !! j = Some owner' → report_name owner' ≠ report_name owner) →
      ∃ w, owned_report config namespace pod w tr ∧
        report_stored {| nn_Namespace := namespace; nn_Name := report_name owner |} w tr.

Lemma wp_reports config namespace pods :
  wp any_answer (reconcileWorkloadScanReports namespace pods config) [] (λ tr r,
    Forall (obs_call report_call) tr ∧ (r = Ok tt → reports_reconciled config namespace pods tr)).
Proof.
  unfold reconcileWorkloadScanReports. eapply wp_try_seq; [apply wp_buildPodsByReport| |].
  2: { intros ext e [Hext _]. split; [by apply forall_owner_call|done]. }
  intros ext1 m [Hext1 (owners & Hof & ->)]. assert (Forall (obs_call report_write) ext1) as Hw1.
  { eapply Forall_impl; [exact Hext1|]. intros [A e a]. apply owner_report_write. }
  assert (length owners = length pods) as Hlen by (symmetry; by eapply Forall2_length).
  apply forall_owner_call in Hext1.
  intros [existing|e] _; cbn [pbind mbind prog_bind]; cycle 1.
  { split; [|done]. apply Forall_app. split; [done|]. constructor; [by right; right|constructor]. }
  set (listed := Ev (KList KWorkloadScanReport _) (Ok existing)).
  assert (obs_call report_call listed) as Hlisted by (by right; right).
  apply (wp_shift _ _ [listed] []). eapply wp_try_seq; [apply wp_delete_stale| |].
  2: { intros ext2 e [Hext2 _]. split; [|done]. apply Forall_app. split; [done|]. constructor; [done|]. by apply forall_report_delete. }
  intros ext2 [] [Hext2 Hdel]. specialize (Hdel eq_refl). eapply wp_mono; [|apply wp_write_reports].
  intros ext3 r [Hext3 Hall]. split.
  { apply Forall_app. split; [done|]. constructor; [done|]. apply Forall_app. split; [by apply forall_report_delete|by apply forall_report_write]. }
  intros Hr. specialize (Hall Hr). exists owners, existing. split_and!.
  - eapply Forall2_impl; [exact Hof|]. intros p o Hpo. by apply (workload_of_within p o []).
  - rewrite omap_app, (report_write_no_list ext1) by done. cbn [app]. unfold listed. cbn [omap list_omap ev_list cast_kind].
    by rewrite omap_app, (report_delete_no_list ext2), (report_write_no_list ext3).
  - unfold deleted_reports in *. rewrite omap_app, fmap_app. fold (deleted_reports ext1). rewrite report_write_no_delete by done.
    cbn [app]. unfold listed. cbn [omap list_omap ev_delete]. rewrite omap_app, fmap_app, Hdel. fold (deleted_reports ext3).
    rewrite report_write_no_delete, app_nil_r by done. apply list_filter_iff. intros w. by apply first_pods_None.
  - intros i owner pod Ho Hp Hfirst. destruct (Hall (report_name owner) pod) as (w & Hf & Hs).
    { rewrite range_perm. apply elem_of_map_to_list. by eapply first_pods_first. }
    exists w. rewrite <- (app_nil_r ext3). change (ext1 ++ [listed] ++ ext2 ++ ext3 ++ []) with (ext1 ++ listed :: ext2 ++ ext3 ++ []).
    replace (ext1 ++ listed :: ext2 ++ ext3 ++ []) with ((ext1 ++ listed :: ext2) ++ ext3 ++ []) by (by rewrite <- app_assoc).
    split; [by apply owned_report_within|by apply report_stored_within].
Qed.


(** ** Switching workload scans off *)

Definition gone (a : result unit) : bool := match a with Ok _ => true | Err e => IsNotFound e end.

Lemma wp_delete_managed k (object_meta : obj k → ObjectMeta) what (l : list (obj k)) :
  wp any_answer (for_each (delete_managed k object_meta what) tt l) [] (λ tr r, r = Ok tt →
    Forall2 (λ o ob, ∃ a, ob = Ev (KDelete k o) a ∧ gone a = true) l tr).
Proof.
  eapply (wp_for_each any_answer _ (λ pre tr _, Forall2 (λ o ob, ∃ a, ob = Ev (KDelete k o) a ∧ gone a = true) pre tr)); [|done|constructor].
  intros pre o rest tr [] _ Hpre. unfold delete_managed. intros a _.
  assert (gone a = true → Forall2 (λ o ob, ∃ a, ob = Ev (KDelete k o) a ∧ gone a = true) (pre ++ [o]) (tr ++ [Ev (KDelete k o) a])) as H'.
  { intros Ha. apply Forall2_app; [done|]. constructor; [eauto|constructor]. }
  destruct a as [[]|e]; cbn [mbind prog_bind pbind wp]; [by apply H'|]. cbn in H'.
  destruct (IsNotFound e); [by apply H'|done].
Qed.

(** Everything the controller manages was listed and deleted. *)
Definition cleaned (tr : trace Eff) : Prop :=
  ∃ registries reports t1 t2,
    tr = Ev (KList KRegistry [MatchingLabels LabelManagedByKey LabelManagedByValue;
                              MatchingLabels LabelWorkloadScanKey LabelWorkloadScanValue]) (Ok registries) :: t1 ++
         Ev (KList KWorkloadScanReport [MatchingLabels LabelManagedByKey LabelManagedByValue]) (Ok reports) :: t2 ∧
    Forall2 (λ g ob, ∃ a, ob = Ev (KDelete KRegistry g) a ∧ gone a = true) registries t1 ∧
    Forall2 (λ w ob, ∃ a, ob = Ev (KDelete KWorkloadScanReport w) a ∧ gone a = true) reports t2.

Lemma wp_cleanup : wp any_answer cleanupAllManagedResources [] (λ tr r, r = Ok tt → cleaned tr).
Proof.
  unfold cleanupAllManagedResources. intros [registries|e] _; cbn [pbind mbind prog_bind]; [|done].
  apply (wp_shift _ _ [_] []). eapply wp_try_seq; [apply wp_delete_managed| |done]. intros t1 [] Ht1. specialize (Ht1 eq_refl).
  intros [reports|e] _; cbn [pbind mbind prog_bind]; [|done]. apply (wp_shift _ _ [_] []).
  eapply wp_mono; [|apply wp_delete_managed]. intros t2 r Ht2 Hr. by exists registries, reports, t1, t2; split; [|split; [|apply Ht2]].
Qed.

(** ** A pass for a namespace *)

Lemma after_reports tr regs : Forall (obs_call report_call) tr → after tr regs = regs.
Proof.
  intros Htr. revert regs. induction Htr as [|[A e a] tr He _ IH]; intros regs; [done|]. cbn [after fold_left]. 
  change (after tr (apply_write regs (Ev e a)) = regs). rewrite IH.
  destruct He as [He|[He|He]]; destruct e; try done; by destruct k.
Qed.

(** The registries, the reports, and the references from these to those. *)
Definition namespace_reconciled (config : WorkloadScanConfiguration) (ns : string) (pods : list Pod) (tr : trace Eff) : Prop :=
  ∃ existing t1 t2,
    tr = Ev (KList KRegistry (managed_registries (artifacts_namespace config ns))) (Ok existing) :: t1 ++ t2 ∧
    reports_reconciled config ns pods t2 ∧
    (NoDup (rg_Name <$> existing) →
     cluster_contributions (after (t1 ++ t2) existing) =
       filter (λ c, c.2.2 ≠ ns) (cluster_contributions existing) ∪ set_map (λ c, (c.1, (c.2, ns))) (needed_images pods) ∧
     ∀ pod w ref, pod ∈ pods → report_for config ns pod w → ref ∈ (cr_ImageRef <$> ws_Spec_Containers w) →
       ∃ uri, ir_Registry ref = computeRegistryName uri ∧ ir_Namespace ref = artifacts_namespace config ns ∧
         (uri, (tag_key (ir_Repository ref) (ir_Tag ref), ns)) ∈ cluster_contributions (after (t1 ++ t2) existing)).

Lemma ref_needed pods pod image uri repository tag :
  pod ∈ pods → image ∈ extractImagesFromPodSpec (pod_Spec pod) → image_parts image = Some (uri, repository, tag) →
  (uri, tag_key repository tag) ∈ needed_images pods.
Proof.
  intros Hp Hi Hparts. unfold needed_images. apply elem_of_list_to_set, list_elem_of_bind. exists image.
  split; [rewrite Hparts; by apply list_elem_of_singleton|]. apply list_elem_of_bind. by exists pod.
Qed.

Lemma wp_namespace {B} config ns pods w1 w2 (b : B) :
  wp any_answer (check reconcileRegistries ns pods config wrap w1;
                 check reconcileWorkloadScanReports ns pods config wrap w2; Ret (Ok b)) [] (λ tr r,
    is_ok r = true → namespace_reconciled config ns pods tr).
Proof.
  eapply wp_try_seq; [apply wp_reconcileRegistries| |done]. intros t [] Hreg.
  destruct (Hreg eq_refl) as (existing & t1 & -> & Hex). eapply wp_try_seq; [apply wp_reports| |done].
  intros t2 [] [Hcalls Hrep]. cbn [wp]. intros _. rewrite app_nil_r. exists existing, t1, t2.
  split; [done|]. split; [by apply Hrep|]. intros Hnd. destruct (Hex Hnd) as [Hc _].
  rewrite after_app, (after_reports t2) by done. split; [done|]. intros pod w ref Hpod [Hw _] Href.
  apply (elem_of_container_refs _ _ _ _ Hw) in Href as (image & [[uri repository] tag] & Himg & Hparts & ->). exists uri. split_and!; [done|done|].
  rewrite Hc. apply elem_of_union_r, elem_of_map. exists (uri, tag_key repository tag). split; [done|]. by eapply ref_needed.
Qed.

(** Checking the selector reads the namespace at most. *)
Lemma wp_selector ns selector :
  wp any_answer (checkNamespaceSelector ns selector) [] (λ tr _, Forall (obs_call reads_only) tr).
Proof.
  apply calls_wp; [|constructor]. unfold checkNamespaceSelector. repeat (calls_step; try done).
Qed.

Definition config_key : NamespacedName := {| nn_Namespace := ""; nn_Name := WorkloadScanConfigurationName |}.

(** Every outcome of a pass that reports success: without a configuration,
    or with scans disabled, everything the controller manages has been listed
    and deleted; otherwise, unless the namespace selector could not be checked
    (and then nothing is written), the registries and the reports of the
    namespace follow its pods, or no pods when the selector excludes it, and
    every image reference of a report of a workload of the namespace names the
    registry and a condition, labelled for the namespace, that are in the
    cluster, in the namespace of the artifacts. *)
Theorem workload_pass request :
  wp any_answer (WorkloadScan_Reconcile request) [] (λ tr r, r = Ok tt →
    ∃ c tr', tr = Ev (KGet KWorkloadScanConfiguration config_key) c :: tr' ∧
      match c with
      | Err e => IsNotFound e = true ∧ cleaned tr'
      | Ok config =>
          if negb (wc_Enabled (wc_Spec config)) then cleaned tr'
          else Forall (obs_call reads_only) tr' ∨
               ∃ pre pods tr'', tr' = pre ++ tr'' ∧ Forall (obs_call reads_only) pre ∧
                 (pods = [] ∨ ([InNamespace (nn_Namespace request)], Ok pods) ∈ omap (ev_list KPod) pre) ∧
                 namespace_reconciled config (nn_Namespace request) pods tr''
      end).
Proof.
  unfold WorkloadScan_Reconcile. cbv zeta. set (ns := nn_Namespace request). intros c _. apply (wp_shift _ _ [_] []).
  destruct c as [config|e]; cbn [mbind prog_bind pbind].
  - destruct (negb (wc_Enabled (wc_Spec config))) eqn:Hen.
    + eapply wp_try_seq; [apply wp_cleanup| |done]. intros ext [] Hc. cbn [wp]. intros _. rewrite app_nil_r.
      eexists _, ext. split; [done|]. cbn. rewrite Hen. by apply Hc.
    + eapply wp_seq; [apply wp_selector|]. intros pre matches Hpre.
      destruct matches as [[|]|e].
      * intros [pods|e] _; cbn [mbind prog_bind pbind]; [|done]. apply (wp_shift _ _ [_] []).
        eapply wp_mono; [|apply (wp_namespace config ns pods _ _ tt)]. intros tr r Htr Hr. eexists _, _. split; [reflexivity|]. cbn. rewrite Hen.
        right. exists (pre ++ [Ev (KList KPod [InNamespace ns]) (Ok pods)]), pods, tr.
        split; [by rewrite <- app_assoc|]. split; [apply Forall_app; split; [done|]; by repeat constructor|].
        split; [right; rewrite omap_app; apply elem_of_app; right; by left|]. apply Htr. by rewrite Hr.
      * eapply wp_mono; [|apply (wp_namespace config ns [] _ _ tt)]. intros tr r Htr Hr. eexists _, _. split; [reflexivity|]. cbn. rewrite Hen.
        right. exists pre, [], tr. split_and!; [done|done|by left|]. apply Htr. by rewrite Hr.
      * intros _. eexists _, _. split; [reflexivity|]. cbn. rewrite Hen. left. by rewrite app_nil_r.
  - destruct (IsNotFound e) eqn:He; [|done]. eapply wp_try_seq; [apply wp_cleanup| |done]. intros ext [] Hc. cbn [wp]. intros _.
    rewrite app_nil_r. eexists _, ext. split; [done|]. cbn. split; [done|]. by apply Hc.
Qed.
End reports.
