(* ===== verification/WorkloadRescan.v ===== *)
(** * Requests to scan what is new

    When a pass adds conditions to a registry, it asks for a scan of exactly
    these, through an annotation the registry scan runner reads. *)

From stdpp Require Import prelude gmap strings list sorting.
From S2P Require Import Prelude Prog Meta Registry Effects WorkloadRegistry WorkloadContributions WorkloadReconcile WorkloadScanController.

(** ** The request *)

(** The pairs of a repository and a condition a request names. *)
Definition request_targets (r : RescanRequest) : list (string * string) :=
  t ← rr_Repositories r; (λ name, (sr_Name t, name)) <$> sr_MatchConditions t.

Definition by_repo (keys : gset matchConditionKey) : gmap string (gset string) := fold_left add_to_repo (elements keys) ∅.

Lemma by_repo_spec keys repository name :
  (∃ names, by_repo keys !! repository = Some names ∧ name ∈ names) ↔
  ∃ key, key ∈ keys ∧ mk_repository key = repository ∧ mk_name key = name.
Proof.
  unfold by_repo. setoid_rewrite <- elem_of_elements at 2. generalize (elements keys) as l. intros l.
  transitivity ((∃ names, (∅ : gmap string (gset string)) !! repository = Some names ∧ name ∈ names) ∨
                ∃ key, key ∈ l ∧ mk_repository key = repository ∧ mk_name key = name).
  2: { setoid_rewrite lookup_empty. naive_solver. }
  generalize (∅ : gmap string (gset string)) as m. induction l as [|k l IH]; intros m; cbn [fold_left].
  { setoid_rewrite elem_of_nil. naive_solver. }
  rewrite IH. setoid_rewrite elem_of_cons.
  assert ((∃ names, add_to_repo m k !! repository = Some names ∧ name ∈ names) ↔
          (∃ names, m !! repository = Some names ∧ name ∈ names) ∨ mk_repository k = repository ∧ mk_name k = name) as ->; [|naive_solver].
  unfold add_to_repo. destruct (decide (mk_repository k = repository)) as [<-|Hne].
  - rewrite lookup_insert_eq. split.
    + intros (names & [= <-] & [->%elem_of_singleton|Hn]%elem_of_union); [by right|].
      destruct (m !! mk_repository k) as [names|]; [|by apply not_elem_of_empty in Hn]. left. eauto.
    + intros [(names & Hm & Hn)|[_ <-]]; eexists; (split; [reflexivity|]); [rewrite Hm; set_solver|set_solver].
  - rewrite lookup_insert_ne by done. naive_solver.
Qed.

(** The request names each pair of the set once, in order. *)
Lemma request_targets_spec keys repository name :
  (repository, name) ∈ request_targets (buildRescanRequest keys) ↔
  ∃ key, key ∈ keys ∧ mk_repository key = repository ∧ mk_name key = name.
Proof.
  rewrite <- by_repo_spec. unfold request_targets, buildRescanRequest. cbv zeta. cbn [rr_Repositories]. fold (by_repo keys).
  rewrite list_elem_of_bind. setoid_rewrite list_elem_of_fmap. split.
  - intros (t & (n & [= -> ->] & Hn) & r & -> & Hr). cbn in Hn |- *. rewrite elem_of_sort_Strings in Hn, Hr.
    apply elem_of_elements in Hn. destruct (by_repo keys !! r) as [names|] eqn:Hm; [eauto|by apply not_elem_of_empty in Hn].
  - intros (names & Hm & Hn). eexists. split; cycle 1.
    + exists repository. split; [reflexivity|]. rewrite elem_of_sort_Strings. apply list_elem_of_fmap.
      exists (repository, names). split; [done|]. by apply elem_of_map_to_list.
    + cbn. exists name. split; [done|]. rewrite elem_of_sort_Strings, Hm. by apply elem_of_elements.
Qed.

Lemma request_sorted keys :
  let request := buildRescanRequest keys in
  StronglySorted String.le (sr_Name <$> rr_Repositories request) ∧ NoDup (sr_Name <$> rr_Repositories request) ∧
  Forall (λ t, StronglySorted String.le (sr_MatchConditions t) ∧ NoDup (sr_MatchConditions t)) (rr_Repositories request).
Proof.
  unfold buildRescanRequest. cbv zeta. cbn [rr_Repositories]. fold (by_repo keys). rewrite <- list_fmap_compose.
  erewrite (list_fmap_ext _ id) by done. rewrite list_fmap_id. split_and!.
  - apply sort_Strings_sorted.
  - rewrite sort_Strings_perm. apply NoDup_fst_map_to_list.
  - apply Forall_fmap, Forall_true. intros r. cbn. split; [apply sort_Strings_sorted|]. rewrite sort_Strings_perm. apply NoDup_elements.
Qed.

(** ** The annotation *)

Section rescan.
Context `{!Names, !GoSort, !MapRange, !JSON RescanRequest}.

(** The conditions a registry has gained. *)
Definition gained (old new : Registry) (repository name : string) : Prop :=
  ∃ key, key ∈ (entries (repositories_of new)).*1 ∧ key ∉ (entries (repositories_of old)).*1 ∧
         mk_repository key = repository ∧ mk_name key = name.

Lemma write_registry_updates pre g0 (P : Registry → Prop) :
  omap (ev_update KRegistry) pre = [] → P g0 →
  wp any_answer (write_registry g0) pre (λ tr _, ∀ g a, (g, a) ∈ omap (ev_update KRegistry) tr → P g).
Proof.
  intros Hpre HP [a|e] _; cbn [mbind prog_bind pbind wp]; intros g a'; rewrite omap_app, Hpre;
    by intros [= -> ->]%list_elem_of_singleton.
Qed.

(** A new image is scanned at once, and only new images are: with
    [ScanOnChange], an update that adds conditions to a registry adds one
    annotation with a rescan request that names exactly the repositories and
    conditions the registry gains (sorted, without repetition); an update that
    adds none leaves the annotations alone, as does every update without
    [ScanOnChange]. *)
Theorem rescan_covers_new_images registry ns repositories config :
  wp any_answer (updateRegistry registry ns repositories config) [] (λ tr r,
    ∀ g a, (g, a) ∈ omap (ev_update KRegistry) tr →
      (om_Annotations (rg_Meta g) = om_Annotations (rg_Meta registry) ∧
       (wc_ScanOnChange (wc_Spec config) = true → ∀ repository name, ¬ gained registry g repository name)) ∨
      (wc_ScanOnChange (wc_Spec config) = true ∧ (∃ repository name, gained registry g repository name) ∧
       ∃ key data request,
         om_Annotations (rg_Meta g) = <[AnnotationRescanRequestedKeyPrefix +:+ key := data]> (om_Annotations (rg_Meta registry)) ∧
         Marshal request = Ok data ∧
         (∀ repository name, (repository, name) ∈ request_targets request ↔ gained registry g repository name) ∧
         StronglySorted String.le (sr_Name <$> rr_Repositories request) ∧ NoDup (sr_Name <$> rr_Repositories request))).
Proof.
  unfold updateRegistry. cbv zeta. case_bool_decide as Hnil; [intros g a []%not_elem_of_nil|].
  set (new := {| rg_Meta := rg_Meta registry; rg_Spec := _; rg_Conditions := _ |}).
  set (added := extractMatchConditionsFromRegistry new ∖ extractMatchConditionsFromRegistry registry).
  assert (∀ repository name, gained registry new repository name ↔
            ∃ key, key ∈ added ∧ mk_repository key = repository ∧ mk_name key = name) as Hg.
  { intros repository name. unfold gained, added. setoid_rewrite elem_of_difference. setoid_rewrite elem_of_extract. naive_solver. }
  destruct (wc_ScanOnChange (wc_Spec config)) eqn:Hsoc; cbn [andb].
  - case_bool_decide as Hadded; cbn [negb].
    + apply (write_registry_updates []); [done|]. left. split; [done|]. intros _ repository name (key & Hk & _)%Hg. rewrite Hadded in Hk. by apply not_elem_of_empty in Hk.
    + destruct (Marshal (buildRescanRequest added)) as [data|e] eqn:Hd; [|intros g a []%not_elem_of_nil].
      intros u _. apply (write_registry_updates [Ev NewUUID u]); [done|]. right. split; [done|]. split.
      { apply set_choose_L in Hadded as (key & Hk). exists (mk_repository key), (mk_name key). apply Hg. eauto. }
      exists u, data, (buildRescanRequest added). destruct (request_sorted added) as (Hs & Hn & _). split_and!; [done|done| |done|done].
      intros repository name. rewrite request_targets_spec, <- Hg. done.
  - apply (write_registry_updates []); [done|]. by left.
Qed.
End rescan.

(** ** A dropped pass *)

Section dropped.
Context `{!Names, !GoSort, !MapRange, !JSON RescanRequest, !LabelSelectors, !Controllers, !CreateOrPatcher}.

(** A failure to read the namespace is taken for a bad selector: whatever
    error the API server answers with (unless the namespace is not found), the
    pass ends there with success, so that it is not retried, although the
    namespace was neither reconciled nor cleaned up. *)
Theorem lookup_failure_dropped (request : NamespacedName) (config : WorkloadScanConfiguration) (selector : LabelSelector) (e : error) :
  wc_Enabled (wc_Spec config) = true → wc_NamespaceSelector (wc_Spec config) = Some selector → IsNotFound e = false →
  runs (WorkloadScan_Reconcile request)
    [Ev (KGet KWorkloadScanConfiguration {| nn_Namespace := ""; nn_Name := WorkloadScanConfigurationName |}) (Ok config);
     Ev (KGet KNamespaceMeta {| nn_Namespace := ""; nn_Name := nn_Namespace request |}) (Err e)] (Ok tt).
Proof.
  intros Hen Hsel He. unfold WorkloadScan_Reconcile. cbv zeta. constructor. cbn [mbind prog_bind pbind]. rewrite Hen, Hsel.
  cbn [negb checkNamespaceSelector]. constructor. cbn [mbind prog_bind pbind]. rewrite He. constructor.
Qed.
End dropped.

Definition selecting_config : WorkloadScanConfiguration := {|
  wc_Meta := new_meta "default" "" "" ∅ ∅;
  wc_Spec := {| wc_Enabled := true; wc_NamespaceSelector := Some {| ls_MatchLabels := ∅; ls_MatchExpressions := [] |};
                wc_ArtifactsNamespace := ""; wc_ScanInterval := None; wc_ScanOnChange := true; wc_AuthSecret := "";
                wc_CABundle := ""; wc_CABundleRef := None; wc_Insecure := false; wc_Platforms := [] |} |}.

Lemma lookup_failure_dropped_witness :
  runs (@WorkloadScan_Reconcile sample_names insertion_GoSort insertion_order sample_requests
          {| LabelSelectorAsSelector := λ _, Ok (λ _, true) |} find_controller plain_CreateOrPatcher
          {| nn_Namespace := "apps"; nn_Name := "" |})
    [Ev (KGet KWorkloadScanConfiguration {| nn_Namespace := ""; nn_Name := WorkloadScanConfigurationName |}) (Ok selecting_config);
     Ev (KGet KNamespaceMeta {| nn_Namespace := ""; nn_Name := "apps" |}) (Err (apierror ReasonInternalError "etcd is down"))] (Ok tt).
Proof.
  apply (@lookup_failure_dropped sample_names insertion_GoSort insertion_order sample_requests
           {| LabelSelectorAsSelector := λ _, Ok (λ _, true) |} find_controller plain_CreateOrPatcher
           {| nn_Namespace := "apps"; nn_Name := "" |} selecting_config {| ls_MatchLabels := ∅; ls_MatchExpressions := [] |}
           (apierror ReasonInternalError "etcd is down")); reflexivity.
Defined.
