(* ===== verification/ImageWorkloads.v ===== *)
(** * Images and the workloads that run them

    [src/internal/controller/image_workloadscan_controller.go]: the status of an
    image lists the reports of the workloads that run it;
    [indexer.go]: the field indexes that find them;
    [image_workloadscan_watch_helpers.go] and [workloadscan_watch_helpers.go]:
    which objects a change of a report, a pod, a namespace or the configuration
    makes the controllers look at again. *)

From stdpp Require Import prelude gmap strings list sorting.
From Stdlib Require Import Ascii.
From S2P Require Import Prelude Prog Meta GoPath Registry ScanJob NodeScanJob StorageTypes Effects WorkloadRegistry.

(** ** Indexes *)

Definition imageMetadataIndexKey (m : ImageMetadata) : string := im_Registry m +:+ "/" +:+ im_Repository m +:+ ":" +:+ im_Tag m.
Definition nodeMetadataIndexKey (m : NodeMetadata) : string := nm_Name m.
Definition imageRefIndexKey (ref : ImageRef) : string :=
  ir_Namespace ref +:+ "/" +:+ ir_Registry ref +:+ "/" +:+ ir_Repository ref +:+ ":" +:+ ir_Tag ref.

Definition indexImageByMetadata (image : Image) : list string := [imageMetadataIndexKey (img_ImageMetadata image)].
Definition indexNodeSBOMByNodeName (nodeSBOM : NodeSBOM) : list string := [nodeMetadataIndexKey (nb_NodeMetadata nodeSBOM)].

Definition index_container (st : gset string * list string) (container : ContainerRef) : gset string * list string :=
  let '(seen, keys) := st in
  let key := imageRefIndexKey (cr_ImageRef container) in
  if bool_decide (key ∈ seen) then (seen, keys) else ({[key]} ∪ seen, keys ++ [key]).

Definition indexWorkloadByImageRef (workload : WorkloadScanReport) : list string :=
  (fold_left index_container (ws_Spec_Containers workload) (∅, [])).2.

(** The functions [SetupIndexer] registers. *)
Definition index_ScanJob_registry (scanJob : ScanJob) : list string := [sp_Registry (sj_Spec scanJob)].
Definition index_ScanJob_uid (scanJob : ScanJob) : list string := [om_UID (sj_Meta scanJob)].
Definition index_NodeScanJob_node (job : NodeScanJob) : list string := [np_NodeName (nj_Spec job)].

Section image_workloads.
Context `{!GoSort, !LabelSelectors}.

(** ** The reconciler *)

Definition image_ref (image : Image) : ImageRef := {|
  ir_Registry := im_Registry (img_ImageMetadata image); ir_Namespace := img_Namespace image;
  ir_Repository := im_Repository (img_ImageMetadata image); ir_Tag := im_Tag (img_ImageMetadata image) |}.

Definition findWorkloadScanReportsByImage (image : Image) : go (result (list WorkloadScanReport)) :=
  let indexKey := imageRefIndexKey (image_ref image) in
  workloads ←? trigger (KList KWorkloadScanReport [MatchingFields IndexWorkloadScanReportImageRef indexKey])
    wrap errorf "failed to list workload scan reports";
  Ret (Ok workloads).

(** [cmp.Compare] on the namespaces, then on the names. *)
Definition report_before (a b : ImageWorkloadScanReports) : bool :=
  if bool_decide (iw_Namespace a = iw_Namespace b) then name_less iw_Name a b else name_less iw_Namespace a b.

Definition with_WorkloadScanReports (l : list ImageWorkloadScanReports) (image : Image) : Image := {|
  img_Meta := img_Meta image; img_ImageMetadata := img_ImageMetadata image; img_Layers := img_Layers image;
  img_WorkloadScanReports := l |}.

Definition report_entry (w : WorkloadScanReport) : ImageWorkloadScanReports :=
  {| iw_Name := om_Name (ws_Meta w); iw_Namespace := om_Namespace (ws_Meta w) |}.

Definition ImageWorkloadScan_Reconcile (req : NamespacedName) : go (result unit) :=
  r ← trigger (KGet KImage req);
  match r with
  | Err e => if IsNotFound e then Ret (Ok tt) else Ret (Err (errorf "failed to get image" e))
  | Ok image =>
      workloadScanReports ←? findWorkloadScanReportsByImage image wrap errorf "failed to find workload scan reports";
      let newReports := sort_Slice report_before (report_entry <$> workloadScanReports) in
      if bool_decide (img_WorkloadScanReports image = newReports) then Ret (Ok tt)
      else
        check trigger (KPatch KImage image (with_WorkloadScanReports newReports image)) wrap errorf "failed to patch image status";
        Ret (Ok tt)
  end.

(** ** Watches *)

Definition workloadScanPredicate (m : ObjectMeta) : bool :=
  bool_decide (map_get (om_Labels m) LabelWorkloadScanKey = LabelWorkloadScanValue).

Definition images_of_container (st : gset ImageRef * list NamespacedName) (container : ContainerRef)
  : go (result (gset ImageRef * list NamespacedName)) :=
  let '(seen, requests) := st in
  let ref := cr_ImageRef container in
  if bool_decide (ref ∈ seen) then Ret (Ok (seen, requests))
  else
    let seen := {[ref]} ∪ seen in
    l ← trigger (KList KImage [InNamespace (ir_Namespace ref);
                               MatchingFields IndexImageMetadataComposite
                                 (imageMetadataIndexKey {| im_Registry := ir_Registry ref; im_RegistryURI := "";
                                                           im_Repository := ir_Repository ref; im_Tag := ir_Tag ref;
                                                           im_Platform := ""; im_Digest := ""; im_IndexDigest := "" |})]);
    match l with
    | Err _ => Ret (Ok (seen, requests))
    | Ok images => Ret (Ok (seen, requests ++ (key_of ∘ img_Meta <$> images)))
    end.

Definition mapWorkloadScanReportToImages (workload : WorkloadScanReport) : go (list NamespacedName) :=
  r ← for_each images_of_container (∅, []) (ws_Spec_Containers workload);
  Ret (match r with Ok st => st.2 | Err _ => [] end).

(** A request for a whole namespace. *)
Definition namespace_request (namespace : string) : NamespacedName := {| nn_Namespace := namespace; nn_Name := "" |}.

Definition mapObjToNamespace (m : ObjectMeta) : list NamespacedName := [namespace_request (om_Namespace m)].
Definition mapNamespace (m : ObjectMeta) : list NamespacedName := [namespace_request (om_Name m)].

Definition mapConfigToNamespaces (config : WorkloadScanConfiguration) : go (list NamespacedName) :=
  let enqueue (opts : list ListOption) :=
    l ← trigger (KList KNamespaceMeta opts);
    Ret (match l with Err _ => [] | Ok namespaces => (namespace_request ∘ om_Name) <$> namespaces end) in
  match wc_NamespaceSelector (wc_Spec config) with
  | None => enqueue []
  | Some selector =>
      match LabelSelectorAsSelector selector with
      | Err _ => Ret []
      | Ok _ => enqueue [MatchingLabelsSelector selector]
      end
  end.

(** The update function of [podImagesChangedPredicate]; creations and deletions always pass. *)
Definition podImagesChanged (oldPod newPod : Pod) : bool :=
  let oldImages := sort_Strings (extractImagesFromPodSpec (pod_Spec oldPod)) in
  let newImages := sort_Strings (extractImagesFromPodSpec (pod_Spec newPod)) in
  negb (bool_decide (oldImages = newImages)).
End image_workloads.

(** ** Index keys identify image references *)

Definition colon : ascii := ascii_of_nat 58.

(** Names of namespaces and registries have no slash, repositories no colon. *)
Definition well_named (ref : ImageRef) : bool :=
  no_byte slash (ir_Namespace ref) && no_byte slash (ir_Registry ref) && no_byte colon (ir_Repository ref).

Lemma imageRefIndexKey_inj ref ref' :
  well_named ref = true → well_named ref' = true → imageRefIndexKey ref = imageRefIndexKey ref' → ref = ref'.
Proof.
  unfold well_named. rewrite !andb_true_iff. intros [[Hn Hg] Hr] [[Hn' Hg'] Hr'] Hk. unfold imageRefIndexKey in Hk.
  apply (cut_first slash) in Hk as [H1 Hk]; [|done..]. apply (cut_first slash) in Hk as [H2 Hk]; [|done..].
  apply (cut_first colon) in Hk as [H3 H4]; [|done..]. destruct ref, ref'. cbn in *. by subst.
Qed.

Lemma imageMetadataIndexKey_inj registry repository tag m :
  no_byte slash registry = true → no_byte colon repository = true →
  no_byte slash (im_Registry m) = true → no_byte colon (im_Repository m) = true →
  registry +:+ "/" +:+ repository +:+ ":" +:+ tag = imageMetadataIndexKey m →
  im_Registry m = registry ∧ im_Repository m = repository ∧ im_Tag m = tag.
Proof.
  intros Hg Hr Hg' Hr' Hk. unfold imageMetadataIndexKey in Hk.
  apply (cut_first slash) in Hk as [H2 Hk]; [|done..]. by apply (cut_first colon) in Hk as [H3 H4].
Qed.

Lemma elem_of_indexWorkload w key :
  key ∈ indexWorkloadByImageRef w ↔ ∃ ref, ref ∈ (cr_ImageRef <$> ws_Spec_Containers w) ∧ key = imageRefIndexKey ref.
Proof.
  unfold indexWorkloadByImageRef.
  assert (∀ cs (seen : gset string) keys, (∀ k, k ∈ seen ↔ k ∈ keys) →
    (key ∈ (fold_left index_container cs (seen, keys)).2 ↔
     key ∈ keys ∨ ∃ ref, ref ∈ (cr_ImageRef <$> cs) ∧ key = imageRefIndexKey ref)) as H'; [|rewrite (H' _ ∅ []); set_solver].
  induction cs as [|c cs IH]; intros seen keys Hs; cbn [fold_left fmap list_fmap]; [set_solver|].
  unfold index_container at 2. case_bool_decide as Hk.
  - rewrite IH by done. apply Hs in Hk. setoid_rewrite elem_of_cons. split; [naive_solver|].
    intros [?|(ref & [->|?] & ->)]; [by left|by left|right; eauto].
  - rewrite IH by set_solver. rewrite elem_of_app, list_elem_of_singleton. setoid_rewrite elem_of_cons. naive_solver.
Qed.

Section theorems.
Context `{!GoSort}.

#[local] Instance report_order : StrictWeakOrder report_before.
Proof.
  pose proof (name_order iw_Name) as Hn. pose proof (name_order iw_Namespace) as Hs. unfold report_before. split.
  - intros x. rewrite bool_decide_eq_true_2 by done. apply swo_irrefl.
  - intros x y z. destruct (decide (iw_Namespace x = iw_Namespace y)) as [Hxy|Hxy]; destruct (decide (iw_Namespace y = iw_Namespace z)) as [Hyz|Hyz].
    + rewrite !bool_decide_eq_true_2 by congruence. apply swo_trans.
    + rewrite bool_decide_eq_true_2, !bool_decide_eq_false_2 by congruence. unfold name_less. by rewrite Hxy.
    + rewrite bool_decide_eq_false_2, bool_decide_eq_true_2, bool_decide_eq_false_2 by congruence. unfold name_less at 1 3. by rewrite Hyz.
    + rewrite (bool_decide_eq_false_2 (iw_Namespace x = iw_Namespace y)), (bool_decide_eq_false_2 (iw_Namespace y = iw_Namespace z)) by done.
      intros H1 H2. pose proof (swo_trans x y z H1 H2) as H3. rewrite bool_decide_eq_false_2; [done|].
      intros Heq. unfold name_less in H3. rewrite Heq, bool_decide_eq_true_2 in H3; done.
  - intros x y z. destruct (decide (iw_Namespace x = iw_Namespace y)) as [Hxy|Hxy]; destruct (decide (iw_Namespace y = iw_Namespace z)) as [Hyz|Hyz].
    + rewrite !bool_decide_eq_true_2 by congruence. apply swo_incomp.
    + rewrite bool_decide_eq_true_2, !bool_decide_eq_false_2 by congruence. unfold name_less. by rewrite Hxy.
    + rewrite bool_decide_eq_false_2, bool_decide_eq_true_2, bool_decide_eq_false_2 by congruence. unfold name_less at 1 3. by rewrite Hyz.
    + rewrite (bool_decide_eq_false_2 (iw_Namespace x = iw_Namespace y)), (bool_decide_eq_false_2 (iw_Namespace y = iw_Namespace z)) by done.
      intros H1 H2. pose proof (swo_incomp x y z H1 H2) as H3. rewrite bool_decide_eq_false_2; [done|].
      intros Heq. unfold name_less in H1, H2. apply negb_false_iff, bool_decide_eq_true in H1, H2. apply Hxy.
      apply (anti_symm String.le); [by rewrite Heq|done].
Qed.

Context (reports : list WorkloadScanReport) (images : list Image).

(** Lists by index answer with the objects whose index has the key; anything else, and any failure, may happen. *)
Definition indexed : legality Eff := λ A e,
  match e in Eff A return A → Prop with
  | KList KWorkloadScanReport [MatchingFields index key] => λ a,
      match a with
      | Ok l => index = IndexWorkloadScanReportImageRef → l ≡ₚ filter (λ w, key ∈ indexWorkloadByImageRef w) reports
      | Err _ => True
      end
  | KList KImage [InNamespace namespace; MatchingFields index key] => λ a,
      match a with
      | Ok l => index = IndexImageMetadataComposite →
                l ≡ₚ filter (λ image, img_Namespace image = namespace ∧ key ∈ indexImageByMetadata image) images
      | Err _ => True
      end
  | _ => λ _, True
  end.

(** Running an image. *)
Definition runs_image (image : Image) (w : WorkloadScanReport) : Prop := image_ref image ∈ (cr_ImageRef <$> ws_Spec_Containers w).

#[local] Instance runs_image_dec image w : Decision (runs_image image w).
Proof. unfold runs_image. apply _. Defined.

Definition well_named_report (w : WorkloadScanReport) : Prop := Forall (λ c, well_named (cr_ImageRef c) = true) (ws_Spec_Containers w).

Lemma indexed_reports image :
  well_named (image_ref image) = true → Forall well_named_report reports →
  filter (λ w, imageRefIndexKey (image_ref image) ∈ indexWorkloadByImageRef w) reports = filter (runs_image image) reports.
Proof.
  intros Himg Hrep. induction Hrep as [|w l Hw _ IH]; [done|].
  assert (imageRefIndexKey (image_ref image) ∈ indexWorkloadByImageRef w ↔ runs_image image w) as Hiff.
  2: { destruct (decide (runs_image image w)) as [Hr|Hr];
       [rewrite !filter_cons_True by tauto|rewrite !filter_cons_False by tauto]; by rewrite IH. }
  rewrite elem_of_indexWorkload. unfold runs_image. split.
  - intros (ref & Href & Hk). rewrite (imageRefIndexKey_inj (image_ref image) ref Himg); [done| |done].
    apply list_elem_of_fmap in Href as (c & -> & Hc). unfold well_named_report in Hw. rewrite Forall_forall in Hw. by apply Hw.
  - intros Hin. by exists (image_ref image).
Qed.

(** The status of an image lists the reports of exactly the workloads that
    run it: a pass that succeeds leaves the image, patched or as it was, with
    the names of the reports that have a container with its reference
    (registry, namespace, repository and tag), sorted by namespace and name,
    and it patches only an image whose list differs.  The lists by index are
    those of the indexer; Kubernetes names have no slash and repositories no
    colon. *)
Theorem image_lists_workloads (req : NamespacedName) (Hrep : Forall well_named_report reports) :
  wp indexed (ImageWorkloadScan_Reconcile req) [] (λ tr r, r = Ok tt →
    ∀ image, (req, Ok image) ∈ omap (ev_get KImage) tr → well_named (image_ref image) = true →
      ∃ l, l ≡ₚ report_entry <$> filter (runs_image image) reports ∧ StronglySorted (λ x y, report_before y x = false) l ∧
        (img_WorkloadScanReports image = l ∧ omap (ev_patch KImage) tr = [] ∨
         img_WorkloadScanReports image ≠ l ∧ ∃ a, omap (ev_patch KImage) tr = [(image, with_WorkloadScanReports l image, Ok a)])).
Proof.
  unfold ImageWorkloadScan_Reconcile. intros [image|e] _; cbn [mbind prog_bind pbind]; cycle 1.
  { destruct (IsNotFound e); [|done]. intros _ image' Hin. cbn in Hin. apply list_elem_of_singleton in Hin. done. }
  unfold findWorkloadScanReportsByImage. intros [workloads|e] Hl; cbn [mbind prog_bind pbind]; [|done].
  cbn in Hl. specialize (Hl eq_refl). set (l := sort_Slice report_before (report_entry <$> workloads)).
  assert (well_named (image_ref image) = true → l ≡ₚ report_entry <$> filter (runs_image image) reports) as Hperm.
  { intros Himg. unfold l. by rewrite sort_Slice_perm, Hl, (indexed_reports image Himg Hrep). }
  assert (StronglySorted (λ x y, report_before y x = false) l) as Hsorted by (apply sort_Slice_sorted; apply _).
  unfold try_bind. cbn [mbind prog_bind pbind]. fold l. case_bool_decide as Heq.
  - intros _ image' [= ->]%list_elem_of_singleton Himg. exists l. split; [by apply Hperm|]. split; [done|]. by left.
  - intros [a|e] _; cbn [mbind prog_bind pbind wp]; [|done].
    intros _ image' [= ->]%list_elem_of_singleton Himg. exists l. split; [by apply Hperm|]. split; [done|]. right. by split; [|exists a].
Qed.

Lemma indexed_images ref image :
  well_named ref = true → well_named (image_ref image) = true →
  (img_Namespace image = ir_Namespace ref ∧
   ir_Registry ref +:+ "/" +:+ ir_Repository ref +:+ ":" +:+ ir_Tag ref ∈ indexImageByMetadata image) ↔ image_ref image = ref.
Proof.
  unfold well_named. rewrite !andb_true_iff. intros [[Hn Hg] Hr] [[Hn' Hg'] Hr']. unfold indexImageByMetadata.
  rewrite list_elem_of_singleton. cbn in Hn', Hg', Hr'. split.
  - intros [Hns Hk]. apply imageMetadataIndexKey_inj in Hk as (H1 & H2 & H3); [|done..]. unfold image_ref. rewrite Hns, H1, H2, H3. by destruct ref.
  - intros <-. done.
Qed.

(** The requests made for the containers seen so far. *)
Definition covers (refs : list ImageRef) (tr : trace Eff) (requests : list NamespacedName) : Prop :=
  (∀ key, key ∈ requests → ∃ image, image ∈ images ∧ key_of (img_Meta image) = key ∧ image_ref image ∈ refs) ∧
  (Forall (λ p, is_ok p.2 = true) (omap (ev_list KImage) tr) →
   ∀ image, image ∈ images → image_ref image ∈ refs → key_of (img_Meta image) ∈ requests).

(** A change of a report reaches its images: the requests are those of
    images of the report's containers, and, unless a list call failed, of all
    of them; an image used by several containers is looked up once.  Kubernetes
    names have no slash and repositories no colon. *)
Theorem report_change_reaches_images (workload : WorkloadScanReport)
    (Himg : Forall (λ image, well_named (image_ref image) = true) images) (Hw : well_named_report workload) :
  wp indexed (mapWorkloadScanReportToImages workload) [] (λ tr requests,
    covers (cr_ImageRef <$> ws_Spec_Containers workload) tr requests ∧
    length (omap (ev_list KImage) tr) = size (list_to_set (cr_ImageRef <$> ws_Spec_Containers workload) : gset ImageRef)).
Proof.
  unfold mapWorkloadScanReportToImages. unfold well_named_report in Hw. rewrite Forall_forall in Himg. rewrite Forall_forall in Hw.
  eapply (wp_cut _ _ _ _ (λ tr r, ∃ st, r = Ok st ∧ covers (cr_ImageRef <$> ws_Spec_Containers workload) tr st.2 ∧
    length (omap (ev_list KImage) tr) = size (list_to_set (cr_ImageRef <$> ws_Spec_Containers workload) : gset ImageRef))).
  2: { intros tr r (st & -> & Hc). exact Hc. }
  apply (wp_for_each _ _ (λ pre tr st, st.1 = list_to_set (cr_ImageRef <$> pre) ∧ covers (cr_ImageRef <$> pre) tr st.2 ∧
                            length (omap (ev_list KImage) tr) = size (st.1 : gset ImageRef))).
  - intros pre c rest tr [seen requests] Hcs (Hseen & [Hsound Hcompl] & Hlen). cbn [fst snd] in *.
    assert (well_named (cr_ImageRef c) = true) as Hc by (apply Hw; rewrite Hcs; set_solver).
    unfold images_of_container. case_bool_decide as Hin.
    + cbn [fst snd wp]. rewrite fmap_app, list_to_set_app_L, Hseen in *. cbn. apply elem_of_list_to_set in Hin.
      split; [set_solver|]. split; [|done]. split; [intros key Hk; destruct (Hsound key Hk) as (i & ? & ? & ?); set_solver|].
      intros Hok image Hi [Hr|Hr%list_elem_of_singleton]%elem_of_app; [by apply Hcompl|]. apply Hcompl; [done..|by rewrite Hr].
    + assert (({[cr_ImageRef c]} ∪ seen : gset ImageRef) = list_to_set (cr_ImageRef <$> pre ++ [c])) as Hset.
      { rewrite fmap_app, list_to_set_app_L, Hseen. cbn. set_solver. }
      intros ans Hans. cbn in Hans. 
      assert (length (omap (ev_list KImage) (tr ++ [Ev (KList KImage [InNamespace (ir_Namespace (cr_ImageRef c));
        MatchingFields IndexImageMetadataComposite (ir_Registry (cr_ImageRef c) +:+ "/" +:+ ir_Repository (cr_ImageRef c) +:+ ":" +:+ ir_Tag (cr_ImageRef c))]) ans]))
        = size ({[cr_ImageRef c]} ∪ seen)) as Hlen'.
      { rewrite omap_app, length_app, Hlen, size_union by set_solver. rewrite size_singleton. cbn. lia. }
      destruct ans as [l|e]; cbn [mbind prog_bind pbind wp fst snd].
      * specialize (Hans eq_refl). split; [done|]. split; [|done]. split.
        -- intros key [Hk|Hk]%elem_of_app; [destruct (Hsound key Hk) as (i & ? & ? & ?); set_solver|].
           apply list_elem_of_fmap in Hk as (image & -> & Hi). rewrite Hans, list_elem_of_filter in Hi. destruct Hi as [Hi Hi'].
           apply indexed_images in Hi; [|done|by apply Himg]. exists image. split_and!; [done|done|]. rewrite Hi. set_solver.
        -- rewrite omap_app, Forall_app. intros [Hok _] image Hi. rewrite fmap_app. intros [Hr|Hr%list_elem_of_singleton]%elem_of_app.
           ++ apply elem_of_app. left. by apply Hcompl.
           ++ apply elem_of_app. right. apply list_elem_of_fmap. exists image. split; [done|]. rewrite Hans, list_elem_of_filter.
              split; [|done]. apply (indexed_images (cr_ImageRef c)); [done|by apply Himg|done].
      * split; [done|]. split; [|done]. split.
        -- intros key Hk. destruct (Hsound key Hk) as (i & ? & ? & ?). set_solver.
        -- rewrite omap_app, Forall_app. intros [_ Hok]. by apply Forall_inv in Hok.
  - intros tr st (Hs & Hc & Hlen). exists st. split; [done|]. split; [done|]. by rewrite Hlen, Hs.
  - split; [done|]. split; [|done]. split; [intros key []%not_elem_of_nil|]. intros _ image _ []%not_elem_of_nil.
Qed.

(** ** Pods *)

(** The predicate compares the images of the pods with their multiplicities. *)
Lemma podImagesChanged_spec oldPod newPod :
  podImagesChanged oldPod newPod = false ↔
  extractImagesFromPodSpec (pod_Spec oldPod) ≡ₚ extractImagesFromPodSpec (pod_Spec newPod).
Proof.
  unfold podImagesChanged. cbv zeta. rewrite negb_false_iff, bool_decide_eq_true. split; [|apply sort_Strings_unique].
  intros Heq. by rewrite <- sort_Strings_perm, Heq, sort_Strings_perm.
Qed.
End theorems.

(** ** An example *)

Section example.
Context (reports : list WorkloadScanReport) (images : list Image).

(** An API server with these objects that keeps the index. *)
Definition with_index : handler Eff unit := λ A e u,
  (match e in Eff A return A with
   | KGet KImage key =>
       match List.find (λ i, bool_decide (key_of (img_Meta i) = key)) images with
       | Some i => Ok i
       | None => Err (NewNotFound "images" (nn_Name key))
       end
   | KList KWorkloadScanReport [MatchingFields index key] => Ok (filter (λ w, key ∈ indexWorkloadByImageRef w) reports)
   | KList KImage [InNamespace namespace; MatchingFields index key] =>
       Ok (filter (λ image, img_Namespace image = namespace ∧ key ∈ indexImageByMetadata image) images)
   | KPatch _ base o => Ok o
   | e => (refuse _ e tt).1
   end, u).

Lemma with_index_lawful : lawful (indexed reports images) with_index.
Proof.
  intros A e u. destruct e as [| k opts | | | | | | | | | | | | | | | | | | | | | | | | | | | | | | | | | | | | | | | | | | | | |]; try exact I.
  destruct k; try exact I.
  - destruct opts as [|[] [|[] [|]]]; try exact I. cbn. done.
  - destruct opts as [|[] [|]]; try exact I. cbn. done.
Qed.
End example.

Definition example_image : Image := {|
  img_Meta := new_meta "i1" "" "artifacts" ∅ ∅;
  img_ImageMetadata := {| im_Registry := "r1"; im_RegistryURI := "ghcr.io"; im_Repository := "org/nginx"; im_Tag := "1";
                          im_Platform := "linux/amd64"; im_Digest := "sha256:aa"; im_IndexDigest := "" |};
  img_Layers := []; img_WorkloadScanReports := [] |}.
Definition running (name namespace : string) (images : list Image) : WorkloadScanReport := {|
  ws_Meta := new_meta name "" namespace ∅ ∅;
  ws_Spec_Containers := (λ i, {| cr_Name := "c"; cr_ImageRef := image_ref i |}) <$> images;
  ws_Status_ContainerStatuses := []; ws_Summary := empty_Summary; ws_Containers := [] |}.
Definition running_reports : list WorkloadScanReport :=
  [running "deployment-2" "web" [example_image]; running "deployment-1" "web" [example_image; example_image]; running "pod-3" "idle" []].

Lemma image_lists_workloads_witness :
  let tr := run_trace (with_index running_reports [example_image])
    (@ImageWorkloadScan_Reconcile insertion_GoSort {| nn_Namespace := "artifacts"; nn_Name := "i1" |}) tt in
  ∃ a l, omap (ev_patch KImage) tr = [(example_image, with_WorkloadScanReports l example_image, Ok a)] ∧ length l = 2%nat.
Proof.
  intros tr.
  pose proof (wp_run _ (with_index running_reports [example_image]) _ [] tt _ (with_index_lawful running_reports [example_image])
    (@image_lists_workloads insertion_GoSort running_reports [example_image] {| nn_Namespace := "artifacts"; nn_Name := "i1" |}
       ltac:(repeat constructor))) as H.
  destruct (H eq_refl example_image) as (l & Hp & _ & [[Hl _] | (_ & a & Ha)]).
  - vm_compute. by left.
  - reflexivity.
  - rewrite <- Hl in Hp. apply Permutation_length in Hp. vm_compute in Hp. discriminate.
  - exists a, l. split; [exact Ha|]. apply Permutation_length in Hp. rewrite Hp. reflexivity.
Defined.

Lemma report_change_reaches_images_witness :
  key_of (img_Meta example_image) ∈
  run_result (with_index [] [example_image]) (mapWorkloadScanReportToImages (running "d" "web" [example_image; example_image])) tt.
Proof.
  pose proof (wp_run _ (with_index [] [example_image]) _ [] tt _ (with_index_lawful [] [example_image])
    (@report_change_reaches_images [] [example_image] (running "d" "web" [example_image; example_image])
       ltac:(repeat constructor) ltac:(repeat constructor))) as [[_ H] _].
  apply H; [vm_compute; repeat constructor|by left|vm_compute; by left].
Defined.
