(* ===== verification/Webhooks.v ===== *)
(** * Admission webhooks

    [src/internal/webhook/v1alpha1]: what the API server lets users write, and
    the defaults it fills in; and the defaulter wrapper of
    [src/internal/webhook/instrumentation.go], without its spans and counters. *)

From stdpp Require Import prelude gmap strings list.
From S2P Require Import Prelude Prog Strconv Meta Conditions Registry ScanJob NodeScanJob Filters StorageTypes Effects NodeScanController.
Open Scope Z_scope.

(** ** Field errors *)

(** [field.Error] of k8s.io/apimachinery. *)
Inductive ErrorType := ErrorTypeInvalid | ErrorTypeForbidden | ErrorTypeNotFound | ErrorTypeInternal | ErrorTypeTooLong.
Record field_Error := { fe_Type : ErrorType; fe_Field : string; fe_Detail : string }.
Abbreviation ErrorList := (list field_Error).

Definition field_Invalid (path detail : string) : field_Error := {| fe_Type := ErrorTypeInvalid; fe_Field := path; fe_Detail := detail |}.
Definition field_Forbidden (path detail : string) : field_Error := {| fe_Type := ErrorTypeForbidden; fe_Field := path; fe_Detail := detail |}.
Definition field_NotFound (path value : string) : field_Error := {| fe_Type := ErrorTypeNotFound; fe_Field := path; fe_Detail := value |}.
Definition field_InternalError (path detail : string) : field_Error := {| fe_Type := ErrorTypeInternal; fe_Field := path; fe_Detail := detail |}.

(** [apierrors.NewInvalid], [NewForbidden] and [NewInternalError]. *)
Definition NewInvalid (kind name : string) (errs : ErrorList) : error :=
  apierror ReasonInvalid (kind +:+ " " +:+ quote name +:+ " is invalid: " +:+
    join ", " ((λ e, fe_Field e +:+ ": " +:+ fe_Detail e) <$> errs)).
Definition NewForbidden (resource name reason : string) : error :=
  apierror ReasonForbidden (resource +:+ " " +:+ quote name +:+ " is forbidden: " +:+ reason).
Definition NewInternalError (reason : string) : error := apierror ReasonInternalError ("Internal error occurred: " +:+ reason).

(** The verdict on a list of errors. *)
Definition verdict (kind name : string) (allErrs : ErrorList) : result unit :=
  match allErrs with [] => Ok tt | _ => Err (NewInvalid kind name allErrs) end.

(** Warnings and verdict. *)
Abbreviation admission := (list string * result unit)%type.

(** The request a webhook answers, taken from the context. *)
Record AdmissionRequest := { rq_Username : string; rq_IsCreate : bool }.
Abbreviation context := (option AdmissionRequest).

(** [metav1validation.ValidateLabelSelector]. *)
Class SelectorValidation := { ValidateLabelSelector : string → LabelSelector → ErrorList }.

(** [time.Time.Format(time.RFC3339Nano)]. *)
Class TimeFormat := { Format_RFC3339Nano : Z → string }.

(** ** Validators of fields *)

Definition validPlatforms : gmap string (list string) := list_to_map [
  ("aix", ["ppc64"]); ("android", ["386"; "amd64"; "arm"; "arm64"]); ("darwin", ["amd64"; "arm64"]);
  ("dragonfly", ["amd64"]); ("freebsd", ["386"; "amd64"; "arm"]); ("illumos", ["amd64"]); ("ios", ["arm64"]);
  ("js", ["wasm"]);
  ("linux", ["386"; "amd64"; "arm"; "arm64"; "loong64"; "mips"; "mipsle"; "mips64"; "mips64le"; "ppc64"; "ppc64le"; "riscv64"; "s390x"]);
  ("netbsd", ["386"; "amd64"; "arm"]); ("openbsd", ["386"; "amd64"; "arm"; "arm64"]); ("plan9", ["386"; "amd64"; "arm"]);
  ("solaris", ["amd64"]); ("wasip1", ["wasm"]); ("windows", ["386"; "amd64"; "arm"; "arm64"])].

Definition allowedVariants : gmap string (list string) := list_to_map [("arm", ["v6"; "v7"; "v8"]); ("arm64", ["v8"])].

Definition validatePlatform (p : Platform) : result unit :=
  match validPlatforms !! pl_OS p with
  | None => Err (errors_New ("unsupported OS: " +:+ pl_OS p))
  | Some arches =>
      if negb (bool_decide (pl_Architecture p ∈ arches))
      then Err (errors_New ("unsupported arch " +:+ pl_Architecture p +:+ " for OS " +:+ pl_OS p))
      else match allowedVariants !! pl_Architecture p with
           | Some variants =>
               if negb (bool_decide (pl_Variant p = "")) && negb (bool_decide (pl_Variant p ∈ variants))
               then Err (errors_New ("invalid variant " +:+ pl_Variant p +:+ " for arch " +:+ pl_Architecture p +:+
                                     " (allowed: [" +:+ join " " variants +:+ "])"))
               else Ok tt
           | None =>
               if negb (bool_decide (pl_Variant p = ""))
               then Err (errors_New ("arch " +:+ pl_Architecture p +:+ " does not support variants"))
               else Ok tt
           end
  end.

Definition caBundleDeprecationWarning :=
  "spec.caBundle is deprecated and will be removed in the following versions. Use spec.caBundleRef instead.".
Definition caBundleWarnings (caBundle : string) : list string :=
  if bool_decide (caBundle = "") then [] else [caBundleDeprecationWarning].

Definition time_Minute : Z := 60000000000.

Definition validateScanInterval (scanInterval : option Z) : option field_Error :=
  match scanInterval with
  | None => None
  | Some d => if bool_decide (d < time_Minute) then Some (field_Invalid "spec.scanInterval" "scanInterval must be at least 1 minute")
              else None
  end.

Definition availableCatalogTypes : list string := [CatalogTypeNoCatalog; CatalogTypeOCIDistribution].

Definition validateCatalogType (catalogType : string) : option field_Error :=
  if bool_decide (catalogType = "") then None
  else if negb (bool_decide (catalogType ∈ availableCatalogTypes))
  then Some (field_Invalid "spec.catalogType" (catalogType +:+ " is not a valid CatalogType"))
  else None.

(** [fieldPath.Index(i)]. *)
Definition path_Index (path : string) (i : nat) : string := path +:+ "[" +:+ FormatInt (Z.of_nat i) +:+ "]".

Definition validatePlatforms (platforms : list Platform) : ErrorList :=
  concat (imap (λ i platform,
    match validatePlatform platform with
    | Err e => [field_Invalid (path_Index "spec.platforms" i) (Error e)]
    | Ok _ => []
    end) platforms).

Section validators.
Context `{!CEL, !SelectorValidation}.

Definition validate_condition (i j : nat) (mc : MatchCondition) : ErrorList :=
  match Validate (mc_Expression mc) with
  | Err e => [field_Invalid (path_Index (path_Index "spec.repositories" i +:+ ".matchConditions") j +:+ ".expression") (Error e)]
  | Ok _ => []
  end.

Definition validateRepositories (repositories : list Repository) (catalogType : string) : go ErrorList :=
  let allErrs :=
    if bool_decide (catalogType = CatalogTypeNoCatalog) && bool_decide (repositories = [])
    then [field_Invalid "spec.repositories" "repositories must be explicitly provided when catalogType is NoCatalog"] else [] in
  t ← trigger NewTagEvaluator;
  match t with
  | Err _ => Ret (allErrs ++ [field_InternalError "spec.repositories" "failed to create CEL tag evaluator"])
  | Ok _ => Ret (allErrs ++ concat (imap (λ i repo, concat (imap (validate_condition i) (rp_MatchConditions repo))) repositories))
  end.

Definition validateRegistry (registry : Registry) : go ErrorList :=
  let spec := rg_Spec registry in
  repositories ← validateRepositories (rs_Repositories spec) (rs_CatalogType spec);
  Ret (option_list (validateScanInterval (rs_ScanInterval spec)) ++ option_list (validateCatalogType (rs_CatalogType spec)) ++
       repositories ++ validatePlatforms (rs_Platforms spec)).

Definition validateSelector (path : string) (selector : option LabelSelector) : ErrorList :=
  match selector with None => [] | Some s => ValidateLabelSelector path s end.

Definition validateNodeSelector (selector : option LabelSelector) : ErrorList := validateSelector "spec.nodeSelector" selector.
Definition validateNamespaceSelector (selector : option LabelSelector) : ErrorList := validateSelector "spec.namespaceSelector" selector.

(** ** Registries *)

Section registry.
Context (serviceAccountNamespace serviceAccountName : string).

Definition allowedUsername : string := "system:serviceaccount:" +:+ serviceAccountNamespace +:+ ":" +:+ serviceAccountName.

(** [RegistryCustomDefaulter.Default]. *)
Definition Registry_Default (registry : Registry) : Registry :=
  if bool_decide (rs_CatalogType (rg_Spec registry) = "") then
    {| rg_Meta := rg_Meta registry;
       rg_Spec := {| rs_URI := rs_URI (rg_Spec registry); rs_CatalogType := CatalogTypeOCIDistribution;
                     rs_Repositories := rs_Repositories (rg_Spec registry); rs_AuthSecret := rs_AuthSecret (rg_Spec registry);
                     rs_ScanInterval := rs_ScanInterval (rg_Spec registry); rs_CABundle := rs_CABundle (rg_Spec registry);
                     rs_CABundleRef := rs_CABundleRef (rg_Spec registry); rs_Insecure := rs_Insecure (rg_Spec registry);
                     rs_Platforms := rs_Platforms (rg_Spec registry) |};
       rg_Conditions := rg_Conditions registry |}
  else registry.

Definition validatedManagedRegistry (ctx : context) (registry : Registry) : result unit :=
  if negb (bool_decide (map_get (om_Labels (rg_Meta registry)) LabelManagedByKey = LabelManagedByValue)) then Ok tt
  else match ctx with
       | None => Err (NewInternalError "unable to retrieve admission request from context")
       | Some request =>
           if negb (bool_decide (rq_Username request = allowedUsername))
           then Err (NewForbidden "registries" (rg_Name registry)
                       "only the designated service account can modify managed Registry resources")
           else Ok tt
       end.

Definition registryWarnings (ctx : context) (registry : Registry) : list string :=
  match ctx with
  | Some request => if bool_decide (rq_Username request = allowedUsername) then [] else caBundleWarnings (rs_CABundle (rg_Spec registry))
  | None => caBundleWarnings (rs_CABundle (rg_Spec registry))
  end.

Definition Registry_ValidateCreate (ctx : context) (registry : Registry) : go admission :=
  match validatedManagedRegistry ctx registry with
  | Err e => Ret ([], Err e)
  | Ok _ =>
      allErrs ← validateRegistry registry;
      match verdict "Registry" (rg_Name registry) allErrs with
      | Err e => Ret ([], Err e)
      | Ok _ => Ret (registryWarnings ctx registry, Ok tt)
      end
  end.

Definition Registry_ValidateUpdate (ctx : context) (oldRegistry registry : Registry) : go admission :=
  match validatedManagedRegistry ctx oldRegistry with
  | Err e => Ret ([], Err e)
  | Ok _ => Registry_ValidateCreate ctx registry
  end.

Definition Registry_ValidateDelete (ctx : context) (registry : Registry) : admission :=
  ([], validatedManagedRegistry ctx registry).

(** ** Scan jobs *)

Definition validateRegistrySnapshotWriter (ctx : context) (scanJob : ScanJob) : result unit :=
  match ctx with
  | None => Err (NewInternalError "unable to retrieve admission request from context")
  | Some request =>
      if negb (bool_decide (rq_Username request = allowedUsername))
      then Err (NewForbidden "scanjobs" (sj_Name scanJob)
                  ("only the designated service account can set the " +:+ AnnotationScanJobRegistryKey +:+ " annotation"))
      else Ok tt
  end.

Definition snapshot_of (scanJob : ScanJob) : option string := om_Annotations (sj_Meta scanJob) !! AnnotationScanJobRegistryKey.

Context `{!StatusConditions, !TimeFormat}.

(** [ScanJobCustomDefaulter.Default]; the webhook is called for creations and updates. *)
Definition ScanJob_Default (scanJob : ScanJob) : go ScanJob :=
  now ← trigger Now;
  Ret (with_sj_Meta (with_Annotations
         (<[AnnotationScanJobCreationTimestampKey := Format_RFC3339Nano now]> (om_Annotations (sj_Meta scanJob)))
         (sj_Meta scanJob)) scanJob).

Definition ScanJob_ValidateCreate (ctx : context) (scanJob : ScanJob) : go (result unit) :=
  match (match snapshot_of scanJob with Some _ => validateRegistrySnapshotWriter ctx scanJob | None => Ok tt end) with
  | Err e => Ret (Err e)
  | Ok _ =>
      l ← trigger (KList KScanJob [InNamespace (sj_Namespace scanJob);
                                   MatchingFields IndexScanJobSpecRegistry (sp_Registry (sj_Spec scanJob))]);
      match l with
      | Err e => Ret (Err (NewInternalError ("listing ScanJobs: " +:+ Error e)))
      | Ok items =>
          let allErrs :=
            if existsb (λ j, negb (ScanJob.IsComplete j) && negb (ScanJob.IsFailed j)) items
            then [field_Forbidden "spec.registry" ("a ScanJob for the registry " +:+ quote (sp_Registry (sj_Spec scanJob)) +:+
                                                   " is already running")]
            else [] in
          r ← trigger (KGet KRegistry {| nn_Namespace := sj_Namespace scanJob; nn_Name := sp_Registry (sj_Spec scanJob) |});
          match r with
          | Ok _ => Ret (verdict "ScanJob" (sj_Name scanJob) allErrs)
          | Err e =>
              if IsNotFound e
              then Ret (verdict "ScanJob" (sj_Name scanJob) (allErrs ++ [field_NotFound "spec.registry" (sp_Registry (sj_Spec scanJob))]))
              else Ret (Err (NewInternalError ("getting Registry: " +:+ Error e)))
          end
      end
  end.

(** [equality.Semantic.DeepEqual] does not distinguish a nil from an empty list. *)
Definition ScanJob_ValidateUpdate (ctx : context) (oldJob newJob : ScanJob) : result unit :=
  match (if bool_decide (snapshot_of oldJob = snapshot_of newJob) then Ok tt else validateRegistrySnapshotWriter ctx newJob) with
  | Err e => Err e
  | Ok _ =>
      let allErrs :=
        (if bool_decide (sp_Registry (sj_Spec oldJob) = sp_Registry (sj_Spec newJob)) then []
         else [field_Invalid "spec.registry" "field is immutable"]) ++
        (if bool_decide (sp_Repositories (sj_Spec oldJob) = sp_Repositories (sj_Spec newJob)) then []
         else [field_Invalid "spec.repositories" "field is immutable"]) in
      verdict "ScanJob" (sj_Name newJob) allErrs
  end.

Definition ScanJob_ValidateDelete (scanJob : ScanJob) : result unit := Ok tt.
End registry.

(** ** Node scans *)

Definition DefaultSkipPatterns : list string := [
  "/var/lib/containerd/"; "/var/lib/docker/"; "/var/lib/rancher/k3s/agent/containerd/";
  "/var/lib/rancher/rke2/agent/containerd/"; "/var/lib/containers/"; "/run/containerd/"; "/run/k3s/containerd/"].

Definition missingDefaultSkipPatternsWarning : string :=
  "spec.skipPatterns does not include all of the default skip patterns. " +:+
  "The defaults exclude container-runtime state directories; scanning those paths may cause the node scan to fail. " +:+
  "Default skip patterns: " +:+ join ", " DefaultSkipPatterns +:+ ".".

Definition validateNodeScanSkipPatterns (skipPatterns : list string) : list string :=
  if forallb (λ p, bool_decide (p ∈ skipPatterns)) DefaultSkipPatterns then [] else [missingDefaultSkipPatternsWarning].

Definition validateNodeScanConfiguration (config : NodeScanConfiguration) : list string * ErrorList :=
  let spec := nc_Spec config in
  (match nc_SkipPatterns spec with Some patterns => validateNodeScanSkipPatterns patterns | None => [] end,
   option_list (validateScanInterval (nc_ScanInterval spec)) ++ validatePlatforms (nc_Platforms spec) ++
   validateNodeSelector (nc_NodeSelector spec)).

(** [NodeScanConfigurationCustomDefaulter.Default]. *)
Definition NodeScanConfiguration_Default (config : NodeScanConfiguration) : NodeScanConfiguration :=
  match nc_SkipPatterns (nc_Spec config) with
  | Some _ => config
  | None =>
      {| nc_Meta := nc_Meta config;
         nc_Spec := {| nc_Enabled := nc_Enabled (nc_Spec config); nc_NodeSelector := nc_NodeSelector (nc_Spec config);
                       nc_ScanInterval := nc_ScanInterval (nc_Spec config); nc_SkipPatterns := Some DefaultSkipPatterns;
                       nc_Platforms := nc_Platforms (nc_Spec config) |} |}
  end.

Definition NodeScanConfiguration_ValidateCreate (config : NodeScanConfiguration) : admission :=
  let '(warnings, allErrs) := validateNodeScanConfiguration config in
  (warnings, verdict "NodeScanConfiguration" (om_Name (nc_Meta config)) allErrs).
Definition NodeScanConfiguration_ValidateUpdate (_ config : NodeScanConfiguration) : admission :=
  let '(warnings, allErrs) := validateNodeScanConfiguration config in
  (warnings, verdict "NodeScanConfiguration" (om_Name (nc_Meta config)) allErrs).
Definition NodeScanConfiguration_ValidateDelete (_ : NodeScanConfiguration) : admission :=
  (["NodeScanConfiguration deleted. Node scan feature is now disabled"], Ok tt).

(** What [ValidateNodeScanJobAgainstConfig] says of a node. *)
Definition node_errors `{!LabelSelectors} (nodeName : string) (node : Node) (config : NodeScanConfiguration) : ErrorList :=
  let on_platform :=
    if negb (IsPlatformAllowed (nd_OperatingSystem node) (nd_Architecture node) "" (nc_Platforms (nc_Spec config)))
    then [field_Forbidden "spec.nodeName" ("node " +:+ quote nodeName +:+ " platform " +:+ nd_OperatingSystem node +:+ "/" +:+
            nd_Architecture node +:+ " is not allowed by the NodeScanConfiguration")]
    else [] in
  match nc_NodeSelector (nc_Spec config) with
  | None => on_platform
  | Some labelSelector =>
      match LabelSelectorAsSelector labelSelector with
      | Err e => [field_InternalError "spec.nodeName" ("parsing NodeSelector: " +:+ Error e)]
      | Ok matches =>
          (if negb (matches (om_Labels (nd_Meta node)))
           then [field_Forbidden "spec.nodeName" ("node " +:+ quote nodeName +:+
                   " does not match the NodeScanConfiguration nodeSelector")]
           else []) ++ on_platform
      end
  end.

Definition ValidateNodeScanJobAgainstConfig `{!LabelSelectors} (nodeName : string) : go ErrorList :=
  c ← trigger (KGet KNodeScanConfiguration {| nn_Namespace := ""; nn_Name := NodeScanConfigurationName |});
  match c with
  | Err e =>
      if IsNotFound e
      then Ret [field_Forbidden "spec.nodeName" "NodeScanConfiguration not found: node scanning is not configured"]
      else Ret [field_InternalError "spec.nodeName" ("fetching NodeScanConfiguration: " +:+ Error e)]
  | Ok config =>
      n ← trigger (KGet KNode {| nn_Namespace := ""; nn_Name := nodeName |});
      match n with
      | Err e =>
          if IsNotFound e then Ret [field_NotFound "spec.nodeName" nodeName]
          else Ret [field_InternalError "spec.nodeName" ("fetching Node " +:+ quote nodeName +:+ ": " +:+ Error e)]
      | Ok node => Ret (node_errors nodeName node config)
      end
  end.

(** [NodeScanJobCustomDefaulter.Default] changes nothing. *)
Definition NodeScanJob_Default (job : NodeScanJob) : NodeScanJob := job.

Definition NodeScanJob_ValidateCreate `{!LabelSelectors} (job : NodeScanJob) : go (result unit) :=
  allErrs ← ValidateNodeScanJobAgainstConfig (np_NodeName (nj_Spec job));
  Ret (verdict "NodeScanJob" (nj_Name job) allErrs).
Definition NodeScanJob_ValidateUpdate (oldJob newJob : NodeScanJob) : result unit :=
  verdict "NodeScanJob" (nj_Name newJob)
    (if bool_decide (np_NodeName (nj_Spec oldJob) = np_NodeName (nj_Spec newJob)) then []
     else [field_Invalid "spec.nodeName" "field is immutable"]).
Definition NodeScanJob_ValidateDelete (_ : NodeScanJob) : result unit := Ok tt.

(** ** Workload scans *)

Definition validateWorkloadScanConfiguration (configuration : WorkloadScanConfiguration) : ErrorList :=
  let spec := wc_Spec configuration in
  option_list (validateScanInterval (wc_ScanInterval spec)) ++ validatePlatforms (wc_Platforms spec) ++
  validateNamespaceSelector (wc_NamespaceSelector spec).

Definition validateArtifactsNamespaceUpdate (oldArtifactsNamespace newArtifactsNamespace : string) (enabled : bool) : ErrorList :=
  if negb (bool_decide (oldArtifactsNamespace = newArtifactsNamespace)) && enabled
  then [field_Invalid "spec.artifactsNamespace" "can only be changed when enabled is false"]
  else [].

Definition warn_or_reject (configuration : WorkloadScanConfiguration) (allErrs : ErrorList) : admission :=
  match verdict "WorkloadScanConfiguration" (om_Name (wc_Meta configuration)) allErrs with
  | Err e => ([], Err e)
  | Ok _ => (caBundleWarnings (wc_CABundle (wc_Spec configuration)), Ok tt)
  end.

Definition WorkloadScanConfiguration_ValidateCreate (configuration : WorkloadScanConfiguration) : admission :=
  warn_or_reject configuration (validateWorkloadScanConfiguration configuration).
Definition WorkloadScanConfiguration_ValidateUpdate (oldConfiguration configuration : WorkloadScanConfiguration) : admission :=
  warn_or_reject configuration
    (validateWorkloadScanConfiguration configuration ++
     validateArtifactsNamespaceUpdate (wc_ArtifactsNamespace (wc_Spec oldConfiguration))
       (wc_ArtifactsNamespace (wc_Spec configuration)) (wc_Enabled (wc_Spec oldConfiguration))).
Definition WorkloadScanConfiguration_ValidateDelete (_ : WorkloadScanConfiguration) : admission :=
  (["WorkloadScanConfiguration deleted. Workload scan feature is now disabled"], Ok tt).
End validators.

(** ** The trace context of new jobs

    [injectTraceparent] and the defaulter that uses it.  The annotations are
    changed in place; a map without annotations is taken for a nil map, which
    is replaced only when the propagator has set the field. *)
Definition TraceparentAnnotation := annotationDomain +:+ "traceparent".

Definition injectTraceparent (m : ObjectMeta) : go ObjectMeta :=
  let annotations := om_Annotations m in
  if negb (bool_decide (map_get annotations TraceparentAnnotation = "")) then Ret m
  else
    annotations ← InjectAnnotations annotations;
    Ret (if negb (bool_decide (map_get annotations TraceparentAnnotation = "")) || negb (bool_decide (om_Annotations m = ∅))
         then with_Annotations annotations m else m).

Definition instrumented_Default {T} (meta : T → ObjectMeta) (with_meta : ObjectMeta → T → T) (inject : bool)
    (inner : T → go T) (ctx : context) (o : T) : go T :=
  o ← inner o;
  if match ctx with Some r => rq_IsCreate r | None => false end && inject
  then m ← injectTraceparent (meta o); Ret (with_meta m o)
  else Ret o.

(** ** Agreement with the reconciler *)

Section nodes.
Context `{!LabelSelectors}.

(** The webhook and the reconciler agree on the nodes that may be scanned:
    for the same node and configuration, the webhook finds no error exactly
    when the reconciler does not reject the job, and when the reconciler
    rejects it, its message is the first of the webhook's; only a selector that
    cannot be parsed is an internal error for both. *)
Theorem webhook_agrees_with_reconciler (node : Node) (config : NodeScanConfiguration) :
  let errs := node_errors (om_Name (nd_Meta node)) node config in
  match node_rejected node config with
  | Ok None => errs = []
  | Ok (Some message) => ∃ rest, errs = field_Forbidden "spec.nodeName" message :: rest
  | Err e => ∃ detail, errs = [field_InternalError "spec.nodeName" detail]
  end.
Proof.
  cbv zeta. unfold node_errors, node_rejected.
  destruct (nc_NodeSelector (nc_Spec config)) as [selector|].
  - destruct (LabelSelectorAsSelector selector) as [matches|e]; [|by eexists].
    destruct (matches (om_Labels (nd_Meta node))); cbn [negb app]; [|by eexists].
    destruct (IsPlatformAllowed _ _ _ _); cbn [negb]; [done|]. eexists. f_equal. f_equal. by rewrite <- !string_app_assoc.
  - destruct (IsPlatformAllowed _ _ _ _); cbn [negb]; [done|]. eexists. f_equal. f_equal. by rewrite <- !string_app_assoc.
Qed.
End nodes.
