(* ===== verification/Admission.v ===== *)
(** * What the webhooks guarantee

    Which registries and jobs the API server accepts, that what the workload
    scan controller writes is among them, and who can have written the managed
    registries and the snapshots that decide where the worker reads secrets. *)

From stdpp Require Import prelude gmap strings list sorting.
From S2P Require Import Prelude Prog Strconv Meta Conditions Registry ScanJob NodeScanJob Filters StorageTypes Effects RegistryAuth ScanJobController NodeScanController WorkloadRegistry WorkloadContributions WorkloadReconcile Webhooks.
Open Scope Z_scope.

(** ** Accepted registries *)

Lemma concat_nil {A} (l : list (list A)) : concat l = [] ↔ Forall (λ x, x = []) l.
Proof.
  induction l as [|x l IH]; cbn; [by split|]. rewrite Forall_cons, <- IH. split; [apply app_nil|]. by intros [-> ->].
Qed.

Lemma imap_nil {A B} (f : nat → A → list B) (P : A → Prop) (l : list A) :
  (∀ i x, f i x = [] ↔ P x) → concat (imap f l) = [] ↔ Forall P l.
Proof.
  intros Hf. rewrite concat_nil. revert f Hf. induction l as [|x l IH]; intros f Hf; cbn; [by split|].
  rewrite !Forall_cons, Hf. by rewrite IH by (intros i y; apply Hf).
Qed.

Lemma option_list_nil {A} (o : option A) : option_list o = [] ↔ o = None.
Proof. by destruct o. Qed.

(** An interval of at least a minute, in nanoseconds. *)
Definition interval_ok (interval : option Z) : Prop := match interval with Some d => 60000000000 ≤ d | None => True end.

(** The pairs of an operating system and an architecture that Go knows. *)
Definition known_pairs : list (string * string) := [
  ("aix", "ppc64"); ("android", "386"); ("android", "amd64"); ("android", "arm"); ("android", "arm64");
  ("darwin", "amd64"); ("darwin", "arm64"); ("dragonfly", "amd64"); ("freebsd", "386"); ("freebsd", "amd64"); ("freebsd", "arm");
  ("illumos", "amd64"); ("ios", "arm64"); ("js", "wasm"); ("linux", "386"); ("linux", "amd64"); ("linux", "arm"); ("linux", "arm64");
  ("linux", "loong64"); ("linux", "mips"); ("linux", "mipsle"); ("linux", "mips64"); ("linux", "mips64le"); ("linux", "ppc64");
  ("linux", "ppc64le"); ("linux", "riscv64"); ("linux", "s390x"); ("netbsd", "386"); ("netbsd", "amd64"); ("netbsd", "arm");
  ("openbsd", "386"); ("openbsd", "amd64"); ("openbsd", "arm"); ("openbsd", "arm64"); ("plan9", "386"); ("plan9", "amd64");
  ("plan9", "arm"); ("solaris", "amd64"); ("wasip1", "wasm"); ("windows", "386"); ("windows", "amd64"); ("windows", "arm");
  ("windows", "arm64")].

(** A supported platform: a known pair, and no variant or one of those of the
    two architectures that have some. *)
Definition platform_ok (p : Platform) : Prop :=
  (pl_OS p, pl_Architecture p) ∈ known_pairs ∧
  (pl_Variant p = "" ∨ pl_Architecture p = "arm" ∧ pl_Variant p ∈ ["v6"; "v7"; "v8"] ∨
   pl_Architecture p = "arm64" ∧ pl_Variant p = "v8").

Lemma validPlatforms_pairs os arch :
  (∃ arches, validPlatforms !! os = Some arches ∧ arch ∈ arches) ↔ (os, arch) ∈ known_pairs.
Proof.
  split.
  - intros (arches & Hl%elem_of_list_to_map_2 & Ha). match type of Hl with _ ∈ ?l =>
      assert (Forall (λ q, Forall (λ arch, (q.1, arch) ∈ known_pairs) q.2) l) as Hall by (by apply (bool_decide_unpack _); vm_compute)
    end.
    rewrite Forall_forall in Hall. specialize (Hall _ Hl). rewrite Forall_forall in Hall. by apply Hall.
  - intros Hq.
    assert (Forall (λ q, q.2 ∈ default [] (validPlatforms !! q.1)) known_pairs) as Hall by (by apply (bool_decide_unpack _); vm_compute).
    rewrite Forall_forall in Hall. specialize (Hall _ Hq). cbn [fst snd] in Hall.
    destruct (validPlatforms !! os) as [arches|]; [eauto|by apply elem_of_nil in Hall].
Qed.

Lemma allowedVariants_lookup arch :
  allowedVariants !! arch = if bool_decide (arch = "arm") then Some ["v6"; "v7"; "v8"]
                            else if bool_decide (arch = "arm64") then Some ["v8"] else None.
Proof.
  unfold allowedVariants. cbn [list_to_map foldr fst snd].
  case_bool_decide; [subst; apply lookup_insert_eq|]. rewrite lookup_insert_ne by done.
  case_bool_decide; [subst; apply lookup_insert_eq|]. by rewrite lookup_insert_ne.
Qed.

Lemma validatePlatform_ok p : validatePlatform p = Ok tt ↔ platform_ok p.
Proof.
  unfold platform_ok. rewrite <- validPlatforms_pairs. unfold validatePlatform. rewrite allowedVariants_lookup.
  destruct (validPlatforms !! pl_OS p) as [arches|]; [|split; [done|by intros [(? & ? & _) _]]].
  case_bool_decide as Ha; cbn [negb]; [|split; [done|by intros [(? & [= <-] & ?) _]]].
  assert ((∃ l, Some arches = Some l ∧ pl_Architecture p ∈ l) ↔ True) as -> by (split; eauto).
  case_bool_decide as Harm; [rewrite Harm|case_bool_decide as Harm64; [rewrite Harm64|]].
  all: repeat (case_bool_decide; cbn [negb andb]); try (split; [done|]); try set_solver.
Qed.

Lemma validateScanInterval_ok interval : option_list (validateScanInterval interval) = [] ↔ interval_ok interval.
Proof.
  rewrite option_list_nil. destruct interval as [d|]; [|done]. cbn. unfold time_Minute. case_bool_decide; split; try done; lia.
Qed.

Lemma validatePlatforms_ok platforms : validatePlatforms platforms = [] ↔ Forall platform_ok platforms.
Proof. apply imap_nil. intros i p. rewrite <- validatePlatform_ok. destruct (validatePlatform p) as [[]|e]; by split. Qed.

Lemma verdict_ok kind name errs : verdict kind name errs = Ok tt ↔ errs = [].
Proof. by destruct errs. Qed.

Section registries.
Context `{!CEL, !SelectorValidation}.
Context (saNamespace saName : string).

(** An expression that compiles to a boolean whose estimated cost is at most 100. *)
Definition expression_valid (expression : string) : Prop :=
  ∃ ast cost, env_Compile expression = Ok ast ∧ env_EstimateCost ast = Ok cost ∧ cost ≤ 100 ∧ ast_OutputIsBool ast = true.

Lemma Validate_valid expression : Validate expression = Ok tt ↔ expression_valid expression.
Proof.
  unfold Validate, compile, expression_valid, tagEvaluatorCostLimit. split.
  - destruct (env_Compile expression) as [ast|]; [|done]. destruct (env_EstimateCost ast) as [cost|] eqn:Hc; [|done].
    case_bool_decide; [done|]. destruct (ast_OutputIsBool ast) eqn:Hb; [|done]. intros _. exists ast, cost. split_and!; [done..|lia|done].
  - intros (ast & cost & -> & -> & Hle & Hb). rewrite bool_decide_false by lia. by rewrite Hb.
Qed.

(** What a registry must satisfy, whoever writes it. *)
Record registry_valid (g : Registry) : Prop := {
  rv_interval : interval_ok (rs_ScanInterval (rg_Spec g));
  rv_catalog : rs_CatalogType (rg_Spec g) ∈ [""; "NoCatalog"; "OCIDistribution"];
  rv_repositories : rs_CatalogType (rg_Spec g) = "NoCatalog" → rs_Repositories (rg_Spec g) ≠ [];
  rv_expressions : Forall (λ rp, Forall (λ mc, expression_valid (mc_Expression mc)) (rp_MatchConditions rp)) (rs_Repositories (rg_Spec g));
  rv_platforms : Forall platform_ok (rs_Platforms (rg_Spec g))
}.

(** Only the service account may write a registry that is labelled as managed. *)
Definition permitted (ctx : context) (g : Registry) : Prop :=
  om_Labels (rg_Meta g) !! "app.kubernetes.io/managed-by" = Some "sbomscanner" →
  ∃ rq, ctx = Some rq ∧ rq_Username rq = "system:serviceaccount:" +:+ saNamespace +:+ ":" +:+ saName.

Definition labelled_managed (g : Registry) : Prop := map_get (om_Labels (rg_Meta g)) LabelManagedByKey = LabelManagedByValue.

Lemma validateCatalogType_ok t : option_list (validateCatalogType t) = [] ↔ t ∈ ["" ; CatalogTypeNoCatalog; CatalogTypeOCIDistribution].
Proof.
  rewrite option_list_nil. unfold validateCatalogType. case_bool_decide as Hempty; [subst; split; [by left|done]|].
  case_bool_decide as Hin; cbn [negb]; (split; [|done || intros Ht]).
  - by right.
  - done.
  - apply elem_of_cons in Ht as [?|Ht]; [done|]. by destruct (Hin Ht).
Qed.

Lemma conditions_ok rs :
  concat (imap (λ i repo, concat (imap (validate_condition i) (rp_MatchConditions repo))) rs) = [] ↔
  Forall (λ rp, Forall (λ mc, expression_valid (mc_Expression mc)) (rp_MatchConditions rp)) rs.
Proof.
  apply imap_nil. intros i rp. apply imap_nil. intros j mc. rewrite <- Validate_valid. unfold validate_condition.
  destruct (Validate (mc_Expression mc)) as [[]|e]; by split.
Qed.

(** Whether a CEL evaluator could be made. *)
Definition ev_evaluator (o : obs Eff) : option bool :=
  match o with
  | Ev e a => match e in Eff A return A → option bool with NewTagEvaluator => λ a, Some (is_ok a) | _ => λ _, None end a
  end.

Lemma wp_validateRegistry g :
  wp any_answer (validateRegistry g) [] (λ tr errs, ∃ t, tr = [Ev NewTagEvaluator t] ∧ (errs = [] ↔ is_ok t = true ∧ registry_valid g)).
Proof.
  unfold validateRegistry, validateRepositories. intros t _.
  assert ((if bool_decide (rs_CatalogType (rg_Spec g) = CatalogTypeNoCatalog) && bool_decide (rs_Repositories (rg_Spec g) = [])
           then [field_Invalid "spec.repositories" "repositories must be explicitly provided when catalogType is NoCatalog"] else []) = [] ↔
          (rs_CatalogType (rg_Spec g) = CatalogTypeNoCatalog → rs_Repositories (rg_Spec g) ≠ [])) as Hno.
  { do 2 case_bool_decide; cbn; naive_solver. }
  destruct t as [[]|e]; cbn [mbind prog_bind pbind wp]; eexists; (split; [reflexivity|]).
  - rewrite !app_nil, validateScanInterval_ok, validateCatalogType_ok, validatePlatforms_ok, conditions_ok, Hno. cbn. split.
    + intros (? & ? & [??] & ?). split; [done|]. by split.
    + by intros [_ []].
  - split; [|by intros []]. rewrite !app_nil. intros (_ & _ & [_ H'] & _). done.
Qed.

Lemma validatedManaged_ok ctx g :
  validatedManagedRegistry saNamespace saName ctx g = Ok tt ↔
  (labelled_managed g → ∃ r, ctx = Some r ∧ rq_Username r = allowedUsername saNamespace saName).
Proof.
  unfold validatedManagedRegistry, labelled_managed. case_bool_decide as Hm; cbn; [|by split].
  destruct ctx as [r|]; [|split; [done|]; intros H'; by destruct (H' Hm) as (? & ? & _)].
  case_bool_decide as Hu; cbn; split; try done; [eauto|]. intros H'. by destruct (H' Hm) as (? & [= <-] & ?).
Qed.

Lemma validatedManaged_permitted ctx g : validatedManagedRegistry saNamespace saName ctx g = Ok tt ↔ permitted ctx g.
Proof.
  rewrite validatedManaged_ok. unfold permitted, labelled_managed, map_get.
  change LabelManagedByKey with "app.kubernetes.io/managed-by". change LabelManagedByValue with "sbomscanner".
  destruct (om_Labels (rg_Meta g) !! "app.kubernetes.io/managed-by") as [v|]; cbn; [|by split].
  split; intros H' Hv; apply H'; congruence.
Qed.

Lemma permitted_managed ctx g :
  permitted ctx g → labelled_managed g → ∃ r, ctx = Some r ∧ rq_Username r = allowedUsername saNamespace saName.
Proof. intros Hp%validatedManaged_permitted. by apply validatedManaged_ok. Qed.

Lemma wp_Registry_ValidateCreate ctx g :
  wp any_answer (Registry_ValidateCreate saNamespace saName ctx g) [] (λ tr r,
    r.2 = Ok tt ↔ omap ev_evaluator tr = [true] ∧ registry_valid g ∧ permitted ctx g).
Proof.
  unfold Registry_ValidateCreate. pose proof (validatedManaged_permitted ctx g) as Hm.
  destruct (validatedManagedRegistry saNamespace saName ctx g) as [[]|e];
    [|split; [done|]; intros (_ & _ & H'); by apply Hm in H'].
  eapply wp_seq; [apply wp_validateRegistry|]. intros ext errs (t & -> & Herrs).
  destruct (verdict "Registry" (rg_Name g) errs) as [[]|e] eqn:Hv; cbn [wp snd].
  - apply verdict_ok, Herrs in Hv as [Ht Hg]. destruct t as [a|]; [|done]. split; [|done]. intros _.
    split; [done|]. split; [done|by apply Hm].
  - split; [done|]. intros (Ht & Hg & _). cbn in Ht. injection Ht as Ht. assert (errs = []) as -> by (by apply Herrs). done.
Qed.

Lemma wp_Registry_ValidateUpdate ctx old g :
  wp any_answer (Registry_ValidateUpdate saNamespace saName ctx old g) [] (λ tr r,
    r.2 = Ok tt ↔ omap ev_evaluator tr = [true] ∧ registry_valid g ∧ permitted ctx g ∧ permitted ctx old).
Proof.
  unfold Registry_ValidateUpdate. pose proof (validatedManaged_permitted ctx old) as Hm.
  destruct (validatedManagedRegistry saNamespace saName ctx old) as [[]|e].
  - eapply wp_mono; [|apply wp_Registry_ValidateCreate]. cbn beta. intros tr r ->. split; [|tauto].
    intros (? & ? & ?). split_and!; [done..|by apply Hm].
  - split; [done|]. intros (_ & _ & _ & H'). by apply Hm in H'.
Qed.

(** The CEL evaluator of a permitted request is made, or not. *)
Lemma wp_evaluator ctx g :
  permitted ctx g → wp any_answer (Registry_ValidateCreate saNamespace saName ctx g) [] (λ tr _, ∃ b, omap ev_evaluator tr = [b]).
Proof.
  intros Hp%validatedManaged_permitted. unfold Registry_ValidateCreate. rewrite Hp.
  eapply wp_seq; [apply wp_validateRegistry|]. intros ext errs (t & -> & _). destruct (verdict _ _ _); cbn [wp]; by eexists.
Qed.

(** [C29] The registry webhook accepts exactly the registries it should: a
    creation is accepted if and only if the CEL evaluator can be made, the scan
    interval (if any) is at least a minute, the catalog type is known, a
    registry without catalog names its repositories, every expression of a
    condition compiles to a boolean of bounded cost, every platform is
    supported (a known operating system and architecture, with no variant or
    one of that architecture), and, for a registry labelled as managed, the
    user is the service account; an update if and only if that holds of the new
    registry and the user may write the old one; a deletion if and only if the
    user may write the registry. *)
Theorem registry_admission_exact (ctx : context) (old g : Registry) :
  wp any_answer (Registry_ValidateCreate saNamespace saName ctx g) [] (λ tr r,
    r.2 = Ok tt ↔ omap ev_evaluator tr = [true] ∧ registry_valid g ∧ permitted ctx g) ∧
  wp any_answer (Registry_ValidateUpdate saNamespace saName ctx old g) [] (λ tr r,
    r.2 = Ok tt ↔ omap ev_evaluator tr = [true] ∧ registry_valid g ∧ permitted ctx g ∧ permitted ctx old) ∧
  ((Registry_ValidateDelete saNamespace saName ctx g).2 = Ok tt ↔ permitted ctx g).
Proof.
  split; [apply wp_Registry_ValidateCreate|]. split; [apply wp_Registry_ValidateUpdate|]. apply validatedManaged_permitted.
Qed.
End registries.

(** ** What the workload scan controller writes is accepted *)

Section workload.
Context `{!CEL, !SelectorValidation, !GoSort, !MapRange, !JSON RescanRequest}.
Context (saNamespace saName : string).

Definition expression_ok (k : matchConditionKey) : Prop := expression_valid (mk_expression k).

Lemma expressions_entries rs :
  Forall (λ rp, Forall (λ mc, expression_valid (mc_Expression mc)) (rp_MatchConditions rp)) rs ↔ Forall expression_ok (entries rs).*1.
Proof.
  induction rs as [|rp rs IH]; [done|]. change (entries (rp :: rs)) with (repository_entries rp ++ entries rs).
  rewrite Forall_cons, fmap_app, Forall_app, IH. unfold repository_entries. rewrite <- list_fmap_compose.
  by rewrite (Forall_fmap (fst ∘ _)).
Qed.

Lemma needed_expressions repositories :
  (∀ repository tag, expression_ok (tag_key repository tag)) → ∀ k, k ∈ buildNeededMatchConditions repositories → expression_ok k.
Proof. intros Hcel k (r & tags & t & _ & _ & ->)%elem_of_needed. apply Hcel. Qed.

Lemma config_parts config :
  validateWorkloadScanConfiguration config = [] →
  interval_ok (wc_ScanInterval (wc_Spec config)) ∧ Forall platform_ok (wc_Platforms (wc_Spec config)).
Proof.
  unfold validateWorkloadScanConfiguration. rewrite !app_nil, validateScanInterval_ok, validatePlatforms_ok. tauto.
Qed.

Lemma configured_valid config uri catalog rs m cs :
  validateWorkloadScanConfiguration config = [] →
  catalog ∈ ["" ; CatalogTypeNoCatalog; CatalogTypeOCIDistribution] → rs ≠ [] → Forall expression_ok (entries rs).*1 →
  registry_valid {| rg_Meta := m; rg_Spec := configured_spec uri catalog rs config; rg_Conditions := cs |}.
Proof. intros [Hi Hp]%config_parts Hc Hne He. split; cbn; [done|done|done|by apply expressions_entries|done]. Qed.

Lemma updated_expressions ns repositories rs :
  (∀ repository tag, expression_ok (tag_key repository tag)) → Forall expression_ok (entries rs).*1 →
  Forall expression_ok (entries (sortRepositories (updated_repositories ns repositories rs))).*1.
Proof.
  intros Hcel Hrs. rewrite entries_sort, entries_updated, fmap_app, fmap_pair_fst. apply Forall_app. split.
  - apply Forall_forall. intros k Hk. rewrite elem_of_elements, elem_of_difference in Hk. by eapply needed_expressions, Hk.
  - rewrite Forall_forall in Hrs |- *. intros k Hk. apply Hrs. eapply elem_of_sublist; [exact Hk|]. apply relabel_keys.
Qed.

Lemma created_expressions ns repositories :
  (∀ repository tag, expression_ok (tag_key repository tag)) →
  Forall expression_ok (entries (sortRepositories (created_repositories ns repositories))).*1.
Proof.
  intros Hcel. rewrite entries_sort, created_entries. apply Forall_forall. intros k (r & tags & t & _ & _ & ->)%elem_of_tag_entries. apply Hcel.
Qed.

Lemma default_valid g : registry_valid g → registry_valid (Registry_Default g).
Proof.
  intros [Hi Hc Hr He Hp]. unfold Registry_Default. case_bool_decide; [|by split]. split; cbn; try done. set_solver.
Qed.

Lemma with_annotation_valid key value g : registry_valid g → registry_valid (with_annotation key value g).
Proof. by intros []. Qed.

Lemma created_registries_valid (config : WorkloadScanConfiguration)
    (Hcel : ∀ repository tag, expression_ok (tag_key repository tag)) (Hconfig : validateWorkloadScanConfiguration config = [])
    uri ns rns repositories :
  repositories ≠ ∅ →
  wp any_answer (createRegistry uri ns rns repositories config) [] (λ tr _,
    ∀ g a, (g, a) ∈ omap (ev_create KRegistry) tr → registry_valid (Registry_Default g)).
Proof.
  intros Hne. unfold createRegistry. cbv zeta.
  assert (∀ m, registry_valid {| rg_Meta := m; rg_Spec := configured_spec uri "" (sortRepositories (created_repositories ns repositories)) config;
                                 rg_Conditions := [] |}) as Hv.
  { intros m. apply configured_valid; [done|by left| |by apply created_expressions]. apply sort_nonempty. unfold created_repositories.
    intros Hnil%fmap_nil_inv. apply Hne, map_to_list_empty_iff, Permutation_nil_r. by rewrite <- (range_perm 7), Hnil. }
  destruct (wc_ScanOnChange (wc_Spec config)); [destruct (Marshal _) as [data|e]; [|by intros g a []%not_elem_of_nil]; intros u _|];
    intros [ans|e] _; cbn [mbind prog_bind pbind wp]; intros g a [= -> ->]%list_elem_of_singleton;
    apply default_valid; first [apply with_annotation_valid, Hv|apply Hv].
Qed.

Lemma updated_registries_valid (config : WorkloadScanConfiguration)
    (Hcel : ∀ repository tag, expression_ok (tag_key repository tag)) (Hconfig : validateWorkloadScanConfiguration config = [])
    registry ns repositories :
  registry_valid registry →
  wp any_answer (updateRegistry registry ns repositories config) [] (λ tr _,
    ∀ g a, (g, a) ∈ omap (ev_update KRegistry) tr → registry_valid (Registry_Default g)).
Proof.
  intros Hvalid. unfold updateRegistry. cbv zeta. case_bool_decide as Hnil; [by intros g a []%not_elem_of_nil|].
  set (new := {| rg_Meta := rg_Meta registry; rg_Spec := _; rg_Conditions := _ |}).
  assert (registry_valid new) as Hv.
  { apply configured_valid; [done|apply Hvalid|by apply sort_nonempty|]. apply updated_expressions; [done|].
    apply expressions_entries, Hvalid. }
  case_match; [destruct (Marshal _) as [data|e]; [|by intros g a []%not_elem_of_nil]; intros u _|];
    intros [ans|e] _; cbn [mbind prog_bind pbind wp]; intros g a [= -> ->]%list_elem_of_singleton;
    apply default_valid; first [apply with_annotation_valid, Hv|apply Hv].
Qed.

(** The request of the service account. *)
Definition by_service_account (create : bool) : context :=
  Some {| rq_Username := "system:serviceaccount:" +:+ saNamespace +:+ ":" +:+ saName; rq_IsCreate := create |}.

Lemma service_account_permitted create g : permitted saNamespace saName (by_service_account create) g.
Proof. intros _. by eexists. Qed.

(** The webhooks accept, unless the CEL evaluator cannot be made. *)
Definition accepts_creation (g : Registry) : Prop :=
  wp any_answer (Registry_ValidateCreate saNamespace saName (by_service_account true) (Registry_Default g)) [] (λ tr r,
    r.2 = Ok tt ∨ omap ev_evaluator tr = [false]).
Definition accepts_update (old g : Registry) : Prop :=
  wp any_answer (Registry_ValidateUpdate saNamespace saName (by_service_account false) old (Registry_Default g)) [] (λ tr r,
    r.2 = Ok tt ∨ omap ev_evaluator tr = [false]).

Lemma valid_created create g :
  registry_valid g → wp any_answer (Registry_ValidateCreate saNamespace saName (by_service_account create) g) [] (λ tr r,
    r.2 = Ok tt ∨ omap ev_evaluator tr = [false]).
Proof.
  intros Hv. eapply wp_mono; [|apply wp_conj; [apply wp_Registry_ValidateCreate|apply wp_evaluator, service_account_permitted]].
  cbn beta. intros tr r [Hr [[] Hb]]; [left|by right]. apply Hr. split_and!; [done..|apply service_account_permitted].
Qed.

Lemma valid_updated old g : registry_valid (Registry_Default g) → accepts_update old g.
Proof.
  intros Hv. unfold accepts_update, Registry_ValidateUpdate.
  rewrite (proj2 (validatedManaged_permitted saNamespace saName _ old) (service_account_permitted false old)). by apply valid_created.
Qed.

(** [C30] The controller's own writes pass the webhooks: under a configuration
    that the configuration webhook accepts, the registry webhook, after its
    defaults, accepts every registry the workload scan controller creates and
    every update it makes of a valid registry, when the service account of the
    controller writes them, whatever images the namespaces run.  The CEL
    compiler accepts comparisons of the tag with a string literal, and the
    evaluator can be made. *)
Theorem workload_registries_admitted (config : WorkloadScanConfiguration)
    (Hcel : ∀ tag, expression_valid ("tag == " +:+ quote tag))
    (Hconfig : (WorkloadScanConfiguration_ValidateCreate config).2 = Ok tt) :
  (∀ uri ns rns repositories, repositories ≠ ∅ →
     wp any_answer (createRegistry uri ns rns repositories config) [] (λ tr _,
       ∀ g a, (g, a) ∈ omap (ev_create KRegistry) tr → accepts_creation g)) ∧
  (∀ registry ns repositories, registry_valid registry →
     wp any_answer (updateRegistry registry ns repositories config) [] (λ tr _,
       ∀ g a, (g, a) ∈ omap (ev_update KRegistry) tr → accepts_update registry g)).
Proof.
  assert (validateWorkloadScanConfiguration config = []) as Hc.
  { unfold WorkloadScanConfiguration_ValidateCreate, warn_or_reject in Hconfig.
    destruct (verdict _ _ _) as [[]|] eqn:Hv; [by apply verdict_ok in Hv|done]. }
  split.
  - intros uri ns rns repositories Hne. eapply wp_mono; [|apply (created_registries_valid config (λ _ tag, Hcel tag) Hc); exact Hne].
    intros tr r Hall g a Hin. by eapply valid_created, Hall.
  - intros registry ns repositories Hvalid. eapply wp_mono; [|apply (updated_registries_valid config (λ _ tag, Hcel tag) Hc); exact Hvalid].
    intros tr r Hall g a Hin. by eapply valid_updated, Hall.
Qed.
End workload.

(** ** Who can have written what

    The objects behind the webhooks, as the API server changes them: a request
    of a user goes through the defaults and the validation; an accepted one is
    recorded with its user. *)

#[export] Instance NamespacedName_countable : Countable NamespacedName.
Proof.
  apply (inj_countable' (λ k, (nn_Namespace k, nn_Name k)) (λ '(a, b), {| nn_Namespace := a; nn_Name := b |})). by intros [].
Defined.

Record cluster := { cl_registries : gmap NamespacedName Registry; cl_jobs : gmap NamespacedName ScanJob }.

Inductive write := WriteRegistry (g : Registry) | DeleteRegistry (key : NamespacedName) | WriteJob (j : ScanJob) | DeleteJob (key : NamespacedName).

Section authors.
Context `{!CEL, !StatusConditions, !TimeFormat}.
Context (saNamespace saName : string).
Abbreviation service_account := (allowedUsername saNamespace saName).
Abbreviation request user create := (Some {| rq_Username := user; rq_IsCreate := create |}).
Abbreviation rkey g := (key_of (rg_Meta g)).
Abbreviation jkey j := (key_of (sj_Meta j)).

(** The mutating webhook of scan jobs, with the trace context. *)
Definition default_job (user : string) (create : bool) : ScanJob → go ScanJob :=
  instrumented_Default sj_Meta with_sj_Meta true ScanJob_Default (request user create).

Inductive accepted (user : string) (c : cluster) : write → cluster → Prop :=
| accept_create_registry g tr w :
    cl_registries c !! rkey g = None →
    runs (Registry_ValidateCreate saNamespace saName (request user true) (Registry_Default g)) tr (w, Ok tt) →
    accepted user c (WriteRegistry (Registry_Default g))
      {| cl_registries := <[rkey g := Registry_Default g]> (cl_registries c); cl_jobs := cl_jobs c |}
| accept_update_registry old g tr w :
    cl_registries c !! rkey g = Some old →
    runs (Registry_ValidateUpdate saNamespace saName (request user false) old (Registry_Default g)) tr (w, Ok tt) →
    accepted user c (WriteRegistry (Registry_Default g))
      {| cl_registries := <[rkey g := Registry_Default g]> (cl_registries c); cl_jobs := cl_jobs c |}
| accept_delete_registry g w :
    cl_registries c !! rkey g = Some g →
    Registry_ValidateDelete saNamespace saName (request user false) g = (w, Ok tt) →
    accepted user c (DeleteRegistry (rkey g)) {| cl_registries := delete (rkey g) (cl_registries c); cl_jobs := cl_jobs c |}
| accept_create_job j j' tr tr' :
    cl_jobs c !! jkey j = None →
    runs (default_job user true j) tr j' →
    runs (ScanJob_ValidateCreate saNamespace saName (request user true) j') tr' (Ok tt) →
    accepted user c (WriteJob j') {| cl_registries := cl_registries c; cl_jobs := <[jkey j := j']> (cl_jobs c) |}
| accept_update_job old j j' tr :
    cl_jobs c !! jkey j = Some old →
    runs (default_job user false j) tr j' →
    ScanJob_ValidateUpdate saNamespace saName (request user false) old j' = Ok tt →
    accepted user c (WriteJob j') {| cl_registries := cl_registries c; cl_jobs := <[jkey j := j']> (cl_jobs c) |}
| accept_status old st :
    cl_jobs c !! jkey old = Some old →
    let j := {| sj_Meta := sj_Meta old; sj_Spec := sj_Spec old; sj_Status := st |} in
    accepted user c (WriteJob j) {| cl_registries := cl_registries c; cl_jobs := <[jkey old := j]> (cl_jobs c) |}
| accept_delete_job j :
    cl_jobs c !! jkey j = Some j →
    ScanJob_ValidateDelete j = Ok tt →
    accepted user c (DeleteJob (jkey j)) {| cl_registries := cl_registries c; cl_jobs := delete (jkey j) (cl_jobs c) |}.

(** Reachable clusters with the requests that led to them, the last one first. *)
Inductive reaches : list (string * write) → cluster → Prop :=
| reaches_start : reaches [] {| cl_registries := ∅; cl_jobs := ∅ |}
| reaches_step history c user w c' : reaches history c → accepted user c w c' → reaches ((user, w) :: history) c'.

(** The defaults keep the name, and touch no annotation that other code reads but the creation time. *)
Lemma default_job_keeps user create j tr j' :
  runs (default_job user create j) tr j' → sj_Spec j' = sj_Spec j ∧ jkey j' = jkey j.
Proof.
  intros Hr. refine (runs_wp _ tr j' (λ _ j', sj_Spec j' = sj_Spec j ∧ jkey j' = jkey j) Hr _).
  unfold default_job, instrumented_Default. intros now _. cbn [mbind prog_bind pbind].
  destruct (rq_IsCreate _ && true); [|done]. unfold injectTraceparent. case_bool_decide; cbn [negb]; [|done].
  intros fields _. cbn. by case_match.
Qed.

Lemma default_registry_keeps g : rkey (Registry_Default g) = rkey g ∧ om_Labels (rg_Meta (Registry_Default g)) = om_Labels (rg_Meta g).
Proof. unfold Registry_Default. by case_bool_decide. Qed.

(** Managed registries and snapshots with their author. *)
Definition vouched (history : list (string * write)) (c : cluster) : Prop :=
  (∀ key g, cl_registries c !! key = Some g → labelled_managed g → (service_account, WriteRegistry g) ∈ history ∧ rkey g = key) ∧
  (∀ key j s, cl_jobs c !! key = Some j → snapshot_of j = Some s →
     ∃ j', (service_account, WriteJob j') ∈ history ∧ jkey j' = key ∧ snapshot_of j' = Some s).

Lemma vouched_registry history c user g c' :
  vouched history c →
  (labelled_managed (Registry_Default g) → user = service_account) →
  c' = {| cl_registries := <[rkey g := Registry_Default g]> (cl_registries c); cl_jobs := cl_jobs c |} →
  vouched ((user, WriteRegistry (Registry_Default g)) :: history) c'.
Proof.
  intros [Hg Hj] Hu ->. destruct (default_registry_keeps g) as [Hk _]. split; cbn.
  - intros key g' Hl Hm. destruct (decide (key = rkey g)) as [->|Hne].
    + rewrite lookup_insert_eq in Hl. injection Hl as <-. rewrite (Hu Hm). split; [by left|done].
    + rewrite lookup_insert_ne in Hl by done. destruct (Hg _ _ Hl Hm) as [? ?]. split; [by right|done].
  - intros key j s Hl Hs. destruct (Hj _ _ _ Hl Hs) as (j' & ? & ?). exists j'. split; [by right|done].
Qed.

Lemma vouched_job history c user key j' c' :
  vouched history c → jkey j' = key →
  (∀ s, snapshot_of j' = Some s → user = service_account ∨
        ∃ j, (service_account, WriteJob j) ∈ history ∧ jkey j = key ∧ snapshot_of j = Some s) →
  c' = {| cl_registries := cl_registries c; cl_jobs := <[key := j']> (cl_jobs c) |} →
  vouched ((user, WriteJob j') :: history) c'.
Proof.
  intros [Hg Hj] Hk Hu ->. split; cbn.
  - intros key' g Hl Hm. destruct (Hg _ _ Hl Hm) as [? ?]. split; [by right|done].
  - intros key' j s Hl Hs. destruct (decide (key' = key)) as [->|Hne].
    + rewrite lookup_insert_eq in Hl. injection Hl as <-. destruct (Hu s Hs) as [->|(j & Hin & ?)].
      * exists j'. split; [by left|done].
      * exists j. split; [by right|done].
    + rewrite lookup_insert_ne in Hl by done. destruct (Hj _ _ _ Hl Hs) as (j0 & ? & ?). exists j0. split; [by right|done].
Qed.

Lemma writer_is_service_account user create j :
  validateRegistrySnapshotWriter saNamespace saName (request user create) j = Ok tt → user = service_account.
Proof. unfold validateRegistrySnapshotWriter. cbn. by case_bool_decide. Qed.

Lemma created_snapshot_writer user j tr :
  runs (ScanJob_ValidateCreate saNamespace saName (request user true) j) tr (Ok tt) →
  ∀ s, snapshot_of j = Some s → user = service_account.
Proof.
  unfold ScanJob_ValidateCreate. intros Hr s Hs. rewrite Hs in Hr.
  destruct (validateRegistrySnapshotWriter _ _ _ _) as [[]|e] eqn:Hw; [by eapply writer_is_service_account|]. inversion Hr.
Qed.

Lemma vouched_step history c user w c' : vouched history c → accepted user c w c' → vouched ((user, w) :: history) c'.
Proof.
  intros Hv [g tr ws Hnone Hr|old g tr ws Hold Hr|g ws Hg Hr|j j' tr tr' Hnone Hd Hr|old j j' tr Hold Hd Hr|old st Hold j|j Hj Hr].
  - eapply vouched_registry; [done| |done]. intros Hm.
    pose proof (runs_wp _ _ _ _ Hr (wp_Registry_ValidateCreate saNamespace saName _ _)) as Hiff. cbn [snd] in Hiff.
    destruct (proj1 Hiff eq_refl) as (_ & _ & Hu). by destruct (permitted_managed _ _ _ _ Hu Hm) as (rq & [= <-] & Hrq).
  - eapply vouched_registry; [done| |done]. intros Hm. unfold Registry_ValidateUpdate in Hr.
    destruct (validatedManagedRegistry _ _ _ old) as [[]|e]; [|inversion Hr].
    pose proof (runs_wp _ _ _ _ Hr (wp_Registry_ValidateCreate saNamespace saName _ _)) as Hiff. cbn [snd] in Hiff.
    destruct (proj1 Hiff eq_refl) as (_ & _ & Hu). by destruct (permitted_managed _ _ _ _ Hu Hm) as (rq & [= <-] & Hrq).
  - destruct Hv as [Hvg Hvj]. split; cbn.
    + intros key g' [_ Hl]%lookup_delete_Some Hm. destruct (Hvg _ _ Hl Hm) as [? ?]. split; [by right|done].
    + intros key j s Hl Hs. destruct (Hvj _ _ _ Hl Hs) as (j' & ? & ?). exists j'. split; [by right|done].
  - destruct (default_job_keeps _ _ _ _ _ Hd) as [_ Hk]. eapply vouched_job; [done|done| |done].
    intros s Hs. left. by eapply created_snapshot_writer.
  - destruct (default_job_keeps _ _ _ _ _ Hd) as [_ Hk]. eapply vouched_job; [done|done| |done].
    intros s Hs. unfold ScanJob_ValidateUpdate in Hr. case_bool_decide as Heq.
    + right. rewrite <- Heq in Hs. by apply (proj2 Hv _ _ _ Hold).
    + left. destruct (validateRegistrySnapshotWriter _ _ _ _) as [[]|e] eqn:Hw; [by eapply writer_is_service_account|done].
  - eapply vouched_job; [done|done| |done]. intros s Hs. right. by apply (proj2 Hv _ _ _ Hold).
  - destruct Hv as [Hvg Hvj]. split; cbn.
    + intros key g Hl Hm. destruct (Hvg _ _ Hl Hm) as [? ?]. split; [by right|done].
    + intros key j0 s [_ Hl]%lookup_delete_Some Hs. destruct (Hvj _ _ _ Hl Hs) as (j' & ? & ?). exists j'. split; [by right|done].
Qed.

Lemma reaches_vouched history c : reaches history c → vouched history c.
Proof. induction 1 as [|history c user w c' _ IH Ha]; [by split|]. by eapply vouched_step. Qed.

(** [C8] Nobody but the service account of the controller can send the worker to
    another namespace: in every state the API server can reach through the
    webhooks, a managed registry was written by the service account, and so was
    the snapshot of every job; and when the worker resolves the CA bundle and
    the credentials of a job, it reads secrets and config maps of one namespace
    only, either that of the job, or that of the installation, and then for a
    snapshot, written by the service account, of a managed registry. *)
Theorem only_service_account_vouches `{!JSON Registry, !X509} (history : list (string * write)) (c : cluster)
    (Hreach : reaches history c) (installationNamespace : string) :
  vouched history c ∧
  ∀ key j registry, cl_jobs c !! key = Some j → registryFromScanJob j = Ok registry →
    ∃ ns, calls (reads_from ns) (Resolve registry installationNamespace) ∧
          calls (reads_from ns) (BuildDockerConfigForRegistry registry installationNamespace) ∧
          (ns = sj_Namespace j ∨
           ns = installationNamespace ∧ IsManagedByWorkloadScan registry = true ∧
           ∃ j', (service_account, WriteJob j') ∈ history ∧ jkey j' = key ∧ snapshot_of j' = snapshot_of j).
Proof.
  pose proof (reaches_vouched history c Hreach) as Hv. split; [done|]. intros key j registry Hj Hreg.
  exists (secrets_namespace registry installationNamespace).
  split; [apply Resolve_confined|]. split; [apply BuildDockerConfig_confined|]. unfold secrets_namespace.
  destruct (registryFromScanJob_Ok j registry Hreg) as [Hns _].
  destruct (IsManagedByWorkloadScan registry); [right|by left]. split; [done|]. split; [done|].
  unfold registryFromScanJob in Hreg. destruct (om_Annotations (sj_Meta j) !! AnnotationScanJobRegistryKey) as [s|] eqn:Hs; [|done].
  destruct (proj2 Hv key j s Hj Hs) as (j' & ? & ? & Hsnap). exists j'. split; [done|]. split; [done|]. rewrite Hsnap. symmetry. exact Hs.
Qed.

(** ** The creation time of a job *)

Lemma default_job_update user j now :
  runs (default_job user false j) [Ev Now now]
    (with_sj_Meta (with_Annotations (<[AnnotationScanJobCreationTimestampKey := Format_RFC3339Nano now]> (om_Annotations (sj_Meta j)))
                     (sj_Meta j)) j).
Proof. constructor. constructor. Qed.

(** The creation time of a job moves with every update: the defaulter runs
    for updates too, so that an update that changes nothing else, by anyone, is
    accepted and makes the job younger than every job created before that
    moment, although the jobs that a registry keeps are chosen by this time. *)
Theorem creation_time_rewritten `{!GoTime} (user : string) (j : ScanJob) (now : Z)
    (Hformat : time_Parse (Format_RFC3339Nano now) = Some now) :
  ∃ j', runs (default_job user false j) [Ev Now now] j' ∧
        ScanJob_ValidateUpdate saNamespace saName (request user false) j j' = Ok tt ∧
        ScanJob.GetCreationTimestampFromAnnotation j' = now ∧
        ∀ other, ScanJob.GetCreationTimestampFromAnnotation other < now → older other j' = true.
Proof.
  eexists. split; [apply default_job_update|]. set (j' := with_sj_Meta _ j).
  assert (ScanJob.GetCreationTimestampFromAnnotation j' = now) as Hnow.
  { unfold ScanJob.GetCreationTimestampFromAnnotation, j'. cbn [with_sj_Meta sj_Meta with_Annotations om_Annotations].
    by rewrite lookup_insert_eq, Hformat. }
  split_and!; [|done|intros other Ho; unfold older; apply bool_decide_eq_true; by rewrite Hnow].
  unfold ScanJob_ValidateUpdate, j'. rewrite bool_decide_eq_true_2.
  - cbn. by rewrite !bool_decide_eq_true_2.
  - unfold snapshot_of. cbn [with_sj_Meta sj_Meta with_Annotations om_Annotations]. by rewrite lookup_insert_ne.
Qed.
End authors.

(** ** Examples *)

(** A CEL environment that accepts everything as a boolean expression. *)
Definition lenient_CEL : CEL := {|
  celAst := unit; celProgram := unit; env_Compile := λ _, Ok tt; env_EstimateCost := λ _, Ok 1;
  ast_OutputIsBool := λ _, true; env_Program := λ _ _, Ok tt; prg_Eval := λ _ _, Ok (celBool true) |}.
Definition no_selector_errors : SelectorValidation := {| ValidateLabelSelector := λ _ _, [] |}.
Definition decimal_time : TimeFormat := {| Format_RFC3339Nano := FormatInt |}.
Definition decimal_parse : GoTime :=
  {| time_Parse := λ s, match ParseInt s with Ok n => Some n | Err _ => None end |}.

Lemma workload_registries_admitted_witness :
  Forall (λ p, @accepts_creation lenient_CEL "sbomscanner" "controller" p.1) (omap (ev_create KRegistry)
    (run_trace accepting (@createRegistry insertion_GoSort insertion_order sample_requests "ghcr.io" "apps" "artifacts"
                            {["nginx" := {["1"]}]} sample_workload_config) [])).
Proof.
  refine (wp_run_any accepting _ [] (λ tr _, Forall (λ p, @accepts_creation lenient_CEL "sbomscanner" "controller" p.1)
    (omap (ev_create KRegistry) tr)) _).
  eapply wp_mono; [|apply (proj1 (@workload_registries_admitted lenient_CEL no_selector_errors insertion_GoSort insertion_order
    sample_requests "sbomscanner" "controller" sample_workload_config
    (λ _, ex_intro _ tt (ex_intro _ 1 (conj eq_refl (conj eq_refl (conj (Zle_bool_imp_le 1 100 eq_refl) eq_refl))))) eq_refl));
    apply map_non_empty_singleton].
  intros tr r H. apply Forall_forall. intros [g a]. apply H.
Defined.

Lemma creation_time_rewritten_witness :
  ∃ j', runs (@default_job decimal_time "alice" false sample_job) [Ev Now 77] j' ∧
        @ScanJob_ValidateUpdate "sbomscanner" "controller" (Some {| rq_Username := "alice"; rq_IsCreate := false |}) sample_job j' = Ok tt ∧
        @ScanJob.GetCreationTimestampFromAnnotation decimal_parse j' = 77.
Proof.
  destruct (@creation_time_rewritten decimal_time "sbomscanner" "controller" decimal_parse "alice" sample_job 77) as (j' & Hr & Hv & Ht & _).
  - cbn [time_Parse decimal_parse Format_RFC3339Nano decimal_time]. by rewrite ParseInt_FormatInt by lia.
  - exists j'. done.
Defined.

(** The service account makes a job with the snapshot of a managed registry. *)
Definition managed_snapshot : JSON Registry :=
  {| Marshal := λ _, Ok "snapshot"; Unmarshal := λ _, Ok sample_registry |}.
Definition vouched_job_sample : ScanJob :=
  new_ScanJob (new_meta "job" "" "artifacts" ∅ {[AnnotationScanJobRegistryKey := "snapshot"]}) "r1" [].
Definition vouched_job_stored : ScanJob :=
  with_sj_Meta (with_Annotations (<[AnnotationScanJobCreationTimestampKey := "77"]> (om_Annotations (sj_Meta vouched_job_sample)))
                  (sj_Meta vouched_job_sample)) vouched_job_sample.

Lemma only_service_account_vouches_witness :
  let sa := allowedUsername "sbomscanner" "controller" in
  ∃ ns, @calls Eff (reads_from ns) _ (@Resolve {| AppendCertsFromPEM := λ _, true |} sample_registry "sbomscanner") ∧ (ns = "artifacts" ∨ ns = "sbomscanner").
Proof.
  intros sa.
  destruct (@only_service_account_vouches lenient_CEL meta_conditions decimal_time "sbomscanner" "controller" managed_snapshot
    {| AppendCertsFromPEM := λ _, true |} [(sa, WriteJob vouched_job_stored)]
    {| cl_registries := ∅; cl_jobs := <[key_of (sj_Meta vouched_job_sample) := vouched_job_stored]> ∅ |}) with (installationNamespace := "sbomscanner")
    as [_ H].
  - eapply reaches_step; [constructor|]. apply (accept_create_job _ _ sa {| cl_registries := ∅; cl_jobs := ∅ |} vouched_job_sample vouched_job_stored [Ev Now 77; Ev TraceFields []]
      [Ev (KList KScanJob [InNamespace "artifacts"; MatchingFields IndexScanJobSpecRegistry "r1"]) (Ok []);
       Ev (KGet KRegistry {| nn_Namespace := "artifacts"; nn_Name := "r1" |}) (Ok sample_registry)]).
    + apply lookup_empty.
    + unfold vouched_job_stored. constructor. cbn [mbind prog_bind pbind]. constructor. vm_compute. constructor.
    + unfold ScanJob_ValidateCreate. vm_compute. constructor. constructor. constructor.
  - destruct (H (key_of (sj_Meta vouched_job_sample)) vouched_job_stored sample_registry) as (ns & Hr & _ & Hns).
    + apply lookup_insert_eq.
    + vm_compute. reflexivity.
    + exists ns. split; [exact Hr|]. destruct Hns as [->|[-> _]]; [by left|by right].
Defined.
