(* ===== verification/Mcp.v ===== *)
(** * The MCP server: what it says of vulnerabilities

    [src/internal/mcp/helpers.go]: the vulnerabilities of a report, one per CVE,
    simplified, the worst first, and their counts. *)

From stdpp Require Import prelude gmap strings list sorting.
From Stdlib Require Import ZArith QArith Lqa Lia.
From S2P Require Import Prelude Meta StorageTypes Effects WorkloadReport WorkloadPopulate.
Open Scope Z_scope.

(** ** Floating point

    A [float64] with the order of its values; [strconv.ParseFloat] is the class
    [FloatText]. *)
Inductive float64 := NaN | NegInf | Finite (q : Q) | PosInf.

(** Go's [<]: false when an operand is not a number. *)
Definition float_lt (a b : float64) : bool :=
  match a, b with
  | NaN, _ | _, NaN | _, NegInf | PosInf, _ => false
  | NegInf, _ | _, PosInf => true
  | Finite p, Finite q => negb (Qle_bool q p)
  end.

(** [cmp.Compare(a, b) < 0]: NaN is below every number. *)
Definition cmp_less (a b : float64) : bool :=
  match a, b with
  | _, NaN => false
  | NaN, _ => true
  | _, _ => float_lt a b
  end.

Class FloatText := { ParseFloat : string → result float64 }.

Record simplifiedVulnerability := {
  sv_CVE : string;
  sv_Link : string;
  sv_CVSSScore : float64;
  sv_Severity : string;
  sv_Critical : bool;
  sv_FixAvailable : bool;
  sv_Suppressed : bool;
  sv_Package : string
}.

Section simplify.
Context `{!FloatText, !MapRange, !GoSort}.

(** The loop of [simplifyVulnerability] over the CVSS entries. *)
Fixpoint highest_score (cve : string) (highestScore : float64) (entries : list CVSS) : result float64 :=
  match entries with
  | [] => Ok highestScore
  | cvssEntry :: entries' =>
      if bool_decide (cv_V3Score cvssEntry = "") then highest_score cve highestScore entries'
      else match ParseFloat (cv_V3Score cvssEntry) with
           | Err e => Err (errorf ("parsing CVSS v3 score " +:+ quote (cv_V3Score cvssEntry) +:+ " for " +:+ cve) e)
           | Ok score => highest_score cve (if float_lt highestScore score then score else highestScore) entries'
           end
  end.

Definition simplifyVulnerability (vulnerability : Vulnerability) : result simplifiedVulnerability :=
  let link := match v_References vulnerability with reference :: _ => reference | [] => "" end in
  match highest_score (v_CVE vulnerability) (Finite 0) (range 11 (map_to_list (v_CVSS vulnerability)).*2) with
  | Err e => Err e
  | Ok highestScore => Ok {|
      sv_CVE := v_CVE vulnerability;
      sv_Link := link;
      sv_CVSSScore := highestScore;
      sv_Severity := v_Severity vulnerability;
      sv_Critical := bool_decide (v_Severity vulnerability = SeverityCritical);
      sv_FixAvailable := bool_decide (v_FixedVersions vulnerability ≠ []);
      sv_Suppressed := v_Suppressed vulnerability;
      sv_Package := v_PackageName vulnerability |}
  end.

Definition severityRank (severity : string) : Z :=
  if bool_decide (severity = SeverityCritical) then 4
  else if bool_decide (severity = SeverityHigh) then 3
  else if bool_decide (severity = SeverityMedium) then 2
  else if bool_decide (severity = SeverityLow) then 1
  else 0.

(** The comparison of [sortVulnerabilities]. *)
Definition worse (a b : simplifiedVulnerability) : bool :=
  let severityA := severityRank (sv_Severity a) in
  let severityB := severityRank (sv_Severity b) in
  if bool_decide (severityA = severityB) then cmp_less (sv_CVSSScore b) (sv_CVSSScore a)
  else bool_decide (severityB < severityA).

Definition sortVulnerabilities (vulnerabilities : list simplifiedVulnerability) : list simplifiedVulnerability :=
  sort_Slice worse vulnerabilities.

(** The body of the inner loops of the two functions below. *)
Definition collect_one (seen : result (gmap string simplifiedVulnerability)) (vulnerability : Vulnerability)
  : result (gmap string simplifiedVulnerability) :=
  match seen with
  | Err e => Err e
  | Ok seen =>
      match seen !! v_CVE vulnerability with
      | Some _ => Ok seen
      | None =>
          match simplifyVulnerability vulnerability with
          | Err e => Err e
          | Ok simplified => Ok (<[v_CVE vulnerability := simplified]> seen)
          end
      end
  end.

Definition listed (seen : result (gmap string simplifiedVulnerability)) : result (list simplifiedVulnerability) :=
  match seen with
  | Err e => Err e
  | Ok seen => Ok (sortVulnerabilities (range 12 (map_to_list seen).*2))
  end.

Definition collectSimplifiedVulnerabilitiesFromReport (report : Report) : result (list simplifiedVulnerability) :=
  listed (fold_left (λ seen result, fold_left collect_one (r_Vulnerabilities result) seen) (rep_Results report) (Ok ∅)).

Definition collectSimplifiedVulnerabilities (report : VulnerabilityReport) : result (list simplifiedVulnerability) :=
  collectSimplifiedVulnerabilitiesFromReport (vr_Report report).

Definition collectSimplifiedVulnerabilitiesFromWorkload (reports : list WorkloadScanVulnerabilityReport)
  : result (list simplifiedVulnerability) :=
  listed (fold_left (λ seen report,
      fold_left (λ seen result, fold_left collect_one (r_Vulnerabilities result) seen) (rep_Results (wv_Report report)) seen)
    reports (Ok ∅)).

(** The loop body of [summaryFromSimplified]. *)
Definition summary_add (summary : Summary) (vulnerability : simplifiedVulnerability) : Summary :=
  let '(Build_Summary critical high medium low unknown suppressed) := summary in
  if sv_Suppressed vulnerability then Build_Summary critical high medium low unknown (suppressed + 1)
  else if bool_decide (sv_Severity vulnerability = SeverityCritical)
  then Build_Summary (critical + 1) high medium low unknown suppressed
  else if bool_decide (sv_Severity vulnerability = SeverityHigh)
  then Build_Summary critical (high + 1) medium low unknown suppressed
  else if bool_decide (sv_Severity vulnerability = SeverityMedium)
  then Build_Summary critical high (medium + 1) low unknown suppressed
  else if bool_decide (sv_Severity vulnerability = SeverityLow)
  then Build_Summary critical high medium (low + 1) unknown suppressed
  else Build_Summary critical high medium low (unknown + 1) suppressed.

Definition summaryFromSimplified (vulnerabilities : list simplifiedVulnerability) : Summary :=
  fold_left summary_add vulnerabilities empty_Summary.

(** ** The order *)

Lemma Qless_spec p q : negb (Qle_bool q p) = true ↔ (p < q)%Q.
Proof.
  rewrite negb_true_iff, <- not_true_iff_false, Qle_bool_iff. split; [apply Qnot_le_lt|apply Qlt_not_le].
Qed.
Lemma Qless_false p q : negb (Qle_bool q p) = false ↔ (q <= p)%Q.
Proof. by rewrite negb_false_iff, Qle_bool_iff. Qed.

Lemma cmp_less_order : StrictWeakOrder cmp_less.
Proof.
  split.
  - intros []; cbn; try done. rewrite Qless_false. apply Qle_refl.
  - intros [] [] []; cbn; try done. rewrite !Qless_spec. apply Qlt_trans.
  - intros [] [] []; cbn; try done. rewrite !Qless_false. intros ??. by eapply Qle_trans.
Qed.

Lemma worse_order : StrictWeakOrder worse.
Proof.
  destruct cmp_less_order as [Hirr Htr Hinc]. unfold worse. split.
  - intros x. by rewrite bool_decide_eq_true_2.
  - intros x y z. repeat case_bool_decide; rewrite ?bool_decide_eq_true; try lia; try done. intros ??. by eapply Htr.
  - intros x y z. repeat case_bool_decide; try done; try lia. intros ??. by eapply Hinc.
Qed.

(** ** What is collected *)

(** The score: that of the entries which is not below any other, or zero. *)
Definition score_of (vulnerability : Vulnerability) (score : float64) : Prop :=
  let scores := (λ e, ParseFloat (cv_V3Score e)) <$> filter (λ e, cv_V3Score e ≠ "") (map_to_list (v_CVSS vulnerability)).*2 in
  (score = Finite 0 ∨ Ok score ∈ scores) ∧ Forall (λ r, ∃ x, r = Ok x ∧ float_lt score x = false) scores.

Definition unreadable (vulnerability : Vulnerability) : Prop :=
  ∃ k entry e, v_CVSS vulnerability !! k = Some entry ∧ cv_V3Score entry ≠ "" ∧ ParseFloat (cv_V3Score entry) = Err e.

(** What is kept of a vulnerability. *)
Record simplified (v : Vulnerability) (s : simplifiedVulnerability) : Prop := {
  si_CVE : sv_CVE s = v_CVE v;
  si_Link : head (v_References v) = if bool_decide (v_References v = []) then None else Some (sv_Link s);
  si_Score : score_of v (sv_CVSSScore s);
  si_Severity : sv_Severity s = v_Severity v;
  si_Critical : sv_Critical s = true ↔ v_Severity v = SeverityCritical;
  si_Fix : sv_FixAvailable s = true ↔ v_FixedVersions v ≠ [];
  si_Suppressed : sv_Suppressed s = v_Suppressed v;
  si_Package : sv_Package s = v_PackageName v
}.

Lemma simplified_readable v s : simplified v s → ¬ unreadable v.
Proof.
  intros [_ _ [_ Hall] _ _ _ _ _] (k & entry & e & Hk & Hne & He). rewrite Forall_fmap, Forall_forall in Hall.
  destruct (Hall entry) as (x & Hx & _); [|cbn in Hx; congruence].
  apply list_elem_of_filter. split; [done|]. apply list_elem_of_fmap. exists (k, entry). split; [done|]. by apply elem_of_map_to_list.
Qed.

Lemma float_max h score s : h ≠ NaN →
  float_lt s (if float_lt h score then score else h) = false → float_lt s h = false ∧ float_lt s score = false.
Proof.
  intros Hn. destruct (float_lt h score) eqn:Hl; intros Hs; (split; [|done]) || (split; [done|]);
    destruct h, score, s; cbn in *; try done; rewrite ?Qless_spec, ?Qless_false in *; lra.
Qed.

Lemma highest_score_spec cve entries h : h ≠ NaN →
  let scores := (λ e, ParseFloat (cv_V3Score e)) <$> filter (λ e, cv_V3Score e ≠ "") entries in
  match highest_score cve h entries with
  | Ok s => (s = h ∨ Ok s ∈ scores) ∧ float_lt s h = false ∧ Forall (λ r, ∃ x, r = Ok x ∧ float_lt s x = false) scores
  | Err _ => ∃ entry e, entry ∈ entries ∧ cv_V3Score entry ≠ "" ∧ ParseFloat (cv_V3Score entry) = Err e
  end.
Proof.
  revert h. induction entries as [|entry entries IH]; intros h Hn; cbn [highest_score].
  { split_and!; [by left| |constructor]. destruct h; cbn; try done. rewrite Qless_false. apply Qle_refl. }
  case_bool_decide as He.
  { rewrite filter_cons_False by tauto. specialize (IH h Hn). cbv zeta in IH. destruct (highest_score _ _ _); [done|].
    destruct IH as (x & e' & ? & ?). exists x, e'. split; [by right|done]. }
  rewrite filter_cons_True by done. cbn. destruct (ParseFloat (cv_V3Score entry)) as [score|e] eqn:Hp.
  2:{ exists entry, e. split; [by left|done]. }
  assert ((if float_lt h score then score else h) ≠ NaN) as Hn'.
  { destruct (float_lt h score) eqn:Hl; [|done]. intros ->. by destruct h. }
  specialize (IH _ Hn'). cbv zeta in IH. destruct (highest_score _ _ _) as [s|].
  2:{ destruct IH as (x & e' & ? & ?). exists x, e'. split; [by right|done]. }
  destruct IH as (Hs & Hl & Hall). destruct (float_max h score s Hn Hl) as [Hh Hsc]. split_and!; [|done|].
  - destruct Hs as [->|Hs]; [|right; by right]. destruct (float_lt h score); [right; by left|by left].
  - constructor; [by exists score|done].
Qed.

Lemma simplify_spec v :
  match simplifyVulnerability v with Ok s => simplified v s | Err _ => unreadable v end.
Proof.
  unfold simplifyVulnerability.
  pose proof (highest_score_spec (v_CVE v) (range 11 (map_to_list (v_CVSS v)).*2) (Finite 0) ltac:(done)) as Hh.
  cbv zeta in Hh. destruct (highest_score _ _ _) as [score|e].
  - destruct Hh as (Hs & _ & Hall). rewrite range_perm in Hs, Hall. split; cbn; try done.
    + destruct (v_References v); [done|]. by rewrite bool_decide_eq_false_2.
    + by rewrite bool_decide_eq_true.
    + by rewrite bool_decide_eq_true.
  - destruct Hh as (entry & e' & Hin & Hne & He). rewrite range_perm in Hin.
    apply list_elem_of_fmap in Hin as ([k x] & -> & Hin%elem_of_map_to_list). by exists k, x, e'.
Qed.

Lemma collected_fold vs (seen : gmap string simplifiedVulnerability) :
  let fs := firsts v_CVE (dom seen) vs in
  match fold_left collect_one vs (Ok seen) with
  | Ok m => ∃ ss, Forall2 simplified fs ss ∧ (map_to_list m).*2 ≡ₚ (map_to_list seen).*2 ++ ss
  | Err _ => Exists unreadable fs
  end.
Proof.
  revert seen. induction vs as [|v vs IH]; intros seen; cbn [fold_left firsts].
  { exists []. split; [constructor|]. by rewrite app_nil_r. }
  cbn [collect_one]. destruct (seen !! v_CVE v) as [s0|] eqn:Hv.
  { rewrite bool_decide_eq_true_2 by (by eapply elem_of_dom_2). apply IH. }
  rewrite bool_decide_eq_false_2 by (by apply not_elem_of_dom). pose proof (simplify_spec v) as Hs.
  destruct (simplifyVulnerability v) as [s|e].
  - specialize (IH (<[v_CVE v := s]> seen)). cbv zeta in IH. rewrite dom_insert_L in IH.
    destruct (fold_left collect_one vs (Ok (<[v_CVE v := s]> seen))) as [m|e].
    + destruct IH as (ss & Hf & Hp). exists (s :: ss). split; [by constructor|].
      rewrite Hp, map_to_list_insert by done. cbn. apply Permutation_middle.
    + by right.
  - assert (fold_left collect_one vs (Err e) = Err e) as -> by (clear; by induction vs). by left.
Qed.

(** What a tool lists of some vulnerabilities: the first finding of each CVE,
    simplified; the first of the list are the worst. *)
Definition collected (vs : list Vulnerability) (r : result (list simplifiedVulnerability)) : Prop :=
  match r with
  | Ok l =>
      NoDup (sv_CVE <$> l) ∧ (∀ cve, cve ∈ sv_CVE <$> l ↔ cve ∈ v_CVE <$> vs) ∧
      (∀ s, s ∈ l → ∃ v, v ∈ firsts v_CVE ∅ vs ∧ simplified v s) ∧
      (∀ n x y, x ∈ take n l → y ∈ drop n l → worse y x = false)
  | Err _ => Exists unreadable (firsts v_CVE ∅ vs)
  end.

Lemma listed_spec vs :
  match listed (fold_left collect_one vs (Ok ∅)) with
  | Ok l => ∃ ss, Forall2 simplified (firsts v_CVE ∅ vs) ss ∧ l ≡ₚ ss ∧ StronglySorted (λ x y, worse y x = false) l
  | Err _ => Exists unreadable (firsts v_CVE ∅ vs)
  end.
Proof.
  pose proof (collected_fold vs ∅) as Hc. cbv zeta in Hc. rewrite dom_empty_L in Hc.
  destruct (fold_left collect_one vs (Ok ∅)) as [m|e]; cbn [listed]; [|done].
  destruct Hc as (ss & Hf & Hp). rewrite map_to_list_empty in Hp. exists ss. split_and!; [done| |].
  - unfold sortVulnerabilities. by rewrite sort_Slice_perm, range_perm.
  - apply sort_Slice_sorted, worse_order.
Qed.

Lemma sorted_take_drop {A} (R : A → A → Prop) l n x y : StronglySorted R l → x ∈ take n l → y ∈ drop n l → R x y.
Proof.
  intros Hs. rewrite <- (take_drop n l) in Hs. revert Hs. generalize (take n l), (drop n l). clear.
  intros l1 l2. induction l1 as [|z l1 IH]; intros Hs Hx Hy; [by apply elem_of_nil in Hx|].
  cbn in Hs. apply StronglySorted_inv in Hs as [Hs Hz]. apply elem_of_cons in Hx as [->|Hx]; [|by apply IH].
  rewrite Forall_forall in Hz. apply Hz, elem_of_app. by right.
Qed.

Lemma listed_collected vs : collected vs (listed (fold_left collect_one vs (Ok ∅))).
Proof.
  pose proof (listed_spec vs) as Hl. destruct (listed _) as [l|e]; [|done]. destruct Hl as (ss & Hf & Hp & Hs).
  assert (sv_CVE <$> ss = v_CVE <$> firsts v_CVE ∅ vs) as Hn.
  { clear -Hf. induction Hf as [|v s vs' ss' Hv _ IH]; [done|]. cbn. by rewrite IH, (si_CVE _ _ Hv). }
  split_and!.
  - rewrite Hp, Hn. apply firsts_NoDup.
  - intros cve. rewrite Hp, Hn, firsts_keys. set_solver.
  - intros s. rewrite Hp. intros (i & Hi)%list_elem_of_lookup. destruct (Forall2_lookup_r _ _ _ _ _ Hf Hi) as (v & Hv & Hsv).
    exists v. split; [by eapply list_elem_of_lookup_2|done].
  - intros n x y. by apply (sorted_take_drop (λ x y, worse y x = false)).
Qed.

Lemma collect_results seen (results : list Result) :
  fold_left (λ seen result, fold_left collect_one (r_Vulnerabilities result) seen) results seen =
    fold_left collect_one (all_vulnerabilities results) seen.
Proof. unfold all_vulnerabilities. by rewrite <- fold_concat, <- fold_map. Qed.

Lemma collect_reports seen reports :
  fold_left (λ seen report,
      fold_left (λ seen result, fold_left collect_one (r_Vulnerabilities result) seen) (rep_Results (wv_Report report)) seen)
    reports seen =
  fold_left collect_one (concat ((λ vr, all_vulnerabilities (rep_Results (wv_Report vr))) <$> reports)) seen.
Proof.
  rewrite <- fold_concat, <- fold_map. revert seen. induction reports as [|r reports IH]; intros seen; [done|].
  cbn [fold_left]. by rewrite IH, collect_results.
Qed.

(** The tools name every CVE once, the worst first: what they collect of a
    report, and of a container of a workload, holds exactly the CVEs found,
    each with the data of its first finding and the highest readable CVSS
    score, and whatever number of entries is shown, no entry left out is worse
    (in severity, then score) than one that is shown; collecting fails only on
    a score that is not a number. *)
Theorem worst_first (report : Report) (container : ContainerResult) :
  collected (all_vulnerabilities (rep_Results report)) (collectSimplifiedVulnerabilitiesFromReport report) ∧
  collected (container_vulnerabilities container)
    (collectSimplifiedVulnerabilitiesFromWorkload (ct_VulnerabilityReports container)).
Proof.
  unfold collectSimplifiedVulnerabilitiesFromReport, collectSimplifiedVulnerabilitiesFromWorkload.
  rewrite collect_results, collect_reports. split; apply listed_collected.
Qed.

(** ** Counting *)

Lemma summary_add_simplified v s a : simplified v s → summary_add a s = Summary_Add a v.
Proof. intros [_ _ _ Hsev _ _ Hsup _]. destruct a. unfold summary_add, Summary_Add. by rewrite Hsev, Hsup. Qed.

Lemma summary_add_comm a x y : summary_add (summary_add a x) y = summary_add (summary_add a y) x.
Proof. destruct a. unfold summary_add. repeat (case_match; simplify_eq/=); f_equal; lia. Qed.

Lemma fold_left_perm {A B} (f : A → B → A) l1 l2 a :
  (∀ a x y, f (f a x) y = f (f a y) x) → l1 ≡ₚ l2 → fold_left f l1 a = fold_left f l2 a.
Proof.
  intros Hf Hp. revert a. induction Hp as [|x l1 l2 _ IH|x y l|l1 l2 l3 _ IH1 _ IH2]; intros a; cbn; [done|apply IH| |].
  - by rewrite Hf.
  - by rewrite IH1.
Qed.

Lemma summary_simplified vs l :
  listed (fold_left collect_one vs (Ok ∅)) = Ok l → summaryFromSimplified l = summary_of (firsts v_CVE ∅ vs).
Proof.
  intros Hl. pose proof (listed_spec vs) as H'. rewrite Hl in H'. destruct H' as (ss & Hf & Hp & _).
  unfold summaryFromSimplified. rewrite (fold_left_perm _ _ _ _ summary_add_comm Hp).
  rewrite <- (app_nil_l (firsts v_CVE ∅ vs)), <- fold_Summary_Add. change (summary_of []) with empty_Summary.
  generalize empty_Summary. clear -Hf. induction Hf as [|v s vs' ss' Hv _ IH]; intros a; [done|]. cbn.
  by rewrite (summary_add_simplified _ _ _ Hv), IH.
Qed.

Definition summary_le (a b : Summary) : Prop :=
  s_Critical a ≤ s_Critical b ∧ s_High a ≤ s_High b ∧ s_Medium a ≤ s_Medium b ∧ s_Low a ≤ s_Low b ∧
  s_Unknown a ≤ s_Unknown b ∧ s_Suppressed a ≤ s_Suppressed b.

Lemma count_sublist P l1 l2 : l1 `sublist_of` l2 → StorageTypes.count P l1 ≤ StorageTypes.count P l2.
Proof. intros Hs. unfold StorageTypes.count. induction Hs; cbn; repeat case_match; cbn; lia. Qed.

Lemma summary_of_sublist l1 l2 : l1 `sublist_of` l2 → summary_le (summary_of l1) (summary_of l2).
Proof. intros Hs. unfold summary_le, summary_of. cbn -[StorageTypes.count]. split_and!; by apply count_sublist. Qed.

Lemma summary_plus_le a a' b b' : summary_le a a' → summary_le b b' → summary_le (summary_plus a b) (summary_plus a' b').
Proof. unfold summary_le, summary_plus. cbn. lia. Qed.

(** The counts by CVE are below the counts by CVE, package, version and suppression. *)
Lemma total_by_cve (vss : list (list Vulnerability)) :
  summary_le (total_summary (firsts v_CVE ∅ <$> vss)) (total_summary (distinct ∅ <$> vss)).
Proof.
  unfold total_summary. assert (summary_le empty_Summary empty_Summary) as He by (unfold summary_le; lia).
  revert He. generalize empty_Summary at 1 3. generalize empty_Summary. induction vss as [|vs vss IH]; intros b a Hab; [done|].
  cbn. apply IH, summary_plus_le; [done|]. apply summary_of_sublist. unfold distinct. apply firsts_sublist; [|set_solver].
  unfold vulnerabilityKey. congruence.
Qed.
(** The first finding of a CVE decides for all: when it is suppressed, for the
    package it was found in, the CVE is listed as suppressed, even if other
    packages are exposed to it. *)
Theorem first_finding_decides pre v post s l :
  v_CVE v ∉ v_CVE <$> pre → collected (pre ++ v :: post) (Ok l) → s ∈ l → sv_CVE s = v_CVE v →
  sv_Suppressed s = v_Suppressed v ∧ sv_Package s = v_PackageName v.
Proof.
  intros Hv (_ & _ & Hs & _) Hin Hc. destruct (Hs s Hin) as (w & Hw & Hsw). rewrite (si_Suppressed _ _ Hsw), (si_Package _ _ Hsw).
  rewrite (si_CVE _ _ Hsw) in Hc. cut (w = v); [by intros ->|].
  assert (∀ seen, v_CVE v ∉ seen → w ∈ firsts v_CVE seen (pre ++ v :: post) → w = v) as Hf; [|by apply (Hf ∅); [set_solver|]].
  clear -Hv Hc. induction pre as [|u pre IH]; intros seen Hn; cbn in *.
  - rewrite bool_decide_eq_false_2 by done. intros [->|[_ ?]%elem_of_firsts]%elem_of_cons; [done|set_solver].
  - apply not_elem_of_cons in Hv as [Hu Hv]. case_bool_decide; [by apply IH|].
    intros [->|Hw]%elem_of_cons; [congruence|]. eapply IH; [done| |exact Hw]. set_solver.
Qed.
End simplify.

(** A critical vulnerability of two packages, suppressed for the first: the
    storage counts one critical finding, the tools none. *)
Definition finding (package : string) (suppressed : bool) : Vulnerability := {|
  v_CVE := "CVE-2024-1"; v_Title := ""; v_PackageName := package; v_PackagePath := ""; v_PURL := ""; v_InstalledVersion := "1";
  v_FixedVersions := []; v_DiffID := ""; v_Description := ""; v_Severity := SeverityCritical; v_SeveritySource := "";
  v_References := []; v_CVSS := ∅; v_CWEs := []; v_Suppressed := suppressed; v_VEXStatus := None |}.

Example suppression_of_one_package :
  s_Critical (summary_of (distinct ∅ [finding "a" true; finding "b" false])) = 1 ∧
  s_Critical (summary_of (firsts v_CVE ∅ [finding "a" true; finding "b" false])) = 0.
Proof. by vm_compute. Qed.
