(* ===== verification/McpTools.v ===== *)
(** * The MCP server: its tools

    [src/internal/mcp/tools.go], [types.go], [middlewares.go] and [server.go]: a
    tool call becomes reads and writes of the Kubernetes API.  The SDK decodes
    the arguments and routes a call by the name of its tool, to the tools that
    were registered; the server is read-only, or not. *)

From stdpp Require Import prelude gmap strings list sorting.
From Stdlib Require Import ZArith Lia.
From S2P Require Import Prelude Prog Meta Registry ScanJob NodeScanJob StorageTypes Effects WorkloadReport WorkloadPopulate Mcp.
Open Scope Z_scope.

(** ** Arguments and responses *)

Record namespacedListArgs := { la_Namespace : string }.
Record namespacedGetArgs := { ga_Name : string; ga_Namespace : string }.
Record clusterGetArgs := { cg_Name : string }.
Record registryCreateArgs := {
  rca_Name : string; rca_Namespace : string; rca_URI : string; rca_CatalogType : string; rca_Insecure : bool;
  rca_Repositories : list Repository
}.
(** A pointer or slice that was not given is [None]. *)
Record registryUpdateArgs := {
  rua_Name : string; rua_Namespace : string; rua_URI : option string; rua_CatalogType : option string;
  rua_Insecure : option bool; rua_Repositories : option (list Repository)
}.
Record scanJobCreateArgs := { sca_Name : string; sca_Namespace : string; sca_Registry : string }.
Record vexHubCreateArgs := { vca_Name : string; vca_URL : string; vca_Enabled : bool }.
Record vexHubUpdateArgs := { vua_Name : string; vua_URL : option string; vua_Enabled : option bool }.
Record nodeScanJobCreateArgs := { nca_Name : string; nca_NodeName : string }.

Record imageListItem := {
  ili_Name : string; ili_Namespace : string; ili_Registry : string; ili_Repository : string; ili_Tag : string;
  ili_Total : Z; ili_Summary : Summary
}.
Record workloadListItem := {
  wli_ReportName : string; wli_Namespace : string; wli_WorkloadName : string; wli_WorkloadKind : string;
  wli_Total : Z; wli_Summary : Summary
}.
Record nodeListItem := { nli_Name : string; nli_Platform : string; nli_Total : Z; nli_Summary : Summary }.
Record nodeVulnerabilitiesResponse := {
  nvr_Node : string; nvr_Platform : string; nvr_Vulnerabilities : list simplifiedVulnerability
}.
Record nodeVulnerabilitySummaryResponse := {
  nsr_Node : string; nsr_Platform : string; nsr_Total : Z; nsr_Summary : Summary;
  nsr_TopVulnerabilities : list simplifiedVulnerability
}.
Record imageVulnerabilitiesResponse := {
  ivr_Registry : string; ivr_Repository : string; ivr_Tag : string; ivr_Vulnerabilities : list simplifiedVulnerability
}.
Record imageVulnerabilitySummaryResponse := {
  isr_Registry : string; isr_Repository : string; isr_Tag : string; isr_Total : Z; isr_Summary : Summary;
  isr_TopVulnerabilities : list simplifiedVulnerability
}.
Record containerVulnerabilitySummary := {
  cvs_Container : string; cvs_Total : Z; cvs_Summary : Summary; cvs_TopVulnerabilities : list simplifiedVulnerability
}.
Record workloadVulnerabilitySummaryResponse := {
  wsr_Workload : string; wsr_Total : Z; wsr_Summary : Summary; wsr_Containers : list containerVulnerabilitySummary
}.
Record containerVulnerabilities := { cvr_Container : string; cvr_Vulnerabilities : list simplifiedVulnerability }.
Record workloadVulnerabilitiesResponse := { wvr_Workload : string; wvr_Containers : list containerVulnerabilities }.

(** [mcp.CallToolResult] with one text. *)
Record CallToolResult := { ct_Text : string; ct_IsError : bool }.
Abbreviation tool_result := (go (result CallToolResult)).

(** [sum.Critical + sum.High + sum.Medium + sum.Low + sum.Unknown]. *)
Definition total_of (sum : Summary) : Z := s_Critical sum + s_High sum + s_Medium sum + s_Low sum + s_Unknown sum.

Definition ownerWorkload (report : WorkloadScanReport) : string * string :=
  match om_OwnerReferences (ws_Meta report) with
  | r :: _ => (or_Name r, or_Kind r)
  | [] => (om_Name (ws_Meta report), "")
  end.

Definition jsonResult `{!JSON T} (obj : T) : tool_result :=
  match Marshal obj with
  | Err e => Ret (Err (errorf "marshaling result" e))
  | Ok data => Ret (Ok {| ct_Text := data; ct_IsError := false |})
  end.

Definition toolError (format : string) (e : error) : tool_result :=
  Ret (Ok {| ct_Text := format +:+ Error e; ct_IsError := true |}).

(** [if err := call(); err != nil { return toolError(format, err) }]. *)
Definition or_toolError {A} (call : go (result A)) (format : string) (k : A → tool_result) : tool_result :=
  r ← call; match r with Ok a => k a | Err e => toolError format e end.

Definition in_namespace (namespace : string) : list ListOption :=
  if bool_decide (namespace = "") then [] else [InNamespace namespace].

Definition named (name namespace : string) : NamespacedName := {| nn_Namespace := namespace; nn_Name := name |}.

Section tools.
Context `{!FloatText, !MapRange, !GoSort}.
Context `{!∀ k, JSON (obj k), !∀ k, JSON (list (obj k))}.
Context `{!JSON (list imageListItem), !JSON (list workloadListItem), !JSON (list nodeListItem)}.
Context `{!JSON imageVulnerabilitiesResponse, !JSON imageVulnerabilitySummaryResponse}.
Context `{!JSON workloadVulnerabilitiesResponse, !JSON workloadVulnerabilitySummaryResponse}.
Context `{!JSON nodeVulnerabilitiesResponse, !JSON nodeVulnerabilitySummaryResponse}.

Definition getClusterScoped (k : kind) (name : string) : tool_result :=
  or_toolError (trigger (KGet k (named name ""))) "getting resource: " jsonResult.
Definition listNamespaced (k : kind) (namespace : string) : tool_result :=
  or_toolError (trigger (KList k (in_namespace namespace))) "listing resources: " jsonResult.
Definition getNamespaced (k : kind) (name namespace : string) : tool_result :=
  or_toolError (trigger (KGet k (named name namespace))) "getting resource: " jsonResult.

(** ** Read tools *)

Definition listRegistries (args : namespacedListArgs) : tool_result := listNamespaced KRegistry (la_Namespace args).
Definition getRegistry (args : namespacedGetArgs) : tool_result := getNamespaced KRegistry (ga_Name args) (ga_Namespace args).
Definition listScanJobs (args : namespacedListArgs) : tool_result := listNamespaced KScanJob (la_Namespace args).
Definition getScanJob (args : namespacedGetArgs) : tool_result := getNamespaced KScanJob (ga_Name args) (ga_Namespace args).
Definition getWorkloadScanConfiguration : tool_result := getClusterScoped KWorkloadScanConfiguration WorkloadScanConfigurationName.
Definition listVEXHubs : tool_result := or_toolError (trigger (KList KVEXHub [])) "listing VEXHubs: " jsonResult.
Definition getVEXHub (args : clusterGetArgs) : tool_result := getClusterScoped KVEXHub (cg_Name args).
Definition getNodeScanConfiguration : tool_result := getClusterScoped KNodeScanConfiguration NodeScanConfigurationName.
Definition listNodeScanJobs : tool_result := or_toolError (trigger (KList KNodeScanJob [])) "listing NodeScanJobs: " jsonResult.
Definition getNodeScanJob (args : clusterGetArgs) : tool_result := getClusterScoped KNodeScanJob (cg_Name args).

Definition image_item (report : VulnerabilityReport) : imageListItem :=
  let sum := rep_Summary (vr_Report report) in {|
  ili_Name := om_Name (vr_Meta report);
  ili_Namespace := om_Namespace (vr_Meta report);
  ili_Registry := im_Registry (vr_ImageMetadata report);
  ili_Repository := im_Repository (vr_ImageMetadata report);
  ili_Tag := im_Tag (vr_ImageMetadata report);
  ili_Total := total_of sum;
  ili_Summary := sum |}.

Definition listImages (args : namespacedListArgs) : tool_result :=
  or_toolError (trigger (KList KVulnerabilityReport (in_namespace (la_Namespace args)))) "listing vulnerability reports: "
    (λ list : list VulnerabilityReport, jsonResult (image_item <$> list)).

Definition getImageVulnerabilities (args : namespacedGetArgs) : tool_result :=
  or_toolError (trigger (KGet KVulnerabilityReport (named (ga_Name args) (ga_Namespace args)))) "getting vulnerability report: "
    (λ report : VulnerabilityReport,
       or_toolError (Ret (collectSimplifiedVulnerabilities report)) "collecting vulnerabilities: " (λ vulnerabilities,
         jsonResult {|
           ivr_Registry := im_Registry (vr_ImageMetadata report);
           ivr_Repository := im_Repository (vr_ImageMetadata report);
           ivr_Tag := im_Tag (vr_ImageMetadata report);
           ivr_Vulnerabilities := vulnerabilities |})).

(** [if len(top) > 10 { top = top[:10] }]. *)
Definition top_ten (vulnerabilities : list simplifiedVulnerability) : list simplifiedVulnerability :=
  if bool_decide (10 < length vulnerabilities)%nat then take 10 vulnerabilities else vulnerabilities.

Definition getImageVulnerabilitySummary (args : namespacedGetArgs) : tool_result :=
  or_toolError (trigger (KGet KVulnerabilityReport (named (ga_Name args) (ga_Namespace args)))) "getting vulnerability report: "
    (λ report : VulnerabilityReport,
       or_toolError (Ret (collectSimplifiedVulnerabilities report)) "collecting vulnerabilities: " (λ vulnerabilities,
         let sum := rep_Summary (vr_Report report) in
         jsonResult {|
           isr_Registry := im_Registry (vr_ImageMetadata report);
           isr_Repository := im_Repository (vr_ImageMetadata report);
           isr_Tag := im_Tag (vr_ImageMetadata report);
           isr_Total := total_of sum;
           isr_Summary := sum;
           isr_TopVulnerabilities := top_ten vulnerabilities |})).

Definition workload_item (report : WorkloadScanReport) : workloadListItem :=
  let sum := ws_Summary report in
  let '(workloadName, workloadKind) := ownerWorkload report in {|
  wli_ReportName := om_Name (ws_Meta report);
  wli_Namespace := om_Namespace (ws_Meta report);
  wli_WorkloadName := workloadName;
  wli_WorkloadKind := workloadKind;
  wli_Total := total_of sum;
  wli_Summary := sum |}.

Definition listWorkloads (args : namespacedListArgs) : tool_result :=
  or_toolError (trigger (KList KWorkloadScanReport (in_namespace (la_Namespace args)))) "listing workload scan reports: "
    (λ list : list WorkloadScanReport, jsonResult (workload_item <$> list)).

(** The loops over the containers of a report; the first error leaves them. *)
Fixpoint each_container {A} (f : ContainerResult → list simplifiedVulnerability → A) (containers : list ContainerResult)
  : result (list A) :=
  match containers with
  | [] => Ok []
  | container :: containers' =>
      match collectSimplifiedVulnerabilitiesFromWorkload (ct_VulnerabilityReports container) with
      | Err e => Err e
      | Ok vulnerabilities =>
          match each_container f containers' with Err e => Err e | Ok l => Ok (f container vulnerabilities :: l) end
      end
  end.

Definition container_summary (container : ContainerResult) (vulnerabilities : list simplifiedVulnerability)
  : containerVulnerabilitySummary :=
  let summary := summaryFromSimplified vulnerabilities in {|
  cvs_Container := ct_Name container;
  cvs_Total := total_of summary;
  cvs_Summary := summary;
  cvs_TopVulnerabilities := top_ten vulnerabilities |}.

Definition workload_summary (report : WorkloadScanReport) (containers : list containerVulnerabilitySummary)
  : workloadVulnerabilitySummaryResponse := {|
  wsr_Workload := om_Name (ws_Meta report);
  wsr_Total := total_of (ws_Summary report);
  wsr_Summary := ws_Summary report;
  wsr_Containers := containers |}.

Definition getWorkloadVulnerabilitySummary (args : namespacedGetArgs) : tool_result :=
  or_toolError (trigger (KGet KWorkloadScanReport (named (ga_Name args) (ga_Namespace args)))) "getting workload scan report: "
    (λ report : WorkloadScanReport,
       or_toolError (Ret (each_container container_summary (ws_Containers report))) "collecting vulnerabilities: "
         (λ containers, jsonResult (workload_summary report containers))).

Definition getWorkloadVulnerabilities (args : namespacedGetArgs) : tool_result :=
  or_toolError (trigger (KGet KWorkloadScanReport (named (ga_Name args) (ga_Namespace args)))) "getting workload scan report: "
    (λ report : WorkloadScanReport,
       or_toolError
         (Ret (each_container (λ container vulnerabilities,
                  {| cvr_Container := ct_Name container; cvr_Vulnerabilities := vulnerabilities |}) (ws_Containers report)))
         "collecting vulnerabilities: "
         (λ containers, jsonResult {| wvr_Workload := om_Name (ws_Meta report); wvr_Containers := containers |})).

Definition node_item (report : NodeVulnerabilityReport) : nodeListItem :=
  let sum := rep_Summary (nv_Report report) in {|
  nli_Name := nm_Name (nv_NodeMetadata report);
  nli_Platform := nm_Platform (nv_NodeMetadata report);
  nli_Total := total_of sum;
  nli_Summary := sum |}.

Definition listNodes : tool_result :=
  or_toolError (trigger (KList KNodeVulnerabilityReport [])) "listing node vulnerability reports: "
    (λ list : list NodeVulnerabilityReport, jsonResult (node_item <$> list)).

Definition getNodeVulnerabilitySummary (args : clusterGetArgs) : tool_result :=
  or_toolError (trigger (KGet KNodeVulnerabilityReport (named (cg_Name args) ""))) "getting node vulnerability report: "
    (λ report : NodeVulnerabilityReport,
       or_toolError (Ret (collectSimplifiedVulnerabilitiesFromReport (nv_Report report))) "collecting vulnerabilities: "
         (λ vulnerabilities,
            let sum := rep_Summary (nv_Report report) in
            jsonResult {|
              nsr_Node := nm_Name (nv_NodeMetadata report);
              nsr_Platform := nm_Platform (nv_NodeMetadata report);
              nsr_Total := total_of sum;
              nsr_Summary := sum;
              nsr_TopVulnerabilities := top_ten vulnerabilities |})).

Definition getNodeVulnerabilities (args : clusterGetArgs) : tool_result :=
  or_toolError (trigger (KGet KNodeVulnerabilityReport (named (cg_Name args) ""))) "getting node vulnerability report: "
    (λ report : NodeVulnerabilityReport,
       or_toolError (Ret (collectSimplifiedVulnerabilitiesFromReport (nv_Report report))) "collecting vulnerabilities: "
         (λ vulnerabilities,
            jsonResult {|
              nvr_Node := nm_Name (nv_NodeMetadata report);
              nvr_Platform := nm_Platform (nv_NodeMetadata report);
              nvr_Vulnerabilities := vulnerabilities |})).

(** ** Write tools *)

Definition new_registry (args : registryCreateArgs) : Registry := {|
  rg_Meta := new_meta (rca_Name args) "" (rca_Namespace args) ∅ ∅;
  rg_Spec := {| rs_URI := rca_URI args; rs_CatalogType := rca_CatalogType args; rs_Repositories := rca_Repositories args;
                rs_AuthSecret := ""; rs_ScanInterval := None; rs_CABundle := ""; rs_CABundleRef := None;
                rs_Insecure := rca_Insecure args; rs_Platforms := [] |};
  rg_Conditions := [] |}.

Definition mcp_createRegistry (args : registryCreateArgs) : tool_result :=
  or_toolError (trigger (KCreate KRegistry (new_registry args))) "creating registry: " jsonResult.

(** The fields given replace those of the registry. *)
Definition edit_registry (args : registryUpdateArgs) (registry : Registry) : Registry :=
  let spec := rg_Spec registry in {|
  rg_Meta := rg_Meta registry;
  rg_Spec := {| rs_URI := default (rs_URI spec) (rua_URI args);
                rs_CatalogType := default (rs_CatalogType spec) (rua_CatalogType args);
                rs_Repositories := default (rs_Repositories spec) (rua_Repositories args);
                rs_AuthSecret := rs_AuthSecret spec; rs_ScanInterval := rs_ScanInterval spec; rs_CABundle := rs_CABundle spec;
                rs_CABundleRef := rs_CABundleRef spec;
                rs_Insecure := default (rs_Insecure spec) (rua_Insecure args); rs_Platforms := rs_Platforms spec |};
  rg_Conditions := rg_Conditions registry |}.

Definition mcp_updateRegistry (args : registryUpdateArgs) : tool_result :=
  or_toolError (trigger (KGet KRegistry (named (rua_Name args) (rua_Namespace args)))) "getting registry: "
    (λ registry : Registry,
       or_toolError (trigger (KUpdate KRegistry (edit_registry args registry))) "updating registry: " jsonResult).

(** Fetch, delete and return an object. *)
Definition get_and_delete (k : kind) (key : NamespacedName) (getting deleting : string) : tool_result :=
  or_toolError (trigger (KGet k key)) getting
    (λ o, or_toolError (trigger (KDelete k o)) deleting (λ _, jsonResult o)).

Definition mcp_deleteRegistry (args : namespacedGetArgs) : tool_result :=
  get_and_delete KRegistry (named (ga_Name args) (ga_Namespace args)) "getting registry: " "deleting registry: ".

Definition mcp_createScanJob (args : scanJobCreateArgs) : tool_result :=
  or_toolError (trigger (KCreate KScanJob
      (new_ScanJob (new_meta (sca_Name args) "" (sca_Namespace args) ∅ ∅) (sca_Registry args) [])))
    "creating scan job: " jsonResult.

Definition mcp_deleteScanJob (args : namespacedGetArgs) : tool_result :=
  get_and_delete KScanJob (named (ga_Name args) (ga_Namespace args)) "getting scan job: " "deleting scan job: ".

Definition mcp_createNodeScanJobs (args : nodeScanJobCreateArgs) : tool_result :=
  or_toolError (trigger (KCreate KNodeScanJob {|
      nj_Meta := new_meta (nca_Name args) "" "" ∅ ∅;
      nj_Spec := {| np_NodeName := nca_NodeName args |};
      nj_Status := {| ns_Conditions := []; ns_StartTime := None; ns_CompletionTime := None |} |}))
    "creating NodeScanJobs: " jsonResult.

Definition mcp_createVEXHub (args : vexHubCreateArgs) : tool_result :=
  or_toolError (trigger (KCreate KVEXHub {|
      vh_Meta := new_meta (vca_Name args) "" "" ∅ ∅; vh_URL := vca_URL args; vh_Enabled := vca_Enabled args |}))
    "creating VEXHub: " jsonResult.

Definition edit_vexhub (args : vexHubUpdateArgs) (vexHub : VEXHub) : VEXHub := {|
  vh_Meta := vh_Meta vexHub;
  vh_URL := default (vh_URL vexHub) (vua_URL args);
  vh_Enabled := default (vh_Enabled vexHub) (vua_Enabled args) |}.

Definition mcp_updateVEXHub (args : vexHubUpdateArgs) : tool_result :=
  or_toolError (trigger (KGet KVEXHub (named (vua_Name args) ""))) "getting VEXHub: "
    (λ vexHub : VEXHub,
       or_toolError (trigger (KUpdate KVEXHub (edit_vexhub args vexHub))) "updating VEXHub: " jsonResult).

Definition mcp_deleteVEXHub (args : clusterGetArgs) : tool_result :=
  get_and_delete KVEXHub (named (cg_Name args) "") "getting VEXHub: " "deleting VEXHub: ".

(** ** The server *)

Inductive tool_call :=
| ListRegistries (args : namespacedListArgs)
| GetRegistry (args : namespacedGetArgs)
| CreateRegistry (args : registryCreateArgs)
| UpdateRegistry (args : registryUpdateArgs)
| DeleteRegistry (args : namespacedGetArgs)
| ListScanJobs (args : namespacedListArgs)
| GetScanJob (args : namespacedGetArgs)
| CreateScanJob (args : scanJobCreateArgs)
| DeleteScanJob (args : namespacedGetArgs)
| GetWorkloadScanConfiguration
| ListVEXHubs
| GetVEXHub (args : clusterGetArgs)
| CreateVEXHub (args : vexHubCreateArgs)
| UpdateVEXHub (args : vexHubUpdateArgs)
| DeleteVEXHub (args : clusterGetArgs)
| ListImages (args : namespacedListArgs)
| GetImageVulnerabilities (args : namespacedGetArgs)
| GetImageVulnerabilitySummary (args : namespacedGetArgs)
| ListWorkloads (args : namespacedListArgs)
| GetWorkloadVulnerabilities (args : namespacedGetArgs)
| GetWorkloadVulnerabilitySummary (args : namespacedGetArgs)
| GetNodeScanConfiguration
| CreateNodeScanJobs (args : nodeScanJobCreateArgs)
| ListNodeScanJobs
| GetNodeScanJob (args : clusterGetArgs)
| ListNodes
| GetNodeVulnerabilities (args : clusterGetArgs)
| GetNodeVulnerabilitySummary (args : clusterGetArgs).

Definition tool_name (call : tool_call) : string :=
  match call with
  | ListRegistries _ => "list_registries"
  | GetRegistry _ => "get_registry"
  | CreateRegistry _ => "create_registry"
  | UpdateRegistry _ => "update_registry"
  | DeleteRegistry _ => "delete_registry"
  | ListScanJobs _ => "list_scanjobs"
  | GetScanJob _ => "get_scanjob"
  | CreateScanJob _ => "create_scanjob"
  | DeleteScanJob _ => "delete_scanjob"
  | GetWorkloadScanConfiguration => "get_workloadscan_configuration"
  | ListVEXHubs => "list_vexhubs"
  | GetVEXHub _ => "get_vexhub"
  | CreateVEXHub _ => "create_vexhub"
  | UpdateVEXHub _ => "update_vexhub"
  | DeleteVEXHub _ => "delete_vexhub"
  | ListImages _ => "list_images"
  | GetImageVulnerabilities _ => "get_image_vulnerabilities"
  | GetImageVulnerabilitySummary _ => "get_image_vulnerability_summary"
  | ListWorkloads _ => "list_workloads"
  | GetWorkloadVulnerabilities _ => "get_workload_vulnerabilities"
  | GetWorkloadVulnerabilitySummary _ => "get_workload_vulnerability_summary"
  | GetNodeScanConfiguration => "get_nodescan_configuration"
  | CreateNodeScanJobs _ => "create_nodescanjobs"
  | ListNodeScanJobs => "list_nodescanjobs"
  | GetNodeScanJob _ => "get_nodescanjob"
  | ListNodes => "list_nodes"
  | GetNodeVulnerabilities _ => "get_node_vulnerabilities"
  | GetNodeVulnerabilitySummary _ => "get_node_vulnerability_summary"
  end.

(** The function each tool is registered with. *)
Definition handle_call (call : tool_call) : tool_result :=
  match call with
  | ListRegistries args => listRegistries args
  | GetRegistry args => getRegistry args
  | CreateRegistry args => mcp_createRegistry args
  | UpdateRegistry args => mcp_updateRegistry args
  | DeleteRegistry args => mcp_deleteRegistry args
  | ListScanJobs args => listScanJobs args
  | GetScanJob args => getScanJob args
  | CreateScanJob args => mcp_createScanJob args
  | DeleteScanJob args => mcp_deleteScanJob args
  | GetWorkloadScanConfiguration => getWorkloadScanConfiguration
  | ListVEXHubs => listVEXHubs
  | GetVEXHub args => getVEXHub args
  | CreateVEXHub args => mcp_createVEXHub args
  | UpdateVEXHub args => mcp_updateVEXHub args
  | DeleteVEXHub args => mcp_deleteVEXHub args
  | ListImages args => listImages args
  | GetImageVulnerabilities args => getImageVulnerabilities args
  | GetImageVulnerabilitySummary args => getImageVulnerabilitySummary args
  | ListWorkloads args => listWorkloads args
  | GetWorkloadVulnerabilities args => getWorkloadVulnerabilities args
  | GetWorkloadVulnerabilitySummary args => getWorkloadVulnerabilitySummary args
  | GetNodeScanConfiguration => getNodeScanConfiguration
  | CreateNodeScanJobs args => mcp_createNodeScanJobs args
  | ListNodeScanJobs => listNodeScanJobs
  | GetNodeScanJob args => getNodeScanJob args
  | ListNodes => listNodes
  | GetNodeVulnerabilities args => getNodeVulnerabilities args
  | GetNodeVulnerabilitySummary args => getNodeVulnerabilitySummary args
  end.

Definition registerReadTools : list string := [
  "list_registries"; "get_registry"; "list_scanjobs"; "get_scanjob"; "get_workloadscan_configuration"; "list_vexhubs";
  "get_vexhub"; "list_images"; "get_image_vulnerabilities"; "get_image_vulnerability_summary"; "list_workloads";
  "get_workload_vulnerability_summary"; "get_workload_vulnerabilities"; "get_nodescan_configuration"; "list_nodescanjobs";
  "get_nodescanjob"; "list_nodes"; "get_node_vulnerability_summary"; "get_node_vulnerabilities"].
Definition registerWriteTools : list string := [
  "create_registry"; "update_registry"; "delete_registry"; "create_scanjob"; "delete_scanjob"; "create_nodescanjobs";
  "create_vexhub"; "update_vexhub"; "delete_vexhub"].

(** The tools of [NewServer]. *)
Definition registered (readOnly : bool) : list string := registerReadTools ++ if readOnly then [] else registerWriteTools.

(** [rateLimitMiddleware]; [allowed] is the answer of the limiter. *)
Definition rateLimitMiddleware (allowed : bool) (next : tool_result) : tool_result :=
  if negb allowed then Ret (Err (errors_New "rate limit exceeded")) else next.

(** The SDK calls the function of a registered tool. *)
Definition serve (readOnly allowed : bool) (call : tool_call) : tool_result :=
  rateLimitMiddleware allowed
    (if bool_decide (tool_name call ∈ registered readOnly) then handle_call call
     else Ret (Err (errors_New ("unknown tool " +:+ quote (tool_name call))))).

(** [requireBasicAuth]: a request goes on with the right name and password. *)
Definition requireBasicAuth (username password : string) (auth : option (string * string)) : bool :=
  match auth with
  | None => false
  | Some (u, p) => bool_decide (u = username) && bool_decide (p = password)
  end.

(** The handler of [Run]: the tools behind the authentication. *)
Inductive http_response := Unauthorized | Answered (r : result CallToolResult).

Definition http_request (username password : string) (auth : option (string * string)) (readOnly allowed : bool)
    (call : tool_call) : go http_response :=
  if requireBasicAuth username password auth then r ← serve readOnly allowed call; Ret (Answered r) else Ret Unauthorized.

(** [readCredentials]. *)
Definition readCredentials (dir : string) : go (result (string * string)) :=
  username ←? trigger (OsReadAll (dir +:+ "/username")) wrap errorf "failed to read username";
  password ←? trigger (OsReadAll (dir +:+ "/password")) wrap errorf "failed to read password";
  Ret (Ok (TrimSpace username, TrimSpace password)).

(** ** What the tools change *)

Inductive change :=
| Created (k : kind) (o : obj k)
| Updated (k : kind) (o : obj k)
| Deleted (k : kind) (o : obj k).

Definition ev_change (ob : obs Eff) : option change :=
  match ob with
  | Ev (KCreate k o) _ => Some (Created k o)
  | Ev (KUpdate k o) _ => Some (Updated k o)
  | Ev (KDelete k o) _ => Some (Deleted k o)
  | _ => None
  end.

(** A field takes the value given, or keeps the one it had. *)
Definition set_to {A} (given : option A) (old new : A) : Prop :=
  match given with Some a => new = a | None => new = old end.

(** A new object has the name it was given and nothing else. *)
Definition fresh_meta (name namespace : string) (m : ObjectMeta) : Prop := m = new_meta name "" namespace ∅ ∅.

Record registry_asked (args : registryCreateArgs) (g : Registry) : Prop := {
  ra_Meta : fresh_meta (rca_Name args) (rca_Namespace args) (rg_Meta g);
  ra_URI : rs_URI (rg_Spec g) = rca_URI args;
  ra_CatalogType : rs_CatalogType (rg_Spec g) = rca_CatalogType args;
  ra_Repositories : rs_Repositories (rg_Spec g) = rca_Repositories args;
  ra_Insecure : rs_Insecure (rg_Spec g) = rca_Insecure args;
  ra_AuthSecret : rs_AuthSecret (rg_Spec g) = "";
  ra_ScanInterval : rs_ScanInterval (rg_Spec g) = None;
  ra_CABundle : rs_CABundle (rg_Spec g) = "" ∧ rs_CABundleRef (rg_Spec g) = None;
  ra_Platforms : rs_Platforms (rg_Spec g) = [];
  ra_Conditions : rg_Conditions g = []
}.

Record registry_edited (args : registryUpdateArgs) (g g' : Registry) : Prop := {
  re_URI : set_to (rua_URI args) (rs_URI (rg_Spec g)) (rs_URI (rg_Spec g'));
  re_CatalogType : set_to (rua_CatalogType args) (rs_CatalogType (rg_Spec g)) (rs_CatalogType (rg_Spec g'));
  re_Insecure : set_to (rua_Insecure args) (rs_Insecure (rg_Spec g)) (rs_Insecure (rg_Spec g'));
  re_Repositories : set_to (rua_Repositories args) (rs_Repositories (rg_Spec g)) (rs_Repositories (rg_Spec g'));
  re_Meta : rg_Meta g' = rg_Meta g;
  re_AuthSecret : rs_AuthSecret (rg_Spec g') = rs_AuthSecret (rg_Spec g);
  re_ScanInterval : rs_ScanInterval (rg_Spec g') = rs_ScanInterval (rg_Spec g);
  re_CABundle : rs_CABundle (rg_Spec g') = rs_CABundle (rg_Spec g);
  re_CABundleRef : rs_CABundleRef (rg_Spec g') = rs_CABundleRef (rg_Spec g);
  re_Platforms : rs_Platforms (rg_Spec g') = rs_Platforms (rg_Spec g);
  re_Conditions : rg_Conditions g' = rg_Conditions g
}.

Record scanjob_asked (args : scanJobCreateArgs) (j : ScanJob) : Prop := {
  sa_Meta : fresh_meta (sca_Name args) (sca_Namespace args) (sj_Meta j);
  sa_Registry : sp_Registry (sj_Spec j) = sca_Registry args;
  sa_Repositories : sp_Repositories (sj_Spec j) = [];
  sa_Conditions : ss_Conditions (sj_Status j) = []
}.

Record vexhub_edited (args : vexHubUpdateArgs) (h h' : VEXHub) : Prop := {
  ve_URL : set_to (vua_URL args) (vh_URL h) (vh_URL h');
  ve_Enabled : set_to (vua_Enabled args) (vh_Enabled h) (vh_Enabled h');
  ve_Meta : vh_Meta h' = vh_Meta h
}.

(** The object [o] was read under a name. *)
Definition was_read (k : kind) (tr : trace Eff) (name namespace : string) (o : obj k) : Prop :=
  ({| nn_Namespace := namespace; nn_Name := name |}, Ok o) ∈ omap (ev_get k) tr.

(** The change a call asks for, given what was read before. *)
Inductive intended (tr : trace Eff) : tool_call → change → Prop :=
| create_registry args g : registry_asked args g → intended tr (CreateRegistry args) (Created KRegistry g)
| update_registry args g g' : was_read KRegistry tr (rua_Name args) (rua_Namespace args) g → registry_edited args g g' →
    intended tr (UpdateRegistry args) (Updated KRegistry g')
| delete_registry args g : was_read KRegistry tr (ga_Name args) (ga_Namespace args) g →
    intended tr (DeleteRegistry args) (Deleted KRegistry g)
| create_scanjob args j : scanjob_asked args j → intended tr (CreateScanJob args) (Created KScanJob j)
| delete_scanjob args j : was_read KScanJob tr (ga_Name args) (ga_Namespace args) j →
    intended tr (DeleteScanJob args) (Deleted KScanJob j)
| create_nodescanjob args j :
    fresh_meta (nca_Name args) "" (nj_Meta j) → np_NodeName (nj_Spec j) = nca_NodeName args → ns_Conditions (nj_Status j) = [] →
    intended tr (CreateNodeScanJobs args) (Created KNodeScanJob j)
| create_vexhub args h :
    fresh_meta (vca_Name args) "" (vh_Meta h) → vh_URL h = vca_URL args → vh_Enabled h = vca_Enabled args →
    intended tr (CreateVEXHub args) (Created KVEXHub h)
| update_vexhub args h h' : was_read KVEXHub tr (vua_Name args) "" h → vexhub_edited args h h' →
    intended tr (UpdateVEXHub args) (Updated KVEXHub h')
| delete_vexhub args h : was_read KVEXHub tr (cg_Name args) "" h → intended tr (DeleteVEXHub args) (Deleted KVEXHub h).

(** The calls that ask for a change. *)
Definition asks_change (call : tool_call) : bool :=
  match call with
  | CreateRegistry _ | UpdateRegistry _ | DeleteRegistry _ | CreateScanJob _ | DeleteScanJob _ | CreateNodeScanJobs _
  | CreateVEXHub _ | UpdateVEXHub _ | DeleteVEXHub _ => true
  | _ => false
  end.

Definition succeeded (r : result CallToolResult) : bool :=
  match r with Ok c => negb (ct_IsError c) | Err _ => false end.

(** What a run did to the cluster. *)
Definition confined (readOnly allowed : bool) (call : tool_call) (tr : trace Eff) (r : result CallToolResult) : Prop :=
  length (List.filter is_write tr) = length (omap ev_change tr) ∧ omap ev_publish tr = [] ∧
  (omap ev_change tr = [] ∧ (asks_change call = true → succeeded r = false) ∨
   ∃ c, omap ev_change tr = [c] ∧ intended tr call c ∧ readOnly = false ∧ allowed = true).

Lemma wp_or_toolError {A} (p : go (result A)) format k tr Q :
  wp any_answer p tr (λ tr r, match r with Ok a => wp any_answer (k a) tr Q | Err e => wp any_answer (toolError format e) tr Q end) →
  wp any_answer (or_toolError p format k) tr Q.
Proof. intros Hp. unfold or_toolError. apply wp_bind. eapply wp_mono; [|exact Hp]. by intros tr' [a|e]. Qed.

Lemma wp_jsonResult `{!JSON T} (o : T) tr (Q : trace Eff → result CallToolResult → Prop) :
  (∀ r, Q tr r) → wp any_answer (jsonResult o) tr Q.
Proof. intros HQ. unfold jsonResult. destruct (Marshal o); apply HQ. Qed.

Lemma updated_registry args g : registry_edited args g (edit_registry args g).
Proof. split; try done; cbn; [by destruct (rua_URI args)|by destruct (rua_CatalogType args)|by destruct (rua_Insecure args)|by destruct (rua_Repositories args)]. Qed.
Lemma updated_vexhub args h : vexhub_edited args h (edit_vexhub args h).
Proof. split; try done; cbn; [by destruct (vua_URL args)|by destruct (vua_Enabled args)]. Qed.
Lemma just_read k tr name namespace (o : obj k) :
  was_read k (Ev (KGet k {| nn_Namespace := namespace; nn_Name := name |}) (Ok o) :: tr) name namespace o.
Proof. unfold was_read. destruct k; by left. Qed.

Create HintDb mcp.
#[local] Hint Unfold listRegistries getRegistry listScanJobs getScanJob getWorkloadScanConfiguration listVEXHubs getVEXHub
  getNodeScanConfiguration listNodeScanJobs getNodeScanJob listNamespaced getNamespaced getClusterScoped listImages
  getImageVulnerabilities getImageVulnerabilitySummary listWorkloads getWorkloadVulnerabilitySummary
  getWorkloadVulnerabilities listNodes getNodeVulnerabilitySummary getNodeVulnerabilities mcp_createRegistry
  mcp_updateRegistry mcp_deleteRegistry mcp_createScanJob mcp_deleteScanJob mcp_createNodeScanJobs mcp_createVEXHub
  mcp_updateVEXHub mcp_deleteVEXHub get_and_delete : mcp.

(** Runs a tool, one answer at a time. *)
Ltac tool_steps :=
  autounfold with mcp;
  repeat first
    [ apply wp_or_toolError
    | apply wp_jsonResult; intros ?
    | progress (intros ? _; cbn [app])
    | progress cbn [wp trigger toolError]
    | match goal with |- match ?r with _ => _ end => destruct r end ].

Lemma write_tool_registered name readOnly :
  bool_decide (name ∈ registerReadTools) = false → name ∈ registered readOnly → readOnly = false.
Proof.
  unfold registered. intros Hn%bool_decide_eq_false. destruct readOnly; [|done]. by rewrite app_nil_r.
Qed.

Lemma tool_confined (call : tool_call) readOnly :
  tool_name call ∈ registered readOnly →
  wp any_answer (handle_call call) [] (λ tr r, confined readOnly true call tr r).
Proof.
  intros Hr. destruct call; cbn [handle_call]; tool_steps.
  all: try (split; [done|]; split; [done|]; left; done).
  all: apply write_tool_registered in Hr as ->; [|reflexivity].
  all: split; [done|]; split; [done|]; right; eexists; (split; [reflexivity|]); (split; [|done]).
  all: try (by constructor).
  all: econstructor; first [apply just_read|apply updated_registry|apply updated_vexhub].
Qed.

Lemma serve_confined readOnly allowed call :
  wp any_answer (serve readOnly allowed call) [] (λ tr r, confined readOnly allowed call tr r).
Proof.
  unfold serve, rateLimitMiddleware. destruct allowed; cbn [negb].
  2:{ cbn. split; [done|]. split; [done|]. by left. }
  case_bool_decide; [by apply tool_confined|]. cbn. split; [done|]. split; [done|]. by left.
Qed.

Lemma requireBasicAuth_exact username password auth :
  requireBasicAuth username password auth = true ↔ auth = Some (username, password).
Proof.
  destruct auth as [[u p]|]; cbn; [|done]. rewrite andb_true_iff, !bool_decide_eq_true. split; [by intros [-> ->]|by intros [= -> ->]].
Qed.


(** ** The counts of a workload *)

(** The summary of a container is about its CVEs, and shows the worst of them. *)
Definition counts_cves (c : ContainerResult) (s : containerVulnerabilitySummary) : Prop :=
  cvs_Container s = ct_Name c ∧
  cvs_Summary s = summary_of (firsts v_CVE ∅ (container_vulnerabilities c)) ∧
  cvs_Total s + s_Suppressed (cvs_Summary s) = Z.of_nat (size (list_to_set (v_CVE <$> container_vulnerabilities c) : gset string)) ∧
  (length (cvs_TopVulnerabilities s) ≤ 10)%nat ∧
  ∃ rest, collected (container_vulnerabilities c) (Ok (cvs_TopVulnerabilities s ++ rest)).

Lemma top_ten_take l : top_ten l = take 10 l.
Proof. unfold top_ten. case_bool_decide; [done|]. rewrite take_ge; [done|lia]. Qed.

Lemma firsts_size vs :
  length (firsts v_CVE ∅ vs) = size (list_to_set (v_CVE <$> vs) : gset string).
Proof.
  rewrite <- (length_fmap v_CVE), <- (size_list_to_set (C:=gset string)) by apply firsts_NoDup. f_equal.
  apply set_eq. intros k. rewrite !elem_of_list_to_set, firsts_keys. set_solver.
Qed.

Lemma container_counted c l :
  collectSimplifiedVulnerabilitiesFromWorkload (ct_VulnerabilityReports c) = Ok l → counts_cves c (container_summary c l).
Proof.
  unfold collectSimplifiedVulnerabilitiesFromWorkload. rewrite collect_reports. intros Hl. pose proof (summary_simplified _ _ Hl) as Hs.
  unfold counts_cves, container_summary. cbn [cvs_Container cvs_Summary cvs_Total cvs_TopVulnerabilities].
  rewrite Hs, top_ten_take. split_and!; [done|done| | |].
  - rewrite <- firsts_size. pose proof (summary_of_total (firsts v_CVE ∅ (container_vulnerabilities c))) as Ht. cbv zeta in Ht.
    unfold container_vulnerabilities, total_of in *. lia.
  - rewrite length_take. lia.
  - exists (drop 10 l). rewrite take_drop, <- Hl. apply listed_collected.
Qed.

Lemma each_container_counted cs l : each_container container_summary cs = Ok l → Forall2 counts_cves cs l.
Proof.
  revert l. induction cs as [|c cs IH]; intros l; cbn [each_container]; [by intros [= <-]|].
  destruct (collectSimplifiedVulnerabilitiesFromWorkload _) as [vs|] eqn:Hc; [|done].
  destruct (each_container _ cs) as [l'|]; [|done]. intros [= <-]. constructor; [by apply container_counted|by apply IH].
Qed.

(** The counts of a workload are consistent: when the tool answers, the
    summary of each container counts its CVEs, each once and by its first
    finding, the total and the suppressed ones together are the number of
    distinct CVEs, at most ten are shown and they are the worst, and, for a
    report whose summary is the one the storage computes, the containers
    together never count more than the overall summary, in any category. *)
Theorem workload_counts_consistent (args : namespacedGetArgs) :
  wp any_answer (getWorkloadVulnerabilitySummary args) [] (λ tr r, ∀ c, r = Ok c → ct_IsError c = false →
    ∃ report containers,
      tr = [Ev (KGet KWorkloadScanReport (named (ga_Name args) (ga_Namespace args))) (Ok report)] ∧
      Marshal (workload_summary report containers) = Ok (ct_Text c) ∧
      Forall2 counts_cves (ws_Containers report) containers ∧
      (ws_Summary report = ws_Summary (calculateSummary report) →
       summary_le (fold_left summary_plus (cvs_Summary <$> containers) empty_Summary) (ws_Summary report))).
Proof.
  unfold getWorkloadVulnerabilitySummary. apply wp_or_toolError. intros a _. cbn [app wp]. destruct a as [report|e].
  2:{ intros c [= <-]. done. }
  apply wp_or_toolError. cbn [wp]. destruct (each_container container_summary (ws_Containers report)) as [cs|e] eqn:Hcs.
  2:{ intros c [= <-]. done. }
  unfold jsonResult. destruct (Marshal (workload_summary report cs)) as [data|e] eqn:Hm; [|done].
  intros c [= <-] _. pose proof (each_container_counted _ _ Hcs) as Hf.
  exists report, cs. split_and!; [done|done|done|]. intros ->. rewrite workload_summary_total.
  assert (cvs_Summary <$> cs = summary_of <$> (firsts v_CVE ∅ <$> (container_vulnerabilities <$> ws_Containers report))) as ->.
  { clear -Hf. induction Hf as [|c s cs ss (_ & Hs & _) _ IH]; [done|]. cbn. by rewrite Hs, IH. }
  rewrite <- fold_map, list_fmap_compose. apply total_by_cve.
Qed.
End tools.
