(* ===== verification/StorageResources.v ===== *)
(** * The resources of the storage API server

    [src/internal/storage/*_strategy.go], [image_metadata_validation.go],
    [matcher.go], the constructors of the stores ([*_store.go]) and the field
    labels of [src/api/storage/v1alpha1/register.go]: how each resource is
    stored, which writes are accepted, and which fields a list can select by. *)

From stdpp Require Import prelude gmap strings list.
From Stdlib Require Import ZArith Lia Ascii.
From S2P Require Import Prelude Prog Strconv GoPath Meta StorageTypes Effects Sql StorageEffects Repository Store StoreRefinement StorageSample WorkloadReport WorkloadWatcher Webhooks.

(** ** Image metadata *)

(** [name.NewDigest(s)] of go-containerregistry, and its [DigestStr]. *)
Class Digests := { NewDigest : string → result string }.

Definition repositoryMaxLength : nat := 255 + String.length "library/".
Definition tagMaxLength : nat := 128.
Definition digestMaxLength : nat := String.length "sha512:" + 128.
(** [validation.DNS1123SubdomainMaxLength]. *)
Definition DNS1123SubdomainMaxLength : nat := 253.

Definition field_TooLong (path : string) (maxLength : nat) : field_Error :=
  {| fe_Type := ErrorTypeTooLong; fe_Field := path;
     fe_Detail := "may not be more than " +:+ FormatInt (Z.of_nat maxLength) +:+ " bytes" |}.

Definition validateImageRegistry (registry path : string) : ErrorList :=
  if bool_decide (DNS1123SubdomainMaxLength < String.length registry)%nat then [field_TooLong path DNS1123SubdomainMaxLength] else [].

Definition validateImageRepository (repository path : string) : ErrorList :=
  if bool_decide (repositoryMaxLength < String.length repository)%nat then [field_TooLong path repositoryMaxLength] else [].

(** ** Strategies

    [PrepareForCreate], [PrepareForUpdate] and [Canonicalize] do nothing, and
    there are no warnings, for any resource. *)
Record Strategy (T : Type) := {
  NamespaceScoped : bool;
  Strategy_Validate : T → ErrorList;
  AllowCreateOnUpdate : bool;
  AllowUnconditionalUpdate : bool;
  Strategy_ValidateUpdate : T → T → ErrorList
}.
Arguments NamespaceScoped {_} _.
Arguments Strategy_Validate {_} _ _.
Arguments AllowCreateOnUpdate {_} _.
Arguments AllowUnconditionalUpdate {_} _.
Arguments Strategy_ValidateUpdate {_} _ _ _.

Section validation.
Context `{!Digests}.

Definition validateImageTag (tag path : string) : ErrorList :=
  if bool_decide (tagMaxLength < String.length tag)%nat then
    if bool_decide (String.length tag ≤ digestMaxLength)%nat &&
       match NewDigest ("example.invalid/image@" +:+ tag) with Ok d => bool_decide (d = tag) | Err _ => false end
    then []
    else [field_TooLong path tagMaxLength]
  else [].

Definition validateImageMetadata (metadata : ImageMetadata) : ErrorList :=
  validateImageRegistry (im_Registry metadata) "imageMetadata.registry" ++
  validateImageRepository (im_Repository metadata) "imageMetadata.repository" ++
  validateImageTag (im_Tag metadata) "imageMetadata.tag".

Definition imageStrategy : Strategy Image := {|
  NamespaceScoped := true;
  Strategy_Validate := λ image, validateImageMetadata (img_ImageMetadata image);
  AllowCreateOnUpdate := false; AllowUnconditionalUpdate := false;
  Strategy_ValidateUpdate := λ image _, validateImageMetadata (img_ImageMetadata image) |}.

Definition vulnerabilityReportStrategy : Strategy VulnerabilityReport := {|
  NamespaceScoped := true;
  Strategy_Validate := λ report, validateImageMetadata (vr_ImageMetadata report);
  AllowCreateOnUpdate := false; AllowUnconditionalUpdate := false;
  Strategy_ValidateUpdate := λ report _, validateImageMetadata (vr_ImageMetadata report) |}.

Definition sbomStrategy : Strategy SBOM := {|
  NamespaceScoped := true; Strategy_Validate := λ _, []; AllowCreateOnUpdate := false; AllowUnconditionalUpdate := false;
  Strategy_ValidateUpdate := λ _ _, [] |}.

Definition nodeSBOMStrategy : Strategy NodeSBOM := {|
  NamespaceScoped := false; Strategy_Validate := λ _, []; AllowCreateOnUpdate := false; AllowUnconditionalUpdate := false;
  Strategy_ValidateUpdate := λ _ _, [] |}.

Definition nodeVulnerabilityReportStrategy : Strategy NodeVulnerabilityReport := {|
  NamespaceScoped := false; Strategy_Validate := λ _, []; AllowCreateOnUpdate := false; AllowUnconditionalUpdate := false;
  Strategy_ValidateUpdate := λ _ _, [] |}.
End validation.

#[export] Instance Summary_eq_dec : EqDecision Summary.
Proof. solve_decision. Defined.
#[export] Instance ContainerStatus_eq_dec : EqDecision ContainerStatus.
Proof. solve_decision. Defined.
#[export] Instance CVSS_eq_dec : EqDecision CVSS.
Proof. solve_decision. Defined.
#[export] Instance VEXStatus_eq_dec : EqDecision VEXStatus.
Proof. solve_decision. Defined.
#[export] Instance Vulnerability_eq_dec : EqDecision Vulnerability.
Proof. solve_decision. Defined.
#[export] Instance Result_eq_dec : EqDecision Result.
Proof. solve_decision. Defined.
#[export] Instance Report_eq_dec : EqDecision Report.
Proof. solve_decision. Defined.
#[export] Instance WorkloadScanVulnerabilityReport_eq_dec : EqDecision WorkloadScanVulnerabilityReport.
Proof. solve_decision. Defined.
#[export] Instance ContainerResult_eq_dec : EqDecision ContainerResult.
Proof. solve_decision. Defined.

(** [reflect.DeepEqual] tells a nil slice from an empty one; they are one value
    here. *)
Definition validateReadOnlyFieldsEmpty (report : WorkloadScanReport) : ErrorList :=
  (if bool_decide (ws_Status_ContainerStatuses report = []) then [] else [field_Forbidden "status" "field is read-only"]) ++
  (if bool_decide (ws_Summary report = empty_Summary) then [] else [field_Forbidden "summary" "field is read-only"]) ++
  (if bool_decide (ws_Containers report = []) then [] else [field_Forbidden "containers" "field is read-only"]).

Definition validateReadOnlyFieldsUnchanged (newReport oldReport : WorkloadScanReport) : ErrorList :=
  (if bool_decide (ws_Status_ContainerStatuses newReport = ws_Status_ContainerStatuses oldReport) then []
   else [field_Forbidden "status" "field is read-only"]) ++
  (if bool_decide (ws_Summary newReport = ws_Summary oldReport) then [] else [field_Forbidden "summary" "field is read-only"]) ++
  (if bool_decide (ws_Containers newReport = ws_Containers oldReport) then [] else [field_Forbidden "containers" "field is read-only"]).

Definition workloadScanReportStrategy : Strategy WorkloadScanReport := {|
  NamespaceScoped := true; Strategy_Validate := validateReadOnlyFieldsEmpty;
  AllowCreateOnUpdate := false; AllowUnconditionalUpdate := false;
  Strategy_ValidateUpdate := validateReadOnlyFieldsUnchanged |}.

(** ** Stores *)

Definition sbomResourcePluralName := "sboms".
Definition nodeSBOMResourcePluralName := "nodesboms".
Definition nodeVulnerabilityReportResourcePluralName := "nodevulnerabilityreports".

(** A store over the generic repository, in the table of its resource. *)
Definition NewImageStore `{!Resource Image} : store Image :=
  generic_store imageResourcePluralName imageResourcePluralName TransformStripImage false.
Definition NewSBOMStore `{!Resource SBOM} : store SBOM :=
  generic_store sbomResourcePluralName sbomResourcePluralName TransformStripSBOM false.
Definition NewVulnerabilityReportStore `{!Resource VulnerabilityReport} : store VulnerabilityReport :=
  generic_store vulnerabilityReportResourcePluralName vulnerabilityReportResourcePluralName TransformStripVulnerabilityReport false.
Definition NewNodeSBOMStore `{!Resource NodeSBOM} : store NodeSBOM :=
  generic_store nodeSBOMResourcePluralName nodeSBOMResourcePluralName TransformStripNodeSBOM true.
Definition NewNodeVulnerabilityReportStore `{!Resource NodeVulnerabilityReport} : store NodeVulnerabilityReport :=
  generic_store nodeVulnerabilityReportResourcePluralName nodeVulnerabilityReportResourcePluralName
    TransformStripNodeVulnerabilityReport true.

(** ** Fields that can be selected

    The labels and the attributes of an object; [None] is an object whose type
    has no metadata of images (of nodes). *)
Definition getAttrs (objMeta : ObjectMeta) (accessor : option ImageMetadata) : result (gmap string string * gmap string string) :=
  match accessor with
  | None => Err (errors_New "object does not implement ImageMetadataAccessor")
  | Some metadata => Ok (om_Labels objMeta, list_to_map [
      ("metadata.name", om_Name objMeta);
      ("metadata.namespace", om_Namespace objMeta);
      ("imageMetadata.registry", im_Registry metadata);
      ("imageMetadata.registryURI", im_RegistryURI metadata);
      ("imageMetadata.repository", im_Repository metadata);
      ("imageMetadata.tag", im_Tag metadata);
      ("imageMetadata.platform", im_Platform metadata);
      ("imageMetadata.digest", im_Digest metadata)])
  end.

Definition getNodeSBOMAttrs (objMeta : ObjectMeta) (accessor : option NodeMetadata) : result (gmap string string * gmap string string) :=
  match accessor with
  | None => Err (errors_New "object does not implement NodeMetadataAccessor")
  | Some metadata => Ok (om_Labels objMeta, list_to_map [
      ("metadata.name", om_Name objMeta);
      ("nodeMetadata.platform", nm_Platform metadata);
      ("nodeMetadata.name", nm_Name metadata)])
  end.

Definition getNodeVulnerabilityReportAttrs (objMeta : ObjectMeta) (accessor : option NodeMetadata) :
    result (gmap string string * gmap string string) :=
  match accessor with
  | None => Err (errors_New "object does not implement NodeMetadataAccessor")
  | Some metadata => Ok (om_Labels objMeta, list_to_map [
      ("metadata.name", om_Name objMeta);
      ("nodeMetadata.platform", nm_Platform metadata);
      ("nodeMetadata.name", nm_Name metadata)])
  end.

Definition unknown_field (label known : string) : error :=
  errors_New (quote label +:+ " is not a known field selector: only " +:+ quote "metadata.name" +:+ ", " +:+
    quote "metadata.namespace" +:+ ", " +:+ quote known).

Definition imageMetadataFieldSelectorConversion (label value : string) : result (string * string) :=
  if bool_decide (label ∈ ["metadata.name"; "metadata.namespace"; "imageMetadata.registry"; "imageMetadata.registryURI";
                           "imageMetadata.repository"; "imageMetadata.tag"; "imageMetadata.platform"; "imageMetadata.digest";
                           "imageMetadata.indexDigest"])
  then Ok (label, value) else Err (unknown_field label "imageMetadata.*").

Definition nodeMetadataFieldSelectorConversion (label value : string) : result (string * string) :=
  if bool_decide (label ∈ ["metadata.name"; "metadata.namespace"; "nodeMetadata.name"; "nodeMetadata.platform"])
  then Ok (label, value) else Err (unknown_field label "nodeMetadata.*").

(** ** Selecting by a field *)

(** What [encoding/json] writes of the fields, with the tags of the types: the
    namespace and the index digest are left out when they are empty. *)
Definition image_fields (m : ObjectMeta) (im : ImageMetadata) : list (string * option json) := [
  ("metadata.name", Some (JString (om_Name m)));
  ("metadata.namespace", omit_empty (om_Namespace m));
  ("imageMetadata.registry", Some (JString (im_Registry im)));
  ("imageMetadata.registryURI", Some (JString (im_RegistryURI im)));
  ("imageMetadata.repository", Some (JString (im_Repository im)));
  ("imageMetadata.tag", Some (JString (im_Tag im)));
  ("imageMetadata.platform", Some (JString (im_Platform im)));
  ("imageMetadata.digest", Some (JString (im_Digest im)));
  ("imageMetadata.indexDigest", omit_empty (im_IndexDigest im))].

Definition node_fields (m : ObjectMeta) (nm : NodeMetadata) : list (string * option json) := [
  ("metadata.name", Some (JString (om_Name m)));
  ("metadata.namespace", omit_empty (om_Namespace m));
  ("nodeMetadata.name", Some (JString (nm_Name nm)));
  ("nodeMetadata.platform", Some (JString (nm_Platform nm)))].

(** The document of a row holds some fields. *)
Definition holds (fields : list (string * option json)) (r : row) : Prop :=
  Forall (λ f, walk (row_object r) (split_byte "."%char f.1) = f.2) fields.

(** Whether a requirement on a field matches a value, as [fields.Selector] has it. *)
Definition field_matches (op : Operator) (stored value : string) : bool :=
  match op with NotEquals => bool_decide (stored ≠ value) | _ => bool_decide (stored = value) end.

Section fields.
Context `{!Postgres}.

Lemma field_selected fields r op label value j :
  holds fields r → (label, j) ∈ fields → (op = Equals ∨ op = DoubleEquals ∨ op = NotEquals) →
  forallb plain_part (split_byte "."%char label) = true →
  (∀ x, j = Some x → ∃ s, x = JString s) →
  ∃ e, field_expression {| fr_Operator := op; fr_Field := label; fr_Value := value |} = Ok e ∧
    selected [e] r = Some (match j with Some (JString s) => field_matches op s value | _ => false end).
Proof.
  intros Hh Hin Hop Hplain Hj. unfold holds in Hh. rewrite Forall_forall in Hh. pose proof (Hh _ Hin) as Hw. cbn [fst snd] in Hw.
  assert (eval r (PathText (Col C_object) ("{" +:+ join "," (split_byte "."%char label) +:+ "}")) =
    Some (match j with Some (JString s) => VText s | _ => VNull end)) as He.
  { cbn [eval]. unfold column_value. cbn [mbind option_bind]. unfold path_text.
    rewrite text_array_plain; [|done|apply split_byte_nonempty]. rewrite Hw. destruct j as [x|]; [|done].
    by destruct (Hj x eq_refl) as [s ->]. }
  unfold field_expression. cbn [fr_Operator fr_Field fr_Value].
  destruct Hop as [-> | [-> | ->]]; eexists; (split; [reflexivity|]); cbn [selected]; autorewrite with sql; rewrite He.
  all: destruct j as [x|]; [destruct (Hj x eq_refl) as [s ->]|]; cbn; try done.
  all: unfold text_eq; repeat case_bool_decide; naive_solver.
Qed.

(** The value of a field, and whether the document leaves it out. *)
Definition field_value (fields : list (string * option json)) (label : string) : string :=
  match assoc label fields with Some (Some (JString s)) => s | _ => "" end.
Definition left_out (fields : list (string * option json)) (label : string) : bool :=
  match assoc label fields with Some (Some _) => false | _ => true end.

(** A label among the labels of some fields, each of which is a string or left out. *)
Lemma known_field fields label :
  NoDup fields.*1 → Forall (λ f, ∀ x, f.2 = Some x → ∃ s, x = JString s) fields → label ∈ fields.*1 →
  ∃ j, (label, j) ∈ fields ∧ (∀ x, j = Some x → ∃ s, x = JString s) ∧
    assoc label fields = Some j.
Proof.
  intros Hnd Hs ([l j] & -> & Hin)%list_elem_of_fmap. exists j. split_and!; [done| |].
  - rewrite Forall_forall in Hs. apply (Hs _ Hin).
  - by apply assoc_elem.
Qed.

Lemma omit_empty_string v x : omit_empty v = Some x → ∃ s, x = JString s.
Proof. unfold omit_empty. case_bool_decide; [done|]. intros [= <-]. by exists v. Qed.

Lemma field_exact fields r op label value :
  NoDup fields.*1 → Forall (λ f, ∀ x, f.2 = Some x → ∃ s, x = JString s) fields →
  Forall (λ l, forallb plain_part (split_byte "."%char l) = true) fields.*1 →
  label ∈ fields.*1 → (op = Equals ∨ op = DoubleEquals ∨ op = NotEquals) → holds fields r →
  ∃ e, field_expression {| fr_Operator := op; fr_Field := label; fr_Value := value |} = Ok e ∧
    selected [e] r = Some (field_matches op (field_value fields label) value && negb (left_out fields label)).
Proof.
  intros Hnd Hs Hp Hl Hop Hh. destruct (known_field _ _ Hnd Hs Hl) as (j & Hin & Hj & Hm).
  rewrite Forall_forall in Hp. destruct (field_selected _ _ op label value _ Hh Hin Hop (Hp _ Hl) Hj) as (e & He & Hsel).
  exists e. split; [done|]. rewrite Hsel. unfold field_value, left_out. rewrite Hm.
  destruct j as [x|]; [destruct (Hj x eq_refl) as [s ->]; by rewrite andb_true_r|by rewrite andb_false_r].
Qed.

Lemma attribute_value fields label a :
  NoDup fields.*1 → (label, Some (JString a)) ∈ fields ∨ (label, omit_empty a) ∈ fields → field_value fields label = a.
Proof.
  intros Hnd [Hin|Hin]; unfold field_value; rewrite (assoc_elem _ _ _ Hnd Hin); [done|].
  unfold omit_empty. by case_bool_decide.
Qed.

Lemma attrs_elem (ls ls' attrs : gmap string string) l label a :
  Ok (ls, list_to_map l) = Ok (ls', attrs) → attrs !! label = Some a → (label, a) ∈ l.
Proof. intros [= _ <-]. apply elem_of_list_to_map_2. Qed.

Lemma image_fields_NoDup m im : NoDup (image_fields m im).*1.
Proof. apply (bool_decide_unpack _). by vm_compute. Qed.
Lemma node_fields_NoDup m nm : NoDup (node_fields m nm).*1.
Proof. apply (bool_decide_unpack _). by vm_compute. Qed.

Lemma image_fields_known label value l v m im :
  imageMetadataFieldSelectorConversion label value = Ok (l, v) → l = label ∧ v = value ∧ label ∈ (image_fields m im).*1.
Proof. unfold imageMetadataFieldSelectorConversion. case_bool_decide; [|done]. by intros [= <- <-]. Qed.

Lemma node_fields_known label value l v m nm :
  nodeMetadataFieldSelectorConversion label value = Ok (l, v) → l = label ∧ v = value ∧ label ∈ (node_fields m nm).*1.
Proof. unfold nodeMetadataFieldSelectorConversion. case_bool_decide; [|done]. by intros [= <- <-]. Qed.

(** [C36] Field selectors are exact: for a field the API accepts in a selector, on
    the resources with image metadata and on those of nodes, the condition the
    storage makes of a requirement selects an object exactly when its field
    matches, as long as the field is in the stored document; one that is left
    out because it is empty (the index digest of a single-platform image, the
    namespace of a node's resource) is never selected, not even by [!=]. *)
Theorem field_condition_selects (op : Operator) (label value l v : string) (m : ObjectMeta) (r : row) :
  (op = Equals ∨ op = DoubleEquals ∨ op = NotEquals) →
  (∀ im, imageMetadataFieldSelectorConversion label value = Ok (l, v) → holds (image_fields m im) r →
     ∃ e, field_expression {| fr_Operator := op; fr_Field := l; fr_Value := v |} = Ok e ∧
       selected [e] r = Some (field_matches op (field_value (image_fields m im) label) value &&
                              negb (left_out (image_fields m im) label)) ∧
       (∀ labels attrs a, getAttrs m (Some im) = Ok (labels, attrs) → attrs !! label = Some a → field_value (image_fields m im) label = a)) ∧
  (∀ nm, nodeMetadataFieldSelectorConversion label value = Ok (l, v) → holds (node_fields m nm) r →
     ∃ e, field_expression {| fr_Operator := op; fr_Field := l; fr_Value := v |} = Ok e ∧
       selected [e] r = Some (field_matches op (field_value (node_fields m nm) label) value &&
                              negb (left_out (node_fields m nm) label)) ∧
       (∀ labels attrs a, getNodeSBOMAttrs m (Some nm) = Ok (labels, attrs) → attrs !! label = Some a → field_value (node_fields m nm) label = a)).
Proof.
  intros Hop. split.
  - intros im (-> & -> & Hl)%(image_fields_known _ _ _ _ m im) Hh.
    destruct (field_exact (image_fields m im) r op label value (image_fields_NoDup m im)) as (e & He & Hs); [..|done|done|done|].
    + repeat constructor; cbn; intros x; try (apply omit_empty_string); intros [= <-]; eauto.
    + repeat constructor.
    + exists e. split_and!; [done|done|]. clear. intros ls attrs a Heq Ha. pose proof (attrs_elem _ _ _ _ _ _ Heq Ha) as Hin. apply attribute_value; [apply image_fields_NoDup|].
      rewrite !list_elem_of_In in *. cbn in Hin |- *. intuition congruence.
  - intros nm (-> & -> & Hl)%(node_fields_known _ _ _ _ m nm) Hh.
    destruct (field_exact (node_fields m nm) r op label value (node_fields_NoDup m nm)) as (e & He & Hs); [..|done|done|done|].
    + repeat constructor; cbn; intros x; try (apply omit_empty_string); intros [= <-]; eauto.
    + repeat constructor.
    + exists e. split_and!; [done|done|]. clear. intros ls attrs a Heq Ha. pose proof (attrs_elem _ _ _ _ _ _ Heq Ha) as Hin. apply attribute_value; [apply node_fields_NoDup|].
      rewrite !list_elem_of_In in *. cbn in Hin |- *. intuition congruence.
Qed.
End fields.

(** ** Bounds of the indexes *)

Lemma validate_length (registry path : string) n (k : nat) :
  (if bool_decide (n < String.length registry)%nat then [field_TooLong path k] else []) = [] → (String.length registry ≤ n)%nat.
Proof. case_bool_decide; [done|lia]. Qed.

Section bounds.
Context `{!Digests}.

Lemma validateImageTag_length tag path : validateImageTag tag path = [] → (String.length tag ≤ digestMaxLength)%nat.
Proof.
  unfold validateImageTag, digestMaxLength, tagMaxLength. cbn [String.length]. case_bool_decide; [|lia].
  case_bool_decide; [lia|done].
Qed.

(** The bytes of an entry of the index over the references of images. *)
Definition index_entry (m : ObjectMeta) (im : ImageMetadata) : nat :=
  String.length (om_Namespace m) + String.length (im_Registry im) + String.length (im_Repository im) + String.length (im_Tag im).

Lemma validated_entry m im :
  validateImageMetadata im = [] → (String.length (om_Namespace m) ≤ 253)%nat → (index_entry m im ≤ 904)%nat.
Proof.
  unfold validateImageMetadata, index_entry. intros (Hr & (Hp & Ht)%app_eq_nil)%app_eq_nil Hn.
  apply validate_length in Hr, Hp. apply validateImageTag_length in Ht.
  unfold DNS1123SubdomainMaxLength, repositoryMaxLength, digestMaxLength in *. cbn [String.length] in *. lia.
Qed.

(** [C37] Index entries are bounded: an image or a vulnerability report that is
    accepted, when it is created or by an update, takes at most 904 bytes in the
    index over namespace, registry, repository and tag (a namespace has at most
    253), far below the 2704 of an entry of a PostgreSQL index. *)
Theorem index_entries_bounded :
  (∀ image, (Strategy_Validate imageStrategy image = [] ∨ ∃ old, Strategy_ValidateUpdate imageStrategy image old = []) →
     (String.length (om_Namespace (img_Meta image)) ≤ 253)%nat →
     (index_entry (img_Meta image) (img_ImageMetadata image) ≤ 904)%nat) ∧
  (∀ report, (Strategy_Validate vulnerabilityReportStrategy report = [] ∨
              ∃ old, Strategy_ValidateUpdate vulnerabilityReportStrategy report old = []) →
     (String.length (om_Namespace (vr_Meta report)) ≤ 253)%nat →
     (index_entry (vr_Meta report) (vr_ImageMetadata report) ≤ 904)%nat).
Proof. split; intros x [Hv|[old Hv]] Hn; by apply validated_entry. Qed.
End bounds.

(** The scope of a resource is the same in its strategy and in its store, and no
    update is unconditional or creates. *)
Lemma scopes_agree `{!Digests, !Resource Image, !Resource SBOM, !Resource VulnerabilityReport, !Resource WorkloadScanReport,
    !Resource NodeSBOM, !Resource NodeVulnerabilityReport} :
  NamespaceScoped imageStrategy = negb (st_clusterScoped NewImageStore) ∧
  NamespaceScoped sbomStrategy = negb (st_clusterScoped NewSBOMStore) ∧
  NamespaceScoped vulnerabilityReportStrategy = negb (st_clusterScoped NewVulnerabilityReportStore) ∧
  NamespaceScoped workloadScanReportStrategy = negb (st_clusterScoped workload_store) ∧
  NamespaceScoped nodeSBOMStrategy = negb (st_clusterScoped NewNodeSBOMStore) ∧
  NamespaceScoped nodeVulnerabilityReportStrategy = negb (st_clusterScoped NewNodeVulnerabilityReportStore).
Proof. done. Qed.

(** ** Computed fields

    The fields that [populateContainerResults] computes at each read cannot be
    written. *)
Lemma read_only_exact new old :
  Strategy_ValidateUpdate workloadScanReportStrategy new old = [] ↔
    ws_Status_ContainerStatuses new = ws_Status_ContainerStatuses old ∧ ws_Summary new = ws_Summary old ∧
    ws_Containers new = ws_Containers old.
Proof. cbn. unfold validateReadOnlyFieldsUnchanged. repeat case_bool_decide; cbn; naive_solver. Qed.

(** A client that sends back the computed fields as it read them is refused once
    a scan has changed what they show, though neither it nor anybody else wrote
    the report. *)
Theorem untouched_update_rejected (read new current : WorkloadScanReport) :
  ws_Status_ContainerStatuses new = ws_Status_ContainerStatuses read → ws_Summary new = ws_Summary read →
  ws_Containers new = ws_Containers read → ws_Summary read ≠ ws_Summary current →
  Strategy_ValidateUpdate workloadScanReportStrategy new current ≠ [].
Proof. intros _ Hs _ Hne (_ & Hs' & _)%read_only_exact. congruence. Qed.

(** ** Examples *)

Definition digest_names : Digests := {| NewDigest := λ s, Ok (default s (CutPrefix s "example.invalid/image@")) |}.

Lemma index_entries_bounded_witness :
  let image := {| img_Meta := new_meta "img" "" "default" ∅ ∅;
                  img_ImageMetadata := {| im_Registry := "reg"; im_RegistryURI := "ghcr.io"; im_Repository := "org/app";
                                          im_Tag := "v1"; im_Platform := "linux/amd64"; im_Digest := "sha256:ab";
                                          im_IndexDigest := "" |};
                  img_Layers := []; img_WorkloadScanReports := [] |} in
  (index_entry (img_Meta image) (img_ImageMetadata image) ≤ 904)%nat.
Proof.
  apply (proj1 (@index_entries_bounded digest_names)); [left; reflexivity|cbn; lia].
Defined.

(** An image of a single platform, whose index digest is empty, is not selected
    by a selector that asks for another one. *)
Lemma field_condition_selects_witness :
  let im := {| im_Registry := "reg"; im_RegistryURI := "ghcr.io"; im_Repository := "org/app"; im_Tag := "v1";
               im_Platform := "linux/amd64"; im_Digest := "sha256:ab"; im_IndexDigest := "" |} in
  let r := {| row_id := 1; row_name := "img"; row_namespace := "default";
              row_object := JObject [
                ("metadata", JObject [("name", JString "img"); ("namespace", JString "default")]);
                ("imageMetadata", JObject [("registry", JString "reg"); ("registryURI", JString "ghcr.io");
                   ("repository", JString "org/app"); ("tag", JString "v1"); ("platform", JString "linux/amd64");
                   ("digest", JString "sha256:ab")])] |} in
  ∃ e, field_expression {| fr_Operator := NotEquals; fr_Field := "imageMetadata.indexDigest"; fr_Value := "sha256:cd" |} = Ok e ∧
    selected [e] r = Some false.
Proof.
  cbv zeta. match goal with |- ∃ e, _ ∧ selected _ ?r = _ =>
    destruct (field_condition_selects NotEquals "imageMetadata.indexDigest" "sha256:cd" "imageMetadata.indexDigest" "sha256:cd"
      (new_meta "img" "" "default" ∅ ∅) r (or_intror (or_intror eq_refl))) as [Hi _] end.
  destruct (Hi {| im_Registry := "reg"; im_RegistryURI := "ghcr.io"; im_Repository := "org/app"; im_Tag := "v1";
      im_Platform := "linux/amd64"; im_Digest := "sha256:ab"; im_IndexDigest := "" |} eq_refl) as (e & He & Hs & _);
    [repeat constructor|]. exists e. split; [exact He|exact Hs].
Defined.
