(* ===== verification/ReportAdmission.v ===== *)
(** * Who can change the reports of workloads

    [src/internal/apiserver/admission/workloadscanreport.go]: the admission
    plugin of the storage API server, which guards the reports the controller
    manages. *)

From stdpp Require Import prelude gmap strings list.
From S2P Require Import Prelude Prog Strconv GoPath Meta StorageTypes Webhooks StorageResources.

Definition PluginNameWorkloadScanReportValidation := "WorkloadScanReportValidation".
Definition gcServiceAccount := "system:serviceaccount:kube-system:generic-garbage-collector".

(** [SchemeGroupVersion.WithKind("WorkloadScanReport").GroupKind()]. *)
Definition WorkloadScanReport_GroupKind : string * string := ("storage.sbomscanner.kubewarden.io", "WorkloadScanReport").

(** ** Requests *)

(** [admission.Operation]. *)
Inductive Operation := admission_Create | admission_Update | admission_Delete | admission_Connect.
#[export] Instance Operation_eq_dec : EqDecision Operation.
Proof. solve_decision. Defined.

(** A [runtime.Object], of which the plugin asks only whether it is a report. *)
Inductive Object := ReportObject (report : WorkloadScanReport) | OtherObject.

(** What the plugin reads of [admission.Attributes]. *)
Record Attributes := {
  at_GroupKind : string * string;
  at_Operation : Operation;
  at_Object : option Object;
  at_OldObject : option Object;
  at_User : string;
  at_Resource : string
}.

Section plugin.
Context (serviceAccountNamespace serviceAccountName : string).

Definition validateManagedWorkloadScanReport (attrs : Attributes) (report : WorkloadScanReport) : result unit :=
  let managedLabel := map_get (om_Labels (ws_Meta report)) LabelManagedByKey in
  if negb (bool_decide (managedLabel = LabelManagedByValue)) then Ok tt
  else if bool_decide (at_User attrs = allowedUsername serviceAccountNamespace serviceAccountName) then Ok tt
  else if bool_decide (at_Operation attrs = admission_Delete) && bool_decide (at_User attrs = gcServiceAccount) then Ok tt
  else Err (NewForbidden (at_Resource attrs) (om_Name (ws_Meta report))
              "modifying managed resources of type WorkloadScanReport is forbidden").

Definition checked_object (attrs : Attributes) : option Object :=
  match at_Operation attrs with
  | admission_Create => at_Object attrs
  | admission_Update | admission_Delete => at_OldObject attrs
  | admission_Connect => None
  end.

Definition WorkloadScanReportValidation_Validate (attrs : Attributes) : result unit :=
  if negb (bool_decide (at_GroupKind attrs = WorkloadScanReport_GroupKind)) then Ok tt
  else match checked_object attrs with
       | Some (ReportObject report) => validateManagedWorkloadScanReport attrs report
       | Some OtherObject | None => Ok tt
       end.

(** ** The life of a report

    The requests on one name, one after the other. A request takes effect when
    the plugin admits it and the strategy finds no error; the plugin sees the
    stored report as the old object and the new one as the object. *)

Inductive change := Write (report : WorkloadScanReport) | Remove.

Definition attributes (user : string) (old : option WorkloadScanReport) (c : change) : Attributes := {|
  at_GroupKind := WorkloadScanReport_GroupKind;
  at_Operation := match c, old with
                  | Remove, _ => admission_Delete
                  | Write _, None => admission_Create
                  | Write _, Some _ => admission_Update
                  end;
  at_Object := match c with Write r => Some (ReportObject r) | Remove => None end;
  at_OldObject := ReportObject <$> old;
  at_User := user;
  at_Resource := "workloadscanreports" |}.

Definition valid_change (old : option WorkloadScanReport) (c : change) : Prop :=
  match c, old with
  | Write r, None => Strategy_Validate workloadScanReportStrategy r = []
  | Write r, Some o => Strategy_ValidateUpdate workloadScanReportStrategy r o = []
  | Remove, _ => True
  end.

Definition after (c : change) : option WorkloadScanReport := match c with Write r => Some r | Remove => None end.

Inductive accepted : option WorkloadScanReport → list (string * change) → option WorkloadScanReport → Prop :=
| accepted_nil s : accepted s [] s
| accepted_refused s user c l s' e :
    WorkloadScanReportValidation_Validate (attributes user s c) = Err e → accepted s l s' → accepted s ((user, c) :: l) s'
| accepted_invalid s user c l s' : ¬ valid_change s c → accepted s l s' → accepted s ((user, c) :: l) s'
| accepted_done s user c l s' :
    WorkloadScanReportValidation_Validate (attributes user s c) = Ok tt → valid_change s c →
    accepted (after c) l s' → accepted s ((user, c) :: l) s'.

(** ** Protection *)

Definition managed_report (r : WorkloadScanReport) : Prop := map_get (om_Labels (ws_Meta r)) LabelManagedByKey = LabelManagedByValue.

(** Who may make a change. *)
Lemma plugin_exact user s c :
  WorkloadScanReportValidation_Validate (attributes user s c) = Ok tt ↔
  match s, c with
  | Some o, Remove => managed_report o → user = allowedUsername serviceAccountNamespace serviceAccountName ∨ user = gcServiceAccount
  | Some o, Write _ => managed_report o → user = allowedUsername serviceAccountNamespace serviceAccountName
  | None, Write r => managed_report r → user = allowedUsername serviceAccountNamespace serviceAccountName
  | None, Remove => True
  end.
Proof.
  unfold WorkloadScanReportValidation_Validate. rewrite bool_decide_eq_true_2 by done. cbn [negb].
  destruct s as [o|], c as [r|]; cbn [checked_object attributes at_Operation at_Object at_OldObject fmap option_fmap option_map];
    [| | |done]; unfold validateManagedWorkloadScanReport, managed_report; cbn [at_User at_Operation attributes].
  all: repeat (case_bool_decide; cbn [negb andb]); naive_solver.
Qed.

(** [C9] Managed reports are protected: whatever sequence of creations, updates
    and deletions is sent under the name of a managed report, as long as none
    is by the controller's service account and none is a deletion by the garbage
    collector, the report stays exactly as the controller wrote it; and a
    report that carries the label from its creation was created by the service
    account. *)
Theorem managed_report_protected (r : WorkloadScanReport) (l : list (string * change)) (s : option WorkloadScanReport)
    (Hm : managed_report r) (Hl : accepted (Some r) l s)
    (Hu : Forall (λ x, x.1 ≠ allowedUsername serviceAccountNamespace serviceAccountName ∧ (x.1, x.2) ≠ (gcServiceAccount, Remove)) l) :
  s = Some r ∧ ∀ user, WorkloadScanReportValidation_Validate (attributes user None (Write r)) = Ok tt →
    user = allowedUsername serviceAccountNamespace serviceAccountName.
Proof.
  split; [|intros user Ha%plugin_exact; by apply Ha].
  remember (Some r) as s0 eqn:Hs. induction Hl as [s|s user c l s' e _ _ IH|s user c l s' _ _ IH|s user c l s' Ha _ _ _];
    [done|..]; apply Forall_cons in Hu as [[Hsa Hgc] Hu]; [by apply IH..|].
  apply plugin_exact in Ha. subst s. cbn in Hsa, Hgc. destruct c as [r'|]; [by destruct (Hsa (Ha Hm))|].
  destruct (Ha Hm) as [Hx|Hx]; [done|]. subst user. by destruct Hgc.
Qed.

(** The label can be given to a report afterwards by anybody: an update checks
    only the stored report. *)
Theorem label_added_by_anyone (user : string) (o r : WorkloadScanReport) :
  ¬ managed_report o → valid_change (Some o) (Write r) → accepted (Some o) [(user, Write r)] (Some r).
Proof. intros Ho Hv. apply accepted_done; [by apply plugin_exact|done|constructor]. Qed.
End plugin.

(** ** Examples *)

Definition managed_sample : WorkloadScanReport := {|
  ws_Meta := new_meta "deployment-1" "" "default" {[ LabelManagedByKey := LabelManagedByValue ]} ∅;
  ws_Spec_Containers := []; ws_Status_ContainerStatuses := []; ws_Summary := empty_Summary; ws_Containers := [] |}.

Lemma managed_report_protected_witness :
  ∃ s, accepted "sbomscanner" "controller" (Some managed_sample) [("alice", Remove)] s ∧ s = Some managed_sample.
Proof.
  assert (accepted "sbomscanner" "controller" (Some managed_sample) [("alice", Remove)] (Some managed_sample)) as Ha.
  { eapply accepted_refused; [vm_compute; reflexivity|constructor]. }
  eexists. split; [exact Ha|].
  apply (managed_report_protected "sbomscanner" "controller" managed_sample _ _ eq_refl Ha).
  repeat constructor; discriminate.
Defined.
