(* ===== verification/StorageTables.v ===== *)
(** * The tables of the storage API server

    [src/internal/storage/table_convertor.go] and the [ConvertToTable] methods
    of the stores: what [kubectl get] prints. *)

From stdpp Require Import prelude gmap strings list.
From S2P Require Import Prelude Prog Strconv Meta StorageTypes.
Open Scope Z_scope.

(** ** Tables *)

Record TableColumnDefinition := { col_Name : string; col_Type : string; col_Description : string; col_Format : string }.
Definition column (name type description : string) : TableColumnDefinition :=
  {| col_Name := name; col_Type := type; col_Description := description; col_Format := "" |}.

(** A cell; the time of a creation stamp is written as a string. *)
Inductive cell := CString (s : string) | CInt (n : Z) | CTime (t : Z).

Record TableRow (T : Type) := { row_Object : T; Cells : list cell }.
Arguments row_Object {_} _.
Arguments Cells {_} _.
Record Table (T : Type) := { ColumnDefinitions : list TableColumnDefinition; Rows : list (TableRow T) }.
Arguments ColumnDefinitions {_} _.
Arguments Rows {_} _.

(** The objects a table can be asked of: one, a list, or one of another type,
    whose name [%T] writes. *)
Inductive asked (T : Type) := One (o : T) | Many (l : list T) | Unexpected (type : string).
Arguments One {_} _.
Arguments Many {_} _.
Arguments Unexpected {_} _.

(** The body that all the [ConvertToTable] methods share: the columns, the type
    switch and the loop that appends a row per object. *)
Definition convert {T} (columns : list TableColumnDefinition) (cells : T → list cell) (obj : asked T) : result (Table T) :=
  let rows := fold_left (λ rows o, rows ++ [ {| row_Object := o; Cells := cells o |} ]) in
  match obj with
  | Many l => Ok {| ColumnDefinitions := columns; Rows := rows l [] |}
  | One o => Ok {| ColumnDefinitions := columns; Rows := rows [o] [] |}
  | Unexpected type => Err (errors_New ("unexpected type " +:+ type))
  end.

(** ** Images, SBOMs and reports of images *)

Definition imageMetadataTableColumns : list TableColumnDefinition :=
  [column "Name" "string" "Name"; column "Reference" "string" "Image reference"; column "Platform" "string" "Image platform"].

Definition imageMetadataTableRowCells (name : string) (meta : ImageMetadata) : list cell :=
  let reference := im_RegistryURI meta +:+ "/" +:+ im_Repository meta +:+ ":" +:+ im_Tag meta in
  [CString name; CString reference; CString (im_Platform meta)].

Definition computeVulnerabilities (summary : Summary) : string :=
  let total := s_Critical summary + s_High summary + s_Medium summary + s_Low summary + s_Unknown summary in
  FormatInt total +:+ " (" +:+ FormatInt (s_Suppressed summary) +:+ " suppressed)".

Definition image_ConvertToTable : asked Image → result (Table Image) :=
  convert imageMetadataTableColumns (λ image, imageMetadataTableRowCells (om_Name (img_Meta image)) (img_ImageMetadata image)).

Definition sbom_ConvertToTable : asked SBOM → result (Table SBOM) :=
  convert imageMetadataTableColumns (λ sbom, imageMetadataTableRowCells (om_Name (sb_Meta sbom)) (sb_ImageMetadata sbom)).

Definition vulnerabilityReport_ConvertToTable : asked VulnerabilityReport → result (Table VulnerabilityReport) :=
  convert (imageMetadataTableColumns ++ [column "Vulnerabilities" "string" "Vulnerabilities"])
    (λ report, imageMetadataTableRowCells (om_Name (vr_Meta report)) (vr_ImageMetadata report) ++
               [CString (computeVulnerabilities (rep_Summary (vr_Report report)))]).

(** ** Nodes *)

Definition nodeMetadataTableColumns : list TableColumnDefinition :=
  [column "Name" "string" "Name"; column "Platform" "string" "Node platform"].

Definition nodeMetadataTableRowCells (name : string) (nodeMeta : NodeMetadata) : list cell :=
  [CString name; CString (nm_Platform nodeMeta)].

Definition nodeSBOM_ConvertToTable : asked NodeSBOM → result (Table NodeSBOM) :=
  convert nodeMetadataTableColumns (λ sbom, nodeMetadataTableRowCells (om_Name (nb_Meta sbom)) (nb_NodeMetadata sbom)).

Definition nodeVulnerabilityReport_ConvertToTable : asked NodeVulnerabilityReport → result (Table NodeVulnerabilityReport) :=
  convert (nodeMetadataTableColumns ++ [column "Vulnerabilities" "string" "Vulnerabilities"])
    (λ report, nodeMetadataTableRowCells (om_Name (nv_Meta report)) (nv_NodeMetadata report) ++
               [CString (computeVulnerabilities (rep_Summary (nv_Report report)))]).

(** ** Workloads *)

Definition workloadScanReport_cells (report : WorkloadScanReport) : list cell :=
  let '(ownerKind, ownerName) :=
    match om_OwnerReferences (ws_Meta report) with o :: _ => (or_Kind o, or_Name o) | [] => ("", "") end in
  [CString (om_Name (ws_Meta report)); CString (om_Namespace (ws_Meta report)); CString ownerKind; CString ownerName;
   CInt (Z.of_nat (length (ws_Containers report))); CTime (om_CreationTimestamp (ws_Meta report))].

Definition workloadScanReport_ConvertToTable : asked WorkloadScanReport → result (Table WorkloadScanReport) :=
  convert [
    {| col_Name := "Name"; col_Type := "string"; col_Description := "Name of the workload scan report"; col_Format := "name" |};
    column "Namespace" "string" "Namespace of the workload scan report";
    column "Kind" "string" "Kind of the owning workload";
    column "Workload" "string" "Name of the owning workload";
    column "Containers" "integer" "Number of containers in the workload";
    column "Age" "string" "Age of the resource"] workloadScanReport_cells.

(** ** What a table shows *)

(** The type of a cell in the table format. *)
Definition cell_type (c : cell) : string := match c with CString _ | CTime _ => "string" | CInt _ => "integer" end.

(** The objects asked for, when their type is the one expected. *)
Definition objects {T} (obj : asked T) : option (list T) :=
  match obj with One o => Some [o] | Many l => Some l | Unexpected _ => None end.

(** A table of some objects: one row for each, in order, with a cell of the type
    of its column under every column. *)
Definition tabulates {T} (obj : asked T) (r : result (Table T)) : Prop :=
  match objects obj, r with
  | Some l, Ok t => row_Object <$> Rows t = l ∧ Forall (λ r, cell_type <$> Cells r = col_Type <$> ColumnDefinitions t) (Rows t)
  | None, Err _ => True
  | _, _ => False
  end.

Lemma convert_rows {T} (cells : T → list cell) l rows :
  fold_left (λ rows o, rows ++ [ {| row_Object := o; Cells := cells o |} ]) l rows =
  rows ++ ((λ o, {| row_Object := o; Cells := cells o |}) <$> l).
Proof. revert rows. induction l as [|o l IH]; intros rows; cbn; [by rewrite app_nil_r|]. by rewrite IH, <- app_assoc. Qed.

Lemma convert_tabulates {T} columns (cells : T → list cell) obj :
  (∀ o, cell_type <$> cells o = col_Type <$> columns) → tabulates obj (convert columns cells obj).
Proof.
  intros Hc. unfold convert. destruct obj as [o|l|]; [..|done]; cbn [tabulates objects Rows ColumnDefinitions]; rewrite convert_rows, app_nil_l.
  all: split; [by rewrite <- list_fmap_compose, list_fmap_id|]. all: apply Forall_fmap, Forall_true; intros x; apply Hc.
Qed.

Lemma count_negb P vs : count (λ v, negb (P v)) vs + count P vs = Z.of_nat (length vs).
Proof.
  induction vs as [|v vs IH] using rev_ind; [done|]. rewrite !count_snoc, length_app. cbn [length]. destruct (P v); cbn [negb]; lia.
Qed.

Lemma total_exposed vs :
  let s := summary_of vs in
  s_Critical s + s_High s + s_Medium s + s_Low s + s_Unknown s = count (λ v, negb (v_Suppressed v)) vs.
Proof. pose proof (summary_of_total vs) as Ht. pose proof (count_negb v_Suppressed vs). cbn in *. lia. Qed.

(** The tables are well formed and count right: every resource is shown as
    one row for each object, in the order of the list, with a cell of the type
    of its column under every column, and the only failure is an object of
    another type; for a report whose summary is that of its results, the printed
    count is that of the findings that are not suppressed, beside the number of
    the suppressed ones. *)
Theorem tables_well_formed :
  (∀ obj, tabulates obj (image_ConvertToTable obj)) ∧
  (∀ obj, tabulates obj (sbom_ConvertToTable obj)) ∧
  (∀ obj, tabulates obj (vulnerabilityReport_ConvertToTable obj)) ∧
  (∀ obj, tabulates obj (workloadScanReport_ConvertToTable obj)) ∧
  (∀ obj, tabulates obj (nodeSBOM_ConvertToTable obj)) ∧
  (∀ obj, tabulates obj (nodeVulnerabilityReport_ConvertToTable obj)) ∧
  (∀ results, let vs := all_vulnerabilities results in
     computeVulnerabilities (NewSummaryFromResults results) =
     FormatInt (count (λ v, negb (v_Suppressed v)) vs) +:+ " (" +:+ FormatInt (count v_Suppressed vs) +:+ " suppressed)").
Proof.
  split_and!; [intros obj; apply convert_tabulates; intros o; try reflexivity..|].
  - unfold workloadScanReport_cells. by destruct (om_OwnerReferences _).
  - intros results vs. rewrite NewSummaryFromResults_counts. unfold computeVulnerabilities.
    by rewrite total_exposed.
Qed.
