(* ===== verification/Telemetry.v ===== *)
(** * Telemetry

    [src/internal/telemetry]: spans and metrics as calls beside those of the
    program, and the trace context that travels in the annotations of objects
    ([annotations.go]) and in the headers of messages ([nats.go]).  The
    decorators of the other packages are in [Instrumentation.v]. *)

From stdpp Require Import prelude gmap strings list.
From S2P Require Import Prelude Prog Strconv Meta Effects Webhooks.
Open Scope Z_scope.

(** ** The trace context

    OpenTelemetry's contexts and the propagator that [Setup] installs (W3C trace
    context and baggage).  [Inject] gives the fields it sets on a carrier;
    [Extract] reads a carrier through its [Get]. *)
Class Propagation := {
  Ctx : Type;
  SpanContext : Type;
  SpanContextFromContext : Ctx → option SpanContext; (* [None] when not valid *)
  Inject : Ctx → list (string * string);
  Extract : Ctx → (string → string) → Ctx;
  fields_known : ∀ c, Forall (λ f, f.1 ∈ ["traceparent"; "tracestate"; "baggage"]) (Inject c);
  fields_distinct : ∀ c, NoDup (Inject c).*1;
  inject_valid : ∀ c sc, SpanContextFromContext c = Some sc → ∃ v, ("traceparent", v) ∈ Inject c ∧ v ≠ "";
  inject_invalid : ∀ c, SpanContextFromContext c = None → "traceparent" ∉ (Inject c).*1;
  extract_absent : ∀ parent get, get "traceparent" = "" →
    SpanContextFromContext (Extract parent get) = SpanContextFromContext parent;
  extract_inject : ∀ c parent get sc, SpanContextFromContext c = Some sc →
    (∀ k, k ∈ ["traceparent"; "tracestate"; "baggage"] → get k = default "" (assoc k (Inject c))) →
    SpanContextFromContext (Extract parent get) = Some sc
}.

(** ** Carriers *)

(** [nats.Header]: the values of each key. *)
Abbreviation Header := (gmap string (list string)).

Definition natsHeaderCarrier_Get (carrier : Header) (key : string) : string :=
  match carrier !! key with Some (v :: _) => v | _ => "" end.
Definition natsHeaderCarrier_Set (carrier : Header) (field : string * string) : Header := <[field.1 := [field.2]]> carrier.

Definition annotationsCarrier_Get (annotations : gmap string string) (key : string) : string :=
  map_get annotations (annotationDomain +:+ key).

Section carriers.
Context `{!Propagation}.

(** [InjectNATS] on the headers of a message; a nil map is an empty one. *)
Definition InjectNATS (ctx : Ctx) (header : Header) : Header := fold_left natsHeaderCarrier_Set (Inject ctx) header.

Definition ExtractNATS (parent : Ctx) (header : Header) : Ctx :=
  if bool_decide (header = ∅) then parent else Extract parent (natsHeaderCarrier_Get header).

(** [InjectAnnotations] under a given context. *)
Definition inject_annotations (ctx : Ctx) (annotations : gmap string string) : gmap string string :=
  fold_left carrier_Set (Inject ctx) annotations.

Definition ExtractAnnotations (parent : Ctx) (annotations : gmap string string) : Ctx * bool :=
  if bool_decide (map_get annotations TraceparentAnnotation = "") then (parent, false)
  else
    let extracted := Extract parent (annotationsCarrier_Get annotations) in
    match SpanContextFromContext extracted with None => (parent, false) | Some _ => (extracted, true) end.
End carriers.

(** ** Spans and metrics *)

Inductive attr_value := AString (s : string) | ABool (b : bool) | AInt (n : Z).
Inductive SpanKind := SpanKindInternal | SpanKindServer | SpanKindProducer | SpanKindConsumer.

(** The calls to the tracer and to the instruments; a span is known by a number,
    and starting one gives the context that carries it. *)
Inductive Tel `{!Propagation} : Type → Type :=
| StartSpan (parent : Ctx) (name : string) (kind : SpanKind) (newRoot : bool) (attrs : list (string * attr_value)) : Tel (Ctx * Z)
| SpanSetAttributes (span : Z) (attrs : list (string * attr_value)) : Tel unit
| SpanRecordError (span : Z) (err : error) : Tel unit
| SpanSetStatus (span : Z) (description : string) : Tel unit
| SpanEnd (span : Z) : Tel unit
| CounterAdd (instrument : string) (n : Z) (attrs : list (string * attr_value)) : Tel unit
| HistogramRecord (instrument : string) (elapsed : Z) (attrs : list (string * attr_value)) : Tel unit
| Clock : Tel Z.

(** A program with telemetry: its own calls and those above. *)
Inductive instr `{!Propagation} (E : Type → Type) : Type → Type :=
| Do {A} (e : E A) : instr E A
| Tele {A} (t : Tel A) : instr E A.
Arguments Do {_ E A} e.
Arguments Tele {_ E A} t.

Section instr.
Context `{!Propagation} {E : Type → Type}.

Fixpoint lift {R} (p : prog E R) : prog (instr E) R :=
  match p with Ret r => Ret r | Vis e k => Vis (Do e) (λ a, lift (k a)) end.

Definition tel {A} (t : Tel A) : prog (instr E) A := trigger (Tele t).

(** The calls of the program itself, and those to the telemetry. *)
Definition inner_event (o : obs (instr E)) : option (obs E) :=
  match o with Ev e a => match e in instr _ A return A → option (obs E) with Do e => λ a, Some (Ev e a) | Tele _ => λ _, None end a end.
Definition tel_event (o : obs (instr E)) : option (obs Tel) :=
  match o with Ev e a => match e in instr _ A return A → option (obs Tel) with Do _ => λ _, None | Tele t => λ a, Some (Ev t a) end a end.
Definition inner_events (tr : trace (instr E)) : trace E := omap inner_event tr.
Definition tel_events (tr : trace (instr E)) : trace Tel := omap tel_event tr.

(** A body in a span that ends when the body does, also by a panic: [defer span.End()]. *)
Definition in_span {R} (parent : Ctx) (name : string) (kind : SpanKind) (newRoot : bool) (attrs : list (string * attr_value))
    (body : Ctx → Z → prog (instr E) R) : prog (instr E) R :=
  started ← tel (StartSpan parent name kind newRoot attrs);
  r ← body started.1 started.2;
  _ ← tel (SpanEnd started.2);
  Ret r.

(** [span.RecordError(err); span.SetStatus(codes.Error, err.Error())]. *)
Definition record_error (span : Z) (err : option error) : prog (instr E) unit :=
  match err with
  | None => Ret tt
  | Some err => _ ← tel (SpanRecordError span err); tel (SpanSetStatus span (Error err))
  end.

Definition err_of {A} (r : result A) : option error := match r with Ok _ => None | Err e => Some e end.
Definition panics (err : option error) : bool := match err with Some e => is_panic e | None => false end.

(** What follows the call of the decorated method; a panic leaves it out. *)
Definition unless_panic {R} (err : R → option error) (r : R) (p : prog (instr E) unit) : prog (instr E) R :=
  if panics (err r) then Ret r else _ ← p; Ret r.

(** ** Running a decorated program *)

Definition lifted (tr : trace E) : trace (instr E) := (λ o, match o with Ev e a => Ev (Do e) a end) <$> tr.

Lemma inner_events_app tr tr' : inner_events (tr ++ tr') = inner_events tr ++ inner_events tr'.
Proof. apply omap_app. Qed.
Lemma tel_events_app tr tr' : tel_events (tr ++ tr') = tel_events tr ++ tel_events tr'.
Proof. apply omap_app. Qed.
Lemma inner_events_lifted tr : inner_events (lifted tr) = tr.
Proof. unfold inner_events. induction tr as [|[A e a] tr IH]; [done|]. cbn. by f_equal. Qed.
Lemma tel_events_lifted tr : tel_events (lifted tr) = [].
Proof. unfold tel_events. by induction tr as [|[A e a] tr IH]. Qed.

Lemma wp_lift {R} (p : prog E R) tr Q :
  (∀ ext r, runs p ext r → Q (tr ++ lifted ext) r) → wp any_answer (lift p) tr Q.
Proof.
  revert tr. induction p as [r|A e k IH]; intros tr HQ; cbn.
  - specialize (HQ [] r). rewrite app_nil_r in HQ. apply HQ. constructor.
  - intros a _. apply IH. intros ext r Hr. rewrite <- app_assoc. cbn.
    apply (HQ (Ev e a :: ext)). by constructor.
Qed.

End instr.

(** Computes the events of a trace that telemetry calls and a lifted program left. *)
Create Rewrite HintDb telemetry.
#[export] Hint Rewrite @inner_events_app @tel_events_app @inner_events_lifted @tel_events_lifted : telemetry.

(** ** The carriers carry *)

Section propagation.
Context `{!Propagation}.

Lemma set_fields {V} (key : string → string) (value : string → V) `{Inj _ _ (=) (=) key} (fields : list (string * string)) (m : gmap string V) k :
  NoDup fields.*1 →
  fold_left (λ m f, <[key f.1 := value f.2]> m) fields m !! key k =
  match assoc k fields with Some v => Some (value v) | None => m !! key k end.
Proof.
  unfold assoc. revert m. induction fields as [|[k' v] fields IH]; intros m; cbn; [done|].
  intros [Hk Hnd]%NoDup_cons. rewrite IH by done. case_bool_decide as Hkk; cbn.
  - subst k'. destruct (assoc k fields) eqn:Ha.
    + destruct Hk. apply assoc_is_Some. by exists s.
    + unfold assoc in Ha. rewrite Ha. by rewrite lookup_insert_eq.
  - case_match; [done|]. rewrite lookup_insert_ne; [done|]. by intros ?%(inj key).
Qed.

Lemma set_fields_other {V} (key : string → string) (value : string → V) (fields : list (string * string)) (m : gmap string V) k :
  (∀ f, f ∈ fields → key f.1 ≠ k) →
  fold_left (λ m f, <[key f.1 := value f.2]> m) fields m !! k = m !! k.
Proof.
  revert m. induction fields as [|f fields IH]; intros m Hf; cbn; [done|].
  rewrite IH by (intros; apply Hf; by right). apply lookup_insert_ne. apply Hf. by left.
Qed.

Definition propagation_fields : list string := ["traceparent"; "tracestate"; "baggage"].

Lemma headers_lookup ctx header k :
  InjectNATS ctx header !! k = match assoc k (Inject ctx) with Some v => Some [v] | None => header !! k end.
Proof. exact (set_fields id (λ v, [v]) (Inject ctx) header k (fields_distinct ctx)). Qed.

(** A context put into the headers of a message is the one taken out. *)
Lemma nats_roundtrip ctx parent header sc :
  SpanContextFromContext ctx = Some sc → (∀ k, k ∈ propagation_fields → header !! k = None) →
  SpanContextFromContext (ExtractNATS parent (InjectNATS ctx header)) = Some sc.
Proof.
  intros Hsc Hh. unfold ExtractNATS. rewrite bool_decide_eq_false_2.
  - apply (extract_inject ctx); [done|]. intros k Hk. unfold natsHeaderCarrier_Get. rewrite headers_lookup.
    destruct (assoc k (Inject ctx)); [done|]. by rewrite Hh.
  - intros He. destruct (inject_valid ctx sc Hsc) as (v & Hv & _).
    pose proof (headers_lookup ctx header "traceparent") as Hl.
    rewrite (assoc_elem _ v), He, lookup_empty in Hl by (apply fields_distinct || done). done.
Qed.

(** The other headers are kept. *)
Lemma InjectNATS_other ctx header k : k ∉ propagation_fields → InjectNATS ctx header !! k = header !! k.
Proof.
  intros Hk. apply (set_fields_other id (λ v, [v])). intros f Hf Hfk. unfold id in Hfk. subst k.
  pose proof (fields_known ctx) as Hall. rewrite Forall_forall in Hall. by destruct (Hk (Hall _ Hf)).
Qed.

#[export] Instance append_inj prefix : Inj (=) (=) (String.append prefix).
Proof. intros s t. apply String.app_inj. Qed.

Lemma annotations_lookup ctx annotations k :
  inject_annotations ctx annotations !! (annotationDomain +:+ k) =
  match assoc k (Inject ctx) with Some v => Some v | None => annotations !! (annotationDomain +:+ k) end.
Proof. apply (set_fields (String.append annotationDomain) (λ v, v)), fields_distinct. Qed.

Lemma annotations_roundtrip ctx parent annotations sc :
  SpanContextFromContext ctx = Some sc → (∀ k, k ∈ propagation_fields → annotations !! (annotationDomain +:+ k) = None) →
  let '(ctx', joined) := ExtractAnnotations parent (inject_annotations ctx annotations) in
  SpanContextFromContext ctx' = Some sc ∧ joined = true.
Proof.
  intros Hsc Ha. unfold ExtractAnnotations. destruct (inject_valid ctx sc Hsc) as (v & Hv & Hne).
  assert (inject_annotations ctx annotations !! TraceparentAnnotation = Some v) as Ht.
  { unfold TraceparentAnnotation. by rewrite annotations_lookup, (assoc_elem _ v) by (apply fields_distinct || done). }
  rewrite bool_decide_eq_false_2 by (unfold map_get; by rewrite Ht).
  assert (SpanContextFromContext (Extract parent (annotationsCarrier_Get (inject_annotations ctx annotations))) = Some sc) as He.
  { apply (extract_inject ctx); [done|]. intros k Hk. unfold annotationsCarrier_Get, map_get. rewrite annotations_lookup.
    destruct (assoc k (Inject ctx)); [done|]. by rewrite Ha. }
  cbv zeta. by rewrite He.
Qed.
End propagation.

(** ** An instance *)

Definition sample_propagation : Propagation.
Proof.
  refine {| Ctx := option string; SpanContext := string; SpanContextFromContext := λ c, c;
            Inject := λ c, match c with Some sc => [("traceparent", "00-" +:+ sc)] | None => [] end;
            Extract := λ parent get, match CutPrefix (get "traceparent") "00-" with Some sc => Some sc | None => parent end |}.
  - intros [sc|]; repeat constructor.
  - intros [sc|]; [apply NoDup_singleton|apply NoDup_nil_2].
  - intros c sc ->. eexists. split; [by left|done].
  - by intros c -> ?%elem_of_nil.
  - by intros parent get ->.
  - intros c parent get sc -> Hg. by rewrite (Hg "traceparent") by (by left).
Defined.
