(* ===== verification/Instrumentation.v ===== *)
(** * The decorators that record telemetry

    [instrumentation.go] of [src/internal/handlers], [controller], [webhook],
    [storage] and [apiserver], and the spans of the watchers
    ([src/internal/storage/watcher.go]).  Each runs an inner program, whose
    calls and result it must not change. *)

From stdpp Require Import prelude gmap strings list.
From S2P Require Import Prelude Prog Strconv Meta Conditions ScanJob Effects StorageEffects Store ReportAdmission Telemetry.
Open Scope Z_scope.

Section instrumentation.
Context `{!Propagation}.
(** The text of a status reason that the program does not tell apart. *)
Context (other_reason : string).

(** ** Labels *)

Definition resultSuccess := "success".
Definition resultError := "error".
Definition resultRequeue := "requeue".

Definition result_label (err : option error) : string := match err with None => resultSuccess | Some _ => resultError end.

Definition StatusReason_string (r : StatusReason) : string :=
  match r with
  | ReasonNotFound => "NotFound"
  | ReasonAlreadyExists => "AlreadyExists"
  | ReasonConflict => "Conflict"
  | ReasonForbidden => "Forbidden"
  | ReasonInvalid => "Invalid"
  | ReasonBadRequest => "BadRequest"
  | ReasonInternalError => "InternalError"
  | ReasonOther => other_reason
  end.

Definition errorType (err : error) : string :=
  match ReasonForError err with
  | Some reason => StatusReason_string reason
  | None =>
      if errors_Is err "context canceled" then "canceled"
      else if errors_Is err "context deadline exceeded" then "deadline_exceeded"
      else "unknown"
  end.

Definition denialReason (err : error) : string :=
  match ReasonForError err with Some reason => StatusReason_string reason | None => "unknown" end.

(** ** Handlers of messages *)

Section handlers.
Context {E : Type → Type}.

Definition recordHandled (stage : string) (elapsed : Z) (err : option error) : prog (instr E) unit :=
  _ ← match err with
      | None => Ret tt
      | Some err =>
          tel (CounterAdd "worker.handler.errors" 1 [("handler", AString stage); ("error.type", AString (errorType err))])
      end;
  tel (HistogramRecord "worker.scan.duration" elapsed [("stage", AString stage); ("result", AString (result_label err))]).

Definition recordImageScanned (registryHost : string) (err : option error) : prog (instr E) unit :=
  tel (CounterAdd "sbomscanner.images.scanned" 1 [("registry", AString registryHost); ("result", AString (result_label err))]).

(** [InstrumentedHandler.Handle], of a handler called [name]. *)
Definition InstrumentedHandler_Handle (name stage : string) (inner : Ctx → prog E (result unit)) (headers : Header) (ctx : Ctx) :
    prog (instr E) (result unit) :=
  in_span (ExtractNATS ctx headers) (name +:+ ".Handle") SpanKindConsumer false [("messaging.system", AString "nats")] (λ ctx span,
    start ← tel Clock;
    err ← lift (inner ctx);
    unless_panic err_of err (
      now ← tel Clock;
      _ ← recordHandled stage (now - start) (err_of err);
      record_error span (err_of err))).

Definition InstrumentedFailureHandler_HandleFailure (name : string) (inner : Ctx → prog E (result unit)) (errorMessage : string)
    (headers : Header) (ctx : Ctx) : prog (instr E) (result unit) :=
  in_span (ExtractNATS ctx headers) (name +:+ ".HandleFailure") SpanKindConsumer false
    [("messaging.system", AString "nats"); ("error.message", AString errorMessage)] (λ ctx span,
    err ← lift (inner ctx);
    unless_panic err_of err (record_error span (err_of err))).

Definition trivySpanName (command : string) : string :=
  if bool_decide (command = "image") then "Trivy.Image"
  else if bool_decide (command = "sbom") then "Trivy.SBOM"
  else if bool_decide (command = "filesystem") then "Trivy.Filesystem"
  else "Trivy.Unknown".

(** [startTrivy] before a run of Trivy and the function it returns after it. *)
Definition startTrivy {A} (command : string) (inner : Ctx → prog E (result A)) (ctx : Ctx) : prog (instr E) (result A) :=
  started ← tel (StartSpan ctx (trivySpanName command) SpanKindInternal false [("trivy.command", AString command)]);
  start ← tel Clock;
  r ← lift (inner started.1);
  unless_panic err_of r (
    _ ← record_error started.2 (err_of r);
    now ← tel Clock;
    _ ← tel (HistogramRecord "worker.trivy.duration" (now - start)
               [("command", AString command); ("result", AString (result_label (err_of r)))]);
    tel (SpanEnd started.2)).

Definition startRegistryCall {A} (operation : string) (inner : Ctx → prog E (result A)) (ctx : Ctx) : prog (instr E) (result A) :=
  start ← tel Clock;
  r ← lift (inner ctx);
  unless_panic err_of r (
    now ← tel Clock;
    tel (HistogramRecord "worker.registry.call.duration" (now - start)
           [("operation", AString operation); ("result", AString (result_label (err_of r)))])).
End handlers.

(** ** Reconcilers *)

(** A [ctrl.Result], of which only whether it is zero is read. *)
Definition reconcileOutcome (result : result bool) : string :=
  match result with Err _ => resultError | Ok isZero => if negb isZero then resultRequeue else resultSuccess end.

Definition jobStatus (isFailed isComplete isInProgress isScheduled : bool) : string :=
  if isFailed then "failed" else if isComplete then "complete" else if isInProgress then "in_progress"
  else if isScheduled then "scheduled" else "pending".

(** [resolveParent]; [reader] is the kind that is read for its annotations, and
    how they are found in it. *)
Definition resolveParent (reader : option { k : kind & obj k → ObjectMeta }) (req : NamespacedName) (ctx : Ctx) : go Ctx :=
  match reader with
  | None => Ret ctx
  | Some (existT k meta) =>
      r ← trigger (KGet k req);
      match r with
      | Err _ => Ret ctx
      | Ok object => Ret (ExtractAnnotations ctx (om_Annotations (meta object))).1
      end
  end.

Definition instrumentedReconciler_Reconcile (name kind : string) (reader : option { k : Effects.kind & obj k → ObjectMeta })
    (inner : Ctx → NamespacedName → go (result bool)) (req : NamespacedName) (ctx : Ctx) : prog (instr Eff) (result bool) :=
  parentCtx ← lift (resolveParent reader req ctx);
  in_span parentCtx (name +:+ "Reconciler.Reconcile") SpanKindInternal false
    [("k8s.resource.kind", AString kind); ("k8s.namespace.name", AString (nn_Namespace req)); ("k8s.object.name", AString (nn_Name req))]
    (λ ctx span,
      r ← lift (inner ctx req);
      unless_panic err_of r (
        _ ← tel (SpanSetAttributes span [("controller.result", AString (reconcileOutcome r))]);
        record_error span (err_of r))).

(** [startJobTrace] around the creation of a job: a new trace. *)
Definition startJobTrace {A} (name : string) (attrs : list (string * attr_value)) (inner : Ctx → go A) (ctx : Ctx) : prog (instr Eff) A :=
  in_span ctx name SpanKindInternal true attrs (λ ctx span, lift (inner ctx)).

(** ** Webhooks *)

Definition lower_operation (op : Operation) : string :=
  match op with
  | admission_Create => "create" | admission_Update => "update" | admission_Delete => "delete" | admission_Connect => "connect"
  end.

(** The request of the context: its UID and its operation. *)
Definition requestOperation (req : option (string * Operation)) : string * bool :=
  match req with
  | None => ("unknown", false)
  | Some (_, op) => (lower_operation op, bool_decide (op = admission_Create))
  end.

Definition spanVerb (operation : string) : string :=
  if bool_decide (operation = "create") then "Create"
  else if bool_decide (operation = "update") then "Update"
  else if bool_decide (operation = "delete") then "Delete"
  else if bool_decide (operation = "connect") then "Connect"
  else "Unknown".

Section webhooks.
Context (kind : string) (req : option (string * Operation)).

(** [startAdmissionSpan]: the parent and the attributes of the span. *)
Definition admission_attributes (webhookType operation : string) (meta : ObjectMeta) : list (string * attr_value) :=
  [("webhook.type", AString webhookType); ("webhook.kind", AString kind); ("webhook.operation", AString operation);
   ("k8s.namespace.name", AString (om_Namespace meta)); ("k8s.object.name", AString (om_Name meta))] ++
  match req with Some (uid, _) => [("webhook.request.uid", AString uid)] | None => [] end.

Definition admission_span {R} (spanName webhookType operation : string) (meta : ObjectMeta) (ctx : Ctx)
    (body : Ctx → Z → prog (instr Eff) R) : prog (instr Eff) R :=
  in_span (ExtractAnnotations ctx (om_Annotations meta)).1 spanName SpanKindServer false
    (admission_attributes webhookType operation meta) body.

Definition decision_attributes (webhookType operation : string) (err : option error) : list (string * attr_value) :=
  [("type", AString webhookType); ("kind", AString kind); ("operation", AString operation);
   ("allowed", ABool (bool_decide (err = None)))] ++
  match err with Some err => [("reason", AString (denialReason err))] | None => [] end.

Definition recordDecision (span : Z) (webhookType operation : string) (err : option error) : prog (instr Eff) unit :=
  _ ← tel (SpanSetAttributes span [("webhook.allowed", ABool (bool_decide (err = None)))]);
  _ ← match err with
      | Some err => tel (SpanSetAttributes span [("webhook.reason", AString (denialReason err))])
      | None => Ret tt
      end;
  tel (CounterAdd "controller.webhook.decisions" 1 (decision_attributes webhookType operation err)).

(** [ValidateCreate], [ValidateUpdate] and [ValidateDelete] of
    [instrumentedValidator] differ in the operation; [meta] is of the object,
    the new one for an update. *)
Definition instrumentedValidator_Validate (op : Operation) (inner : Ctx → go (list string * result unit)) (meta : ObjectMeta) (ctx : Ctx) :
    prog (instr Eff) (list string * result unit) :=
  let operation := lower_operation op in
  admission_span (kind +:+ "ValidatingWebhook." +:+ spanVerb operation) "validating" operation meta ctx (λ ctx span,
    r ← lift (inner ctx);
    unless_panic (λ r, err_of r.2) r (recordDecision span "validating" operation (err_of r.2))).

(** [injectTraceparent] under the context of the span. *)
Definition inject_traceparent (ctx : Ctx) (meta : ObjectMeta) : ObjectMeta :=
  let annotations := om_Annotations meta in
  if negb (bool_decide (map_get annotations Webhooks.TraceparentAnnotation = "")) then meta
  else
    let annotations := inject_annotations ctx annotations in
    if negb (bool_decide (map_get annotations Webhooks.TraceparentAnnotation = "")) || negb (bool_decide (om_Annotations meta = ∅))
    then with_Annotations annotations meta else meta.

(** [instrumentedDefaulter.Default]; the object is returned with the error. *)
Definition instrumentedDefaulter_Default {T} (meta : T → ObjectMeta) (with_meta : ObjectMeta → T → T) (injectTraceparent : bool)
    (inner : Ctx → T → go (T * result unit)) (o : T) (ctx : Ctx) : prog (instr Eff) (T * result unit) :=
  let '(operation, isCreate) := requestOperation req in
  admission_span (kind +:+ "MutatingWebhook." +:+ spanVerb operation) "mutating" operation (meta o) ctx (λ ctx span,
    r ← lift (inner ctx o);
    if panics (err_of r.2) then Ret r
    else
      let o := if is_ok r.2 && isCreate && injectTraceparent then with_meta (inject_traceparent ctx (meta r.1)) r.1 else r.1 in
      _ ← recordDecision span "mutating" operation (err_of r.2);
      Ret (o, r.2)).
End webhooks.

(** ** Stores *)

Definition storage_IsExist (err : error) : bool := errors_Is err ErrCodeKeyExists.

Section stores.
Context {T : Type} (component : string) (clusterScoped : bool).

Definition recordSpanResult (span : Z) (err : option error) : prog (instr (SEff T)) unit :=
  let set result := tel (SpanSetAttributes span [("storage.result", AString result)]) in
  match err with
  | None => set "success"
  | Some e =>
      if storage_IsNotFound e then set "not_found"
      else if storage_IsExist e then set "already_exists"
      else _ ← record_error span (Some e); set "error"
  end.

Definition startSpan {R} (operation name namespace : string) (ctx : Ctx) (body : Ctx → Z → prog (instr (SEff T)) R) :
    prog (instr (SEff T)) R :=
  in_span ctx (component +:+ "." +:+ operation) SpanKindInternal false
    ((if bool_decide (namespace ≠ "") then [("k8s.namespace.name", AString namespace)] else []) ++
     (if bool_decide (name ≠ "") then [("k8s.object.name", AString name)] else [])) body.

(** The body of the methods of [instrumentedStore]. *)
Definition store_span {A} (operation name namespace : string) (inner : Ctx → db_prog T (result A)) (ctx : Ctx) :
    prog (instr (SEff T)) (result A) :=
  startSpan operation name namespace ctx (λ ctx span,
    r ← lift (inner ctx);
    unless_panic err_of r (recordSpanResult span (err_of r))).

(** [Create], [Delete], [Get] and [GuaranteedUpdate] name the object. *)
Definition object_span {A} (operation key : string) (inner : Ctx → db_prog T (result A)) (ctx : Ctx) : prog (instr (SEff T)) (result A) :=
  let '(name, namespace) := extractKeyNameAndNamespace clusterScoped key in store_span operation name namespace inner ctx.

(** [GetList] and [Watch] name the namespace. *)
Definition list_span {A} (operation key : string) (inner : Ctx → db_prog T (result A)) (ctx : Ctx) : prog (instr (SEff T)) (result A) :=
  store_span operation "" (extractKeyNamespace clusterScoped key) inner ctx.
End stores.

(** ** Watchers *)

Definition event_label (t : EventType) : string :=
  match t with Added => "added" | Modified => "modified" | Deleted => "deleted" | Bookmark => "bookmark" end.

(** [natsWatcher.handleMessage]; [inner] is [processMessage]. *)
Definition handleMessage {T} (subject resource : string) (inner : Ctx → db_prog T (option EventType * result unit)) (header : Header) (ctx : Ctx) :
    prog (instr (SEff T)) (option EventType * result unit) :=
  in_span (ExtractNATS ctx header) "NatsWatcher.HandleMessage" SpanKindConsumer false
    [("messaging.system", AString "nats"); ("messaging.destination.name", AString subject)] (λ ctx span,
    r ← lift (inner ctx);
    unless_panic (λ r, err_of r.2) r (
      _ ← match r.1 with
          | None => Ret tt
          | Some t =>
              _ ← tel (SpanSetAttributes span [("event.type", AString (event_label t))]);
              tel (CounterAdd "storage.watch.events" 1 [("resource", AString resource); ("event.type", AString (event_label t))])
          end;
      record_error span (err_of r.2))).

(** [natsBroadcaster.Action]; [inner] is [publish]. *)
Definition broadcaster_Action {T} (subject : string) (type : EventType) (inner : Ctx → db_prog T (result unit)) (ctx : Ctx) :
    prog (instr (SEff T)) (result unit) :=
  in_span ctx "NatsBroadcaster.Publish" SpanKindProducer false
    [("messaging.system", AString "nats"); ("messaging.destination.name", AString subject); ("event.type", AString (event_label type))]
    (λ ctx span, err ← lift (inner ctx); unless_panic err_of err (record_error span (err_of err))).

(** [WorkloadScanReportWatcher.handleVulnerabilityReportEvent]. *)
Definition handleVulnerabilityReportEvent {T} (inner : Ctx → db_prog T (result unit)) (header : Header) (ctx : Ctx) :
    prog (instr (SEff T)) (result unit) :=
  in_span (ExtractNATS ctx header) "WorkloadScanReportWatcher.HandleVulnerabilityReportEvent" SpanKindConsumer false
    [("messaging.system", AString "nats"); ("messaging.destination.name", AString "watch.vulnerabilityreports")]
    (λ ctx span, err ← lift (inner ctx); unless_panic err_of err (record_error span (err_of err))).

(** ** Requests of the storage API server *)

(** [requestDurationFilter]: [info] is the verb and the resource of a resource
    request, and the inner handler gives the status it wrote, if any. *)
Definition requestDurationFilter {E} (served : list string) (info : option (string * string)) (longRunning : bool)
    (inner : Ctx → prog E (option Z)) (ctx : Ctx) : prog (instr E) (option Z) :=
  match info with
  | None => lift (inner ctx)
  | Some (verb, resource) =>
      if longRunning then lift (inner ctx)
      else
        let resource := if bool_decide (resource ∈ served) then resource else "unknown" in
        start ← tel Clock;
        status ← lift (inner ctx);
        now ← tel Clock;
        _ ← tel (HistogramRecord "storage.apiserver.request.duration" (now - start)
                   [("verb", AString verb); ("resource", AString resource); ("code", AInt (default 200 status))]);
        Ret status
  end.

Definition isMachineryRequest (path : string) : bool :=
  existsb (λ root, bool_decide (path = root) || HasPrefix path (root +:+ "/")) ["/healthz"; "/readyz"; "/livez"; "/openapi"] ||
  bool_decide (path ∈ ["/apis"; "/apis/" +:+ GroupName; "/apis/" +:+ GroupName +:+ "/v1alpha1"]).
End instrumentation.

(** ** Transparency *)

Section transparency.
Context `{!Propagation} (other_reason : string).

(** The spans are nested: one that is open is changed only when it is the
    innermost, and is ended once. *)
Fixpoint nested (open : list Z) (tr : trace Tel) : bool :=
  match tr with
  | [] => bool_decide (open = [])
  | Ev t a :: tr' =>
      match t in Tel A return A → bool with
      | StartSpan _ _ _ _ _ => λ a, nested (a.2 :: open) tr'
      | SpanSetAttributes span _ | SpanRecordError span _ | SpanSetStatus span _ =>
          λ _, bool_decide (head open = Some span) && nested open tr'
      | SpanEnd span => λ _, bool_decide (head open = Some span) && nested (tail open) tr'
      | CounterAdd _ _ _ | HistogramRecord _ _ _ => λ _, nested open tr'
      | Clock => λ _, nested open tr'
      end a
  end.

(** A decorated program makes the calls of the inner one and gives its result,
    and its spans are nested. *)
Definition transparent {E R} (decorated : prog (instr E) R) (inner : Ctx → prog E R) : Prop :=
  wp any_answer decorated [] (λ tr r, (∃ c, runs (inner c) (inner_events tr) r) ∧ nested [] (tel_events tr) = true).

(** Safety of the inner program is safety of the decorated one. *)
Lemma transparent_safe {E R} (decorated : prog (instr E) R) inner Q :
  transparent decorated inner → (∀ c, wp any_answer (inner c) [] Q) →
  wp any_answer decorated [] (λ tr r, Q (inner_events tr) r).
Proof.
  intros Ht Hq. eapply wp_mono; [|exact Ht]. intros tr r [[c Hr] _]. by eapply runs_wp.
Qed.
End transparency.

(** Runs a decorator: a telemetry call, a bind, or the inner program. *)
Ltac tel_step :=
  match goal with
  | |- wp _ (_ ≫= _) _ _ => apply wp_bind
  | |- wp _ (lift _) _ _ => apply wp_lift; intros ?ext ?r ?Hr
  | |- wp _ (tel _) _ _ => intros ?a _; cbv beta
  | |- wp _ (trigger _) _ _ => intros ?a _; cbv beta
  | |- wp _ (Ret _) _ _ => cbn [wp]; cbv beta
  | |- wp _ (Vis _ _) _ _ => intros ?a _; cbv beta
  | |- wp _ (match ?x with _ => _ end) _ _ => destruct x eqn:?
  | |- wp _ (let _ := _ in _) _ _ => cbv zeta
  | |- wp _ ?p _ _ => let h := head_of p in unfold h
  end
with head_of p := match p with ?f _ => head_of f | _ => p end.

(** Reads off the calls of a finished run. *)
Ltac tel_events := autorewrite with telemetry; cbn; rewrite ?app_nil_r.
Ltac tel_transparent :=
  unfold transparent; repeat tel_step; tel_events; (split; [eauto|by rewrite ?bool_decide_eq_true_2]).

Section decorators.
Context `{!Propagation} (other_reason : string).

Lemma handler_transparent {E} name stage (inner : Ctx → prog E (result unit)) headers ctx :
  transparent (InstrumentedHandler_Handle other_reason name stage inner headers ctx) inner.
Proof. tel_transparent. Qed.

Lemma failure_handler_transparent {E} name (inner : Ctx → prog E (result unit)) message headers ctx :
  transparent (InstrumentedFailureHandler_HandleFailure name inner message headers ctx) inner.
Proof. tel_transparent. Qed.

Lemma validator_transparent kind req op inner meta ctx :
  transparent (instrumentedValidator_Validate other_reason kind req op inner meta ctx) inner.
Proof. tel_transparent. Qed.

Lemma store_span_transparent {T A} component operation name namespace (inner : Ctx → db_prog T (result A)) ctx :
  transparent (store_span component operation name namespace inner ctx) inner.
Proof. tel_transparent. Qed.

Lemma object_span_transparent {T A} component clusterScoped operation key (inner : Ctx → db_prog T (result A)) ctx :
  transparent (object_span component clusterScoped operation key inner ctx) inner.
Proof. unfold object_span. destruct (extractKeyNameAndNamespace _ _). apply store_span_transparent. Qed.

Lemma handleMessage_transparent {T} subject resource (inner : Ctx → db_prog T (option EventType * result unit)) header ctx :
  transparent (handleMessage subject resource inner header ctx) inner.
Proof. tel_transparent. Qed.

Lemma action_transparent {T} subject type (inner : Ctx → db_prog T (result unit)) ctx :
  transparent (broadcaster_Action subject type inner ctx) inner.
Proof. tel_transparent. Qed.

Lemma report_event_transparent {T} (inner : Ctx → db_prog T (result unit)) header ctx :
  transparent (handleVulnerabilityReportEvent inner header ctx) inner.
Proof. tel_transparent. Qed.

Lemma registry_call_transparent {E A} operation (inner : Ctx → prog E (result A)) ctx :
  transparent (startRegistryCall operation inner ctx) inner.
Proof. tel_transparent. Qed.

Lemma job_trace_transparent {A} name attrs (inner : Ctx → go A) ctx : transparent (startJobTrace name attrs inner ctx) inner.
Proof. tel_transparent. Qed.

Lemma request_transparent {E} served info longRunning (inner : Ctx → prog E (option Z)) ctx :
  transparent (requestDurationFilter served info longRunning inner ctx) inner.
Proof. tel_transparent. Qed.

(** A reconciler that joins the trace of its object reads the object first; what
    the read answers does not change what follows. *)
Lemma reconciler_transparent name kind reader inner req ctx :
  wp any_answer (instrumentedReconciler_Reconcile name kind reader inner req ctx) [] (λ tr r,
    (∃ c read rest, inner_events tr = read ++ rest ∧ runs (inner c req) rest r ∧
       match reader with
       | None => read = []
       | Some (existT k _) => ∃ a, read = [Ev (KGet k req) a]
       end) ∧ nested [] (tel_events tr) = true).
Proof.
  unfold instrumentedReconciler_Reconcile, resolveParent. destruct reader as [[k meta]|].
  - apply wp_bind. cbn [mbind prog_bind pbind trigger lift wp]. intros a _. destruct a as [o|e]; cbn [lift wp].
    all: repeat tel_step; tel_events; (split; [|by rewrite ?bool_decide_eq_true_2]).
    all: eexists _, [_], ext; split_and!; eauto.
  - apply wp_bind. cbn [lift wp]. repeat tel_step. all: tel_events; (split; [|by rewrite ?bool_decide_eq_true_2]). all: eexists _, [], _; split_and!; eauto.
Qed.

(** A defaulter returns the object of the inner one, with the context of its span
    on a new job that had none. *)
Lemma defaulter_transparent {T} kind req (meta : T → ObjectMeta) with_meta inject inner o ctx :
  wp any_answer (instrumentedDefaulter_Default other_reason kind req meta with_meta inject inner o ctx) [] (λ tr r,
    (∃ c r', runs (inner c o) (inner_events tr) r' ∧ r.2 = r'.2 ∧
       (r.1 = r'.1 ∨ inject = true ∧ (requestOperation req).2 = true ∧ r'.2 = Ok tt ∧
                     r.1 = with_meta (inject_traceparent c (meta r'.1)) r'.1)) ∧
    nested [] (tel_events tr) = true).
Proof.
  unfold instrumentedDefaulter_Default. destruct (requestOperation req) as [operation isCreate].
  repeat tel_step. all: tel_events; (split; [|by rewrite ?bool_decide_eq_true_2]). all: eexists _, _; (split; [eassumption|]); split; [done|].
  all: cbn. all: try by left. all: destruct (is_ok _ && isCreate && inject) eqn:Hb; [|by left].
  all: right; apply andb_true_iff in Hb as [[Hok Hc]%andb_true_iff Hi]; destruct (r.2) as [[]|]; done.
Qed.

(** The metadata [m'] is [m] with a trace context: it may differ in the three
    annotations of the context, and not when [m] had a traceparent. *)
Record context_added (m m' : ObjectMeta) : Prop := {
  ca_Name : om_Name m' = om_Name m ∧ om_GenerateName m' = om_GenerateName m ∧ om_Namespace m' = om_Namespace m;
  ca_UID : om_UID m' = om_UID m;
  ca_ResourceVersion : om_ResourceVersion m' = om_ResourceVersion m ∧ om_Generation m' = om_Generation m;
  ca_Timestamps : om_CreationTimestamp m' = om_CreationTimestamp m ∧ om_DeletionTimestamp m' = om_DeletionTimestamp m;
  ca_Labels : om_Labels m' = om_Labels m;
  ca_OwnerReferences : om_OwnerReferences m' = om_OwnerReferences m;
  ca_Annotations k :
    k ∉ ["sbomscanner.kubewarden.io/traceparent"; "sbomscanner.kubewarden.io/tracestate"; "sbomscanner.kubewarden.io/baggage"] →
    om_Annotations m' !! k = om_Annotations m !! k;
  ca_traced v : om_Annotations m !! "sbomscanner.kubewarden.io/traceparent" = Some v → v ≠ "" → m' = m
}.

Lemma context_added_refl m : context_added m m.
Proof. by split. Qed.

Lemma inject_traceparent_added c m : context_added m (inject_traceparent c m).
Proof.
  unfold inject_traceparent. cbv zeta. case_bool_decide as Ht; cbn [negb]; [|apply context_added_refl].
  destruct (_ || _); [|apply context_added_refl]. split; try done.
  - intros k Hk. apply (set_fields_other (String.append "sbomscanner.kubewarden.io/") (λ v, v)). intros f Hf Heq. apply Hk. subst k. pose proof (fields_known c) as Hfs.
    rewrite Forall_forall in Hfs. specialize (Hfs f Hf). rewrite !elem_of_cons in Hfs.
    destruct Hfs as [->|[->|[->|?%elem_of_nil]]]; set_solver.
  - intros v Hv Hne. destruct Hne. unfold map_get in Ht. change Webhooks.TraceparentAnnotation with "sbomscanner.kubewarden.io/traceparent" in Ht.
    by rewrite Hv in Ht.
Qed.

Lemma job_defaulter_transparent kind req inject (inner : Ctx → ScanJob → go (ScanJob * result unit)) o ctx :
  wp any_answer (instrumentedDefaulter_Default other_reason kind req sj_Meta with_sj_Meta inject inner o ctx) [] (λ tr r,
    (∃ c r', runs (inner c o) (inner_events tr) r' ∧ r.2 = r'.2 ∧
       (r.1 = r'.1 ∨ inject = true ∧ (∃ uid, req = Some (uid, admission_Create)) ∧ r'.2 = Ok tt ∧
                     context_added (sj_Meta r'.1) (sj_Meta r.1) ∧
                     sj_Spec r.1 = sj_Spec r'.1 ∧ sj_Status r.1 = sj_Status r'.1)) ∧
    nested [] (tel_events tr) = true).
Proof.
  eapply wp_mono; [|apply defaulter_transparent]. cbn beta. intros tr r ((c & r' & Hr & Heq & Ho) & Hn). split; [|done].
  exists c, r'. split_and!; [done..|]. destruct Ho as [?|(Hi & Hc & Hok & ->)]; [by left|right].
  split_and!; [done| |done|apply inject_traceparent_added|done|done].
  destruct req as [[uid op]|]; [|done]. cbn in Hc. apply bool_decide_eq_true in Hc as ->. by exists uid.
Qed.

(** A run of Trivy; its span is not ended by a panic. *)
Lemma trivy_transparent {E A} command (inner : Ctx → prog E (result A)) ctx :
  wp any_answer (startTrivy command inner ctx) [] (λ tr r,
    (∃ c, runs (inner c) (inner_events tr) r) ∧ (panics (err_of r) = false → nested [] (tel_events tr) = true)).
Proof.
  repeat tel_step; tel_events; (split; [eauto|intros ?; congruence || by rewrite ?bool_decide_eq_true_2]).
Qed.

(** ** The claims *)

(** [C21] Telemetry changes nothing: every decorator of the program (of message
    and failure handlers, registry calls, job creation, validators, stores,
    watchers, broadcasters and API requests) makes exactly the calls of what it
    decorates and returns its result, panics included; a reconciler's only adds
    a read of the object, and a defaulter's changes at most, on a job that is
    created and was accepted without a traceparent, the three annotations of the
    trace context, leaving every other annotation, the rest of the metadata, the
    specification and the status as they are; and spans are always nested and ended (that of a run of Trivy,
    when it does not panic). *)
Theorem instrumentation_transparent (ctx : Ctx) (headers : Header) :
  (∀ E name stage (inner : Ctx → prog E (result unit)),
     transparent (InstrumentedHandler_Handle other_reason name stage inner headers ctx) inner) ∧
  (∀ E name (inner : Ctx → prog E (result unit)) message,
     transparent (InstrumentedFailureHandler_HandleFailure name inner message headers ctx) inner) ∧
  (∀ E operation (inner : Ctx → prog E (result unit)), transparent (startRegistryCall operation inner ctx) inner) ∧
  (∀ E command (inner : Ctx → prog E (result unit)),
     wp any_answer (startTrivy command inner ctx) [] (λ tr r,
       (∃ c, runs (inner c) (inner_events tr) r) ∧ (panics (err_of r) = false → nested [] (tel_events tr) = true))) ∧
  (∀ name attrs (inner : Ctx → go (result unit)), transparent (startJobTrace name attrs inner ctx) inner) ∧
  (∀ kind req op inner meta, transparent (instrumentedValidator_Validate other_reason kind req op inner meta ctx) inner) ∧
  (∀ T component clusterScoped operation key (inner : Ctx → db_prog T (result T)),
     transparent (object_span component clusterScoped operation key inner ctx) inner ∧
     transparent (list_span component clusterScoped operation key inner ctx) inner) ∧
  (∀ T subject resource (inner : Ctx → db_prog T (option EventType * result unit)),
     transparent (handleMessage subject resource inner headers ctx) inner) ∧
  (∀ T subject type (inner : Ctx → db_prog T (result unit)),
     transparent (broadcaster_Action subject type inner ctx) inner ∧
     transparent (handleVulnerabilityReportEvent inner headers ctx) inner) ∧
  (∀ E served info longRunning (inner : Ctx → prog E (option Z)),
     transparent (requestDurationFilter served info longRunning inner ctx) inner) ∧
  (∀ name kind reader inner req,
     wp any_answer (instrumentedReconciler_Reconcile name kind reader inner req ctx) [] (λ tr r,
       (∃ c read rest, inner_events tr = read ++ rest ∧ runs (inner c req) rest r ∧
          match reader with None => read = [] | Some (existT k _) => ∃ a, read = [Ev (KGet k req) a] end) ∧
       nested [] (tel_events tr) = true)) ∧
  (∀ kind req inject (inner : Ctx → ScanJob → go (ScanJob * result unit)) o,
     wp any_answer (instrumentedDefaulter_Default other_reason kind req sj_Meta with_sj_Meta inject inner o ctx) [] (λ tr r,
       (∃ c r', runs (inner c o) (inner_events tr) r' ∧ r.2 = r'.2 ∧
          (r.1 = r'.1 ∨ inject = true ∧ (∃ uid, req = Some (uid, admission_Create)) ∧ r'.2 = Ok tt ∧
                        context_added (sj_Meta r'.1) (sj_Meta r.1) ∧
                        sj_Spec r.1 = sj_Spec r'.1 ∧ sj_Status r.1 = sj_Status r'.1)) ∧
       nested [] (tel_events tr) = true)).
Proof.
  split_and!; intros.
  all: eauto using handler_transparent, failure_handler_transparent, registry_call_transparent, job_trace_transparent, trivy_transparent,
    validator_transparent, object_span_transparent, store_span_transparent, handleMessage_transparent, action_transparent,
    report_event_transparent, request_transparent, reconciler_transparent, job_defaulter_transparent.
Qed.

(** The points a run records, as instrument and labels. *)
Definition metric_of (o : obs Tel) : option (string * list (string * attr_value)) :=
  match o with
  | Ev (CounterAdd instrument _ attrs) _ | Ev (HistogramRecord instrument _ attrs) _ => Some (instrument, attrs)
  | _ => None
  end.
Definition metrics (tr : trace Tel) : list (string * list (string * attr_value)) := omap metric_of tr.

(** What happens is measured once: a message that is handled gives one
    duration with its outcome, and one error when it failed, labelled with a
    bounded type; a decision of a validating webhook, one count with its verdict
    and the reason of a denial; a watch event whose type could be read, one
    count; a request that is not long-running, one duration, whose resource is
    one that is served or [unknown]; nothing else is counted. *)
Theorem measured_once (ctx : Ctx) (headers : Header) :
  (∀ E name stage (inner : Ctx → prog E (result unit)),
     wp any_answer (InstrumentedHandler_Handle other_reason name stage inner headers ctx) [] (λ tr r,
       panics (err_of r) = false → metrics (tel_events tr) =
         match r with
         | Ok _ => [("worker.scan.duration", [("stage", AString stage); ("result", AString "success")])]
         | Err e => [("worker.handler.errors", [("handler", AString stage); ("error.type", AString (errorType other_reason e))]);
                     ("worker.scan.duration", [("stage", AString stage); ("result", AString "error")])]
         end)) ∧
  (∀ kind req op inner meta,
     wp any_answer (instrumentedValidator_Validate other_reason kind req op inner meta ctx) [] (λ tr r,
       panics (err_of r.2) = false → metrics (tel_events tr) =
         [("controller.webhook.decisions", decision_attributes other_reason kind "validating" (lower_operation op) (err_of r.2))])) ∧
  (∀ T subject resource (inner : Ctx → db_prog T (option EventType * result unit)),
     wp any_answer (handleMessage subject resource inner headers ctx) [] (λ tr r,
       panics (err_of r.2) = false → metrics (tel_events tr) =
         match r.1 with
         | Some t => [("storage.watch.events", [("resource", AString resource); ("event.type", AString (event_label t))])]
         | None => []
         end)) ∧
  (∀ E served info longRunning (inner : Ctx → prog E (option Z)),
     wp any_answer (requestDurationFilter served info longRunning inner ctx) [] (λ tr r,
       match info with
       | Some (verb, resource) =>
           if longRunning then metrics (tel_events tr) = []
           else ∃ label, label ∈ "unknown" :: served ∧ (resource ∈ served → label = resource) ∧
             metrics (tel_events tr) = [("storage.apiserver.request.duration",
               [("verb", AString verb); ("resource", AString label); ("code", AInt (default 200 r))])]
       | None => metrics (tel_events tr) = []
       end)) ∧
  (∀ e, errorType other_reason e ∈ [other_reason; "NotFound"; "AlreadyExists"; "Conflict"; "Forbidden"; "Invalid"; "BadRequest";
          "InternalError"; "canceled"; "deadline_exceeded"; "unknown"]).
Proof.
  split_and!.
  - intros. repeat tel_step; tel_events; intros Hp; try congruence. all: destruct r; by simplify_eq/=.
  - intros. repeat tel_step; tel_events; intros Hp; congruence || by destruct (err_of r.2); simplify_eq.
  - intros. repeat tel_step; tel_events; intros Hp; congruence || by destruct (r.1); simplify_eq.
  - intros. repeat tel_step; tel_events; try done.
    eexists; split; [|split; [|reflexivity]]; case_bool_decide; set_solver.
  - intros e. unfold errorType. destruct (ReasonForError e) as [reason|]; [destruct reason; set_solver|].
    repeat case_match; set_solver.
Qed.
End decorators.
