(* ===== verification/Messaging.v ===== *)
(** * Publishing and consuming messages

    [src/internal/messaging/publisher.go], [NewNatsSubscriber] of
    [subscriber.go] and the set-up of the worker ([src/cmd/worker/main.go]): the
    stream, the consumers, and the trace context that goes with a message. *)

From stdpp Require Import prelude gmap strings list.
From Stdlib Require Import Ascii.
From S2P Require Import Prelude Prog Strconv Conditions GoPath Meta Registry ScanJob NodeScanJob Filters StorageTypes Report Effects Messages RegistryAuth RegistryClient ImageCatalog CreateCatalog GenerateSBOM ScanSBOM Subscriber Worker NodeWorker Webhooks ReportAdmission Telemetry Instrumentation.
Open Scope Z_scope.

(** ** NATS *)

Record Msg := { msg_Subject : string; msg_Data : string; msg_Header : Header }.
Record StreamConfig := { str_Name : string; str_WorkQueue : bool; str_Subjects : list string }.
Record ConsumerConfig := { con_FilterSubjects : list string; con_Durable : string; con_AckWait : Z }.

Inductive NatsEff : Type → Type :=
| NatsConnect (url : string) : NatsEff (result unit)
| JetStreamNew : NatsEff (result unit)
| CreateStream (cfg : StreamConfig) : NatsEff (result unit)
| CreateOrUpdateConsumer (stream : string) (cfg : ConsumerConfig) : NatsEff (result unit)
| JsPublishMsg (msg : Msg) : NatsEff (result unit)
| Consume : NatsEff (result unit).

(** Which subjects a filter matches: a literal itself, and a filter that ends in
    [.>] every subject with at least one more token. *)
Class NatsSubjects := {
  subject_matches : string → string → bool;
  matches_literal : ∀ filter s, no_byte "*"%char filter = true → no_byte ">"%char filter = true →
    subject_matches filter s = true ↔ s = filter;
  matches_rest : ∀ prefix s, no_byte "*"%char prefix = true → no_byte ">"%char prefix = true →
    subject_matches (prefix +:+ ".>") s = true ↔ ∃ rest, rest ≠ "" ∧ s = prefix +:+ "." +:+ rest
}.

(** ** The publisher *)

Definition streamName := "SBOMSCANNER".
Definition sbomscannerSubject := "sbomscanner.>".
(** [jetstream.MsgIDHeader]. *)
Definition MsgIDHeader := "Nats-Msg-Id".

Definition NewNatsPublisher : prog NatsEff (result unit) :=
  check trigger JetStreamNew wrap errorf "failed to create JetStream context";
  check trigger (CreateStream {| str_Name := streamName; str_WorkQueue := true; str_Subjects := [sbomscannerSubject] |})
    wrap errorf "failed to create JetStream stream";
  Ret (Ok tt).

Section messaging.
Context `{!Propagation}.

Definition Publish (ctx : Ctx) (subject messageID message : string) : prog NatsEff (result unit) :=
  let msg := {| msg_Subject := subject; msg_Data := message;
                msg_Header := InjectNATS ctx {[ MsgIDHeader := [messageID] ]} |} in
  check trigger (JsPublishMsg msg) wrap errorf "failed to publish message";
  Ret (Ok tt).

(** ** The subscriber *)

(** The keys of a map are ranged over in some order. *)
Definition consumer_config `{!MapRange} {H} (durable : string) (handlers : gmap string H) : ConsumerConfig :=
  {| con_FilterSubjects := range 0 (map_to_list handlers).*1; con_Durable := durable; con_AckWait := 10 * 60 * 1000000000 |}.

Definition NewNatsSubscriber `{!MapRange} {H} (durable : string) (handlers : gmap string H) : prog NatsEff (result unit) :=
  check trigger JetStreamNew wrap errorf "failed to create JetStream context";
  check trigger (CreateOrUpdateConsumer streamName (consumer_config durable handlers))
    wrap errorf "failed to create or update consumer";
  Ret (Ok tt).

(** ** The worker

    What [run] does with NATS after its initialisation: the mode decides the
    subjects and the name of the consumer.  [handlers] gives each mode its
    handlers. *)
Definition registryMode := "registry".
Definition nodeMode := "node".

Definition worker_durable (mode nodeName : string) : string :=
  if bool_decide (mode = nodeMode) then sanitizeNodeSubscriberName nodeName else "worker".

(** The connection, made once the name of the node is known. *)
Definition worker_connect (natsURL mode nodeName : string) : prog NatsEff (result unit) :=
  if bool_decide (mode = nodeMode) && bool_decide (nodeName = "") then Ret (Err (errors_New "node name required in node mode"))
  else
    check trigger (NatsConnect natsURL) wrap errorf ("connecting to NATS server " +:+ quote natsURL);
    check NewNatsPublisher wrap errorf "creating NATS publisher";
    Ret (Ok tt).

Definition worker_subscribe `{!MapRange} {H} (mode nodeName : string) (registry_mode node_mode : gmap string H) : prog NatsEff (result unit) :=
  if bool_decide (mode = registryMode) || bool_decide (mode = nodeMode) then
    let scanMode := if bool_decide (mode = registryMode) then registry_mode else node_mode in
    check NewNatsSubscriber (worker_durable mode nodeName) scanMode wrap errorf "creating NATS subscriber";
    Ret (Ok tt)
  else Ret (Err (errors_New ("invalid scanning mode: " +:+ mode))).

Definition worker_consume : prog NatsEff (result unit) :=
  check trigger Consume wrap errorf "running worker subscriber";
  Ret (Ok tt).

Definition worker_run `{!MapRange} {H} (natsURL mode nodeName : string) (registry_mode node_mode : gmap string H) : prog NatsEff (result unit) :=
  check worker_connect natsURL mode nodeName wrap (λ e, e);
  check worker_subscribe mode nodeName registry_mode node_mode wrap (λ e, e);
  worker_consume.

(** ** What travels with a message *)

Definition header_of (tr : trace NatsEff) : option Header :=
  match tr with [Ev (JsPublishMsg msg) _] => Some (msg_Header msg) | _ => None end.

Lemma publish_exact ctx subject messageID message :
  wp any_answer (Publish ctx subject messageID message) [] (λ tr r, ∃ header a,
    tr = [Ev (JsPublishMsg {| msg_Subject := subject; msg_Data := message; msg_Header := header |}) a] ∧
    header = InjectNATS ctx {[ MsgIDHeader := [messageID] ]} ∧
    (r = Ok tt ↔ a = Ok tt)).
Proof.
  intros a _. cbn. destruct a as [[]|e]; eexists _, _; split_and!; [done..|done|done|]. by destruct e.
Qed.

(** The span a run starts with, and the context it is under. *)
Definition root_span {E} (tr : trace (instr E)) (name : string) (sc : SpanContext) : Prop :=
  ∃ c kind newRoot attrs a rest,
    tel_events tr = Ev (StartSpan c name kind newRoot attrs) a :: rest ∧ SpanContextFromContext c = Some sc.

Lemma in_span_root {E R} parent name kind newRoot attrs (body : Ctx → Z → prog (instr E) R) sc :
  SpanContextFromContext parent = Some sc →
  wp any_answer (in_span parent name kind newRoot attrs body) [] (λ tr _, root_span tr name sc).
Proof.
  intros Hsc. intros a _. cbn [app]. eapply wp_frame; [apply wp_true|]. intros ext r _.
  eexists _, _, _, _, _, (tel_events ext). split; [|exact Hsc]. by rewrite tel_events_app.
Qed.

(** The span of a handler is in the trace of the message. *)
Lemma handler_span {E} other name stage (inner : Ctx → prog E (result unit)) headers parent sc :
  SpanContextFromContext (ExtractNATS parent headers) = Some sc →
  wp any_answer (InstrumentedHandler_Handle other name stage inner headers parent) [] (λ tr _, root_span tr (name +:+ ".Handle") sc).
Proof. apply in_span_root. Qed.

(** The span of a reconciler that reads its object is in the trace of the object. *)
Lemma reconciler_span name kind k meta inner req parent :
  wp any_answer (instrumentedReconciler_Reconcile name kind (Some (existT k meta)) inner req parent) [] (λ tr _,
    ∃ a, head (inner_events tr) = Some (Ev (KGet k req) a) ∧
      ∀ o sc, a = Ok o → SpanContextFromContext (ExtractAnnotations parent (om_Annotations (meta o))).1 = Some sc →
        root_span tr (name +:+ "Reconciler.Reconcile") sc).
Proof.
  unfold instrumentedReconciler_Reconcile, resolveParent. apply wp_bind. cbn [mbind prog_bind pbind trigger lift wp]. intros a _.
  destruct a as [o|e]; cbn [lift wp app].
  - destruct (SpanContextFromContext (ExtractAnnotations parent (om_Annotations (meta o))).1) as [sc|] eqn:Hsc.
    + eapply wp_frame; [by apply in_span_root|]. intros ext r (c & kd & nr & at_ & a & rest & Htel & Hc).
      exists (Ok o). split; [done|]. intros o' sc' [= <-] Hsc'. rewrite Hsc in Hsc'. injection Hsc' as <-.
      exists c, kd, nr, at_, a, rest. split; [|done]. by rewrite tel_events_app, Htel.
    + eapply wp_frame; [apply wp_true|]. intros ext r _. exists (Ok o). split; [done|]. intros o' sc' [= <-]. by rewrite Hsc.
  - eapply wp_frame; [apply wp_true|]. intros ext r _. by exists (Err e).
Qed.

(** The fields of the trace context are not on the object yet. *)
Definition untraced (annotations : gmap string string) : Prop :=
  ∀ k, k ∈ propagation_fields → annotations !! (annotationDomain +:+ k) = None.

Lemma inject_traceparent_untraced ctx meta sc :
  SpanContextFromContext ctx = Some sc → untraced (om_Annotations meta) →
  om_Annotations (inject_traceparent ctx meta) = inject_annotations ctx (om_Annotations meta).
Proof.
  intros Hsc Hu. unfold inject_traceparent. cbv zeta.
  rewrite bool_decide_eq_true_2 by (unfold map_get, TraceparentAnnotation; by rewrite (Hu "traceparent") by (by left)).
  cbn [negb]. destruct (inject_valid ctx sc Hsc) as (v & Hv & Hne).
  rewrite bool_decide_eq_false_2; [done|]. unfold map_get, TraceparentAnnotation. rewrite annotations_lookup.
  by rewrite (assoc_elem _ v) by (apply fields_distinct || done).
Qed.

(** A trace follows its job: under a context with a valid span, publishing
    sends one message with the subject, the data and the deduplication header it
    was asked for, and the handler that consumes it runs in a span whose parent
    is that very span; a job to which the mutating webhook adds the context is
    reconciled in a span whose parent is the webhook's; and the traceparent that
    an object already has is kept. *)
Theorem trace_follows_job (other : string) (ctx parent : Ctx) (sc : SpanContext) (subject id data : string) (meta : ObjectMeta) :
  SpanContextFromContext ctx = Some sc →
  wp any_answer (Publish ctx subject id data) [] (λ tr r, ∃ header a,
    tr = [Ev (JsPublishMsg {| msg_Subject := subject; msg_Data := data; msg_Header := header |}) a] ∧
    header !! MsgIDHeader = Some [id] ∧ (r = Ok tt ↔ a = Ok tt) ∧
    ∀ E name stage (inner : Ctx → prog E (result unit)),
      wp any_answer (InstrumentedHandler_Handle other name stage inner header parent) [] (λ tr _, root_span tr (name +:+ ".Handle") sc)) ∧
  (untraced (om_Annotations meta) → ∀ name kind inner req (job : ScanJob), sj_Meta job = inject_traceparent ctx meta →
     wp any_answer (instrumentedReconciler_Reconcile name kind (Some (existT KScanJob sj_Meta)) inner req parent) [] (λ tr _,
       ∃ a, head (inner_events tr) = Some (Ev (KGet KScanJob req) a) ∧
         (a = Ok job → root_span tr (name +:+ "Reconciler.Reconcile") sc))) ∧
  (map_get (om_Annotations meta) TraceparentAnnotation ≠ "" → inject_traceparent ctx meta = meta).
Proof.
  intros Hsc. split_and!.
  - eapply wp_mono; [|apply publish_exact]. intros tr r (header & a & -> & -> & Hr). eexists _, a. split_and!; [done| |done|].
    + rewrite InjectNATS_other; [apply lookup_singleton_eq|]. by apply (bool_decide_unpack _); vm_compute.
    + intros E name stage inner. apply handler_span, nats_roundtrip; [done|]. intros k Hk.
      apply lookup_singleton_ne. intros <-. revert Hk. by apply (bool_decide_unpack _); vm_compute.
  - intros Hu name kind inner req job Hj. eapply wp_mono; [|apply reconciler_span]. cbn beta.
    intros tr r (a & Ha & Hroot). exists a. split; [done|]. intros ->. apply (Hroot job); [done|].
    rewrite Hj, (inject_traceparent_untraced _ _ sc) by done.
    pose proof (annotations_roundtrip ctx parent _ sc Hsc Hu) as Hrt. by destruct (ExtractAnnotations _ _); destruct Hrt.
  - intros Ht. unfold inject_traceparent. cbv zeta. by rewrite bool_decide_eq_false_2.
Qed.
End messaging.

(** ** Who gets a message *)

(** A consumer is given a message when one of its filters matches the subject. *)
Definition serves `{!NatsSubjects} (c : ConsumerConfig) (s : string) : Prop :=
  Exists (λ filter, subject_matches filter s = true) (con_FilterSubjects c).

(** The streams and consumers a run makes. *)
Definition ev_stream (o : obs NatsEff) : option StreamConfig := match o with Ev (CreateStream c) _ => Some c | _ => None end.
Definition ev_consumer (o : obs NatsEff) : option (string * ConsumerConfig) :=
  match o with Ev (CreateOrUpdateConsumer s c) _ => Some (s, c) | _ => None end.

(** A name of a node: lower-case letters, digits, dashes and dots, short enough for the
    name of a consumer to hold it. *)
Definition dns_char (c : ascii) : bool :=
  let n := nat_of_ascii c in
  bool_decide (c = "-"%char) || bool_decide (c = "."%char) ||
  (bool_decide (97 ≤ n)%nat && bool_decide (n ≤ 122)%nat) || (bool_decide (48 ≤ n)%nat && bool_decide (n ≤ 57)%nat).
Definition node_name (n : string) : Prop := all_chars dns_char n = true ∧ (String.length n ≤ 243)%nat.

(** A name without wildcards. *)
Definition literal (s : string) : Prop := no_byte "*"%char s = true ∧ no_byte ">"%char s = true.

Lemma dns_char_node c : dns_char c = true → node_char c = true ∧ c ≠ "*"%char ∧ c ≠ ">"%char.
Proof. destruct c as [[] [] [] [] [] [] [] []]; vm_compute; intros Hc; by split_and!. Qed.

Lemma node_name_chars n : all_chars dns_char n = true → all_chars node_char n = true ∧ literal n.
Proof.
  unfold literal. induction n as [|c n IH]; [done|]. cbn [all_chars no_byte]. intros [Hc Hn]%andb_true_iff.
  destruct (dns_char_node c Hc) as (-> & H1 & H2), (IH Hn) as (-> & -> & ->). by rewrite !bool_decide_false.
Qed.

Lemma string_app_nil (s : string) : "" +:+ s = s.
Proof. done. Qed.

(** The subjects of a worker. *)
Definition subjects_of (mode n : string) : list string :=
  if bool_decide (mode = "node") then ["sbomscanner.nodesbom.generate." +:+ n; "sbomscanner.nodesbom.scan." +:+ n]
  else ["sbomscanner.catalog.create"; "sbomscanner.sbom.generate"; "sbomscanner.sbom.scan"].

Lemma subjects_literal mode n : literal n → Forall literal (subjects_of mode n).
Proof.
  intros [H1 H2]. unfold subjects_of. case_bool_decide; repeat constructor; rewrite ?no_byte_app, ?H1, ?H2; done.
Qed.

(** Two replicas of one worker: the same mode and, in node mode, the same node. *)
Definition same_worker (mode n mode' n' : string) : Prop := mode = mode' ∧ (mode = "node" → n = n').

Lemma subjects_disjoint mode n mode' n' s :
  s ∈ subjects_of mode n → s ∈ subjects_of mode' n' → bool_decide (mode = "node") = bool_decide (mode' = "node") ∧ (mode = "node" → n = n').
Proof.
  unfold subjects_of. rewrite !string_app_cons, !string_app_nil.
  repeat case_bool_decide; subst; rewrite !list_elem_of_In; cbn [In]; intros Hs Hs'; (split; [try done|try done; intros _]).
  all: intuition congruence.
Qed.

Section partition.
Context `{!StatusConditions, !ControllerUtil, !Names, !MediaTypes, !CEL, !X509, !MapRange, !Retry}.
Context `{!Trivy, !YAML, !CreateOrUpdater, !Float64, !NatsSubjects}.
Context `{!JSON Registry, !JSON CreateCatalogMessage, !JSON GenerateSBOMMessage, !JSON ScanSBOMMessage}.
Context `{!JSON BaseMessage, !JSON (list trivyResult)}.
Context `{!JSON NodeScanConfiguration, !JSON GenerateNodeSBOMMessage, !JSON ScanNodeSBOMMessage, !JSON NodeBaseMessage}.
Context (url targetDir : string) (cfg : Config).

(** A worker with its handlers. *)
Definition worker (mode n : string) : prog NatsEff (result unit) :=
  worker_run url mode n (registry_handlers cfg) (node_handlers cfg targetDir n).

(** It starts with a consumer. *)
Definition starts (mode n : string) (c : ConsumerConfig) : Prop :=
  ∃ tr, runs (worker mode n) tr (Ok tt) ∧ omap ev_consumer tr = [("SBOMSCANNER", c)].

(** The handlers of its mode. *)
Definition handlers_of (mode n : string) : gmap string Handler :=
  if bool_decide (mode = "node") then node_handlers cfg targetDir n else registry_handlers cfg.

Lemma handlers_dom mode n : dom (handlers_of mode n) = list_to_set (subjects_of mode n).
Proof.
  unfold handlers_of, subjects_of. case_bool_decide; [|apply registry_handlers_dom].
  rewrite node_handlers_dom. unfold GenerateNodeSBOMSubject, ScanNodeSBOMSubject. by rewrite !string_app_cons, !string_app_nil.
Qed.

Lemma consumer_filters durable {Impl} (handlers : gmap string Impl) s :
  s ∈ con_FilterSubjects (consumer_config durable handlers) ↔ is_Some (handlers !! s).
Proof.
  cbn. rewrite range_perm, list_elem_of_fmap. split.
  - intros ([k x] & -> & Hx%elem_of_map_to_list). by exists x.
  - intros [x Hx]. exists (s, x). split; [done|]. by apply elem_of_map_to_list.
Qed.

Lemma handlers_subjects mode n s : is_Some (handlers_of mode n !! s) ↔ s ∈ subjects_of mode n.
Proof. by rewrite <- elem_of_dom, handlers_dom, elem_of_list_to_set. Qed.

Lemma serves_exact durable mode n s :
  literal n → serves (consumer_config durable (handlers_of mode n)) s ↔ s ∈ subjects_of mode n.
Proof.
  intros Hn. pose proof (subjects_literal mode n Hn) as Hl. rewrite Forall_forall in Hl.
  unfold serves. rewrite Exists_exists. split.
  - intros (f & Hf%consumer_filters%handlers_subjects & Hm). destruct (Hl f Hf) as [H1' H2'].
    apply matches_literal in Hm; [|done|done]. by subst.
  - intros Hs. exists s. rewrite consumer_filters, handlers_subjects. split; [done|]. destruct (Hl s Hs) as [H1' H2']. by apply matches_literal.
Qed.

Lemma subjects_stored mode n s : s ∈ subjects_of mode n → subject_matches "sbomscanner.>" s = true.
Proof.
  intros Hs. apply (matches_rest "sbomscanner"); [done|done|]. revert Hs. unfold subjects_of.
  case_bool_decide; rewrite list_elem_of_In; cbn; intros Hs; repeat destruct Hs as [<-|Hs]; try done;
    eexists; (split; [|reflexivity]); done.
Qed.

Lemma worker_exact mode n :
  wp any_answer (worker mode n) [] (λ tr r, r = Ok tt →
    (mode = "registry" ∨ mode = "node" ∧ n ≠ "") ∧
    omap ev_stream tr = [{| str_Name := "SBOMSCANNER"; str_WorkQueue := true; str_Subjects := ["sbomscanner.>"] |}] ∧
    omap ev_consumer tr = [("SBOMSCANNER", consumer_config (worker_durable mode n) (handlers_of mode n))]).
Proof.
  unfold worker, worker_run, worker_connect, worker_subscribe, worker_consume, NewNatsPublisher, NewNatsSubscriber.
  destruct (bool_decide (mode = nodeMode) && bool_decide (n = "")) eqn:Hg; [done|]. wp_steps; try done.
  intros _. match goal with Hm : _ || _ = true |- _ =>
    apply orb_true_iff in Hm as [->%bool_decide_eq_true| ->%bool_decide_eq_true] end; (split; [|done]).
  - by left.
  - right. rewrite bool_decide_eq_true_2 in Hg by done. cbn in Hg. by apply bool_decide_eq_false in Hg.
Qed.

Lemma starts_exact mode n c :
  starts mode n c → (mode = "registry" ∨ mode = "node") ∧ c = consumer_config (worker_durable mode n) (handlers_of mode n).
Proof.
  intros (tr & Hr & Hc). destruct (runs_wp _ _ _ _ Hr (worker_exact mode n) eq_refl) as (Hm & _ & Hc').
  rewrite Hc in Hc'. injection Hc' as ->. split; [|done]. destruct Hm as [?|[? _]]; auto.
Qed.

Lemma durable_distinct mode n mode' n' :
  (mode = "registry" ∨ mode = "node") → (mode' = "registry" ∨ mode' = "node") → node_name n → node_name n' →
  worker_durable mode n = worker_durable mode' n' ↔ same_worker mode n mode' n'.
Proof.
  intros Hm Hm' [Hn Hl] [Hn' Hl']. apply node_name_chars in Hn as [Hn _], Hn' as [Hn' _].
  unfold worker_durable, same_worker, nodeMode.
  destruct Hm as [-> | ->], Hm' as [-> | ->]; rewrite ?bool_decide_true, ?bool_decide_false by done; rewrite ?sanitize_short by done;
    (split; [try done|try (intros []; done)]).
  - intros Heq. split; [done|]. intros _. apply strings_Map_inj; [done|done|]. by injection Heq.
  - by intros [_ ->].
Qed.

End partition.

(** ** Instances *)

Definition sample_subjects : NatsSubjects.
Proof.
  refine {| subject_matches := λ filter s,
    if no_byte ">"%char filter then bool_decide (s = filter)
    else match CutSuffix filter ".>" with
         | Some prefix => match CutPrefix s (prefix +:+ ".") with Some rest => bool_decide (rest ≠ "") | None => false end
         | None => false
         end |}.
  - intros filter s _ Hf. rewrite Hf. apply bool_decide_eq_true.
  - intros prefix s _ Hp. rewrite no_byte_app, Hp. change (no_byte ">"%char ".>") with false. cbn [andb]. rewrite CutSuffix_app.
    destruct (CutPrefix s (prefix +:+ ".")) as [rest|] eqn:Hc.
    + apply CutPrefix_Some in Hc. rewrite bool_decide_eq_true. split.
      * intros Hr. exists rest. split; [done|]. by rewrite Hc, <- string_app_assoc.
      * intros (rest' & Hne & Hs). rewrite Hc, <- string_app_assoc in Hs. apply (inj (String.append prefix)) in Hs.
        apply (inj (String.append ".")) in Hs. by subst.
    + split; [done|]. intros (rest & _ & ->). rewrite string_app_assoc, CutPrefix_app in Hc. done.
Defined.

Definition no_JSON {T} : JSON T := {| Marshal := λ _, Err (errors_New "unsupported"); Unmarshal := λ _, Err (errors_New "unsupported") |}.
Definition no_Trivy : Trivy := {| Score := unit; FormatFloat := λ _, ""; Finding := unit;
  gob_Encode := λ _, Err (errors_New "unsupported"); gob_Decode := λ _, Err (errors_New "unsupported") |}.

(** NATS takes everything. *)
Definition nats_ok : handler NatsEff unit := λ A e w,
  (match e in NatsEff A return A with
   | NatsConnect _ | JetStreamNew | CreateStream _ | CreateOrUpdateConsumer _ _ | JsPublishMsg _ | Consume => Ok tt end, w).

Section partition_sample.
#[local] Existing Instances meta_conditions append_ControllerUtil plain_Names plain_MediaTypes toy_CEL insertion_order DefaultRetry
  plain_CreateOrUpdater exact_Float64 sample_subjects no_JSON no_Trivy.
#[local] Instance no_X509 : X509 := {| AppendCertsFromPEM := λ _, false |}.
#[local] Instance no_YAML : YAML := {| yaml_Marshal := λ _, Err (errors_New "unsupported") |}.
Definition sample_config : Config := {| cfg_RunDir := "/run"; cfg_TrivyDBRepository := ""; cfg_TrivyJavaDBRepository := "";
  cfg_InstallationNamespace := "sbomscanner" |}.

End partition_sample.

Lemma trace_follows_job_witness :
  @SpanContextFromContext sample_propagation (Some "4bf9-00f0") = Some "4bf9-00f0" ∧
  wp any_answer (@Publish sample_propagation (Some "4bf9-00f0") CreateCatalogSubject "createCatalog/1" "{}") [] (λ tr _, ∃ header a,
    tr = [Ev (JsPublishMsg {| msg_Subject := CreateCatalogSubject; msg_Data := "{}"; msg_Header := header |}) a] ∧
    header !! MsgIDHeader = Some ["createCatalog/1"]).
Proof.
  split; [reflexivity|].
  destruct (@trace_follows_job sample_propagation "Other" (Some "4bf9-00f0") None "4bf9-00f0" CreateCatalogSubject "createCatalog/1" "{}"
    (new_meta "job" "" "default" ∅ ∅) eq_refl) as (Hp & _).
  eapply wp_mono; [|exact Hp]. intros tr r (header & a & Htr & Hid & _). exists header, a. split; assumption.
Defined.
