(* ===== verification/ControllerCache.v ===== *)
(** * The cache of the controller

    [src/internal/controller/transform.go] and [buildCacheByObject] of
    [src/cmd/controller/main.go]: the controller reads through a cache that
    keeps some kinds without the fields it does not need, and shares the objects
    of others with its readers.  None of them may be written back. *)

From stdpp Require Import prelude gmap strings list.
From S2P Require Import Prelude Prog Conditions Meta Registry ScanJob NodeScanJob StorageTypes Effects RegistryAuth Messages History ScanJobController VulnReportController RegistryScanRunner NodeScanController NodeScanRunner Worker NodeWorker WorkloadWatcher WorkloadRegistry WorkloadScanController ImageWorkloads Webhooks.

(** ** What the cache keeps *)

(** A pod and a node, with what the program does not read as opaque texts. *)
Record corev1_Container := { cc_Name : string; cc_Image : string; cc_Other : string }.
Record corev1_Pod := {
  cp_Meta : ObjectMeta; cp_InitContainers : list corev1_Container; cp_Containers : list corev1_Container;
  cp_SpecOther : string; cp_Status : string
}.
Record corev1_Node := {
  cn_Meta : ObjectMeta; cn_Spec : string; cn_OperatingSystem : string; cn_Architecture : string; cn_StatusOther : string
}.

(** [TransformStripPod]; managed fields are not part of the metadata here. *)
Definition strip_container (container : corev1_Container) : corev1_Container :=
  {| cc_Name := cc_Name container; cc_Image := cc_Image container; cc_Other := "" |}.
Definition TransformStripPod (pod : corev1_Pod) : corev1_Pod := {|
  cp_Meta := cp_Meta pod;
  cp_InitContainers := strip_container <$> cp_InitContainers pod;
  cp_Containers := strip_container <$> cp_Containers pod;
  cp_SpecOther := ""; cp_Status := "" |}.

Definition TransformStripNode (node : corev1_Node) : corev1_Node := {|
  cn_Meta := with_Annotations ∅ (cn_Meta node);
  cn_Spec := "";
  cn_OperatingSystem := cn_OperatingSystem node; cn_Architecture := cn_Architecture node; cn_StatusOther := "" |}.

(** The objects as the program reads them. *)
Definition read_container (c : corev1_Container) : Container := {| pc_Name := cc_Name c; pc_Image := cc_Image c |}.
Definition read_Pod (pod : corev1_Pod) : Pod := {|
  pod_Meta := cp_Meta pod;
  pod_Spec := {| ps_InitContainers := read_container <$> cp_InitContainers pod; ps_Containers := read_container <$> cp_Containers pod |} |}.
Definition read_Node (node : corev1_Node) : Node := {|
  nd_Meta := cn_Meta node; nd_OperatingSystem := cn_OperatingSystem node; nd_Architecture := cn_Architecture node |}.

(** ** Options of the cache *)

Inductive CacheTransform := StripImage | StripWorkloadScanReport | StripPod | StripNode | StripNodeSBOM.

(** [cache.ByObject]; a label is a selector of the objects kept. *)
Record ByObject := { bo_Label : option (string * string); bo_Transform : option CacheTransform; bo_UnsafeDisableDeepCopy : bool }.

Definition shared_objects : ByObject := {| bo_Label := None; bo_Transform := None; bo_UnsafeDisableDeepCopy := true |}.

Definition buildCacheByObject (workloadScan nodeScan : bool) : list (kind * ByObject) :=
  [(KVulnerabilityReportMeta, shared_objects); (KNamespaceMeta, shared_objects)] ++
  (if workloadScan then [
     (KImage, {| bo_Label := Some (LabelWorkloadScanKey, LabelWorkloadScanValue); bo_Transform := Some StripImage;
                 bo_UnsafeDisableDeepCopy := false |});
     (KWorkloadScanReport, {| bo_Label := None; bo_Transform := Some StripWorkloadScanReport; bo_UnsafeDisableDeepCopy := false |});
     (KPod, {| bo_Label := None; bo_Transform := Some StripPod; bo_UnsafeDisableDeepCopy := true |});
     (KReplicaSetMeta, shared_objects); (KJobMeta, shared_objects)] else []) ++
  (if nodeScan then [
     (KNode, {| bo_Label := None; bo_Transform := Some StripNode; bo_UnsafeDisableDeepCopy := true |});
     (KNodeSBOM, {| bo_Label := None; bo_Transform := Some StripNodeSBOM; bo_UnsafeDisableDeepCopy := true |})] else []).

Definition cache_of (workloadScan nodeScan : bool) (k : kind) : option ByObject :=
  snd <$> List.find (λ p, bool_decide (p.1 = k)) (buildCacheByObject workloadScan nodeScan).

(** ** Writes *)

(** A patch leaves alone the fields that the transform of its kind strips. *)
Definition keeps_stripped (k : kind) : obj k → obj k → Prop :=
  match k with
  | KImage => λ base o, img_Layers o = img_Layers base
  | KWorkloadScanReport => λ base o,
      ws_Containers o = ws_Containers base ∧ ws_Status_ContainerStatuses o = ws_Status_ContainerStatuses base
  | _ => λ _ _, True
  end.

(** A call that does not write back what the cache stripped or shares: a kind with
    options is never updated as a whole, and patched only if its objects are
    copies, in the fields it was read with. *)
Definition cache_safe (workloadScan nodeScan : bool) A (e : Eff A) : Prop :=
  match e with
  | KUpdate k _ | KStatusUpdate k _ => cache_of workloadScan nodeScan k = None
  | KPatch k base o =>
      match cache_of workloadScan nodeScan k with
      | None => True
      | Some opts => bo_UnsafeDisableDeepCopy opts = false ∧ keeps_stripped k base o
      end
  | _ => True
  end.

(** A cache with fewer features has options for fewer kinds. *)
Lemma cache_of_features workloadScan nodeScan k :
  cache_of workloadScan nodeScan k = None ∨ cache_of workloadScan nodeScan k = cache_of true true k.
Proof. destruct workloadScan, nodeScan, k; auto. Qed.

(** The kind of objects a call reads or writes. *)
Definition call_kind A (e : Eff A) : option kind :=
  match e with
  | KGet k _ | KList k _ | KCreate k _ | KUpdate k _ | KStatusUpdate k _ | KPatch k _ _ | KDelete k _ | KDeleteAllOf k => Some k
  | _ => None
  end.

(** The kinds that belong to a feature. *)
Definition allowed_kind (workloadScan nodeScan : bool) (k : kind) : bool :=
  match k with
  | KImage | KPod | KNamespaceMeta | KReplicaSetMeta | KJobMeta | KWorkloadScanConfiguration | KWorkloadScanReport => workloadScan
  | KNode | KNodeScanConfiguration | KNodeScanJob | KNodeSBOM | KNodeVulnerabilityReport => nodeScan
  | _ => true
  end.

(** The fields [SetupIndexer] indexes in the cache. *)
Definition indexes : list (kind * string) := [
  (KScanJob, IndexScanJobSpecRegistry); (KScanJob, IndexScanJobMetadataUID); (KNodeScanJob, IndexNodeScanJobSpecNodeName);
  (KImage, IndexImageMetadataComposite); (KWorkloadScanReport, IndexWorkloadScanReportImageRef); (KNodeSBOM, IndexNodeMetadataName)].

(** A list by fields asks for fields of [table] only: the cache refuses a field
    without an index, and the API server one it cannot select by. *)
Definition lists_by (table : kind → string → bool) A (e : Eff A) : bool :=
  match e with
  | KList k opts => forallb (λ o, match o with MatchingFields f _ => table k f | _ => true end) opts
  | _ => true
  end.
Definition is_indexed (k : kind) (f : string) : bool := bool_decide ((k, f) ∈ indexes).

(** A call with a cache of every feature, within the features given; [jobs] is
    whether the program writes the status of scan jobs. *)
Definition call_ok (jobs workloadScan nodeScan : bool) A (e : Eff A) : Prop :=
  match call_kind A e with Some k => allowed_kind workloadScan nodeScan k = true | None => True end ∧
  match e with KStatusUpdate KScanJob _ => jobs = true | _ => True end ∧
  lists_by is_indexed A e = true ∧ cache_safe true true A e.

Lemma allowed_kind_mono (workloadScan nodeScan workloadScan' nodeScan' : bool) k :
  (workloadScan → workloadScan') → (nodeScan → nodeScan') →
  allowed_kind workloadScan nodeScan k = true → allowed_kind workloadScan' nodeScan' k = true.
Proof. destruct k; cbn; rewrite <- ?Is_true_true; auto. Qed.

Lemma cache_safe_features workloadScan nodeScan A (e : Eff A) : cache_safe true true A e → cache_safe workloadScan nodeScan A e.
Proof.
  unfold cache_safe. destruct e; try done;
    match goal with |- context [cache_of _ _ ?k] => destruct (cache_of_features workloadScan nodeScan k) as [-> | ->] end; done.
Qed.

(** ** The programs of the controller *)

Lemma only_for_each P {S X} (body : S → X → go (result S)) l : (∀ s x, only P (body s x)) → ∀ s, only P (for_each body s l).
Proof.
  intros Hbody. induction l as [|x l IH]; intros s; [constructor|]. cbn [for_each].
  apply only_bind; [apply Hbody|]. intros [s'|e]; [apply IH|constructor].
Qed.

Section programs.
Context `{!StatusConditions, !GoTime, !GoSort, !MapRange, !Retry, !ControllerUtil, !LabelSelectors, !Names, !Controllers, !CreateOrPatcher}.
Context `{!JSON Registry, !JSON CreateCatalogMessage, !JSON RescanRequest, !JSON NodeScanConfiguration, !JSON GenerateNodeSBOMMessage}.

Lemma scanjob_safe req : only (call_ok true false false) (ScanJobController.Reconcile req).
Proof.
  apply calls_only. unfold ScanJobController.Reconcile, reconcileScanJob, validateScanJobTargets, cleanupOldScanJobs, cleanup_history, delete_one,
    RecordScanJobFinished.
  repeat calls_step; try done.
Qed.

Lemma vulnreport_safe req : only (call_ok true false false) (VulnReportController.Reconcile req).
Proof. apply calls_only. unfold VulnReportController.Reconcile, RecordScanJobFinished. repeat calls_step; try done. Qed.

Lemma registry_tick_safe : only (call_ok false false false) RegistryScanRunner.tick.
Proof.
  apply calls_only. unfold tick, scanRegistries, scan_one, checkRegistryForScan, scan_if_due, createScanJob, removeRescanAnnotations,
    remove_annotations_once, getLastScanJob, shouldCreateScanJob.
  repeat calls_step; try done.
Qed.

Lemma node_tick_safe : only (call_ok false false true) node_tick.
Proof.
  apply calls_only. unfold node_tick, scanNodes, scan_one_node, checkNodeForScan, scan_node_if_due, createNodeScanJob,
    removeRescanRequestedAnnotation, remove_rescan_once, getLastNodeScanJob, shouldCreateNodeScanJob, getMatchingNodes.
  repeat calls_step; try done.
Qed.

Lemma nodescanjob_safe req : only (call_ok false false true) (NodeScanJob_Reconcile req).
Proof.
  apply calls_only. unfold NodeScanJob_Reconcile, persist, reconcileNodeScanJob, validateNodeAgainstConfig, cleanupOldNodeScanJobs,
    cleanup_history, delete_one, RecordNodeScanJobFinished.
  repeat calls_step; try done.
Qed.

Lemma nodescan_safe req : only (call_ok false false true) (NodeScan_Reconcile req).
Proof.
  apply calls_only. unfold NodeScan_Reconcile, cleanupNodeResources, delete_listed, delete_quietly. repeat calls_step; try done.
Qed.

Lemma nodescanconfiguration_safe req : only (call_ok false false true) (NodeScanConfiguration_Reconcile req).
Proof.
  apply calls_only. unfold NodeScanConfiguration_Reconcile, cleanupAllNodeResources, delete_all_quietly. repeat calls_step; try done.
Qed.

Lemma image_safe req : only (call_ok false true false) (ImageWorkloadScan_Reconcile req).
Proof. apply calls_only. unfold ImageWorkloadScan_Reconcile, findWorkloadScanReportsByImage. repeat calls_step; try done. Qed.

Lemma resolve_safe pod : only (call_ok false true false) (resolveWorkloadOwner pod).
Proof. apply calls_only. unfold resolveWorkloadOwner, owner_of. repeat calls_step; try done. Qed.

Lemma reconcileRegistries_safe ns pods config : only (call_ok false true false) (reconcileRegistries ns pods config).
Proof.
  apply calls_only. unfold reconcileRegistries, reconcile_registry, create_missing, updateRegistry, createRegistry, write_registry,
    NewRescanRequestedAnnotationKey.
  repeat calls_step; try done.
Qed.

Lemma createOrPatch_safe ns name pod config : only (call_ok false true false) (createOrPatchWorkloadScanReport ns name pod config).
Proof.
  unfold createOrPatchWorkloadScanReport. apply only_try; [apply resolve_safe|]. intros owner.
  apply only_try; [|by constructor].
  eapply wp_mono; [|by apply CreateOrPatch_ok]. intros tr r (answer & rest & -> & Hcase). constructor; [done|].
  destruct answer as [existing|e]; [destruct Hcase as [(-> & _ & _)|(a & -> & _)]|
    destruct (IsNotFound e); [destruct Hcase as (a & -> & _)|destruct Hcase as [-> _]]]; by repeat constructor.
Qed.

Lemma reconcileReports_safe ns pods config : only (call_ok false true false) (reconcileWorkloadScanReports ns pods config).
Proof.
  unfold reconcileWorkloadScanReports, buildPodsByReport, report_of_pod. apply only_try.
  { apply only_for_each. intros m pod. apply only_try; [apply resolve_safe|by constructor]. }
  intros m. apply only_try; [by apply calls_only|]. intros existing. apply only_try.
  { apply calls_only. unfold delete_stale. repeat calls_step; done. }
  intros []. apply only_for_each. intros [] [name pod]. apply createOrPatch_safe.
Qed.

Lemma cleanupAll_safe : only (call_ok false true false) cleanupAllManagedResources.
Proof. apply calls_only. unfold cleanupAllManagedResources, delete_managed. repeat calls_step; try done. Qed.

Lemma workload_safe req : only (call_ok false true false) (WorkloadScan_Reconcile req).
Proof.
  unfold WorkloadScan_Reconcile, checkNamespaceSelector.
  repeat first [apply cleanupAll_safe|apply reconcileRegistries_safe|apply reconcileReports_safe|only_step]; try done.
Qed.

(** What [run] registers with the manager, in its order. *)
Inductive controller :=
  | ScanJobReconciler | VulnerabilityReportReconciler | RegistryScanRunner
  | WorkloadScanReconciler | ImageWorkloadScanReconciler
  | NodeScanRunner | NodeScanReconciler | NodeScanConfigurationReconciler | NodeScanJobReconciler.

Definition setupWorkloadScanControllers : list controller := [WorkloadScanReconciler; ImageWorkloadScanReconciler].
Definition setupNodeScanControllers : list controller :=
  [NodeScanRunner; NodeScanReconciler; NodeScanConfigurationReconciler; NodeScanJobReconciler].
Definition registered (workloadScan nodeScan : bool) : list controller :=
  [ScanJobReconciler; VulnerabilityReportReconciler; RegistryScanRunner] ++
  (if workloadScan then setupWorkloadScanControllers else []) ++
  (if nodeScan then setupNodeScanControllers else []).

(** One pass: a reconciliation of a request, or a tick of a runner. *)
Definition pass (c : controller) (req : NamespacedName) : go unit :=
  let reconcile (p : go (result unit)) := _ ← p; Ret tt in
  match c with
  | ScanJobReconciler => reconcile (ScanJobController.Reconcile req)
  | VulnerabilityReportReconciler => reconcile (VulnReportController.Reconcile req)
  | RegistryScanRunner => RegistryScanRunner.tick
  | WorkloadScanReconciler => reconcile (WorkloadScan_Reconcile req)
  | ImageWorkloadScanReconciler => reconcile (ImageWorkloadScan_Reconcile req)
  | NodeScanRunner => node_tick
  | NodeScanReconciler => reconcile (NodeScan_Reconcile req)
  | NodeScanConfigurationReconciler => reconcile (NodeScanConfiguration_Reconcile req)
  | NodeScanJobReconciler => reconcile (NodeScanJob_Reconcile req)
  end.

(** The two reconcilers that write the status of scan jobs. *)
Definition writes_jobs (c : controller) : bool :=
  match c with ScanJobReconciler | VulnerabilityReportReconciler => true | _ => false end.

Lemma pass_ok workloadScan nodeScan c req :
  c ∈ registered workloadScan nodeScan → only (call_ok (writes_jobs c) workloadScan nodeScan) (pass c req).
Proof.
  intros Hc.
  assert (∃ ws ns : bool, (ws → workloadScan) ∧ (ns → nodeScan) ∧ only (call_ok (writes_jobs c) ws ns) (pass c req)) as (ws & ns & Hws & Hns & Hp).
  { destruct c;
      [exists false, false|exists false, false|exists false, false|exists true, false|exists true, false|
       exists false, true|exists false, true|exists false, true|exists false, true];
      (split_and!; [destruct workloadScan, nodeScan; cbn in *; set_solver|destruct workloadScan, nodeScan; cbn in *; set_solver|]);
      cbn [pass]; try apply registry_tick_safe; try apply node_tick_safe; (apply only_bind; [|by constructor]);
      first [apply scanjob_safe|apply vulnreport_safe|apply workload_safe|apply image_safe|apply nodescan_safe|
             apply nodescanconfiguration_safe|apply nodescanjob_safe]. }
  eapply only_mono, Hp. intros A e (Hk & Hj & He). split; [|done].
  destruct (call_kind A e); [|done]. by eapply allowed_kind_mono.
Qed.

(** [C27] What the cache stripped never reaches the API server, what it shares is
    never written, and a feature that is off is not touched.  For every choice of
    features, every program the controller registers and every answer of the
    environment: the program reads and writes no kind of a feature that is off;
    it updates, as a whole, no object of a kind the cache keeps stripped or
    shared; it patches no shared object; and a patch of a stripped one leaves the
    stripped fields (the layers of an image, the statuses and the containers of a
    workload report) as they were read.  And the stripping costs the program
    nothing: the pods are read as they are, and a configuration accepts or
    rejects a stripped node as it would the whole node. *)
Theorem cache_never_written_back (workloadScan nodeScan : bool) {W} (h : handler Eff W) :
  Forall (λ c, ∀ w req,
    Forall (obs_call (λ A e,
        match call_kind A e with Some k => allowed_kind workloadScan nodeScan k = true | None => True end ∧
        cache_safe workloadScan nodeScan A e))
      (run_trace h (pass c req) w)) (registered workloadScan nodeScan) ∧
  (∀ pod, read_Pod (TransformStripPod pod) = read_Pod pod) ∧
  ∀ node config, node_rejected (read_Node (TransformStripNode node)) config = node_rejected (read_Node node) config.
Proof.
  split_and!.
  - apply Forall_forall. intros c Hc w req. wp_start. eapply only_mono, pass_ok, Hc.
    intros A e (? & _ & _ & ?). split; [done|]. by apply cache_safe_features.
  - intros pod. unfold read_Pod. cbn. f_equal. f_equal; rewrite <- list_fmap_compose; by apply list_fmap_ext.
  - done.
Qed.
End programs.
