(* ===== verification/Queries.v ===== *)
(** * What the program lists by

    Lists by a field are answered only for fields that are known: the cache of the
    controller has those [SetupIndexer] of
    [src/internal/controller/indexer.go] indexes; the API server has those its
    types declare ([src/api/storage/v1alpha1/register.go] for the storage, the
    markers of [scanjob_types.go] and [nodescanjob_types.go] for the rest).  The
    reconcilers and the mappings of their watches read through the cache, the
    workers and the webhooks from the API server. *)

From stdpp Require Import prelude gmap strings list.
From S2P Require Import Prelude Prog Conditions Meta Registry ScanJob NodeScanJob Filters StorageTypes Report RegistryClient Effects StatusUpdate RegistryAuth Messages ImageCatalog CreateCatalog GenerateSBOM GenerateNodeSBOM ScanSBOM NodeScanSBOM FailureHandlers Subscriber Worker NodeWorker WorkloadScanController ImageWorkloads Webhooks StorageResources ControllerCache.

(** ** The API server *)

(** The conversions of field selectors the storage scheme is given. *)
Definition field_conversion (k : kind) : option (string → string → result (string * string)) :=
  match k with
  | KImage | KSBOM | KVulnerabilityReport | KVulnerabilityReportMeta => Some imageMetadataFieldSelectorConversion
  | KNodeSBOM | KNodeVulnerabilityReport => Some nodeMetadataFieldSelectorConversion
  | _ => None
  end.

(** The markers [selectablefield] of the custom resources. *)
Definition selectable_markers (k : kind) : list string :=
  match k with KScanJob => ["spec.registry"] | KNodeScanJob => ["spec.nodeName"] | _ => [] end.

Definition is_selectable (k : kind) (f : string) : bool :=
  match field_conversion k with
  | Some convert => is_ok (convert f "")
  | None => bool_decide (f ∈ selectable_markers k)
  end.

Lemma lists_by_registry table t {R} (p : go R) : calls (registry_call t) p → calls (λ A e, lists_by table A e = true) p.
Proof. apply calls_mono. intros A e. by destruct e. Qed.

#[local] Hint Resolve Catalog_calls ListRepositoryContents_calls GetDescriptor_calls
  GetImageDetailsFromIndex_calls GetImageDetails_calls : registry.

Ltac list_step :=
  lazymatch goal with
  | |- calls _ _ => first [calls_step | eapply lists_by_registry; solve [eauto with registry]]
  | |- only _ (CreateOrUpdate _ _ _ _) => by apply only_CreateOrUpdate
  | |- only _ _ => only_step
  | |- _ => reflexivity
  end.

Section queries.
Context `{!StatusConditions, !GoTime, !GoSort, !MapRange, !Retry, !ControllerUtil, !LabelSelectors, !Names, !Controllers, !CreateOrPatcher}.
Context `{!MediaTypes, !CEL, !X509, !Trivy, !YAML, !CreateOrUpdater, !Float64}.
Context `{!JSON Registry, !JSON CreateCatalogMessage, !JSON RescanRequest, !JSON NodeScanConfiguration, !JSON GenerateNodeSBOMMessage}.
Context `{!JSON GenerateSBOMMessage, !JSON ScanSBOMMessage, !JSON BaseMessage, !JSON (list trivyResult)}.
Context `{!JSON ScanNodeSBOMMessage, !JSON NodeBaseMessage}.
Context (cfg : Config) (targetDir : string).

Abbreviation selects := (only (λ A e, lists_by is_selectable A e = true)).

Lemma create_catalog_lists data : selects (CreateCatalog.Handle (cfg_InstallationNamespace cfg) data).
Proof.
  apply calls_only.
  unfold CreateCatalog.Handle, start_once, create_catalog, catalog, complete_catalog, transportFromRegistry,
    process_reference, create_image, refToImages, multiArchRefToImages, singleArchRefToImages, CreateCatalog.index_entry,
    discoverRepositories, discover_one, discoverImages, deleteObsoleteImages, delete_image, finish_once, request_sbom,
    Resolve, readRef, readConfigMapKey, readSecretKey, BuildDockerConfigForRegistry, createDockerConfigJSON,
    RecordScanJobFinished.
  repeat list_step.
Qed.

Lemma generate_sbom_lists data :
  selects (GenerateSBOM.Handle (cfg_RunDir cfg) (cfg_TrivyJavaDBRepository cfg) (cfg_InstallationNamespace cfg) data).
Proof.
  apply calls_only.
  unfold GenerateSBOM.Handle, generate, getOrGenerateSBOM, findSBOMByDigest, generateSPDX, run_trivy_image,
    execute_and_read, publish_scan,
    Resolve, readRef, readConfigMapKey, readSecretKey, BuildDockerConfigForRegistry, createDockerConfigJSON.
  repeat list_step.
Qed.

Lemma scan_sbom_lists data :
  selects (ScanSBOM.Handle (cfg_RunDir cfg) (cfg_TrivyDBRepository cfg) (cfg_TrivyJavaDBRepository cfg) data).
Proof.
  unfold ScanSBOM.Handle, scan, runTrivyScan, scan_with_sbom, scan_in_home, execute_scan, setupVEXHubRepositories. cbv zeta.
  repeat list_step.
Qed.

Lemma generate_node_lists data : selects (generate_node_handle cfg targetDir data).
Proof.
  unfold generate_node_handle, GenerateNodeSBOM.Handle, begin_node_scan, begin_once, update_once, scan_live_node,
    generate_node, generateNodeSBOM, node_generateSPDX, request_node_scan. cbv zeta.
  repeat list_step.
Qed.

Lemma scan_node_lists data : selects (scan_node_handle cfg data).
Proof.
  unfold scan_node_handle, NodeScanSBOM.Handle, begin_scan, scan_node, complete_node_scan, update_once, runTrivyScan,
    scan_with_sbom, scan_in_home, execute_scan, setupVEXHubRepositories, RecordNodeScanJobFinished. cbv zeta.
  repeat list_step.
Qed.

(** A delivery lists what its handlers list. *)
Lemma consume_only P handlers failureHandler config subject data :
  (∀ A (e : Eff A), match e with MsgMetadata | MsgAck | MsgNak | MsgNakWithDelay _ | RandFloat64 => P A e | _ => True end) →
  (∀ hd, handlers !! subject = Some hd → only P (hd_Handle hd data)) →
  (∀ msg, only P (fh_HandleFailure failureHandler data msg)) →
  only P (consume handlers failureHandler config subject data).
Proof.
  intros HP Hh Hf. unfold consume, handleMessage, handleFailure, backoffDelay. cbv zeta.
  repeat first [by apply Hf | by eapply Hh | only_step];
    lazymatch goal with |- P _ ?e => exact (HP _ e) end.
Qed.

Lemma scanjob_failure_lists data errorMessage : selects (ScanJob_HandleFailure data errorMessage).
Proof.
  apply calls_only. unfold ScanJob_HandleFailure, fail_job, fail_once, update_once, RecordScanJobFinished. repeat list_step.
Qed.
Lemma node_failure_lists data errorMessage : selects (NodeScanJob_HandleFailure data errorMessage).
Proof.
  apply calls_only. unfold NodeScanJob_HandleFailure, fail_job, fail_once, update_once, RecordNodeScanJobFinished. repeat list_step.
Qed.

Lemma on_message_lists subject data : selects (on_message cfg subject data).
Proof.
  apply consume_only; [by intros A []| |apply scanjob_failure_lists]. unfold registry_handlers.
  intros hd. rewrite !lookup_insert_Some, lookup_empty. intros [[_ <-]|[_ [[_ <-]|[_ [[_ <-]|[_ ?]]]]]]; [| | |done].
  - apply create_catalog_lists.
  - apply generate_sbom_lists.
  - apply scan_sbom_lists.
Qed.

Lemma node_on_message_lists nodeName subject data : selects (node_on_message cfg targetDir nodeName subject data).
Proof.
  apply consume_only; [by intros A []| |apply node_failure_lists]. unfold node_handlers.
  intros hd. rewrite !lookup_insert_Some, lookup_empty. intros [[_ <-]|[_ [[_ <-]|[_ ?]]]]; [| |done].
  - apply generate_node_lists.
  - apply scan_node_lists.
Qed.

Lemma pass_lists c req : only (λ A e, lists_by is_indexed A e = true) (pass c req).
Proof.
  assert (c ∈ registered true true) as Hc by (destruct c; cbn; set_solver).
  eapply only_mono, (pass_ok true true c req Hc). by intros A e (_ & _ & He & _).
Qed.

(** [C28] Every list is one the server it goes to can answer.  Whatever the
    environment answers: the reconcilers and runners of the controller, and the
    mappings of their watches, which read through the cache, list by a field only
    if [SetupIndexer] indexed it for that kind; the workers of both modes and the
    admission of scan jobs, which read from the API server, list by a field only
    if the type declares it selectable. *)
Theorem listed_fields_known {W} (h : handler Eff W) (w : W) :
  let cached A (e : Eff A) := lists_by is_indexed A e = true in
  let served A (e : Eff A) := lists_by is_selectable A e = true in
  (∀ c req, Forall (obs_call cached) (run_trace h (pass c req) w)) ∧
  (∀ report, Forall (obs_call cached) (run_trace h (mapWorkloadScanReportToImages report) w)) ∧
  (∀ config, Forall (obs_call cached) (run_trace h (mapConfigToNamespaces config) w)) ∧
  (∀ subject data, Forall (obs_call served) (run_trace h (on_message cfg subject data) w)) ∧
  (∀ nodeName subject data, Forall (obs_call served) (run_trace h (node_on_message cfg targetDir nodeName subject data) w)) ∧
  ∀ serviceAccountNamespace serviceAccountName ctx scanJob,
    Forall (obs_call served) (run_trace h (ScanJob_ValidateCreate serviceAccountNamespace serviceAccountName ctx scanJob) w).
Proof.
  cbv zeta. split_and!; intros.
  - apply (wp_run_any h _ w _ (pass_lists _ _)).
  - apply calls_run. unfold mapWorkloadScanReportToImages, images_of_container. repeat list_step.
  - apply calls_run. unfold mapConfigToNamespaces. cbv zeta. repeat list_step.
  - apply (wp_run_any h _ w _ (on_message_lists _ _)).
  - apply (wp_run_any h _ w _ (node_on_message_lists _ _ _)).
  - apply calls_run. unfold ScanJob_ValidateCreate. repeat list_step.
Qed.
End queries.
