(* ===== verification/Startup.v ===== *)
(** * Starting the processes

    [src/internal/cmdutil/bootstrap.go], [src/internal/storage/migrations.go],
    the set-up of the watchers ([watcher.go], [workloadscanreport_watcher.go]),
    [src/internal/apiserver/storage.go] ([buildStores] and [Start]) and the
    [run] functions of [src/cmd]: what a process waits for, what it prepares, and
    when it starts to serve. *)

From stdpp Require Import prelude gmap strings list.
From S2P Require Import Prelude Prog Strconv GoPath Meta Effects StorageTypes StorageEffects Repository Store StoreEvents WorkloadWatcher StorageResources WorkloadReport ReportAdmission.
Open Scope Z_scope.

(** ** The database schema *)

Inductive column_type := VARCHAR253 | JSONB | BIGSERIAL.

(** A [CREATE TABLE IF NOT EXISTS], with the column its [ALTER TABLE] adds: the
    columns, the columns of its key of names, and its indices. *)
Record table_ddl := {
  td_name : string; td_columns : list (string * column_type); td_unique : list string; td_indices : list string
}.
Inductive statement := CREATE_SEQUENCE (name : string) | CREATE_TABLE (t : table_ddl).

Definition object_columns : list (string * column_type) :=
  [("name", VARCHAR253); ("namespace", VARCHAR253); ("object", JSONB)].

Definition resourceVersionSequenceName := "resource_version_seq".
Definition createResourceVersionSequenceSQL : statement := CREATE_SEQUENCE resourceVersionSequenceName.
Definition createImageTableSQL : table_ddl := {|
  td_name := "images"; td_columns := object_columns ++ [("id", BIGSERIAL)]; td_unique := ["name"; "namespace"];
  td_indices := ["idx_images_id"; "idx_images_namespace_imageref"] |}.
Definition createSBOMTableSQL : table_ddl := {|
  td_name := "sboms"; td_columns := object_columns ++ [("id", BIGSERIAL)]; td_unique := ["name"; "namespace"];
  td_indices := ["idx_sboms_id"] |}.
Definition createVulnerabilityReportTableSQL : table_ddl := {|
  td_name := "vulnerabilityreports"; td_columns := object_columns ++ [("id", BIGSERIAL)]; td_unique := ["name"; "namespace"];
  td_indices := ["idx_vulnerabilityreports_id"; "idx_vulnerabilityreports_namespace_imageref"] |}.
Definition createWorkloadScanReportTableSQL : table_ddl := {|
  td_name := "workloadscanreports"; td_columns := ("id", BIGSERIAL) :: object_columns; td_unique := ["name"; "namespace"];
  td_indices := ["idx_workloadscanreports_id"; "idx_workloadscanreports_containers_gin"] |}.
Definition createNodeSBOMTableSQL : table_ddl := {|
  td_name := "nodesboms"; td_columns := object_columns ++ [("id", BIGSERIAL)]; td_unique := ["name"; "namespace"];
  td_indices := ["idx_nodesboms_id"] |}.
Definition createNodeVulnerabilityReportTableSQL : table_ddl := {|
  td_name := "nodevulnerabilityreports"; td_columns := object_columns ++ [("id", BIGSERIAL)]; td_unique := ["name"; "namespace"];
  td_indices := ["idx_nodevulnerabilityreports_id"] |}.

(** ** Watchers and tasks *)

(** [natsWatcher] of a resource, and [WorkloadScanReportWatcher]. *)
Inductive Watcher := natsWatcher (resource : string) | WorkloadScanReportWatcher.
#[export] Instance Watcher_eq_dec : EqDecision Watcher.
Proof. solve_decision. Defined.

Definition watcher_subject (w : Watcher) : string :=
  match w with
  | natsWatcher resource => "watch." +:+ resource
  | WorkloadScanReportWatcher => "watch." +:+ vulnerabilityReportResourcePluralName
  end.

(** The functions of the errgroup of [Start]. *)
Inductive task := StartWatcher (w : Watcher) (sub : Z) | RunServer.

(** ** Effects *)

Record TLSConfig := { tls_RootCAs : string; tls_ServerName : string; tls_MinVersion12 : bool; tls_InsecureSkipVerify : bool }.
(** [pgx.ConnConfig]; a fallback is another way to connect. *)
Record ConnConfig := { cfg_Host : string; cfg_Fallbacks : list (option TLSConfig); cfg_TLSConfig : option TLSConfig }.

(** The function literal of [newDB] with the variables it captures: the file of the
    authority and the configuration that was parsed. *)
Inductive callback := before_connect (pgTLSCAFile : string) (config : ConnConfig).
(** [otelpgx.NewTracer] with its option. *)
Record Tracer := { tr_DisableAcquireTracer : bool }.
(** [pgxpool.Config]; the tracer is a field of its [ConnConfig] in the source. *)
Record PoolConfig := { pc_ConnConfig : ConnConfig; pc_BeforeConnect : option callback; pc_Tracer : option Tracer }.

(** The options of the generic API server that are set, and its configuration: the
    plugins added to the defaults, the resources the duration of requests is
    measured for, the limit of a request and the checks of readiness. *)
Record ServerOptions := {
  so_Etcd : bool; so_PriorityAndFairness : bool; so_DisablePlugins : list string;
  so_RegisteredPlugins : list (string * (string * string)); so_PluginOrder : list string; so_EnablePlugins : list string
}.
Record ServerConfig := { sc_MeasuredResources : list string; sc_MaxRequestBodyBytes : Z; sc_ReadyzChecks : list string }.

(** How a context ended. *)
Inductive ctx_error := Canceled | DeadlineExceeded.
#[export] Instance ctx_error_eq_dec : EqDecision ctx_error.
Proof. solve_decision. Defined.

Inductive StartEff : Type → Type :=
| TelemetrySetup : StartEff (result unit)
| TelemetryShutdown : StartEff (result unit)
| ReadFile (path : string) : StartEff (result string)
| ParseConfig (uri : string) : StartEff (result PoolConfig)
| AppendCertsFromPEM (pem : string) : StartEff bool
| NewPool (c : PoolConfig) : StartEff (result unit)
| RecordStats : StartEff (result unit)
| PoolClose : StartEff unit
| Ping : StartEff (result unit)
| Exec (s : statement) : StartEff (result unit)
| HTTPClientFor : StartEff (result unit)
| NewDiscoveryClient : StartEff (result unit)
| ServerResourcesForGroupVersion (gv : string) : StartEff (result unit)
| Connect (url : string) : StartEff (result unit)
| CloseConn : StartEff unit
| JetStream : StartEff (result unit)
| AccountInfo : StartEff (result unit)
(* before the first attempt, whether the context is still alive; then the pause before
   attempt [n], false when the context ends first *)
| RetryWait (n : nat) : StartEff bool
| RunCertificates : StartEff unit
| Subscribe (subject : string) : StartEff (result Z)
| Flush : StartEff (result unit)
| Unsubscribe (sub : Z) : StartEff (result unit)
| BroadcasterShutdown (resource : string) : StartEff unit
| CtxDone : StartEff ctx_error
| Go (t : task) : StartEff unit
| GroupWait : StartEff (result unit)
| Serve : StartEff (result unit)
| NewInstrumentation (package : string) : StartEff (result unit)
| DynamicServingContent (certFile keyFile : string) : StartEff (result unit)
| CompleteStore (resource : string) : StartEff (result unit)
| ApplyOptions (o : ServerOptions) : StartEff (result unit)
| NewGenericServer (name : string) (c : ServerConfig) : StartEff (result unit)
| InstallAPIGroup (group : string) (resources : list string) : StartEff (result unit).

Abbreviation starting := (prog StartEff).

(** [defer]. *)
Definition finally {R A} (p : starting R) (d : starting A) : starting R := r ← p; _ ← d; Ret r.

(** ** Waiting

    [retry.New(...).Do] of retry-go, with [Attempts], [BackOffDelay] and a
    context: it returns at once if the context has ended; it runs a function until
    it succeeds, at most so many times, with a pause in between that the end of the
    context cuts short.  What error it
    returns is its own. *)
Fixpoint tries (n : nat) (stop : error → error) (attempt : nat) (fn : starting (result unit)) : starting (result unit) :=
  r ← fn;
  match r with
  | Ok a => Ret (Ok a)
  | Err e =>
      match n with
      | O => Ret (Err (stop e))
      | S n' => alive ← trigger (RetryWait attempt); if alive : bool then tries n' stop (S attempt) fn else Ret (Err (stop e))
      end
  end.

Class Retrier := {
  Do : nat → starting (result unit) → starting (result unit);
  Do_spec : ∃ stop ended, ∀ n fn,
    Do (S n) fn = (alive ← trigger (RetryWait 0); if alive : bool then tries n stop 1 fn else Ret (Err ended))
}.

Definition last_error_only : Retrier.
Proof.
  refine {| Do := λ n fn, alive ← trigger (RetryWait 0);
    if alive : bool then tries (pred n) id 1 fn else Ret (Err (errors_New "context canceled")) |}.
  by exists id, (errors_New "context canceled").
Defined.

(** ** Migrations *)

Definition migrations : list (statement * string) := [
  (createResourceVersionSequenceSQL, "creating resource version sequence");
  (CREATE_TABLE createImageTableSQL, "creating image table");
  (CREATE_TABLE createSBOMTableSQL, "creating sbom table");
  (CREATE_TABLE createVulnerabilityReportTableSQL, "creating vulnerability report table");
  (CREATE_TABLE createWorkloadScanReportTableSQL, "creating workload scan report table");
  (CREATE_TABLE createNodeSBOMTableSQL, "creating node sbom table");
  (CREATE_TABLE createNodeVulnerabilityReportTableSQL, "creating node vulnerability report table")].

Definition migrate (_ : unit) (m : statement * string) : starting (result unit) :=
  check trigger (Exec m.1) wrap errorf m.2; Ret (Ok tt).

Definition RunMigrations : starting (result unit) := for_each migrate tt migrations.

Section waiting.
Context `{!Retrier}.

Definition newRetrier (fn : starting (result unit)) : starting (result unit) := Do 20 fn.

Definition WaitForStorageTypes : starting (result unit) :=
  check trigger HTTPClientFor wrap errorf "failed to create http client";
  check trigger NewDiscoveryClient wrap errorf "failed to create discovery client";
  let gv := GroupName +:+ "/v1alpha1" in
  check newRetrier (check trigger (ServerResourcesForGroupVersion gv) wrap errorf ("group version not available: " +:+ gv); Ret (Ok tt))
    wrap errorf "timeout while waiting for storage types";
  Ret (Ok tt).

Definition nats_once (url : string) : starting (result unit) :=
  check trigger (Connect url) wrap errorf "failed to connect to NATS";
  _ ← trigger CloseConn;
  Ret (Ok tt).

Definition WaitForNATS (url : string) : starting (result unit) :=
  check newRetrier (nats_once url) wrap errorf "timeout while waiting for NATS";
  Ret (Ok tt).

Definition jetstream_once (url : string) : starting (result unit) :=
  check trigger (Connect url) wrap errorf "failed to connect to NATS";
  finally
    (check trigger JetStream wrap errorf "JetStream not available";
     check trigger AccountInfo wrap errorf "failed to get JetStream account info";
     Ret (Ok tt))
    (trigger CloseConn).

Definition WaitForJetStream (url : string) : starting (result unit) :=
  check newRetrier (jetstream_once url) wrap errorf "timeout while waiting for JetStream";
  Ret (Ok tt).

Definition WaitForPostgres : starting (result unit) :=
  check newRetrier (check trigger Ping wrap errorf "failed to ping database"; Ret (Ok tt))
    wrap errorf "timeout while waiting for Postgres";
  Ret (Ok tt).

(** The initialisation of the controller and of the worker, and of the storage. *)
Definition client_init (natsURL : string) : starting (result unit) :=
  check WaitForStorageTypes wrap errorf "waiting for storage types";
  check WaitForJetStream natsURL wrap errorf "waiting for JetStream";
  Ret (Ok tt).

Definition storage_init (natsURL : string) : starting (result unit) :=
  check WaitForPostgres wrap errorf "error waiting for postgres";
  check RunMigrations wrap errorf "running migrations";
  check WaitForNATS natsURL wrap errorf "waiting for Nats";
  Ret (Ok tt).
End waiting.

(** ** The storage server *)

(** [BeforeConnect] of [newDB]: pgx runs it before it makes a connection, on a copy of
    the configuration of the pool. *)
Definition BeforeConnect (cb : callback) (connConfig : ConnConfig) : starting (result ConnConfig) :=
  let 'before_connect pgTLSCAFile config := cb in
  serverCA ←? trigger (ReadFile pgTLSCAFile) wrap errorf "reading database server CA certificate";
  ok ← trigger (AppendCertsFromPEM serverCA);
  if negb ok then Ret (Err (errors_New "appending database server CA certificate to pool"))
  else Ret (Ok {| cfg_Host := cfg_Host connConfig; cfg_Fallbacks := [];
                  cfg_TLSConfig := Some {| tls_RootCAs := serverCA; tls_ServerName := cfg_Host config; tls_MinVersion12 := true;
                                           tls_InsecureSkipVerify := false |} |}).

Definition newDB (pgURIFile pgTLSCAFile : string) : starting (result PoolConfig) :=
  connString ←? trigger (ReadFile pgURIFile) wrap errorf "reading database URI";
  config ←? trigger (ParseConfig connString) wrap errorf "parsing database URI";
  let config := {| pc_ConnConfig := pc_ConnConfig config; pc_BeforeConnect := Some (before_connect pgTLSCAFile (pc_ConnConfig config));
                   pc_Tracer := pc_Tracer config |} in
  let config := {| pc_ConnConfig := pc_ConnConfig config; pc_BeforeConnect := pc_BeforeConnect config;
                   pc_Tracer := Some {| tr_DisableAcquireTracer := true |} |} in
  check trigger (NewPool config) wrap errorf "creating connection pool";
  r ← trigger RecordStats;
  match r with
  | Err e => _ ← trigger PoolClose; Ret (Err (errorf "recording database pool metrics" e))
  | Ok _ => Ret (Ok config)
  end.

(** [Setup] of the two watchers: the subscription. *)
Definition watcher_Setup (w : Watcher) : starting (result Z) :=
  let subject := watcher_subject w in
  sub ←? trigger (Subscribe subject) wrap errorf ("failed to subscribe to NATS subject " +:+ subject);
  f ← trigger Flush;
  match f with
  | Err e => _ ← trigger (Unsubscribe sub); Ret (Err (errorf ("failed to flush NATS subscription for " +:+ subject) e))
  | Ok _ => Ret (Ok sub)
  end.

(** [Start] of the two watchers, until the context ends. *)
Definition watcher_Start (w : Watcher) (sub : Z) : starting (result unit) :=
  e ← trigger CtxDone;
  _ ← match w with natsWatcher resource => trigger (BroadcasterShutdown resource) | WorkloadScanReportWatcher => Ret tt end;
  _ ← trigger (Unsubscribe sub);
  if bool_decide (e = Canceled) then Ret (Ok tt) else Ret (Err (errors_New "context error while shutting down watcher")).

(** The resources served, and their watchers, as [buildStores] lists them. *)
Definition served_resources : list string :=
  ["images"; "sboms"; "vulnerabilityreports"; "workloadscanreports"; "nodesboms"; "nodevulnerabilityreports"].

Definition store_watchers (resource : string) : list Watcher :=
  natsWatcher resource :: (if bool_decide (resource = workloadScanReportResourcePluralName) then [WorkloadScanReportWatcher] else []).

Definition buildStores : list Watcher :=
  store_watchers imageResourcePluralName ++ store_watchers sbomResourcePluralName ++
  store_watchers vulnerabilityReportResourcePluralName ++ store_watchers workloadScanReportResourcePluralName ++
  store_watchers nodeSBOMResourcePluralName ++ store_watchers nodeVulnerabilityReportResourcePluralName.

Definition setup_one (subs : list Z) (w : Watcher) : starting (result (list Z)) :=
  sub ←? watcher_Setup w wrap (λ e, e); Ret (Ok (subs ++ [sub])).

Fixpoint go_all (ts : list task) : starting unit :=
  match ts with [] => Ret tt | t :: ts => _ ← trigger (Go t); go_all ts end.

Definition StorageAPIServer_Start (watchers : list Watcher) : starting (result unit) :=
  _ ← trigger RunCertificates;
  subs ←? for_each setup_one [] watchers wrap errorf "error setting up watcher";
  _ ← go_all (zip_with StartWatcher watchers subs);
  _ ← trigger (Go RunServer);
  check trigger GroupWait wrap errorf "storage API server exited with error";
  Ret (Ok tt).

(** What a function of the group does. *)
Definition run_task (t : task) : starting (result unit) :=
  match t with
  | StartWatcher w sub => watcher_Start w sub
  | RunServer => check trigger Serve wrap errorf "error running server"; Ret (Ok tt)
  end.

(** *** The API server *)

(** [StorageAPIServerConfig]. *)
Record StorageAPIServerConfig := {
  sa_CertFile : string; sa_KeyFile : string; sa_MaxRequestBodyBytes : Z; sa_ServiceAccountNamespace : string; sa_ServiceAccountName : string
}.

(** [databaseChecker], the check of readiness. *)
Definition databaseChecker_Name : string := "database".
Definition databaseChecker_Check : starting (result unit) :=
  check trigger Ping wrap errorf "database not reachable";
  Ret (Ok tt).

(** [GetRESTOptions]: what every store is made with. *)
Record RESTOptions := { ro_EnableGarbageCollection : bool; ro_DeleteCollectionWorkers : Z; ro_ResourcePrefix : string }.
Definition GetRESTOptions (group resource : string) : RESTOptions := {|
  ro_EnableGarbageCollection := true; ro_DeleteCollectionWorkers := 1; ro_ResourcePrefix := "/" +:+ group +:+ "/" +:+ resource |}.

Definition recommended_options (cfg : StorageAPIServerConfig) : ServerOptions := {|
  so_Etcd := false; so_PriorityAndFairness := false;
  so_DisablePlugins := ["MutatingAdmissionPolicy"; "ValidatingAdmissionPolicy"];
  so_RegisteredPlugins := [(PluginNameWorkloadScanReportValidation, (sa_ServiceAccountNamespace cfg, sa_ServiceAccountName cfg))];
  so_PluginOrder := [PluginNameWorkloadScanReportValidation];
  so_EnablePlugins := [PluginNameWorkloadScanReportValidation] |}.

Definition server_config (cfg : StorageAPIServerConfig) : ServerConfig := {|
  sc_MeasuredResources := served_resources; sc_MaxRequestBodyBytes := sa_MaxRequestBodyBytes cfg;
  sc_ReadyzChecks := [databaseChecker_Name] |}.

(** The stores, in the order [buildStores] makes them, and the kind its error names. *)
Definition store_kinds : list (string * string) := [
  ("images", "Image"); ("sboms", "SBOM"); ("vulnerabilityreports", "VulnerabilityReport"); ("workloadscanreports", "WorkloadScanReport");
  ("nodesboms", "NodeSBOM"); ("nodevulnerabilityreports", "NodeVulnerabilityReport")].
Definition build_store (_ : unit) (s : string * string) : starting (result unit) :=
  check trigger (CompleteStore s.1) wrap errorf ("error creating " +:+ s.2 +:+ " store");
  Ret (Ok tt).

Definition NewStorageAPIServer (cfg : StorageAPIServerConfig) : starting (result (list Watcher)) :=
  check trigger (DynamicServingContent (sa_CertFile cfg) (sa_KeyFile cfg)) wrap errorf "error creating dynamic certificate content provider";
  check for_each build_store tt store_kinds wrap (λ e, e);
  check trigger (ApplyOptions (recommended_options cfg)) wrap errorf "error applying options to server config";
  check trigger (NewGenericServer "sbom-storage-apiserver" (server_config cfg)) wrap errorf "error creating generic server";
  check trigger (InstallAPIGroup GroupName served_resources) wrap errorf "error installing API group";
  Ret (Ok buildStores).

Definition runServer (cfg : StorageAPIServerConfig) : starting (result unit) :=
  check trigger (NewInstrumentation "internal/apiserver") wrap errorf "creating apiserver instrumentation";
  check trigger (NewInstrumentation "internal/storage") wrap errorf "creating storage instrumentation";
  watchers ←? NewStorageAPIServer cfg wrap errorf "creating storage API server";
  check StorageAPIServer_Start watchers wrap errorf "starting storage storage API server";
  Ret (Ok tt).

(** [run] of [cmd/storage], once it has its flags.  [FromHumanSize] of go-units
    reads the limit of a request. *)
Section storage_process.
Context `{!Retrier} (FromHumanSize : string → result Z).
Context (certFile keyFile serviceAccountNamespace serviceAccountName : string).

Definition storage_run (init : bool) (maxRequestBodySize pgURIFile pgTLSCAFile natsURL : string) : starting (result unit) :=
  check trigger TelemetrySetup wrap errorf "initializing telemetry";
  finally
    (maxRequestBodyBytes ←? Ret (FromHumanSize maxRequestBodySize) wrap errorf "invalid max request body size";
     check newDB pgURIFile pgTLSCAFile wrap errorf "connecting to database";
     finally
       (if init then storage_init natsURL
        else
          check trigger (Connect natsURL) wrap errorf "connecting to NATS server";
          check runServer {| sa_CertFile := certFile; sa_KeyFile := keyFile; sa_MaxRequestBodyBytes := maxRequestBodyBytes;
                             sa_ServiceAccountNamespace := serviceAccountNamespace; sa_ServiceAccountName := serviceAccountName |}
            wrap errorf "running server";
          Ret (Ok tt))
       (trigger PoolClose))
    (trigger TelemetryShutdown).
End storage_process.

(** ** What a start leaves behind *)

Definition ev_exec (o : obs StartEff) : option (statement * result unit) :=
  match o with Ev (Exec s) a => Some (s, a) | _ => None end.
Definition ev_ping (o : obs StartEff) : option (result unit) := match o with Ev Ping a => Some a | _ => None end.
Definition ev_connect (o : obs StartEff) : option (result unit) := match o with Ev (Connect _) a => Some a | _ => None end.
Definition ev_closed (o : obs StartEff) : option unit := match o with Ev CloseConn a => Some a | _ => None end.
Definition ev_go (o : obs StartEff) : option task := match o with Ev (Go t) _ => Some t | _ => None end.
Definition ev_subscribe (o : obs StartEff) : option string := match o with Ev (Subscribe subject) _ => Some subject | _ => None end.
Definition ev_unsubscribe (o : obs StartEff) : option Z := match o with Ev (Unsubscribe sub) _ => Some sub | _ => None end.

(** A subscription the server has acknowledged. *)
Definition ready (w : Watcher) (sub : Z) : trace StartEff := [Ev (Subscribe (watcher_subject w)) (Ok sub); Ev Flush (Ok tt)].

(** A set-up that failed: it keeps no subscription of its own. *)
Definition not_ready (w : Watcher) (tr : trace StartEff) : Prop :=
  (∃ e, tr = [Ev (Subscribe (watcher_subject w)) (Err e)]) ∨
  ∃ sub e a, tr = [Ev (Subscribe (watcher_subject w)) (Ok sub); Ev Flush (Err e); Ev (Unsubscribe sub) a].

Lemma setup_exact w : wp any_answer (watcher_Setup w) [] (λ tr r,
  match r with Ok sub => tr = ready w sub | Err _ => not_ready w tr end).
Proof.
  unfold watcher_Setup. intros [sub|e] _; cbn; [|by left; eauto]. intros [[]|e] _; cbn; [done|]. intros a _. right. eauto.
Qed.

Definition all_ready (ws : list Watcher) (subs : list Z) : trace StartEff := concat (zip_with ready ws subs).

Lemma all_ready_snoc ws subs w sub : length ws = length subs → all_ready (ws ++ [w]) (subs ++ [sub]) = all_ready ws subs ++ ready w sub.
Proof. intros Hl. unfold all_ready. rewrite zip_with_app by done. rewrite concat_app. done. Qed.

Lemma setups_exact ws tr0 : wp any_answer (for_each setup_one [] ws) tr0 (λ tr r,
  match r with
  | Ok subs => length subs = length ws ∧ tr = tr0 ++ all_ready ws subs
  | Err _ => ∃ pre w post subs ext, ws = pre ++ w :: post ∧ length subs = length pre ∧
               tr = tr0 ++ all_ready pre subs ++ ext ∧ not_ready w ext
  end).
Proof.
  apply (wp_for_each _ _ (λ pre tr subs, length subs = length pre ∧ tr = tr0 ++ all_ready pre subs)).
  - intros pre w rest tr subs -> [Hl ->]. unfold setup_one. apply wp_try.
    eapply wp_frame; [apply setup_exact|]. intros ext [sub|e] Hr; cbn.
    + subst ext. rewrite !length_app, Hl. split; [done|]. rewrite all_ready_snoc by done. by rewrite app_assoc.
    + exists pre, w, rest, subs, ext. by rewrite app_assoc.
  - done.
  - split; [done|]. by rewrite app_nil_r.
Qed.

Lemma wp_go_all ts tr : wp any_answer (go_all ts) tr (λ tr' _, tr' = tr ++ ((λ t, Ev (Go t) tt) <$> ts)).
Proof.
  revert tr. induction ts as [|t ts IH]; intros tr; cbn; [by rewrite app_nil_r|].
  intros [] _. eapply wp_mono; [|apply IH]. cbn. intros tr' _ ->. by rewrite <- app_assoc.
Qed.

Lemma start_exact ws : wp any_answer (StorageAPIServer_Start ws) [] (λ tr r,
  (∃ subs a, length subs = length ws ∧
     tr = Ev RunCertificates tt :: all_ready ws subs ++ ((λ t, Ev (Go t) tt) <$> zip_with StartWatcher ws subs) ++
          [Ev (Go RunServer) tt; Ev GroupWait a] ∧ is_ok r = is_ok a) ∨
  (∃ pre w post subs ext, ws = pre ++ w :: post ∧ length subs = length pre ∧
     tr = Ev RunCertificates tt :: all_ready pre subs ++ ext ∧ not_ready w ext ∧ is_ok r = false)).
Proof.
  unfold StorageAPIServer_Start. intros [] _. cbn [app]. apply wp_try. eapply wp_mono; [|apply setups_exact].
  intros tr [subs|e]; [intros [Hl ->]|intros (pre & w & post & subs & ext & -> & Hl & -> & Hn); right; eauto 12].
  eapply wp_cut; [apply wp_go_all|]. intros tr' [] ->. intros [] _. apply wp_try. intros a _. cbn.
  destruct a as [[]|e]; left; exists subs; eexists; rewrite <- !app_assoc; split_and!; try done; eauto.
Qed.

(** What must have succeeded before the server is started: the stores of all
    resources, the options with the admission plugin for workload reports and the
    account it trusts, and the API group. *)
Definition server_made (cfg : StorageAPIServerConfig) : trace StartEff :=
  let resources := ["images"; "sboms"; "vulnerabilityreports"; "workloadscanreports"; "nodesboms"; "nodevulnerabilityreports"] in
  [Ev (NewInstrumentation "internal/apiserver") (Ok tt); Ev (NewInstrumentation "internal/storage") (Ok tt);
   Ev (DynamicServingContent (sa_CertFile cfg) (sa_KeyFile cfg)) (Ok tt)] ++
  ((λ resource, Ev (CompleteStore resource) (Ok tt)) <$> resources) ++
  [Ev (ApplyOptions {|
     so_Etcd := false; so_PriorityAndFairness := false;
     so_DisablePlugins := ["MutatingAdmissionPolicy"; "ValidatingAdmissionPolicy"];
     so_RegisteredPlugins := [("WorkloadScanReportValidation", (sa_ServiceAccountNamespace cfg, sa_ServiceAccountName cfg))];
     so_PluginOrder := ["WorkloadScanReportValidation"]; so_EnablePlugins := ["WorkloadScanReportValidation"] |}) (Ok tt);
   Ev (NewGenericServer "sbom-storage-apiserver" {|
     sc_MeasuredResources := resources; sc_MaxRequestBodyBytes := sa_MaxRequestBodyBytes cfg; sc_ReadyzChecks := ["database"] |}) (Ok tt);
   Ev (InstallAPIGroup "storage.sbomscanner.kubewarden.io" resources) (Ok tt)].

(** The watchers, with the subject of each. *)
Definition all_watchers : list (Watcher * string) := [
  (natsWatcher "images", "watch.images"); (natsWatcher "sboms", "watch.sboms");
  (natsWatcher "vulnerabilityreports", "watch.vulnerabilityreports");
  (natsWatcher "workloadscanreports", "watch.workloadscanreports"); (WorkloadScanReportWatcher, "watch.vulnerabilityreports");
  (natsWatcher "nodesboms", "watch.nodesboms"); (natsWatcher "nodevulnerabilityreports", "watch.nodevulnerabilityreports")].

(** Their subscriptions, each acknowledged by the server. *)
Definition subscribed (ws : list (Watcher * string)) (subs : list Z) : trace StartEff :=
  concat (zip_with (λ w sub, [Ev (Subscribe w.2) (Ok sub); Ev Flush (Ok tt)]) ws subs).

(** A subscription that failed, or was given back. *)
Definition unsubscribed (subject : string) (tr : trace StartEff) : Prop :=
  (∃ e, tr = [Ev (Subscribe subject) (Err e)]) ∨
  ∃ sub e a, tr = [Ev (Subscribe subject) (Ok sub); Ev Flush (Err e); Ev (Unsubscribe sub) a].

Lemma all_ready_subscribed ws subs :
  Forall (λ w, watcher_subject w.1 = w.2) ws → all_ready ws.*1 subs = subscribed ws subs.
Proof.
  intros Hws. revert subs. induction Hws as [|w ws Hw _ IH]; intros [|sub subs]; [done..|].
  unfold all_ready, subscribed, ready in *. cbn. by rewrite IH, Hw.
Qed.

Lemma all_watchers_subjects : Forall (λ w, watcher_subject w.1 = w.2) all_watchers.
Proof. by repeat constructor. Qed.
Lemma buildStores_watchers : buildStores = all_watchers.*1.
Proof. done. Qed.

Lemma subscribed_quiet ws subs : omap ev_go (subscribed ws subs) = [].
Proof. revert subs. induction ws as [|w ws IH]; intros [|sub subs]; [done..|]. unfold subscribed in *. cbn. apply IH. Qed.

(** [Start] in terms of those watchers. *)
Lemma start_watchers : wp any_answer (StorageAPIServer_Start buildStores) [] (λ tr r,
  (∃ subs a, length subs = 7%nat ∧
     tr = Ev RunCertificates tt :: subscribed all_watchers subs ++
            ((λ t, Ev (Go t) tt) <$> zip_with StartWatcher all_watchers.*1 subs) ++ [Ev (Go RunServer) tt; Ev GroupWait a] ∧
     is_ok r = is_ok a) ∨
  (∃ pre failed post subs ext, all_watchers = pre ++ failed :: post ∧ length subs = length pre ∧
     tr = Ev RunCertificates tt :: subscribed pre subs ++ ext ∧ unsubscribed failed.2 ext ∧ omap ev_go tr = [] ∧ is_ok r = false)).
Proof.
  rewrite buildStores_watchers. pose proof all_watchers_subjects as Hws. eapply wp_mono; [|apply start_exact].
  intros tr r [(subs & a & Hl & -> & Hr)|(pre & x & post & subs & ext & He & Hl & -> & Hn & Hr)].
  - left. exists subs, a. split_and!; [done| |done]. by rewrite all_ready_subscribed.
  - right. apply fmap_app_inv in He as (pre' & post' & -> & He & Hall). symmetry in He.
    apply fmap_cons_inv in He as (failed & post'' & -> & -> & ->). rewrite Hall in Hws.
    apply Forall_app in Hws as [Hpre [Hf _]%Forall_cons]. rewrite length_fmap in Hl.
    exists pre', failed, post'', subs, ext. rewrite all_ready_subscribed by done. split_and!; try done.
    + unfold not_ready in Hn. by rewrite Hf in Hn.
    + cbn. rewrite omap_app, subscribed_quiet. by destruct Hn as [(? & ->)|(? & ? & ? & ->)].
Qed.

(** [C16] The storage server serves nothing before it can hear every event.
    Whatever NATS and the libraries answer, a run of the server takes one of
    three ways.  Either the stores of the six resources, the options of the
    server (the admission plugin for workload reports registered with the
    account it trusts, ordered and enabled, the readiness check of the database
    and the limit of requests) and the API group are in place, then all seven
    watchers have their subscriptions, acknowledged by NATS (one for the subject
    of each resource, and a second one for vulnerability reports), and only then
    are the watchers and the server started, each once, every watcher with its
    own subscription; or all is in place but the set-up of a watcher fails: its
    subscription is given back, nothing is started and the run fails; or
    something before that fails, nothing is subscribed or started and the run
    fails.  When the context ends, a watcher gives back the subscription it was
    started with, whether or not the end was a cancellation. *)
Theorem server_starts_ready {W} (h : handler StartEff W) (w : W) (cfg : StorageAPIServerConfig) :
  let tr := run_trace h (runServer cfg) w in
  let res := run_result h (runServer cfg) w in
  ((∃ subs a, length subs = 7%nat ∧
      tr = server_made cfg ++ Ev RunCertificates tt :: subscribed all_watchers subs ++
             ((λ t, Ev (Go t) tt) <$> zip_with StartWatcher all_watchers.*1 subs) ++ [Ev (Go RunServer) tt; Ev GroupWait a] ∧
      is_ok res = is_ok a) ∨
   (∃ pre failed post subs ext, all_watchers = pre ++ failed :: post ∧ length subs = length pre ∧
      tr = server_made cfg ++ Ev RunCertificates tt :: subscribed pre subs ++ ext ∧ unsubscribed failed.2 ext ∧
      omap ev_go tr = [] ∧ is_ok res = false) ∨
   (omap ev_go tr = [] ∧ omap ev_subscribe tr = [] ∧ is_ok res = false)) ∧
  (∀ x sub w', omap ev_unsubscribe (run_trace h (run_task (StartWatcher x sub)) w') = [sub]).
Proof.
  split.
  - wp_start. unfold runServer, NewStorageAPIServer. do 12 (intros [[]|?e] _; cbn [app]; [|by right; right]).
    cbn [wp]. apply wp_try.
    eapply (wp_frame _ _ (server_made cfg)); [apply start_watchers|].
    intros ext r [(subs & a & Hl & -> & Hr)|(pre & failed & post & subs & ext' & Hall & Hl & -> & Hn & Hgo & Hr)].
    + destruct r as [[]|e]; left; exists subs, a; by split_and!.
    + destruct r as [[]|e]; [done|]. right. left. exists pre, failed, post, subs, ext'. split_and!; try done.
  - intros x sub w'. wp_start. unfold run_task, watcher_Start. intros e _. cbn [app].
    destruct x as [resource|]; cbn; intros a _; [intros b _; by case_bool_decide|by case_bool_decide].
Qed.

(** ** What a wait leaves behind *)

(** A function of which every run satisfies [A], run at most [n] times. *)
Inductive retried (A : trace StartEff → result unit → Prop) : nat → trace StartEff → result unit → Prop :=
| retried_ended n k e : retried A n [Ev (RetryWait k) false] (Err e)
| retried_alive n k tr r : retried A n tr r → retried A n (Ev (RetryWait k) true :: tr) r
| retried_ok n tr : A tr (Ok tt) → retried A (S n) tr (Ok tt)
| retried_last n tr e e' : A tr (Err e) → retried A (S n) tr (Err e')
| retried_cut n tr e e' k : A tr (Err e) → retried A (S n) (tr ++ [Ev (RetryWait k) false]) (Err e')
| retried_again n tr e k tr' r : A tr (Err e) → retried A n tr' r → retried A (S n) (tr ++ Ev (RetryWait k) true :: tr') r.

Lemma wp_tries A fn stop : wp any_answer fn [] A → ∀ n k, wp any_answer (tries n stop k fn) [] (retried A (S n)).
Proof.
  intros Hfn. induction n as [|n IH]; intros k; cbn [tries]; (eapply wp_seq; [exact Hfn|]); intros tr [[]|e] HA; cbn;
    rewrite ?app_nil_r.
  - by apply retried_ok.
  - by eapply retried_last.
  - by apply retried_ok.
  - intros [] _; cbn; [|by eapply retried_cut]. eapply wp_frame; [apply IH|]. intros ext r Hr. cbn. by eapply retried_again.
Qed.

Section wait_facts.
Context `{!Retrier}.

Lemma wp_Do A fn n : wp any_answer fn [] A → wp any_answer (Do (S n) fn) [] (retried A (S n)).
Proof.
  intros Hfn. destruct Do_spec as (stop & ended & ->). intros [] _; cbn [app wp]; [|constructor].
  eapply (wp_frame _ _ [_]); [by apply wp_tries|]. intros ext r Hr. by constructor.
Qed.

(** What holds of every attempt: a quantity each attempt has once, and one it
    does not have at all. *)
Lemma retried_once {B} (f : obs StartEff → option B) A n tr r :
  (∀ k b, f (Ev (RetryWait k) b) = None) → (∀ tr r, A tr r → length (omap f tr) = 1%nat) →
  retried A n tr r → (length (omap f tr) ≤ n)%nat.
Proof.
  intros Hw HA. induction 1 as [n k e|n k tr r _ IH|n tr Ht|n tr e e' Ht|n tr e e' k Ht|n tr e k tr' r Ht _ IH];
    rewrite ?omap_app, ?length_app; cbn; rewrite ?Hw; cbn; try lia; try exact IH; rewrite (HA _ _ Ht); lia.
Qed.

Lemma retried_closed (P : trace StartEff → Prop) A n tr r :
  (∀ tr tr', P tr → P tr' → P (tr ++ tr')) → (∀ k b, P [Ev (RetryWait k) b]) → (∀ tr r, A tr r → P tr) → retried A n tr r → P tr.
Proof.
  intros Happ Hw HA. induction 1 as [n k e|n k tr r _ IH|n tr Ht|n tr e e' Ht|n tr e e' k Ht|n tr e k tr' r Ht _ IH]; eauto.
  - by apply (Happ [_] tr).
  - apply Happ; [by eapply HA|]. by apply (Happ [_] tr').
Qed.

Lemma retried_never {B} (f : obs StartEff → option B) A n tr r :
  (∀ k b, f (Ev (RetryWait k) b) = None) → (∀ tr r, A tr r → omap f tr = []) → retried A n tr r → omap f tr = [].
Proof.
  intros Hw HA. apply (retried_closed (λ tr, omap f tr = [])); [|intros k b; cbn; by rewrite Hw|exact HA].
  intros tr1 tr2 H1 H2. by rewrite omap_app, H1, H2.
Qed.

(** The last attempt decides. *)
Lemma retried_end A n tr : retried A n tr (Ok tt) → ∃ pre last, tr = pre ++ last ∧ A last (Ok tt).
Proof.
  remember (Ok tt) as r eqn:Hr. induction 1 as [n k e|n k tr r _ IH|n tr Ht|n tr e e' Ht|n tr e e' k Ht|n tr e k tr' r Ht _ IH]; try done.
  - destruct (IH Hr) as (pre & last & -> & Hl). by exists (Ev (RetryWait k) true :: pre), last.
  - by exists [], tr.
  - destruct (IH Hr) as (pre & last & -> & Hl). exists (tr ++ Ev (RetryWait k) true :: pre), last. by rewrite <- app_assoc.
Qed.

(** One attempt of each wait. *)
Definition pinged (tr : trace StartEff) (r : result unit) : Prop := ∃ a, tr = [Ev Ping a] ∧ is_ok r = is_ok a.
Definition connected (url : string) (tr : trace StartEff) (r : result unit) : Prop :=
  (∃ e, tr = [Ev (Connect url) (Err e)] ∧ is_ok r = false) ∨ tr = [Ev (Connect url) (Ok tt); Ev CloseConn tt].

Definition opened (tr : trace StartEff) : nat := length (List.filter is_ok (omap ev_connect tr)).
Definition balanced (tr : trace StartEff) : Prop := opened tr = length (omap ev_closed tr).

Lemma balanced_app tr tr' : balanced tr → balanced tr' → balanced (tr ++ tr').
Proof. unfold balanced, opened. rewrite !omap_app, List.filter_app, !length_app. lia. Qed.

Lemma postgres_spec : wp any_answer WaitForPostgres [] (λ tr r,
  (omap ev_exec tr = [] ∧ omap ev_connect tr = [] ∧ omap ev_closed tr = []) ∧ (length (omap ev_ping tr) ≤ 20)%nat ∧
  (r = Ok tt → last (omap ev_ping tr) = Some (Ok tt))).
Proof.
  unfold WaitForPostgres, newRetrier. eapply wp_try_seq; [apply (wp_Do pinged)| |].
  - intros [[]|e] _; eexists; (split; [reflexivity|]); done.
  - intros tr [] Hr. cbn. rewrite app_nil_r. split_and!.
    1-3: eapply retried_never; [done| |exact Hr]; by intros ? ? (? & -> & _).
    + eapply (retried_once ev_ping) in Hr; [|done|by intros ? ? (? & -> & _)]. lia.
    + intros _. apply retried_end in Hr as (pre & ? & -> & [[]|e] & -> & Ha); [|done]. rewrite omap_app. apply last_snoc.
  - intros tr e Hr. split_and!.
    1-3: eapply retried_never; [done| |exact Hr]; by intros ? ? (? & -> & _).
    + eapply (retried_once ev_ping) in Hr; [|done|by intros ? ? (? & -> & _)]. lia.
    + done.
Qed.

Lemma nats_spec url : wp any_answer (WaitForNATS url) [] (λ tr r,
  (omap ev_exec tr = [] ∧ omap ev_ping tr = []) ∧ (length (omap ev_connect tr) ≤ 20)%nat ∧ balanced tr ∧
  (r = Ok tt → Ok tt ∈ omap ev_connect tr)).
Proof.
  assert (∀ n tr r, retried (connected url) n tr r →
    (omap ev_exec tr = [] ∧ omap ev_ping tr = []) ∧ (length (omap ev_connect tr) ≤ n)%nat ∧ balanced tr) as Hall.
  { intros n tr r Hr. split_and!.
    1-2: eapply retried_never; [done| |exact Hr]; by intros ? ? [(? & -> & _)| ->].
    + eapply (retried_once ev_connect) in Hr; [|done|by intros ? ? [(? & -> & _)| ->]]. lia.
    + eapply (retried_closed balanced); [apply balanced_app|done| |exact Hr]. by intros ? ? [(? & -> & _)| ->]. }
  unfold WaitForNATS, newRetrier. eapply wp_try_seq; [apply (wp_Do (connected url))| |].
  - unfold nats_once. intros [[]|e] _; cbn; [intros [] _; by right|left; eauto].
  - intros tr [] Hr. cbn. rewrite app_nil_r. destruct (Hall _ _ _ Hr) as (? & ? & ?). split_and!; try done; try naive_solver.
    intros _. apply retried_end in Hr as (pre & ? & -> & [(e & -> & Ha)| ->]); [done|]. rewrite omap_app. apply elem_of_app. right. by left.
  - intros tr e Hr. destruct (Hall _ _ _ Hr) as (? & ? & ?). split_and!; try done; naive_solver.
Qed.

Definition executed (ms : list (statement * string)) : trace StartEff := (λ m, Ev (Exec m.1) (Ok tt)) <$> ms.

Lemma migrations_spec : wp any_answer RunMigrations [] (λ tr r,
  (∃ pre m post e, migrations = pre ++ m :: post ∧ tr = executed pre ++ [Ev (Exec m.1) (Err e)] ∧ is_ok r = false) ∨
  tr = executed migrations ∧ r = Ok tt).
Proof.
  unfold RunMigrations. eapply wp_for_each with (I := λ pre tr _, tr = executed pre); [| |done].
  - intros pre m rest tr [] Hms ->. intros [[]|e] _; cbn; [|left; by exists pre, m, rest, e].
    unfold executed. by rewrite fmap_app.
  - intros tr [] ->. by right.
Qed.

Lemma executed_exec ms : omap ev_exec (executed ms) = (λ m, (m.1, Ok tt)) <$> ms.
Proof. induction ms as [|m ms IH]; [done|]. unfold executed in *. cbn. by rewrite IH. Qed.
Lemma executed_never {B} (f : obs StartEff → option B) ms : (∀ s a, f (Ev (Exec s) a) = None) → omap f (executed ms) = [].
Proof. intros Hf. unfold executed. induction ms as [|m ms IH]; [done|]. cbn. by rewrite Hf. Qed.
End wait_facts.

(** What an initialisation of the storage has done. *)
Record prepared (tr : trace StartEff) (r : result unit) : Prop := {
  prep_bounded : (length (omap ev_ping tr) ≤ 20)%nat ∧ (length (omap ev_connect tr) ≤ 20)%nat;
  (* nothing is migrated before the database has answered *)
  prep_order : ∃ waiting rest, tr = waiting ++ rest ∧ omap ev_exec waiting = [] ∧ omap ev_ping rest = [] ∧
    (omap ev_exec rest ≠ [] → last (omap ev_ping waiting) = Some (Ok tt));
  (* the migrations run in order, up to the first that fails *)
  prep_migrations : ∃ pre post, migrations.*1 = pre ++ post ∧
    (omap ev_exec tr = ((λ s, (s, Ok tt)) <$> pre) ∨
     ∃ s post' e, post = s :: post' ∧ omap ev_exec tr = ((λ s, (s, Ok tt)) <$> pre) ++ [(s, Err e)] ∧ is_ok r = false);
  prep_balanced : balanced tr;
  prep_done : r = Ok tt → omap ev_exec tr = ((λ s, (s, Ok tt)) <$> migrations.*1) ∧ Ok tt ∈ omap ev_connect tr
}.

(** The events that tell nothing of an initialisation. *)
Definition elsewhere (tr : trace StartEff) : Prop :=
  omap ev_exec tr = [] ∧ omap ev_ping tr = [] ∧ omap ev_connect tr = [] ∧ omap ev_closed tr = [].

Lemma prepared_within pre tr post r r' :
  elsewhere pre → elsewhere post → (r' = Ok tt → r = Ok tt) → (is_ok r = false → is_ok r' = false) →
  prepared tr r → prepared (pre ++ tr ++ post) r'.
Proof.
  intros (E1 & E2 & E3 & E4) (F1 & F2 & F3 & F4) Hr Hr' [[Hb1 Hb2] (waiting & rest & -> & Ho1 & Ho2 & Ho3) Hm Hbal Hd].
  split; rewrite ?omap_app, ?E1, ?E2, ?E3, ?E4, ?F1, ?F2, ?F3, ?F4, ?app_nil_l, ?app_nil_r, <- ?omap_app.
  - done.
  - exists (pre ++ waiting), (rest ++ post). split_and!; [by rewrite <- !app_assoc|..]; rewrite !omap_app, ?E1, ?E2, ?Ho1, ?Ho2, ?F1, ?F2, ?app_nil_r; done.
  - destruct Hm as (p & q & Hpq & Hc). exists p, q. split; [done|]. naive_solver.
  - unfold balanced, opened in *. by rewrite !omap_app, E3, F3, E4, F4, !app_nil_l, !app_nil_r, <- !omap_app.
  - auto.
Qed.

Lemma prepared_nothing tr r : elsewhere tr → is_ok r = false → prepared tr r.
Proof.
  intros (E1 & E2 & E3 & E4) Hr. split; unfold balanced, opened; rewrite ?E1, ?E2, ?E3, ?E4; cbn; try done; try lia.
  - exists tr, []. rewrite app_nil_r. by rewrite E1.
  - exists [], migrations.*1. eauto.
  - by intros ->.
Qed.

Section init_facts.
Context `{!Retrier}.

Lemma init_prepared url : wp any_answer (storage_init url) [] prepared.
Proof.
  unfold storage_init. eapply wp_try_seq; [apply postgres_spec| |].
  2: { intros tr e ((E1 & E2 & E3) & Hp & _). split; unfold balanced, opened; rewrite ?E1, ?E2, ?E3; cbn; try done; try lia.
       - exists tr, []. by rewrite app_nil_r, E1.
       - exists [], migrations.*1. eauto. }
  intros tr [] ((E1 & E2 & E3) & Hp & Hlast). specialize (Hlast eq_refl).
  eapply wp_try_seq; [apply migrations_spec| |].
  - intros ext [] [(? & ? & ? & ? & _ & _ & ?)|[-> _]]; [done|]. apply wp_try. eapply wp_mono; [|apply nats_spec].
    intros tr' r ((F1 & F2) & Hc & Hbal & Hok).
    assert (prepared (tr ++ executed migrations ++ tr') (match r with Ok _ => Ok tt | Err e => Err (errorf "waiting for Nats" e) end)) as Hprep.
    { split.
      - rewrite !omap_app, E2, F2, (executed_never ev_ping), (executed_never ev_connect) by done. cbn. rewrite !app_nil_r. done.
      - exists tr, (executed migrations ++ tr'). rewrite !omap_app, F2, (executed_never ev_ping) by done. done.
      - exists migrations.*1, []. rewrite app_nil_r, !omap_app, E1, F1, executed_exec. split; [done|]. by left.
      - apply balanced_app; [unfold balanced, opened; by rewrite E2, E3|]. apply balanced_app; [|done].
        unfold balanced, opened. by rewrite (executed_never ev_connect), (executed_never ev_closed) by done.
      - intros Hr. rewrite !omap_app, E1, E2, F1, executed_exec. split; [done|].
        rewrite (executed_never ev_connect) by done. destruct r as [[]|]; [by apply Hok|done]. }
    destruct r as [[]|e]; exact Hprep.
  - intros ext e [(pre & m & post & e' & Hm & -> & _)|[_ ?]]; [|done]. split.
    + rewrite !omap_app, E2, (executed_never ev_ping), (executed_never ev_connect) by done. cbn. rewrite !app_nil_r. split; [done|lia].
    + exists tr, (executed pre ++ [Ev (Exec m.1) (Err e')]). rewrite !omap_app, (executed_never ev_ping) by done. done.
    + exists pre.*1, (m.1 :: post.*1). split; [by rewrite Hm, fmap_app|]. right.
      exists m.1, post.*1, e'. rewrite !omap_app, E1, executed_exec. cbn. split_and!; [done| |done]. by rewrite <- list_fmap_compose.
    + apply balanced_app; [unfold balanced, opened; by rewrite E2, E3|]. apply balanced_app; [|done].
      unfold balanced, opened. by rewrite (executed_never ev_connect), (executed_never ev_closed) by done.
    + done.
Qed.
End init_facts.

(** ** The process *)

Definition ev_pool (o : obs StartEff) : option unit := match o with Ev (NewPool _) (Ok _) => Some tt | _ => None end.
Definition ev_pool_close (o : obs StartEff) : option unit := match o with Ev PoolClose _ => Some tt | _ => None end.

(** A configuration that only a database with the given authority and name can satisfy. *)
Definition verified (ca host : string) (c : ConnConfig) : Prop :=
  cfg_Fallbacks c = [] ∧
  cfg_TLSConfig c = Some {| tls_RootCAs := ca; tls_ServerName := host; tls_MinVersion12 := true; tls_InsecureSkipVerify := false |}.

Definition ev_new_pool (o : obs StartEff) : option PoolConfig := match o with Ev (NewPool c) _ => Some c | _ => None end.

(** A callback that lets no connection be made but to a database with the authority of
    the file, as it is then, and with the name. *)
Definition guarded (caFile host : string) (cb : callback) : Prop :=
  ∀ connConfig, wp any_answer (BeforeConnect cb connConfig) [] (λ tr r,
    match r with
    | Ok c => ∃ pem, tr = [Ev (ReadFile caFile) (Ok pem); Ev (AppendCertsFromPEM pem) true] ∧ verified pem host c ∧
                cfg_Host c = cfg_Host connConfig
    | Err _ => True
    end).

(** Every pool of a run is made for the URI of the file, with such a callback for its
    host. *)
Definition secured (file caFile : string) (tr : trace StartEff) : Prop :=
  Forall (λ pool, ∃ uri parsed cb, Ev (ReadFile file) (Ok uri) ∈ tr ∧ Ev (ParseConfig uri) (Ok parsed) ∈ tr ∧
    pc_ConnConfig pool = pc_ConnConfig parsed ∧ pc_BeforeConnect pool = Some cb ∧ guarded caFile (cfg_Host (pc_ConnConfig parsed)) cb)
    (omap ev_new_pool tr).

Section storage_facts.
Context `{!Retrier} (FromHumanSize : string → result Z).
Context (certFile keyFile serviceAccountNamespace serviceAccountName : string).
Abbreviation this_storage := (storage_run FromHumanSize certFile keyFile serviceAccountNamespace serviceAccountName).

(** Calls that open or close no pool. *)
Definition no_pool A (e : StartEff A) : Prop := match e with NewPool _ | PoolClose => False | _ => True end.

Lemma no_pool_calls A (e : StartEff A) : no_pool A e → ∀ a, ev_pool (Ev e a) = None ∧ ev_pool_close (Ev e a) = None.
Proof. destruct e; done. Qed.

Lemma no_pool_trace ext : Forall (obs_call no_pool) ext → omap ev_pool ext = [] ∧ omap ev_pool_close ext = [].
Proof. intros Hext. split; (eapply omap_calls; [|exact Hext]); intros A e a He; by apply no_pool_calls. Qed.

Lemma tries_calls (P : ∀ A, StartEff A → Prop) n stop k fn : (∀ k, P _ (RetryWait k)) → calls P fn → calls P (tries n stop k fn).
Proof.
  intros Hw Hfn. revert k. induction n as [|n IH]; intros k; cbn [tries]; apply calls_bind; try done; intros [a|e]; try done.
  cbn. split; [apply Hw|]. intros []; [apply IH|done].
Qed.

Lemma Do_calls (P : ∀ A, StartEff A → Prop) n fn : (∀ k, P _ (RetryWait k)) → calls P fn → calls P (Do (S n) fn).
Proof.
  intros Hw Hfn. destruct Do_spec as (stop & ended & ->). split; [apply Hw|]. intros []; [by apply tries_calls|done].
Qed.

Lemma init_no_pool url : calls no_pool (storage_init url).
Proof.
  unfold storage_init, WaitForPostgres, RunMigrations, WaitForNATS, newRetrier, nats_once, migrate.
  repeat first [calls_step|apply Do_calls]; done.
Qed.

Lemma server_no_pool cfg : calls no_pool (runServer cfg).
Proof.
  assert (∀ ts, calls no_pool (go_all ts)) as Hgo by (induction ts; cbn; [done|by split]).
  unfold runServer, NewStorageAPIServer, build_store, StorageAPIServer_Start, setup_one, watcher_Setup.
  repeat first [calls_step|apply Hgo]; done.
Qed.

(** What [newDB] does to the pool: it leaves one open exactly when it succeeds. *)
Lemma newDB_exact file ca : wp any_answer (newDB file ca) [] (λ tr r,
  elsewhere tr ∧ length (omap ev_pool tr) = (length (omap ev_pool_close tr) + (if is_ok r then 1 else 0))%nat).
Proof.
  unfold newDB. cbv zeta. wp_steps; cbn; try (intros ? _; cbn); try done.
Qed.

(** The pool is made with the callback. *)
Lemma BeforeConnect_guarded caFile config : guarded caFile (cfg_Host config) (before_connect caFile config).
Proof. intros c [pem|e] _; cbn; [|done]. intros [] _; cbn; [|done]. by exists pem. Qed.

Lemma newDB_secured file ca : wp any_answer (newDB file ca) [] (λ tr _, secured file ca tr).
Proof.
  unfold newDB. cbv zeta. intros [uri|e] _; cbn; [|constructor]. intros [parsed|e] _; cbn; [|constructor].
  assert (∀ ext a, omap ev_new_pool ext = [] → secured file ca ([Ev (ReadFile file) (Ok uri); Ev (ParseConfig uri) (Ok parsed);
    Ev (NewPool {| pc_ConnConfig := pc_ConnConfig parsed; pc_BeforeConnect := Some (before_connect ca (pc_ConnConfig parsed));
                   pc_Tracer := Some {| tr_DisableAcquireTracer := true |} |}) a] ++ ext)) as Hs.
  { intros ext a He. unfold secured. rewrite omap_app, He, app_nil_r. apply Forall_singleton. exists uri, parsed, (before_connect ca (pc_ConnConfig parsed)).
    split_and!; [set_solver|set_solver|done|done|apply BeforeConnect_guarded]. }
  intros [[]|e] _; cbn; [|by apply (Hs [])]. intros [[]|e] _; cbn; [by apply (Hs [_])|]. intros [] _. by apply (Hs [_; _]).
Qed.

Lemma secured_within file ca pre tr post :
  omap ev_new_pool pre = [] → omap ev_new_pool post = [] → secured file ca tr → secured file ca (pre ++ tr ++ post).
Proof.
  intros E1 E2 Hs. unfold secured. rewrite !omap_app, E1, E2, app_nil_r. eapply Forall_impl; [exact Hs|].
  intros pool (uri & parsed & cb & ? & ? & ?). exists uri, parsed, cb. rewrite !elem_of_app. auto.
Qed.

Lemma run_prepared size file ca url : wp any_answer (this_storage true size file ca url) [] prepared.
Proof.
  unfold storage_run. intros [[]|e] _; [|by apply prepared_nothing]. cbn [app]. unfold finally at 1.
  eapply (wp_cut _ _ _ _ (λ tr r, prepared tr r)); [|intros tr r Hp a _; cbn; by apply (prepared_within [] tr [_] r)].
  cbn [try_bind mbind prog_bind pbind]. destruct (FromHumanSize size) as [limit|e]; [|by apply prepared_nothing].
  apply wp_try. eapply wp_frame; [apply newDB_exact|].
  intros tr [config|e] [He _]; [|by apply prepared_nothing; [destruct He as (? & ? & ? & ?)|]].
  unfold finally. apply wp_bind. eapply wp_frame; [apply init_prepared|].
  intros ext r Hr [] _. cbn. rewrite <- app_assoc. apply (prepared_within (Ev TelemetrySetup (Ok tt) :: tr) ext [Ev PoolClose tt] r); try done.
Qed.

Lemma pool_closed init size file ca url : wp any_answer (this_storage init size file ca url) [] (λ tr _,
  length (omap ev_pool tr) = length (omap ev_pool_close tr)).
Proof.
  unfold storage_run. intros [[]|e] _; [|done]. cbn [app]. unfold finally at 1.
  eapply (wp_cut _ _ _ _ (λ tr _, length (omap ev_pool tr) = length (omap ev_pool_close tr)));
    [|intros tr r Hp a _; cbn; rewrite !omap_app; cbn; by rewrite !app_nil_r].
  cbn [try_bind mbind prog_bind pbind]. destruct (FromHumanSize size) as [limit|e]; [|done].
  apply wp_try. eapply wp_frame; [apply newDB_exact|].
  intros tr [config|e] [_ Hp]; [|cbn in *; lia]. unfold finally. apply wp_bind.
  eapply (wp_mono _ _ _ (λ tr' _, ∃ ext, tr' = ([Ev TelemetrySetup (Ok tt)] ++ tr) ++ ext ∧ Forall (obs_call no_pool) ext)).
  - intros tr' r (ext & -> & [E1 E2]%no_pool_trace) [] _. cbn. rewrite !omap_app, !length_app, E1, E2. cbn in *. lia.
  - apply wp_calls. destruct init; [apply init_no_pool|]. apply calls_try; [done|]. intros _. apply calls_try; [apply server_no_pool|done].
Qed.

Lemma run_secured init size file ca url : wp any_answer (this_storage init size file ca url) [] (λ tr _, secured file ca tr).
Proof.
  unfold storage_run. intros [[]|e] _; [|constructor]. cbn [app]. unfold finally at 1.
  eapply (wp_cut _ _ _ _ (λ tr _, secured file ca tr)); [|intros tr r Hp a _; cbn; by apply (secured_within _ _ [] tr [_])].
  cbn [try_bind mbind prog_bind pbind]. destruct (FromHumanSize size) as [limit|e]; [|constructor].
  apply wp_try. eapply wp_frame; [apply newDB_secured|].
  intros tr [config|e] Hs; [|rewrite <- (app_nil_r tr); by apply secured_within]. unfold finally. apply wp_bind.
  eapply (wp_mono _ _ _ (λ tr' _, ∃ ext, tr' = ([Ev TelemetrySetup (Ok tt)] ++ tr) ++ ext ∧ Forall (obs_call no_pool) ext)).
  - intros tr' r (ext & -> & Hext) [] _. cbn [wp]. rewrite <- !app_assoc. apply secured_within; [done| |done].
    rewrite omap_app, app_nil_r. eapply omap_calls; [|exact Hext]. intros A e a. by destruct e.
  - apply wp_calls. destruct init; [apply init_no_pool|]. apply calls_try; [done|]. intros _. apply calls_try; [apply server_no_pool|done].
Qed.

(** One attempt to reach JetStream: its connection is closed, however it ends. *)
Definition reached (url : string) (tr : trace StartEff) (r : result unit) : Prop :=
  (∃ e, tr = [Ev (Connect url) (Err e)] ∧ is_ok r = false) ∨
  ∃ mid, tr = Ev (Connect url) (Ok tt) :: mid ++ [Ev CloseConn tt] ∧ elsewhere mid ∧ (r = Ok tt → Ev AccountInfo (Ok tt) ∈ mid).

Lemma jetstream_exact url : wp any_answer (jetstream_once url) [] (reached url).
Proof.
  unfold jetstream_once, finally. intros [[]|e] _; [|left; by eauto]. intros [[]|e] _; cbn.
  - intros [[]|e] _; cbn; intros [] _; right; eexists [_; _]; (split; [reflexivity|]); (split; [done|]); [|done].
    intros _. right. by left.
  - intros [] _. right. eexists [_]. split; [reflexivity|]. done.
Qed.

Lemma reached_balanced url tr r : reached url tr r → balanced tr.
Proof.
  intros [(e & -> & _)|(mid & -> & (_ & _ & E3 & E4) & _)]; [done|]. unfold balanced, opened. cbn. by rewrite !omap_app, E3, E4.
Qed.

(** The controller and the worker start only when the storage types are served
    and JetStream answers, and leave no connection open. *)
Theorem client_ready {W} (h : handler StartEff W) (w : W) (url : string) :
  let tr := run_trace h (client_init url) w in
  balanced tr ∧
  (run_result h (client_init url) w = Ok tt →
   Ev (ServerResourcesForGroupVersion (GroupName +:+ "/v1alpha1")) (Ok tt) ∈ tr ∧ Ev AccountInfo (Ok tt) ∈ tr).
Proof.
  wp_start. unfold client_init.
  set (A := λ (tr : trace StartEff) (r : result unit), ∃ a, tr = [Ev (ServerResourcesForGroupVersion (GroupName +:+ "/v1alpha1")) a] ∧ is_ok r = is_ok a).
  assert (wp any_answer WaitForStorageTypes [] (λ tr r, balanced tr ∧
    (r = Ok tt → Ev (ServerResourcesForGroupVersion (GroupName +:+ "/v1alpha1")) (Ok tt) ∈ tr))) as Htypes.
  { unfold WaitForStorageTypes. intros [[]|e] _; [|done]. intros [[]|e] _; [|done]. apply wp_try. eapply wp_frame; [apply (wp_Do A)|].
    - intros [[]|e] _; eexists; (split; [reflexivity|]); done.
    - intros ext r Hr. assert (balanced ext) as Hb.
      { eapply (retried_closed balanced); [apply balanced_app|done| |exact Hr]. by intros ? ? (? & -> & _). }
      assert (balanced ([Ev HTTPClientFor (Ok tt); Ev NewDiscoveryClient (Ok tt)] ++ ext)) as Hb' by by apply balanced_app.
      destruct r as [[]|e]; (split; [exact Hb'|]); [|done]. intros _.
      apply retried_end in Hr as (pre & ? & -> & [[]|] & -> & Ha); [|done]. apply elem_of_app. right. apply elem_of_app. right. by left. }
  eapply wp_try_seq; [exact Htypes| |by intros tr e [Hb _]].
  intros tr [] [Hb Ht]. unfold WaitForJetStream. apply wp_try, wp_try. eapply wp_mono; [|apply (wp_Do (reached url)), jetstream_exact].
  intros ext r Hr. assert (balanced (tr ++ ext)) as Hb'.
  { apply balanced_app; [done|]. eapply (retried_closed balanced); [apply balanced_app|done| |exact Hr]. apply reached_balanced. }
  destruct r as [[]|e]; cbn; (split; [exact Hb'|]); [|done]. intros _. split; [by apply elem_of_app; left; apply Ht|].
  apply elem_of_app. right. apply retried_end in Hr as (pre & ? & -> & [(e & _ & ?)|(mid & -> & _ & Hi)]); [done|].
  apply elem_of_app. right. right. apply elem_of_app. left. by apply Hi.
Qed.

(** [C33] The storage prepares its database before anything else, and never talks
    to one it has not verified.  Whatever the database, NATS and the files
    answer, the initialisation makes at most twenty attempts of each wait; it
    runs no migration before the database has answered a ping; it runs the
    sequence of resource versions and the tables in their order and stops at the
    first that fails; it closes every connection to NATS it opened; and when it
    succeeds all the migrations have been executed and NATS has been reached.
    Each of the six resources then has a table, with a key of names and
    namespaces and a serial identifier.  In either mode, a pool that was opened
    is closed once, and no other.  Every pool is made from the URI read from its
    file, with a callback, which pgx runs before it makes a connection: when the
    callback lets the connection be made, it is with the authority that the file
    of the authority holds at that moment, for the host of that URI, verified,
    and without fallback, whatever the URI asks for. *)
Theorem storage_prepared {W} (h : handler StartEff W) (w : W) (size file caFile url : string) :
  prepared (run_trace h (this_storage true size file caFile url) w)
    (run_result h (this_storage true size file caFile url) w) ∧
  head migrations.*1 = Some (CREATE_SEQUENCE "resource_version_seq") ∧
  Forall (λ resource, ∃ t, CREATE_TABLE t ∈ migrations.*1 ∧ td_name t = resource ∧
    td_unique t = ["name"; "namespace"] ∧ ("id", BIGSERIAL) ∈ td_columns t)
    ["images"; "sboms"; "vulnerabilityreports"; "workloadscanreports"; "nodesboms"; "nodevulnerabilityreports"] ∧
  ∀ init, let tr := run_trace h (this_storage init size file caFile url) w in
    length (omap ev_pool tr) = length (omap ev_pool_close tr) ∧
    Forall (λ pool, ∃ uri parsed cb, Ev (ReadFile file) (Ok uri) ∈ tr ∧ Ev (ParseConfig uri) (Ok parsed) ∈ tr ∧
      pc_ConnConfig pool = pc_ConnConfig parsed ∧ pc_BeforeConnect pool = Some cb ∧
      guarded caFile (cfg_Host (pc_ConnConfig parsed)) cb) (omap ev_new_pool tr).
Proof.
  split_and!.
  - wp_start. apply run_prepared.
  - reflexivity.
  - repeat apply Forall_cons_2; [exists createImageTableSQL|exists createSBOMTableSQL|exists createVulnerabilityReportTableSQL|
      exists createWorkloadScanReportTableSQL|exists createNodeSBOMTableSQL|exists createNodeVulnerabilityReportTableSQL|
      apply Forall_nil_2]; (split_and!; [|reflexivity..|]); cbn; set_solver.
  - intros init tr. split; subst tr.
    + wp_start. apply pool_closed.
    + apply (wp_run_any h (this_storage init size file caFile url) w (λ tr _, secured file caFile tr)). apply run_secured.
Qed.
End storage_facts.
