(* ===== verification/EntryPoints.v ===== *)
(** * The entry points

    [src/cmd/controller/main.go], [src/cmd/worker/main.go] and
    [src/cmd/mcp/main.go], with [Run] of [src/internal/mcp/server.go],
    [SetupIndexer] of [src/internal/controller/indexer.go], the functions
    [SetupWithManager] of the controllers and the set-up of the webhooks: what a
    process registers, in which order, and when it starts to work.  What [run] of
    [src/cmd/storage] does after its log level is in [Startup].  The parsing of the arguments by package
    flag is left out: a configuration is given, and the defaults are the values
    [parseFlags] gives it without arguments.  The certificates of NATS are options
    of its client; the directories, repositories and the namespace of a worker are
    arguments of its handlers, which are the maps [worker_main] is given. *)

From stdpp Require Import prelude gmap strings list pretty.
From Stdlib Require Import Ascii ZArith Lia.
From S2P Require Import Prelude Prog Strconv Meta Conditions ScanJob NodeScanJob StorageTypes Effects Worker WorkloadScanController ImageWorkloads McpTools Messaging ControllerCache Startup.
Open Scope Z_scope.

(** ** Log levels

    [ParseLogLevel] of [src/internal/cmdutil/log.go], with [UnmarshalText] and
    [String] of [slog.Level]. *)

Definition LevelDebug : Z := -4.
Definition LevelInfo : Z := 0.
Definition LevelWarn : Z := 4.
Definition LevelError : Z := 8.

(** [strings.ToUpper], on ASCII letters. *)
Definition upper_ascii (c : ascii) : ascii :=
  let n := nat_of_ascii c in if bool_decide (97 ≤ n)%nat && bool_decide (n ≤ 122)%nat then ascii_of_nat (n - 32) else c.
Fixpoint ToUpper (s : string) : string :=
  match s with EmptyString => EmptyString | String c s' => String (upper_ascii c) (ToUpper s') end.

(** The string before the first sign, and from it on. *)
Fixpoint split_sign (s : string) : string * option string :=
  match s with
  | EmptyString => (EmptyString, None)
  | String c s' =>
      if bool_decide (c = "+"%char) || bool_decide (c = "-"%char) then (EmptyString, Some s)
      else let '(name, rest) := split_sign s' in (String c name, rest)
  end.

Definition level_of_name (name : string) : result Z :=
  let name := ToUpper name in
  if bool_decide (name = "DEBUG") then Ok LevelDebug
  else if bool_decide (name = "INFO") then Ok LevelInfo
  else if bool_decide (name = "WARN") then Ok LevelWarn
  else if bool_decide (name = "ERROR") then Ok LevelError
  else Err (errors_New "unknown name").

(** A level is an [int]: the addition wraps around at 64 bits. *)
Definition int64 (n : Z) : Z := (n + 2 ^ 63) mod 2 ^ 64 - 2 ^ 63.

Definition UnmarshalText (s : string) : result Z :=
  let '(name, rest) := split_sign s in
  match (match rest with Some offset => ParseInt offset | None => Ok 0 end) with
  | Err e => Err (errorf ("slog: level string " +:+ quote s) e)
  | Ok offset =>
      match level_of_name name with
      | Err e => Err (errorf ("slog: level string " +:+ quote s) e)
      | Ok l => Ok (int64 (l + offset))
      end
  end.

Definition ParseLogLevel (s : string) : result Z :=
  match UnmarshalText s with
  | Err e => Err (errorf ("unable to parse log level: " +:+ s +:+ ", error") e)
  | Ok l => Ok l
  end.

(** [fmt.Sprintf("%+d", n)]. *)
Definition signed (n : Z) : string := if bool_decide (0 ≤ n) then "+" +:+ FormatInt n else FormatInt n.

Definition Level_String (l : Z) : string :=
  let str (base : string) (val : Z) := if bool_decide (val = 0) then base else base +:+ signed val in
  if bool_decide (l < LevelInfo) then str "DEBUG" (l - LevelDebug)
  else if bool_decide (l < LevelWarn) then str "INFO" (l - LevelInfo)
  else if bool_decide (l < LevelError) then str "WARN" (l - LevelWarn)
  else str "ERROR" (l - LevelError).

(** *** Facts *)

Lemma ParseInt_plus s n : magnitude s = Some n → n < 2 ^ 63 → ParseInt (String "+" s) = Ok n.
Proof. intros Hm Hn. unfold ParseInt. cbv beta iota. by rewrite Hm, bool_decide_true. Qed.
Lemma ParseInt_minus s n : magnitude s = Some n → n ≤ 2 ^ 63 → ParseInt (String "-" s) = Ok (- n).
Proof. intros Hm Hn. unfold ParseInt. cbv beta iota. by rewrite Hm, bool_decide_true. Qed.

Lemma ParseInt_signed n : - 2 ^ 63 ≤ n < 2 ^ 63 → ParseInt (signed n) = Ok n.
Proof.
  intros Hn. unfold signed. case_bool_decide as Hpos.
  - rewrite pretty_Z_nonneg by done. apply ParseInt_plus; [|lia]. rewrite magnitude_pretty. f_equal. lia.
  - destruct n as [|p|p]; [lia|lia|]. change (Z.neg p) with (- Z.pos p) at 2.
    apply (ParseInt_minus (pretty (N.pos p))); [apply magnitude_pretty|lia].
Qed.

(** The sign is the first one when no base has any. *)
Lemma split_sign_base base n :
  split_sign base = (base, None) → split_sign (base +:+ signed n) = (base, Some (signed n)).
Proof.
  assert (∃ c s, signed n = String c s ∧ (c = "+"%char ∨ c = "-"%char)) as (c & s & -> & Hc).
  { unfold signed. case_bool_decide; [eexists _, _; split; [reflexivity|by left]|].
    destruct n as [|p|p]; [lia|lia|]. eexists _, _. split; [reflexivity|by right]. }
  induction base as [|b base IH].
  - intros _. cbn. by destruct Hc as [-> | ->].
  - change (String b base +:+ String c s) with (String b (base +:+ String c s)). cbn [split_sign]. destruct (_ || _); [done|]. destruct (split_sign base) as [name rest] eqn:Hb. intros [= -> ->]. by rewrite IH.
Qed.

Lemma UnmarshalText_base base l n :
  split_sign base = (base, None) → level_of_name base = Ok l → - 2 ^ 63 ≤ n < 2 ^ 63 →
  UnmarshalText (if bool_decide (n = 0) then base else base +:+ signed n) = Ok (int64 (l + n)).
Proof.
  intros Hs Hl Hn. unfold UnmarshalText. case_bool_decide as H0.
  - by rewrite Hs, Hl, H0.
  - by rewrite split_sign_base, ParseInt_signed, Hl.
Qed.

Lemma int64_small n : - 2 ^ 63 ≤ n < 2 ^ 63 → int64 n = n.
Proof. intros Hn. unfold int64. rewrite Z.mod_small; lia. Qed.

(** Log levels round-trip: every level a process can have is printed as a text
    that [ParseLogLevel] reads back as that level, also at the bounds of the
    64-bit integers. *)
Theorem level_roundtrip (l : Z) : - 2 ^ 63 ≤ l < 2 ^ 63 → ParseLogLevel (Level_String l) = Ok l.
Proof.
  intros Hl. unfold ParseLogLevel, Level_String, LevelDebug, LevelInfo, LevelWarn, LevelError.
  case_bool_decide; [|case_bool_decide; [|case_bool_decide]].
  - rewrite (UnmarshalText_base "DEBUG" (-4)); try done; [|lia]. rewrite int64_small by lia. f_equal. lia.
  - rewrite (UnmarshalText_base "INFO" 0); try done; [|lia]. rewrite int64_small by lia. f_equal. lia.
  - rewrite (UnmarshalText_base "WARN" 4); try done; [|lia]. rewrite int64_small by lia. f_equal. lia.
  - rewrite (UnmarshalText_base "ERROR" 8); try done; [|lia]. rewrite int64_small by lia. f_equal. lia.
Qed.

Lemma level_roundtrip_witness : ParseLogLevel (Level_String (-2)) = Ok (-2) ∧ ParseLogLevel "DEBUG+2" = Ok (-2).
Proof. split; [apply level_roundtrip; lia|reflexivity]. Defined.

(** ** What is registered with the manager *)

(** How the object of an event becomes requests: its own key, its name, or a
    mapping of [ImageWorkloads]. *)
Inductive map_func := Itself | ByName | ToNamespace | ConfigToNamespaces | NamespaceItself | ReportToImages.
Inductive event_filter := AnyEvent | OnlyDeletions | PodImagesChanged | WorkloadScanImages.

Record watch := { wt_kind : kind; wt_map : map_func; wt_filter : event_filter }.

(** A controller: the name of its spans and the kind they give, its own name if it is
    given one, its watches, its workers (one, unless it is set), and whether its
    spans join the trace of the object. *)
Record controller_builder := {
  cb_span : string; cb_kind : string; cb_name : option string; cb_watches : list watch; cb_workers : Z; cb_traceparent : bool
}.

Definition maxConcurrentReconciles : Z := 10.

(** A runner is added as it is; a reconciler is built. *)
Inductive registration := AddRunnable (name : string) | BuildController (b : controller_builder).

Definition ScanJobReconciler_SetupWithManager : registration :=
  BuildController {| cb_span := "ScanJob"; cb_kind := "ScanJob"; cb_name := None; cb_workers := maxConcurrentReconciles; cb_traceparent := true;
  cb_watches := [{| wt_kind := KScanJob; wt_map := Itself; wt_filter := AnyEvent |}] |}.
Definition VulnerabilityReportReconciler_SetupWithManager : registration :=
  BuildController {| cb_span := "VulnerabilityReport"; cb_kind := "VulnerabilityReport"; cb_name := None; cb_workers := 1; cb_traceparent := false;
  cb_watches := [{| wt_kind := KVulnerabilityReportMeta; wt_map := Itself; wt_filter := AnyEvent |}] |}.
Definition RegistryScanRunner_SetupWithManager : registration :=
  AddRunnable "RegistryScanRunner".
Definition WorkloadScanReconciler_SetupWithManager : registration :=
  BuildController {| cb_span := "WorkloadScan"; cb_kind := "Namespace"; cb_name := Some "workloadscan-controller"; cb_workers := 1; cb_traceparent := false;
  cb_watches := [{| wt_kind := KPod; wt_map := ToNamespace; wt_filter := PodImagesChanged |};
                 {| wt_kind := KWorkloadScanConfiguration; wt_map := ConfigToNamespaces; wt_filter := AnyEvent |};
                 {| wt_kind := KNamespaceMeta; wt_map := NamespaceItself; wt_filter := AnyEvent |}] |}.
Definition ImageWorkloadScanReconciler_SetupWithManager : registration :=
  BuildController {| cb_span := "ImageWorkloadScan"; cb_kind := "Image"; cb_name := Some "image-workloadscan"; cb_workers := 1; cb_traceparent := false;
  cb_watches := [{| wt_kind := KImage; wt_map := Itself; wt_filter := WorkloadScanImages |};
                 {| wt_kind := KWorkloadScanReport; wt_map := ReportToImages; wt_filter := AnyEvent |}] |}.
Definition NodeScanRunner_SetupWithManager : registration :=
  AddRunnable "NodeScanRunner".
Definition NodeScanReconciler_SetupWithManager : registration :=
  BuildController {| cb_span := "NodeScan"; cb_kind := "Node"; cb_name := Some "nodescan-controller"; cb_workers := 1; cb_traceparent := false;
  cb_watches := [{| wt_kind := KNode; wt_map := ByName; wt_filter := OnlyDeletions |}] |}.
Definition NodeScanConfigurationReconciler_SetupWithManager : registration :=
  BuildController {| cb_span := "NodeScanConfiguration"; cb_kind := "NodeScanConfiguration"; cb_name := Some "nodescanconfiguration-controller"; cb_workers := 1; cb_traceparent := false;
  cb_watches := [{| wt_kind := KNodeScanConfiguration; wt_map := Itself; wt_filter := AnyEvent |}] |}.
Definition NodeScanJobReconciler_SetupWithManager : registration :=
  BuildController {| cb_span := "NodeScanJob"; cb_kind := "NodeScanJob"; cb_name := None; cb_workers := maxConcurrentReconciles; cb_traceparent := true;
  cb_watches := [{| wt_kind := KNodeScanJob; wt_map := Itself; wt_filter := AnyEvent |}] |}.

Definition SetupWithManager (c : controller) : registration :=
  match c with
  | ScanJobReconciler => ScanJobReconciler_SetupWithManager
  | VulnerabilityReportReconciler => VulnerabilityReportReconciler_SetupWithManager
  | RegistryScanRunner => RegistryScanRunner_SetupWithManager
  | WorkloadScanReconciler => WorkloadScanReconciler_SetupWithManager
  | ImageWorkloadScanReconciler => ImageWorkloadScanReconciler_SetupWithManager
  | NodeScanRunner => NodeScanRunner_SetupWithManager
  | NodeScanReconciler => NodeScanReconciler_SetupWithManager
  | NodeScanConfigurationReconciler => NodeScanConfigurationReconciler_SetupWithManager
  | NodeScanJobReconciler => NodeScanJobReconciler_SetupWithManager
  end.

(** What the errors of the set-up call it. *)
Definition controller_title (c : controller) : string :=
  match SetupWithManager c with
  | AddRunnable name => name
  | BuildController b => cb_span b +:+ " controller"
  end.
Definition setup_error (c : controller) : string :=
  match c with
  | WorkloadScanReconciler => "failed to create workloadscan controller"
  | ImageWorkloadScanReconciler => "failed to setup image-workloadscan controller"
  | NodeScanReconciler => "failed to create nodescan controller"
  | NodeScanConfigurationReconciler => "failed to create nodescanconfiguration controller"
  | c => "failed to create " +:+ controller_title c
  end.

(** A webhook: its validator with the account it trusts and what it reads with, and
    its defaulter with whether it injects the trace context. *)
Inductive reader := NoReader | CachedClient | APIReader.
Record webhook_builder := { wb_kind : string; wb_account : option (string * string); wb_defaulter : option bool; wb_reader : reader }.

Definition SetupNodeScanConfigurationWebhookWithManager : webhook_builder :=
  {| wb_kind := "NodeScanConfiguration"; wb_account := None; wb_defaulter := Some false; wb_reader := NoReader |}.
Definition SetupNodeScanJobWebhookWithManager : webhook_builder :=
  {| wb_kind := "NodeScanJob"; wb_account := None; wb_defaulter := Some true; wb_reader := CachedClient |}.
Definition SetupRegistryWebhookWithManager (serviceAccountNamespace serviceAccountName : string) : webhook_builder :=
  {| wb_kind := "Registry"; wb_account := Some (serviceAccountNamespace, serviceAccountName); wb_defaulter := Some false; wb_reader := NoReader |}.
Definition SetupScanJobWebhookWithManager (serviceAccountNamespace serviceAccountName : string) : webhook_builder :=
  {| wb_kind := "ScanJob"; wb_account := Some (serviceAccountNamespace, serviceAccountName); wb_defaulter := Some true; wb_reader := APIReader |}.
Definition SetupWorkloadScanConfigurationWebhookWithManager : webhook_builder :=
  {| wb_kind := "WorkloadScanConfiguration"; wb_account := None; wb_defaulter := None; wb_reader := NoReader |}.

Definition webhooks (serviceAccountNamespace serviceAccountName : string) : list webhook_builder := [
  SetupNodeScanConfigurationWebhookWithManager;
  SetupNodeScanJobWebhookWithManager;
  SetupRegistryWebhookWithManager serviceAccountNamespace serviceAccountName;
  SetupScanJobWebhookWithManager serviceAccountNamespace serviceAccountName;
  SetupWorkloadScanConfigurationWebhookWithManager].

(** The options of the manager that are set. *)
Inductive tls_option := disableHTTP2.
Record ManagerOptions := {
  mo_MetricsAddr : string; mo_SecureServing : bool; mo_MetricsAuthenticated : bool; mo_MetricsTLSOpts : list tls_option;
  mo_WebhookTLSOpts : list tls_option; mo_PprofAddr : string; mo_ProbeAddr : string; mo_LeaderElection : bool;
  mo_LeaderElectionID : string; mo_Cache : list (kind * ByObject); mo_ReconciliationTimeout : Z
}.

(** ** Effects of the processes *)

(** Calls on the manager, all of which can fail. *)
Inductive manager_call :=
| IndexField (k : kind) (field : string)
| Register (r : registration)
| BuildWebhook (w : webhook_builder)
| AddHealthzCheck (name : string)
| AddReadyzCheck (name : string)
| StartManager.

Inductive listen_end := ServerClosed | ListenFailed (e : error).

Inductive MainEff : Type → Type :=
| Starting {A} (e : StartEff A) : MainEff A
| Nats {A} (e : NatsEff A) : MainEff A
| Reading {A} (e : Eff A) : MainEff A
(* [GetConfigOrDie], which ends the process when it fails *)
| GetConfig : MainEff unit
| AddToScheme (group : string) : MainEff (result unit)
| NewClient : MainEff (result unit)
| NewManager (o : ManagerOptions) : MainEff (result unit)
| Mgr (c : manager_call) : MainEff (result unit)
| ListenHealth (addr : string) (paths : list string) : MainEff unit
| CloseHealth : MainEff (result unit)
(* the MCP server: its address, its certificate and key, the credentials it asks for and whether it only reads *)
| Listen (addr : string) (tls : option (string * string)) (credentials : string * string) (readOnly : bool) : MainEff listen_end.

Abbreviation main := (prog MainEff).

(** A program over one part of the effects. *)
Fixpoint embed {E} (f : ∀ A, E A → MainEff A) {R} (p : prog E R) : main R :=
  match p with Ret r => Ret r | Vis e k => Vis (f _ e) (λ a, embed f (k a)) end.
Definition starting_up {R} : starting R → main R := embed (@Starting).
Definition on_nats {R} : prog NatsEff R → main R := embed (@Nats).
Definition reading {R} : go R → main R := embed (@Reading).

Definition deferring {R A} (p : main R) (d : main A) : main R := r ← p; _ ← d; Ret r.

(** [defer shutdownTelemetry(...)], after a successful [Setup]. *)
Definition with_telemetry (p : main (result unit)) : main (result unit) :=
  check trigger (Starting TelemetrySetup) wrap errorf "initializing telemetry";
  deferring p (trigger (Starting TelemetryShutdown)).

Definition scheme_groups : list string := ["v1alpha1"; "storagev1alpha1"; "kubernetes"].
Definition add_to_scheme (_ : unit) (group : string) : main (result unit) :=
  check trigger (AddToScheme group) wrap errorf ("adding " +:+ group +:+ " to scheme"); Ret (Ok tt).

(** ** The controller *)

Record ControllerConfig := {
  cc_MetricsAddr : string; cc_ProbeAddr : string; cc_PprofAddr : string; cc_EnableLeaderElection : bool; cc_SecureMetrics : bool;
  cc_EnableHTTP2 : bool; cc_NatsURL : string; cc_NatsCertFile : string; cc_NatsKeyFile : string; cc_NatsCAFile : string;
  cc_ServiceAccountNamespace : string; cc_ServiceAccountName : string; cc_Init : bool;
  cc_LogLevel : string; cc_WorkloadScan : bool; cc_NodeScan : bool
}.

Definition controller_defaults : ControllerConfig := {|
  cc_MetricsAddr := "0"; cc_ProbeAddr := ":8081"; cc_PprofAddr := "0"; cc_EnableLeaderElection := false; cc_SecureMetrics := true;
  cc_EnableHTTP2 := false; cc_NatsURL := "localhost:4222"; cc_NatsCertFile := "/nats/tls/tls.crt"; cc_NatsKeyFile := "/nats/tls/tls.key";
  cc_NatsCAFile := "/nats/tls/ca.crt"; cc_ServiceAccountNamespace := "sbomscanner";
  cc_ServiceAccountName := "sbomscanner-controller"; cc_Init := false; cc_LogLevel := Level_String LevelInfo;
  cc_WorkloadScan := true; cc_NodeScan := true |}.

Definition tls_options (cfg : ControllerConfig) : list tls_option := if negb (cc_EnableHTTP2 cfg) then [disableHTTP2] else [].

Definition manager_options (cfg : ControllerConfig) : ManagerOptions := {|
  mo_MetricsAddr := cc_MetricsAddr cfg; mo_SecureServing := cc_SecureMetrics cfg;
  mo_MetricsAuthenticated := cc_SecureMetrics cfg; mo_MetricsTLSOpts := tls_options cfg; mo_WebhookTLSOpts := tls_options cfg;
  mo_PprofAddr := cc_PprofAddr cfg; mo_ProbeAddr := cc_ProbeAddr cfg; mo_LeaderElection := cc_EnableLeaderElection cfg;
  mo_LeaderElectionID := "0cc30ed1.sbomscanner.kubewarden.io"; mo_Cache := buildCacheByObject (cc_WorkloadScan cfg) (cc_NodeScan cfg);
  mo_ReconciliationTimeout := 90 * 1000000000 |}.

(** A list of calls on the manager, each with what its error is wrapped in. *)
Definition manager_step (_ : unit) (s : manager_call * (error → error)) : main (result unit) :=
  check trigger (Mgr s.1) wrap s.2; Ret (Ok tt).
Definition on_manager (steps : list (manager_call * (error → error))) : main (result unit) := for_each manager_step tt steps.

Definition index_step (i : kind * string) : manager_call * (error → error) :=
  (IndexField i.1 i.2,
   errorf (if bool_decide (i = (KScanJob, IndexScanJobMetadataUID)) then "unable to create field indexer"
           else "failed to setup field indexer for " +:+ i.2)).
Definition SetupIndexer : main (result unit) := on_manager (index_step <$> indexes).

Definition controller_step (c : controller) : manager_call * (error → error) :=
  (Register (SetupWithManager c), errorf ("creating " +:+ controller_title c) ∘ errorf (setup_error c)).
Definition webhook_step (w : webhook_builder) : manager_call * (error → error) :=
  (BuildWebhook w, errorf ("creating " +:+ wb_kind w +:+ " webhook") ∘ errorf ("failed to setup " +:+ wb_kind w +:+ " webhook")).

(** [utilruntime.Must] panics. *)
Definition must_add (_ : unit) (group : string) : main (result unit) :=
  check trigger (AddToScheme group) wrap (λ e, go_panic (Error e)); Ret (Ok tt).

Definition controller_setup (cfg : ControllerConfig) : main (result unit) :=
  check SetupIndexer wrap errorf "setting up indexer";
  check on_manager (controller_step <$> registered (cc_WorkloadScan cfg) (cc_NodeScan cfg)) wrap (λ e, e);
  check on_manager (webhook_step <$> webhooks (cc_ServiceAccountNamespace cfg) (cc_ServiceAccountName cfg)) wrap (λ e, e);
  check trigger (Mgr (AddHealthzCheck "healthz")) wrap errorf "adding healthz check";
  check trigger (Mgr (AddReadyzCheck "readyz")) wrap errorf "adding readyz check";
  check trigger (Mgr StartManager) wrap errorf "running manager";
  Ret (Ok tt).

Section processes.
Context `{!Retrier}.

Definition controller_run (cfg : ControllerConfig) : main (result unit) :=
  slogLevel ←? Ret (ParseLogLevel (cc_LogLevel cfg)) wrap errorf "parsing log level";
  with_telemetry (
    check trigger (Starting (NewInstrumentation "internal/webhook")) wrap errorf "creating webhook instrumentation";
    check for_each must_add tt ["kubernetes"; "v1alpha1"; "storagev1alpha1"] wrap (λ e, e);
    if cc_Init cfg then
      _ ← trigger GetConfig;
      starting_up (client_init (cc_NatsURL cfg))
    else
      check trigger (Nats (NatsConnect (cc_NatsURL cfg))) wrap errorf ("connecting to NATS server " +:+ quote (cc_NatsURL cfg));
      check on_nats NewNatsPublisher wrap errorf "creating NATS publisher";
      check trigger (Starting (NewInstrumentation "internal/controller")) wrap errorf "creating controller instrumentation";
      _ ← trigger GetConfig;
      check trigger (NewManager (manager_options cfg)) wrap errorf "creating manager";
      controller_setup cfg).

(** ** The worker *)

Record WorkerConfig := {
  wk_NatsURL : string; wk_NatsCertFile : string; wk_NatsKeyFile : string; wk_NatsCAFile : string; wk_RunDir : string;
  wk_TrivyDBRepository : string; wk_TrivyJavaDBRepository : string; wk_InstallationNamespace : string; wk_Init : bool; wk_LogLevel : string; wk_Mode : string; wk_NodeName : string
}.
Definition worker_defaults : WorkerConfig := {|
  wk_NatsURL := "localhost:4222"; wk_NatsCertFile := "/nats/tls/tls.crt"; wk_NatsKeyFile := "/nats/tls/tls.key";
  wk_NatsCAFile := "/nats/tls/ca.crt"; wk_RunDir := "/var/run/worker"; wk_TrivyDBRepository := "public.ecr.aws/aquasecurity/trivy-db";
  wk_TrivyJavaDBRepository := "public.ecr.aws/aquasecurity/trivy-java-db"; wk_InstallationNamespace := "sbomscanner"; wk_Init := false; wk_LogLevel := Level_String LevelInfo; wk_Mode := "registry"; wk_NodeName := "" |}.

Definition runHealthServer : main unit := trigger (ListenHealth ":8081" ["/livez/"; "/readyz/"]).

Definition worker_main `{!MapRange} {H} (cfg : WorkerConfig) (registry_mode node_mode : gmap string H) : main (result unit) :=
  slogLevel ←? Ret (ParseLogLevel (wk_LogLevel cfg)) wrap errorf "parsing log level";
  with_telemetry (
    _ ← trigger GetConfig;
    if wk_Init cfg then starting_up (client_init (wk_NatsURL cfg))
    else
      check on_nats (worker_connect (wk_NatsURL cfg) (wk_Mode cfg) (wk_NodeName cfg)) wrap (λ e, e);
      check for_each add_to_scheme tt scheme_groups wrap (λ e, e);
      check trigger NewClient wrap errorf "creating k8s client";
      check trigger (Starting (NewInstrumentation "internal/handlers")) wrap errorf "creating handlers instrumentation";
      check on_nats (worker_subscribe (wk_Mode cfg) (wk_NodeName cfg) registry_mode node_mode) wrap (λ e, e);
      _ ← runHealthServer;
      check on_nats worker_consume wrap (λ e, e);
      check trigger CloseHealth wrap errorf "shutting down health check server";
      Ret (Ok tt)).

(** ** The MCP server *)

Record McpConfig := {
  mc_Addr : string; mc_CredentialsDir : string; mc_CertFile : string; mc_KeyFile : string; mc_ReadOnly : bool; mc_LogLevel : string;
  mc_DisableTLS : bool
}.
Definition mcp_defaults : McpConfig := {|
  mc_Addr := ":8222"; mc_CredentialsDir := "/etc/mcp/credentials"; mc_CertFile := "/tls/tls.crt"; mc_KeyFile := "/tls/tls.key";
  mc_ReadOnly := false; mc_LogLevel := Level_String LevelInfo; mc_DisableTLS := false |}.

(** [Run]; the server a request reaches is [http_request] of [McpTools]. *)
Definition Server_Run (addr credentialsDir certFile keyFile : string) (disableTLS readOnly : bool) : main (result unit) :=
  credentials ←? reading (readCredentials credentialsDir) wrap errorf "reading credentials";
  r ← trigger (Listen addr (if disableTLS then None else Some (certFile, keyFile)) credentials readOnly);
  match r with
  | ServerClosed => Ret (Ok tt)
  | ListenFailed e => Ret (Err (errorf ("listening on " +:+ addr) e))
  end.

(** A level that cannot be parsed is the default, here. *)
Definition mcp_level (cfg : McpConfig) : Z := match ParseLogLevel (mc_LogLevel cfg) with Ok l => l | Err _ => LevelInfo end.

Definition mcp_run (cfg : McpConfig) : main (result unit) :=
  with_telemetry (
    check for_each add_to_scheme tt scheme_groups wrap (λ e, e);
    _ ← trigger GetConfig;
    check trigger NewClient wrap errorf "creating k8s client";
    check Server_Run (mc_Addr cfg) (mc_CredentialsDir cfg) (mc_CertFile cfg) (mc_KeyFile cfg) (mc_DisableTLS cfg) (mc_ReadOnly cfg)
      wrap errorf "running MCP server";
    Ret (Ok tt)).

(** ** The storage

    [run] of [src/cmd/storage/main.go]: what follows the log level is [storage_run]
    of [Startup]. *)

Record StorageConfig := {
  st_certFile : string; st_keyFile : string; st_pgURIFile : string; st_pgTLSCAFile : string; st_natsURL : string; st_natsCertFile : string;
  st_natsKeyFile : string; st_natsCAFile : string; st_maxRequestBodySize : string; st_serviceAccountNamespace : string;
  st_serviceAccountName : string; st_logLevel : string; st_init : bool
}.
Definition storage_defaults : StorageConfig := {|
  st_certFile := "/tls/tls.crt"; st_keyFile := "/tls/tls.key"; st_pgURIFile := "/pg/uri"; st_pgTLSCAFile := "/pg/tls/server/ca.crt";
  st_natsURL := "localhost:4222"; st_natsCertFile := "/nats/tls/tls.crt"; st_natsKeyFile := "/nats/tls/tls.key";
  st_natsCAFile := "/nats/tls/ca.crt"; st_maxRequestBodySize := "100MB"; st_serviceAccountNamespace := "sbomscanner";
  st_serviceAccountName := "sbomscanner-controller"; st_logLevel := Level_String LevelInfo; st_init := false |}.

Definition storage_main (FromHumanSize : string → result Z) (cfg : StorageConfig) : main (result unit) :=
  slogLevel ←? Ret (ParseLogLevel (st_logLevel cfg)) wrap errorf "parsing log level";
  starting_up (storage_run FromHumanSize (st_certFile cfg) (st_keyFile cfg) (st_serviceAccountNamespace cfg) (st_serviceAccountName cfg)
    (st_init cfg) (st_maxRequestBodySize cfg) (st_pgURIFile cfg) (st_pgTLSCAFile cfg) (st_natsURL cfg)).
End processes.

(** ** What a run shows *)

Definition ev_mgr (o : obs MainEff) : option (manager_call * result unit) :=
  match o with Ev e a => match e in MainEff A return A → _ with Mgr c => λ a, Some (c, a) | _ => λ _, None end a end.
Definition ev_nats (o : obs MainEff) : option (obs NatsEff) :=
  match o with Ev e a => match e in MainEff A return A → _ with Nats e => λ a, Some (Ev e a) | _ => λ _, None end a end.
Definition ev_manager (o : obs MainEff) : option ManagerOptions :=
  match o with Ev e _ => match e with NewManager m => Some m | _ => None end end.
Definition ev_listen (o : obs MainEff) : option (string * option (string * string) * (string * string) * bool) :=
  match o with Ev e _ => match e with Listen a t c r => Some (a, t, c, r) | _ => None end end.
Definition ev_read (o : obs MainEff) : option (string * result string) :=
  match o with Ev e a =>
    match e in MainEff A return A → _ with
    | Reading e => λ a, match e in Eff A return A → _ with OsReadAll p => λ a, Some (p, a) | _ => λ _, None end a
    | _ => λ _, None end a end.

(** Everything the controller sets up, in its order: the indexes, the controllers of the
    core and of each feature, the webhooks, the checks, and its start. *)
Definition index_plan : list manager_call := [
   IndexField KScanJob "spec.registry"; IndexField KScanJob "metadata.uid"; IndexField KNodeScanJob "spec.nodeName";
   IndexField KImage "imageMetadata.composite"; IndexField KWorkloadScanReport "spec.containers.imageRef.composite";
   IndexField KNodeSBOM "nodeMetadata.name"].
Definition core_plan : list manager_call := [
   Register (BuildController {| cb_span := "ScanJob"; cb_kind := "ScanJob"; cb_name := None; cb_workers := 10; cb_traceparent := true;
     cb_watches := [{| wt_kind := KScanJob; wt_map := Itself; wt_filter := AnyEvent |}] |});
   Register (BuildController {| cb_span := "VulnerabilityReport"; cb_kind := "VulnerabilityReport"; cb_name := None; cb_workers := 1; cb_traceparent := false;
     cb_watches := [{| wt_kind := KVulnerabilityReportMeta; wt_map := Itself; wt_filter := AnyEvent |}] |});
   Register (AddRunnable "RegistryScanRunner")].
Definition workload_plan : list manager_call := [
   Register (BuildController {| cb_span := "WorkloadScan"; cb_kind := "Namespace"; cb_name := Some "workloadscan-controller"; cb_workers := 1; cb_traceparent := false;
     cb_watches := [{| wt_kind := KPod; wt_map := ToNamespace; wt_filter := PodImagesChanged |}; {| wt_kind := KWorkloadScanConfiguration; wt_map := ConfigToNamespaces; wt_filter := AnyEvent |}; {| wt_kind := KNamespaceMeta; wt_map := NamespaceItself; wt_filter := AnyEvent |}] |});
   Register (BuildController {| cb_span := "ImageWorkloadScan"; cb_kind := "Image"; cb_name := Some "image-workloadscan"; cb_workers := 1; cb_traceparent := false;
     cb_watches := [{| wt_kind := KImage; wt_map := Itself; wt_filter := WorkloadScanImages |}; {| wt_kind := KWorkloadScanReport; wt_map := ReportToImages; wt_filter := AnyEvent |}] |})].
Definition node_plan : list manager_call := [
   Register (AddRunnable "NodeScanRunner");
   Register (BuildController {| cb_span := "NodeScan"; cb_kind := "Node"; cb_name := Some "nodescan-controller"; cb_workers := 1; cb_traceparent := false;
     cb_watches := [{| wt_kind := KNode; wt_map := ByName; wt_filter := OnlyDeletions |}] |});
   Register (BuildController {| cb_span := "NodeScanConfiguration"; cb_kind := "NodeScanConfiguration"; cb_name := Some "nodescanconfiguration-controller"; cb_workers := 1; cb_traceparent := false;
     cb_watches := [{| wt_kind := KNodeScanConfiguration; wt_map := Itself; wt_filter := AnyEvent |}] |});
   Register (BuildController {| cb_span := "NodeScanJob"; cb_kind := "NodeScanJob"; cb_name := None; cb_workers := 10; cb_traceparent := true;
     cb_watches := [{| wt_kind := KNodeScanJob; wt_map := Itself; wt_filter := AnyEvent |}] |})].
Definition webhook_plan (namespace account : string) : list manager_call := [
   BuildWebhook {| wb_kind := "NodeScanConfiguration"; wb_account := None; wb_defaulter := Some false; wb_reader := NoReader |};
   BuildWebhook {| wb_kind := "NodeScanJob"; wb_account := None; wb_defaulter := Some true; wb_reader := CachedClient |};
   BuildWebhook {| wb_kind := "Registry"; wb_account := Some (namespace, account); wb_defaulter := Some false; wb_reader := NoReader |};
   BuildWebhook {| wb_kind := "ScanJob"; wb_account := Some (namespace, account); wb_defaulter := Some true; wb_reader := APIReader |};
   BuildWebhook {| wb_kind := "WorkloadScanConfiguration"; wb_account := None; wb_defaulter := None; wb_reader := NoReader |}].
Definition manager_plan (cfg : ControllerConfig) : list manager_call :=
  index_plan ++ (core_plan ++ (if cc_WorkloadScan cfg then workload_plan else []) ++ (if cc_NodeScan cfg then node_plan else [])) ++
  webhook_plan (cc_ServiceAccountNamespace cfg) (cc_ServiceAccountName cfg) ++
  [AddHealthzCheck "healthz"; AddReadyzCheck "readyz"; StartManager].

(** All of a plan was done, or it was followed up to a call that failed. *)
Definition followed (plan : list manager_call) (ms : list (manager_call * result unit)) (r : result unit) : Prop :=
  if is_ok r then ms = (λ c, (c, Ok tt)) <$> plan
  else ∃ pre c post e, plan = pre ++ c :: post ∧ ms = ((λ c, (c, Ok tt)) <$> pre) ++ [(c, Err e)].

(** The telemetry of a process is shut down last, and once, if it was set up. *)
Definition telemetry_call A (e : MainEff A) : bool :=
  match e with Starting e => match e with TelemetrySetup | TelemetryShutdown => true | _ => false end | _ => false end.
Definition bracketed (tr : trace MainEff) : Prop :=
  tr = [] ∨ (∃ e, tr = [Ev (Starting TelemetrySetup) (Err e)]) ∨
  ∃ mid a, tr = Ev (Starting TelemetrySetup) (Ok tt) :: mid ++ [Ev (Starting TelemetryShutdown) a] ∧
    Forall (obs_call (λ A e, telemetry_call A e = false)) mid.

(** ** Facts *)

Definition embed_obs {E} (f : ∀ A, E A → MainEff A) (o : obs E) : obs MainEff := match o with Ev e a => Ev (f _ e) a end.

Lemma embed_runs {E} (f : ∀ A, E A → MainEff A) {R} (p : prog E R) :
  wp any_answer (embed f p) [] (λ tr r, ∃ tr', runs p tr' r ∧ tr = embed_obs f <$> tr').
Proof.
  induction p as [r|A e k IH]; [exists []; by split; [constructor|]|]. intros a _.
  eapply (wp_frame _ _ [_]); [apply IH|]. intros ext r (tr' & Hr & ->). exists (Ev e a :: tr'). by split; [constructor|].
Qed.

Lemma wp_embed {E} (f : ∀ A, E A → MainEff A) {R} (p : prog E R) (Q : trace MainEff → R → Prop) :
  wp any_answer p [] (λ tr r, Q (embed_obs f <$> tr) r) → wp any_answer (embed f p) [] Q.
Proof.
  enough (∀ tr, wp any_answer p tr (λ tr r, Q (embed_obs f <$> tr) r) → wp any_answer (embed f p) (embed_obs f <$> tr) Q) as Hp by apply (Hp []).
  induction p as [r|A e k IH]; intros tr; cbn [wp embed]; [done|]. intros Hp a _.
  specialize (IH a _ (Hp a I)). by rewrite fmap_app in IH.
Qed.

Lemma embed_calls {E} (f : ∀ A, E A → MainEff A) (P : ∀ A, MainEff A → Prop) {R} (p : prog E R) :
  calls (λ A e, P A (f A e)) p → calls P (embed f p).
Proof. induction p as [r|A e k IH]; cbn; [done|]. intros [He Hk]. split; [done|]. intros a. apply IH, Hk. Qed.

Lemma embed_any {E} (f : ∀ A, E A → MainEff A) (P : ∀ A, MainEff A → Prop) {R} (p : prog E R) :
  (∀ A e, P A (f A e)) → calls P (embed f p).
Proof. intros HP. induction p as [r|A e k IH]; cbn; [done|]. by split. Qed.

Lemma project_nats (tr : trace NatsEff) : omap ev_nats (embed_obs (@Nats) <$> tr) = tr.
Proof. induction tr as [|[A e a] tr IH]; [done|]. cbn. by rewrite IH. Qed.

(** *** The telemetry *)

Lemma telemetry_bracketed p :
  calls (λ A e, telemetry_call A e = false) p → wp any_answer (with_telemetry p) [] (λ tr _, bracketed tr).
Proof.
  intros Hp. unfold with_telemetry, deferring. intros [[]|e] _; cbn [app]; [|right; left; by eauto].
  apply wp_bind. eapply (wp_frame _ _ [_]); [apply calls_wp; [exact Hp|constructor]|].
  intros mid r Hmid a _. cbn. right. right. by exists mid, a.
Qed.

(** *** The manager *)

(** The calls on the manager of a program are those of [plan]. *)
Definition follows (plan : list manager_call) (p : main (result unit)) : Prop :=
  wp any_answer p [] (λ tr r, followed plan (omap ev_mgr tr) r).

Lemma follows_trigger c : follows [c] (trigger (Mgr c)).
Proof. intros [[]|e] _; cbn; [done|]. by exists [], c, [], e. Qed.

Lemma follows_call c w : follows [c] (check trigger (Mgr c) wrap w; Ret (Ok tt)).
Proof. intros [[]|e] _; cbn; [done|]. by exists [], c, [], e. Qed.

Lemma follows_try plan plan' p w (k : unit → main (result unit)) :
  follows plan p → (∀ u, follows plan' (k u)) → follows (plan ++ plan') (try_bind p w k).
Proof.
  intros Hp Hk. unfold follows. eapply wp_try_seq; [exact Hp| |].
  - intros ext u Hext. cbn in Hext. eapply wp_mono; [|exact (Hk u)]. intros ext' r Hr. unfold followed in *.
    rewrite omap_app, Hext. destruct (is_ok r); [by rewrite Hr, fmap_app|].
    destruct Hr as (pre & c & post & e & -> & ->). exists (plan ++ pre), c, post, e. by rewrite fmap_app, <- !app_assoc.
  - intros ext e (pre & c & post & e' & -> & Hext). exists pre, c, (post ++ plan'), e'. by rewrite <- app_assoc.
Qed.

Lemma follows_steps steps : follows steps.*1 (on_manager steps).
Proof.
  unfold on_manager. generalize tt. induction steps as [|s steps IH]; intros []; [done|]. cbn [for_each fmap list_fmap].
  apply (follows_try [s.1] steps.*1 (manager_step tt s) (λ e, e) (λ u, for_each manager_step u steps)); [apply follows_call|done].
Qed.

Lemma controller_setup_follows cfg : follows (manager_plan cfg) (controller_setup cfg).
Proof.
  unfold manager_plan, controller_setup, SetupIndexer.
  apply follows_try; [|intros _; apply follows_try; [|intros _; apply follows_try; [|intros _]]].
  - exact (follows_steps (index_step <$> indexes)).
  - pose proof (follows_steps (controller_step <$> registered (cc_WorkloadScan cfg) (cc_NodeScan cfg))) as Hs.
    by destruct (cc_WorkloadScan cfg), (cc_NodeScan cfg).
  - exact (follows_steps (webhook_step <$> webhooks (cc_ServiceAccountNamespace cfg) (cc_ServiceAccountName cfg))).
  - apply (follows_try [_] [_; _]); [apply follows_trigger|]. intros _.
    apply (follows_try [_] [_]); [apply follows_trigger|]. intros _. apply follows_call.
Qed.

(** A part of a run that does not call the manager. *)
Definition no_mgr A (e : MainEff A) : Prop := match e with Mgr _ => False | _ => True end.

Lemma no_mgr_silent tr : Forall (obs_call no_mgr) tr → omap ev_mgr tr = [].
Proof. apply omap_calls. intros A e a. by destruct e. Qed.

Lemma quiet_try {A} (Q : list (manager_call * result unit) → result unit → Prop) (p : main (result A)) w k :
  calls no_mgr p → (∀ e, Q [] (Err e)) → (∀ a, wp any_answer (k a) [] (λ tr r, Q (omap ev_mgr tr) r)) →
  wp any_answer (try_bind p w k) [] (λ tr r, Q (omap ev_mgr tr) r).
Proof.
  intros Hp He Hk. eapply wp_try_seq; [apply calls_wp; [exact Hp|constructor]| |].
  - intros ext a Hext%no_mgr_silent. eapply wp_mono; [|apply Hk]. intros ext' r. by rewrite omap_app, Hext.
  - intros ext e ->%no_mgr_silent. apply He.
Qed.

Lemma quiet_bind {A} (Q : list (manager_call * result unit) → result unit → Prop) (p : main A) k :
  calls no_mgr p → (∀ a, wp any_answer (k a) [] (λ tr r, Q (omap ev_mgr tr) r)) →
  wp any_answer (p ≫= k) [] (λ tr r, Q (omap ev_mgr tr) r).
Proof.
  intros Hp Hk. eapply wp_seq; [apply calls_wp; [exact Hp|constructor]|].
  intros ext a Hext%no_mgr_silent. eapply wp_mono; [|apply Hk]. intros ext' r. by rewrite omap_app, Hext.
Qed.

Lemma quiet_all (Q : list (manager_call * result unit) → result unit → Prop) (p : main (result unit)) :
  calls no_mgr p → (∀ r, Q [] r) → wp any_answer p [] (λ tr r, Q (omap ev_mgr tr) r).
Proof. intros Hp HQ. eapply wp_mono; [|apply calls_wp; [exact Hp|constructor]]. intros tr r ->%no_mgr_silent. apply HQ. Qed.

Lemma quiet_telemetry (Q : list (manager_call * result unit) → result unit → Prop) p :
  (∀ e, Q [] (Err e)) → wp any_answer p [] (λ tr r, Q (omap ev_mgr tr) r) →
  wp any_answer (with_telemetry p) [] (λ tr r, Q (omap ev_mgr tr) r).
Proof.
  intros He Hp. unfold with_telemetry. apply quiet_try; [by split|done|]. intros _. unfold deferring. apply wp_bind.
  eapply wp_mono; [|exact Hp]. intros tr r Hr a _. cbn. by rewrite omap_app, app_nil_r.
Qed.

Section facts.
Context `{!Retrier}.

(** The controller: nothing is set up in an initialisation; else nothing, after a
    failure, or the plan, as far as it went. *)
Definition set_up (cfg : ControllerConfig) (ms : list (manager_call * result unit)) (r : result unit) : Prop :=
  if cc_Init cfg then ms = [] else (is_ok r = false ∧ ms = []) ∨ followed (manager_plan cfg) ms r.

Lemma controller_set_up cfg : wp any_answer (controller_run cfg) [] (λ tr r, set_up cfg (omap ev_mgr tr) r).
Proof.
  assert (∀ e, set_up cfg [] (Err e)) as He by (intros e; unfold set_up; destruct (cc_Init cfg); [done|by left]).
  unfold controller_run. apply quiet_try; [by destruct (ParseLogLevel _)|done|]. intros _.
  apply quiet_telemetry; [done|].
  apply quiet_try; [by split|done|]. intros _. apply quiet_try; [unfold must_add; by repeat calls_step|done|]. intros _.
  destruct (cc_Init cfg) eqn:Hi.
  - apply quiet_bind; [by split|]. intros _. apply quiet_all; [by apply embed_any|]. intros r. unfold set_up. by rewrite Hi.
  - do 3 (apply quiet_try; [first [by split|by apply embed_any]|done|]; intros _).
    apply quiet_bind; [by split|]. intros _. apply quiet_try; [by split|done|]. intros _.
    eapply wp_mono; [|apply controller_setup_follows]. intros tr r Hr. unfold set_up. rewrite Hi. by right.
Qed.

(** How its manager is made. *)
Definition secured (cfg : ControllerConfig) (o : ManagerOptions) : Prop :=
  (cc_EnableHTTP2 cfg = false → disableHTTP2 ∈ mo_MetricsTLSOpts o ∧ disableHTTP2 ∈ mo_WebhookTLSOpts o) ∧
  (cc_SecureMetrics cfg = true → mo_SecureServing o = true ∧ mo_MetricsAuthenticated o = true) ∧
  mo_Cache o = buildCacheByObject (cc_WorkloadScan cfg) (cc_NodeScan cfg).

Lemma controller_secured cfg : wp any_answer (controller_run cfg) [] (λ tr _, Forall (secured cfg) (omap ev_manager tr)).
Proof.
  eapply wp_mono; [|apply (calls_wp (λ A e, match e with NewManager o => secured cfg o | _ => True end)); [|constructor]].
  - intros tr r Htr. cbn beta in Htr. clear r. induction Htr as [|[A e a] tr He _ IH]; [constructor|]. destruct e; try exact IH. by constructor.
  - assert (secured cfg (manager_options cfg)) as Hs.
    { unfold secured, manager_options, tls_options. cbn. destruct (cc_EnableHTTP2 cfg); split_and!; try done. intros _. split; left. }
    unfold controller_run, with_telemetry, deferring, must_add, controller_setup, SetupIndexer, on_manager, manager_step, on_nats, starting_up.
    repeat first [calls_step|by apply embed_any]; done.
Qed.

(** No process touches the telemetry but to set it up and to shut it down. *)
Definition no_telemetry A (e : MainEff A) : Prop := telemetry_call A e = false.

Lemma client_init_quiet url : calls no_telemetry (starting_up (client_init url)).
Proof.
  apply embed_calls. unfold client_init, WaitForStorageTypes, WaitForJetStream, newRetrier, jetstream_once, finally.
  repeat first [calls_step|apply Do_calls; [done|]]; done.
Qed.

Ltac quiet_calls :=
  repeat lazymatch goal with
  | |- calls _ (starting_up _) => apply client_init_quiet
  | |- calls _ (on_nats _) => by apply embed_any
  | |- calls _ (reading _) => by apply embed_any
  | |- calls _ _ => calls_step
  end; done.

Lemma controller_bracketed cfg : wp any_answer (controller_run cfg) [] (λ tr _, bracketed tr).
Proof.
  unfold controller_run. apply (wp_try _ (Ret _)). cbn [wp]. destruct (ParseLogLevel _); [|by left]. apply telemetry_bracketed.
  unfold must_add, controller_setup, SetupIndexer, on_manager, manager_step. quiet_calls.
Qed.

Lemma mcp_bracketed cfg : wp any_answer (mcp_run cfg) [] (λ tr _, bracketed tr).
Proof. apply telemetry_bracketed. unfold add_to_scheme, Server_Run. quiet_calls. Qed.

Definition start_quiet A (e : StartEff A) : Prop := match e with TelemetrySetup | TelemetryShutdown => False | _ => True end.

Lemma storage_quiet init url cfg :
  calls start_quiet (if init : bool then storage_init url
    else check trigger (Connect url) wrap errorf "connecting to NATS server"; check runServer cfg wrap errorf "running server"; Ret (Ok tt)).
Proof.
  assert (∀ ts, calls start_quiet (go_all ts)) as Hgo by (induction ts; cbn; [done|by split]).
  unfold storage_init, WaitForPostgres, RunMigrations, WaitForNATS, newRetrier, nats_once, migrate,
    runServer, NewStorageAPIServer, build_store, StorageAPIServer_Start, setup_one, watcher_Setup.
  repeat first [calls_step|apply Do_calls|apply Hgo]; done.
Qed.

Lemma storage_bracketed FromHumanSize cfg : wp any_answer (storage_main FromHumanSize cfg) [] (λ tr _, bracketed tr).
Proof.
  unfold storage_main. apply (wp_try _ (Ret _)). cbn [wp]. destruct (ParseLogLevel _); [|by left]. apply wp_embed.
  unfold storage_run. intros [[]|e] _; cbn [app]; [|right; left; by eauto]. unfold finally at 1. apply wp_bind.
  eapply (wp_frame _ _ [_]); [apply (calls_wp start_quiet); [|constructor]|].
  - apply calls_try; [by split|]. intros limit. apply calls_try; [unfold newDB; by repeat calls_step|]. intros config.
    unfold finally. apply calls_bind; [apply storage_quiet|by split].
  - intros mid r Hmid b _. cbn. rewrite fmap_app. right. right. eexists _, b. split; [reflexivity|].
    apply Forall_fmap. eapply Forall_impl; [exact Hmid|]. intros [A e c]. by destruct e.
Qed.

(** The worker: the calls that must have succeeded, in this order, before it consumes. *)
Section worker_facts.
Context `{!MapRange} {T : Type} (cfg : WorkerConfig) (registry_mode node_mode : gmap string T).
Abbreviation this_worker := (worker_main cfg registry_mode node_mode).

Lemma worker_bracketed : wp any_answer this_worker [] (λ tr _, bracketed tr).
Proof.
  unfold worker_main. apply (wp_try _ (Ret _)). cbn [wp]. destruct (ParseLogLevel _); [|by left]. apply telemetry_bracketed.
  unfold add_to_scheme, runHealthServer. quiet_calls.
Qed.

(** The consumer of its mode: the subjects it has handlers for, under its durable name. *)
Definition mode_consumer (c : ConsumerConfig) : Prop :=
  con_FilterSubjects c ≡ₚ (map_to_list (if bool_decide (wk_Mode cfg = "registry") then registry_mode else node_mode)).*1 ∧
  con_Durable c = (if bool_decide (wk_Mode cfg = "node") then sanitizeNodeSubscriberName (wk_NodeName cfg) else "worker") ∧
  con_AckWait c = 600000000000.

Definition worker_ready (c : ConsumerConfig) : trace MainEff :=
  [Ev (Starting TelemetrySetup) (Ok tt); Ev GetConfig tt; Ev (Nats (NatsConnect (wk_NatsURL cfg))) (Ok tt); Ev (Nats JetStreamNew) (Ok tt);
   Ev (Nats (CreateStream {| str_Name := "SBOMSCANNER"; str_WorkQueue := true; str_Subjects := ["sbomscanner.>"] |})) (Ok tt);
   Ev (AddToScheme "v1alpha1") (Ok tt); Ev (AddToScheme "storagev1alpha1") (Ok tt); Ev (AddToScheme "kubernetes") (Ok tt);
   Ev NewClient (Ok tt); Ev (Starting (NewInstrumentation "internal/handlers")) (Ok tt); Ev (Nats JetStreamNew) (Ok tt);
   Ev (Nats (CreateOrUpdateConsumer "SBOMSCANNER" c)) (Ok tt);
   Ev (ListenHealth ":8081" ["/livez/"; "/readyz/"]) tt].

(** Consuming begins after all of that, and not otherwise. *)
Definition consumes_ready (tr : trace MainEff) : Prop :=
  Forall (obs_call (λ A e, match e with Nats Consume => False | _ => True end)) tr ∨
  ∃ c a post, tr = worker_ready c ++ Ev (Nats Consume) a :: post ∧ mode_consumer c ∧
    Forall (obs_call (λ A e, match e with Nats Consume => False | _ => True end)) post.

Lemma worker_consumes : wp any_answer this_worker [] (λ tr _, consumes_ready tr).
Proof.
  unfold worker_main, worker_connect, worker_subscribe, with_telemetry, deferring. apply (wp_try _ (Ret _)). cbn [wp].
  destruct (ParseLogLevel _) as [level|]; [|by left; constructor].
  intros [[]|e] _; [|by left; repeat constructor]. cbn [app]. apply wp_bind, wp_bind. intros [] _. cbn [app wp].
  destruct (wk_Init cfg).
  { eapply wp_frame; [apply calls_wp; [by apply (embed_any _ (λ A e, match e with Nats Consume => False | _ => True end))|constructor]|].
    intros ext r Hext a _. left. apply Forall_app. split; [|by repeat constructor]. apply Forall_app. by split; [repeat constructor|]. }
  destruct (_ && _); [intros a _; by left; repeat constructor|].
  do 3 (intros [[]|?e] _; cbn [app]; [|intros ? _; by left; repeat constructor]).
  do 3 (intros [[]|?e] _; cbn [app]; [|intros ? _; by left; repeat constructor]).
  do 2 (intros [[]|?e] _; cbn [app]; [|intros ? _; by left; repeat constructor]).
  destruct (_ || _); [|intros ? _; by left; repeat constructor].
  do 2 (intros [[]|?e] _; cbn [app]; [|intros ? _; by left; repeat constructor]).
  intros [] _. intros [[]|e] _; cbn [app]; [intros [[]|e] _; cbn [app]|]; intros a _; right;
    (eexists _, _, _; split; [reflexivity|]; split; [|by repeat constructor]); (split; [apply range_perm|done]).
Qed.

(** Its calls to NATS are a run of [worker_run], as far as [Messaging] is concerned. *)
Lemma worker_nats : wp any_answer this_worker [] (λ tr r,
  if wk_Init cfg then omap ev_nats tr = []
  else r = Ok tt → runs (worker_run (wk_NatsURL cfg) (wk_Mode cfg) (wk_NodeName cfg) registry_mode node_mode) (omap ev_nats tr) (Ok tt)).
Proof.
  unfold worker_main, worker_run, worker_connect, worker_subscribe, with_telemetry, deferring. apply (wp_try _ (Ret _)). cbn [wp].
  destruct (ParseLogLevel _) as [level|]; [|by destruct (wk_Init cfg)].
  intros [[]|e] _; [|by destruct (wk_Init cfg)]. cbn [app]. apply wp_bind, wp_bind. intros [] _. cbn [app wp].
  destruct (wk_Init cfg).
  { eapply wp_frame; [apply (calls_wp (λ A e, match e with Nats _ => False | _ => True end)); [by apply embed_any|constructor]|].
    intros ext r Hext a _. cbn. rewrite !omap_app. cbn. rewrite app_nil_r. eapply omap_calls; [|exact Hext]. intros A e ans. by destruct e. }
  destruct (_ && _); [by intros a _|].
  do 3 (intros [[]|?e] _; cbn [app]; [|by intros ? _]).
  do 3 (intros [[]|?e] _; cbn [app]; [|by intros ? _]).
  do 2 (intros [[]|?e] _; cbn [app]; [|by intros ? _]).
  destruct (_ || _); [|by intros ? _].
  do 2 (intros [[]|?e] _; cbn [app]; [|by intros ? _]).
  intros [] _. intros [[]|e] _; cbn [app]; [|by intros ? _]. intros [[]|e] _; cbn [app]; [|by intros ? _]. intros a _ _.
  by repeat constructor.
Qed.
End worker_facts.

(** The MCP server: it listens with the credentials it has read, and only then. *)
Definition listens (cfg : McpConfig) (tr : trace MainEff) : Prop :=
  omap ev_listen tr = [] ∨
  ∃ username password,
    omap ev_read tr = [(mc_CredentialsDir cfg +:+ "/username", Ok username); (mc_CredentialsDir cfg +:+ "/password", Ok password)] ∧
    omap ev_listen tr = [(mc_Addr cfg, if mc_DisableTLS cfg then None else Some (mc_CertFile cfg, mc_KeyFile cfg),
                          (TrimSpace username, TrimSpace password), mc_ReadOnly cfg)].

Lemma mcp_listens cfg : wp any_answer (mcp_run cfg) [] (λ tr _, listens cfg tr).
Proof.
  unfold mcp_run, with_telemetry, deferring. intros [[]|e] _; [|by left].
  do 3 (intros [[]|?e] _; cbn [app]; [|intros ? _; by left]). intros [] _.
  do 1 (intros [[]|?e] _; cbn [app]; [|intros ? _; by left]).
  intros [username|e] _; cbn [app]; [|intros ? _; by left]. intros [password|e] _; cbn [app]; [|intros ? _; by left].
  intros [|e] _; cbn [app]; intros ? _; right; by exists username, password.
Qed.

(** [C17] No process works before everything is in place.  Whatever its environment
    answers: the controller starts its manager only after the six indexes, the
    reconcilers and runners of the core and of the features that are on, all
    five webhooks (also those of features that are off, those of registries and
    scan jobs with the account they trust) and both checks were set up, in this
    order and without an error, stops at the first error, and sets up nothing in an
    initialisation; its manager serves metrics and webhooks without HTTP/2 unless
    it is enabled, and asks for authentication where metrics are secure.  The
    worker consumes messages only after the stream, the client and the consumer
    of its mode were made and its health server runs, and a run that succeeds
    makes the calls to NATS of [worker_run].  The MCP server listens at most once,
    with TLS unless it is disabled and with the credentials it has read.  Each of
    them, and the storage, shuts its telemetry down last, and once, if it was set up. *)
Theorem processes_start_whole `{!MapRange} {T W} (h : handler MainEff W) (w : W) :
  (∀ cfg, let tr := run_trace h (controller_run cfg) w in
     set_up cfg (omap ev_mgr tr) (run_result h (controller_run cfg) w) ∧ Forall (secured cfg) (omap ev_manager tr) ∧ bracketed tr) ∧
  (∀ cfg (registry_mode node_mode : gmap string T),
     let tr := run_trace h (worker_main cfg registry_mode node_mode) w in
     let r := run_result h (worker_main cfg registry_mode node_mode) w in
     consumes_ready cfg registry_mode node_mode tr ∧
     (if wk_Init cfg then omap ev_nats tr = []
      else r = Ok tt →
        runs (worker_run (wk_NatsURL cfg) (wk_Mode cfg) (wk_NodeName cfg) registry_mode node_mode) (omap ev_nats tr) (Ok tt)) ∧
     bracketed tr) ∧
  (∀ cfg, let tr := run_trace h (mcp_run cfg) w in listens cfg tr ∧ bracketed tr) ∧
  (∀ FromHumanSize cfg, bracketed (run_trace h (storage_main FromHumanSize cfg) w)).
Proof.
  cbv zeta. split_and!; intros.
  - split_and!.
    + apply (wp_run_any h _ w _ (controller_set_up cfg)).
    + apply (wp_run_any h _ w _ (controller_secured cfg)).
    + apply (wp_run_any h _ w _ (controller_bracketed cfg)).
  - split_and!.
    + apply (wp_run_any h _ w _ (worker_consumes cfg registry_mode node_mode)).
    + apply (wp_run_any h _ w _ (worker_nats cfg registry_mode node_mode)).
    + apply (wp_run_any h _ w _ (worker_bracketed cfg registry_mode node_mode)).
  - split; [apply (wp_run_any h _ w _ (mcp_listens cfg))|apply (wp_run_any h _ w _ (mcp_bracketed cfg))].
  - apply (wp_run_any h _ w _ (storage_bracketed FromHumanSize cfg)).
Qed.

(** The defaults are configurations a process can run with. *)
Lemma defaults_run :
  ParseLogLevel (cc_LogLevel controller_defaults) = Ok LevelInfo ∧ ParseLogLevel (wk_LogLevel worker_defaults) = Ok LevelInfo ∧
  mcp_level mcp_defaults = LevelInfo ∧ (wk_Mode worker_defaults = registryMode) ∧
  tls_options controller_defaults = [disableHTTP2] ∧ mc_DisableTLS mcp_defaults = false.
Proof. by vm_compute. Qed.
End facts.
