(* ===== verification/TelemetrySetup.v ===== *)
(** * Setting telemetry up

    [src/internal/telemetry/otel.go] (the exporters and the providers of a
    process), [jobs.go] ([NewJobMetrics]) and [slog.go] (the identifiers on
    log records). *)

From stdpp Require Import prelude gmap strings list.
From S2P Require Import Prelude Prog Conditions Meta ScanJob NodeScanJob Effects Telemetry.
Open Scope Z_scope.

(** ** Setup *)

Inductive InstrumentKind := KindCounter | KindUpDownCounter | KindHistogram | KindGauge | KindObservable.
Inductive Aggregation := DefaultAggregation | Base2ExponentialHistogram (maxSize maxScale : Z).

(** The providers [Setup] makes. *)
Inductive provider := TracerProvider | ClientProvider | MeterProvider.

(** The calls to the environment and to the SDK.  An exporter and a resource are known by numbers. *)
Inductive OtelEff : Type → Type :=
| SetTextMapPropagator : OtelEff unit
| Getenv (name : string) : OtelEff string
| Hostname : OtelEff (result string)
| ResourceNew (attrs : list (string * string)) : OtelEff (option Z * option error)
| NewTraceExporter : OtelEff (result Z)
| NewMetricExporter (selector : option (InstrumentKind → Aggregation)) : OtelEff (result Z)
| ShutdownExporter (exporter : Z) : OtelEff (result unit)
| SetTracerProvider (exporter resource : Z) : OtelEff unit
| NewClientProvider (exporter resource : Z) : OtelEff unit
| SetMeterProvider (exporter resource : Z) (producers : list string) : OtelEff unit
| ShutdownProvider (p : provider) : OtelEff (result unit).

Abbreviation otel := (prog OtelEff).

Definition envOTLPEndpoint := "OTEL_EXPORTER_OTLP_ENDPOINT".
Definition envHistogramAggregation := "OTEL_EXPORTER_OTLP_METRICS_DEFAULT_HISTOGRAM_AGGREGATION".

Definition histogramAggregationSelector (kind : InstrumentKind) : Aggregation :=
  match kind with KindHistogram => Base2ExponentialHistogram 160 20 | _ => DefaultAggregation end.

(** The variables and the keys of the semantic conventions. *)
Definition downwardAPIEnv : list (string * string) := [
  ("K8S_POD_NAME", "k8s.pod.name"); ("K8S_POD_NAMESPACE", "k8s.namespace.name"); ("K8S_NODE_NAME", "k8s.node.name");
  ("K8S_POD_UID", "k8s.pod.uid"); ("K8S_CONTAINER_NAME", "k8s.container.name")].

Definition instanceID : otel string :=
  namespace ← trigger (Getenv "K8S_POD_NAMESPACE");
  name ← trigger (Getenv "K8S_POD_NAME");
  if negb (bool_decide (namespace = "")) && negb (bool_decide (name = "")) then Ret (namespace +:+ "/" +:+ name)
  else if negb (bool_decide (name = "")) then Ret name
  else
    hostname ← trigger Hostname;
    match hostname with Err _ => Ret "unknown" | Ok h => Ret h end.

Fixpoint downward_attributes (attrs : list (string * string)) (env : list (string * string)) : otel (list (string * string)) :=
  match env with
  | [] => Ret attrs
  | e :: env =>
      v ← trigger (Getenv e.1);
      downward_attributes (if bool_decide (v = "") then attrs else attrs ++ [(e.2, v)]) env
  end.

Definition buildResource (serviceName serviceVersion : string) : otel (result Z) :=
  id ← instanceID;
  attrs ← downward_attributes [("service.name", serviceName); ("service.version", serviceVersion); ("service.instance.id", id)]
            downwardAPIEnv;
  r ← trigger (ResourceNew attrs);
  match r with
  | (None, Some err) => Ret (Err (errorf "creating otel resource" err))
  | (Some res, _) => Ret (Ok res)
  | (None, None) => Ret (Ok 0) (* a nil resource *)
  end.

(** [ShutdownFunc]: nothing, or the three providers. *)
Inductive ShutdownFunc := NoShutdown | ShutdownProviders.

(** [errors.Join] of results. *)
Definition join_results (rs : list (result unit)) : result unit :=
  match omap (λ r, match r with Err e => Some e | Ok _ => None end) rs with
  | [] => Ok tt
  | e :: _ => Err (errorf "joined" e)
  end.

Definition Setup (serviceName serviceVersion : string) (producers : list string) : otel (result ShutdownFunc) :=
  _ ← trigger SetTextMapPropagator;
  endpoint ← trigger (Getenv envOTLPEndpoint);
  if bool_decide (endpoint = "") then Ret (Ok NoShutdown)
  else
    res ←? buildResource serviceName serviceVersion wrap errorf "building otel resource";
    traceExporter ←? trigger NewTraceExporter wrap errorf "creating OTLP trace exporter";
    aggregation ← trigger (Getenv envHistogramAggregation);
    m ← trigger (NewMetricExporter (if bool_decide (aggregation = "") then Some histogramAggregationSelector else None));
    match m with
    | Err err =>
        rollback ← trigger (ShutdownExporter traceExporter);
        Ret (Err (match join_results [Err (errorf "creating OTLP metric exporter" err); rollback] with Err e => e | Ok _ => err end))
    | Ok metricExporter =>
        _ ← trigger (SetTracerProvider traceExporter res);
        _ ← trigger (NewClientProvider traceExporter res);
        _ ← trigger (SetMeterProvider metricExporter res producers);
        Ret (Ok ShutdownProviders)
    end.

Definition shutdown (f : ShutdownFunc) : otel (result unit) :=
  match f with
  | NoShutdown => Ret (Ok tt)
  | ShutdownProviders =>
      a ← trigger (ShutdownProvider TracerProvider);
      b ← trigger (ShutdownProvider ClientProvider);
      c ← trigger (ShutdownProvider MeterProvider);
      Ret (join_results [a; b; c])
  end.

(** ** Facts *)

Definition ev_exporter (o : obs OtelEff) : option Z := match o with Ev NewTraceExporter (Ok x) => Some x | _ => None end.
Definition ev_exporter_shutdown (o : obs OtelEff) : option Z := match o with Ev (ShutdownExporter x) _ => Some x | _ => None end.
Definition ev_provider (o : obs OtelEff) : option provider :=
  match o with
  | Ev (SetTracerProvider _ _) _ => Some TracerProvider
  | Ev (NewClientProvider _ _) _ => Some ClientProvider
  | Ev (SetMeterProvider _ _ _) _ => Some MeterProvider
  | _ => None
  end.
Definition ev_provider_shutdown (o : obs OtelEff) : option provider := match o with Ev (ShutdownProvider p) _ => Some p | _ => None end.

(** Calls that make no exporter and install nothing. *)
Definition asks A (e : OtelEff A) : Prop := match e with Getenv _ | Hostname | ResourceNew _ => True | _ => False end.

Lemma downward_asks attrs env : calls asks (downward_attributes attrs env).
Proof. revert attrs. induction env as [|e env IH]; intros attrs; cbn; [done|]. split; [done|]. intros v. apply IH. Qed.

Lemma buildResource_asks name version : calls asks (buildResource name version).
Proof.
  unfold buildResource, instanceID. repeat first [calls_step|apply downward_asks]; done.
Qed.

Lemma asks_quiet ext : Forall (obs_call asks) ext →
  omap ev_exporter ext = [] ∧ omap ev_exporter_shutdown ext = [] ∧ omap ev_provider ext = [].
Proof. intros Hext. split_and!; (eapply omap_calls; [|exact Hext]); intros A e a He; by destruct e. Qed.

Lemma join_ok rs : is_ok (join_results rs) = forallb is_ok rs.
Proof. unfold join_results. induction rs as [|[[]|e] rs IH]; cbn; done. Qed.

(** Telemetry is installed whole or not at all.  Whatever the environment
    answers: the propagator is installed first; with no endpoint nothing else
    is, and the set-up succeeds; a set-up that fails installs no provider and
    shuts down the trace exporter if it made one; a set-up that succeeds keeps
    its exporter and installs the three providers, which its shutdown function
    shuts down, all three, whichever of them fails, and it reports a failure
    exactly when one does. *)
Theorem telemetry_whole {W} (h : handler OtelEff W) (w : W) (name version : string) (producers : list string) :
  let tr := run_trace h (Setup name version producers) w in
  (∃ endpoint rest, tr = Ev SetTextMapPropagator tt :: Ev (Getenv envOTLPEndpoint) endpoint :: rest ∧
    (endpoint = "" → rest = [] ∧ run_result h (Setup name version producers) w = Ok NoShutdown)) ∧
  match run_result h (Setup name version producers) w with
  | Err _ => omap ev_provider tr = [] ∧ omap ev_exporter tr = omap ev_exporter_shutdown tr
  | Ok f => omap ev_exporter_shutdown tr = [] ∧
      ∀ w', omap ev_provider_shutdown (run_trace h (shutdown f) w') = omap ev_provider tr
  end.
Proof.
  wp_start. unfold Setup. apply wp_bind. intros [] _. apply wp_bind. intros endpoint _. cbn [wp app]. case_bool_decide as He.
  { subst endpoint. cbn. split; [by eexists _, _|done]. }
  apply wp_try. eapply wp_frame; [apply calls_wp; [apply buildResource_asks|constructor]|].
  assert (∀ w', omap ev_provider_shutdown (run_trace h (shutdown ShutdownProviders) w') = [TracerProvider; ClientProvider; MeterProvider]) as Hsh.
  { intros w'. wp_start. by intros a _ b _ c _. }
  intros ext r (E1 & E2 & E3)%asks_quiet. destruct r as [res|e]; cbn.
  2: { split; [by eexists _, _|]. by rewrite E1, E2, E3. }
  intros [x|e] _; cbn; [|split; [by eexists _, _|]; by rewrite !omap_app, E1, E2, E3].
  intros agg _ [y|e] _; cbn.
  - intros [] _ [] _ [] _. split; [by eexists _, _|]. rewrite !omap_app, E2, E3. cbn. split; [done|]. apply Hsh.
  - intros rb _. split; [by eexists _, _|]. rewrite !omap_app, E1, E2, E3. done.
Qed.

(** ** Counters of jobs *)

Definition jobResults : list string := ["complete"; "failed"].
Definition scanJobSources : list string := ["registry"; "workload"].

(** The series [NewJobMetrics] creates at zero. *)
Definition scanjob_series : list (string * string) := result ← jobResults; source ← scanJobSources; [(result, source)].
Definition nodescanjob_series : list string := jobResults.

(** The counters of jobs have a bounded set of series, all of them there from the
    start: a job that finishes is counted under one of them, once. *)
Theorem series_precreated {W} (h : handler Eff W) (w : W) (s : ScanJob) (n : NodeScanJob) :
  (∃ l, l ∈ scanjob_series ∧
     run_trace h (RecordScanJobFinished s) w = if JobFinished s then [Ev (CountScanJob l.1 l.2) (h _ (CountScanJob l.1 l.2) w).1] else []) ∧
  ∃ l, l ∈ nodescanjob_series ∧
     run_trace h (RecordNodeScanJobFinished n) w = if JobFinished n then [Ev (CountNodeScanJob l) (h _ (CountNodeScanJob l) w).1] else [].
Proof.
  assert (∀ b : bool, (if b then "failed" else "complete") ∈ jobResults) as Hr by (intros []; cbn; set_solver).
  split.
  - exists (jobResult s, scanJobSource s). split.
    + unfold scanjob_series. apply list_elem_of_bind. exists (jobResult s). split; [|apply Hr].
      apply list_elem_of_bind. exists (scanJobSource s). split; [by left|]. unfold scanJobSource, scanJobSources. case_bool_decide; set_solver.
    + unfold RecordScanJobFinished. destruct (JobFinished s); cbn; [|done]. unfold run_trace. cbn. by destruct (h _ _ _).
  - exists (jobResult n). split; [apply Hr|].
    unfold RecordNodeScanJobFinished. destruct (JobFinished n); cbn; [|done]. unfold run_trace. cbn. by destruct (h _ _ _).
Qed.

(** ** Log records *)

Definition traceIDKey := "trace_id".
Definition spanIDKey := "span_id".

(** A record, with its attributes in order. *)
Record LogRecord := { lr_Message : string; lr_Attrs : list (string * string) }.

Section logs.
Context `{!Propagation} (ids : SpanContext → string * string).

(** [traceContextHandler.Handle], over an inner handler; the record is copied
    before it is changed. *)
Definition traceContextHandler_Handle {E} (inner : Ctx → LogRecord → prog E (result unit)) (ctx : Ctx) (record : LogRecord)
  : prog E (result unit) :=
  let record :=
    match SpanContextFromContext ctx with
    | Some sc => {| lr_Message := lr_Message record; lr_Attrs := lr_Attrs record ++ [(traceIDKey, (ids sc).1); (spanIDKey, (ids sc).2)] |}
    | None => record
    end in
  check inner ctx record wrap errorf "inner slog handler";
  Ret (Ok tt).
End logs.
