(* ===== verification/Interleaving.v ===== *)
(** * Programs that run at the same time

    The processes of SBOMscanner run many programs at once: reconciliations,
    ticks of the runners and deliveries of messages, in several replicas.  A pool
    of programs takes a step when one of them makes its next call and the
    environment answers it.  A program can stop at any call (its process was
    killed), and the environment can change by itself (users, other clients).

    The rule of this file reduces an invariant of all reachable states to a
    property of each program alone: knowing what its answers say, every call it
    makes is one the invariant allows. *)

From stdpp Require Import prelude list relations.
From S2P Require Import Prelude Prog.

(** ** Calls that are allowed *)

Section safe.
Context {E : Type → Type}.

(** Every call of [p] satisfies [P], as long as the answers satisfy [legal]. *)
Fixpoint safe (legal : legality E) (P : ∀ A, E A → Prop) {R} (p : prog E R) : Prop :=
  match p with
  | Ret _ => True
  | Vis e k => P _ e ∧ ∀ a, legal _ e a → safe legal P (k a)
  end.

Lemma safe_mono (legal legal' : legality E) (P P' : ∀ A, E A → Prop) {R} (p : prog E R) :
  (∀ A e a, legal' A e a → legal A e a) → (∀ A e, P A e → P' A e) → safe legal P p → safe legal' P' p.
Proof. intros Hl HP. induction p as [r|A e k IH]; cbn; [done|]. intros [He Hk]. split; [by apply HP|]. auto. Qed.

Lemma safe_bind legal P {A B} (p : prog E A) (k : A → prog E B) :
  safe legal P p → (∀ a, safe legal P (k a)) → safe legal P (p ≫= k).
Proof.
  intros Hp Hk. induction p as [r|A' e k' IH]; [apply Hk|]. destruct Hp as [He Hp]. split; [done|]. intros a Ha. apply IH, Hp, Ha.
Qed.

Lemma safe_try legal P {A B} (p : prog E (result A)) w (k : A → prog E (result B)) :
  safe legal P p → (∀ a, safe legal P (k a)) → safe legal P (try_bind p w k).
Proof. intros Hp Hk. apply safe_bind; [done|]. by intros [a|e]; [apply Hk|]. Qed.

Lemma calls_safe legal P {R} (p : prog E R) : calls P p → safe legal P p.
Proof. induction p as [r|A e k IH]; cbn; [done|]. intros [He Hk]. split; [done|]. intros a _. apply IH, Hk. Qed.

(** A call whose answer the rest can rely on. *)
Lemma safe_call (legal : legality E) (P : ∀ A, E A → Prop) {A B} (e : E A) (k : A → prog E B) :
  P A e → (∀ a, legal A e a → safe legal P (k a)) → safe legal P (trigger e ≫= k).
Proof. by split. Qed.

Lemma safe_try_call (legal : legality E) (P : ∀ A, E A → Prop) {A B} (e : E (result A)) w (k : A → prog E (result B)) :
  P _ e → (∀ a, legal _ e (Ok a) → safe legal P (k a)) → safe legal P (try_bind (trigger e) w k).
Proof. intros He Hk. apply safe_call; [done|]. intros [a|err] Ha; [by apply Hk|done]. Qed.

(** A part whose result the rest can rely on. *)
Lemma safe_seq {A B} (Q : A → Prop) legal P (p : prog E A) (k : A → prog E B) :
  safe legal P p → wp legal p [] (λ _, Q) → (∀ a, Q a → safe legal P (k a)) → safe legal P (p ≫= k).
Proof.
  intros Hs Hw Hk. revert Hw. generalize (@nil (obs E)). induction p as [r|A' e k' IH]; intros tr Hw; [by apply Hk|].
  destruct Hs as [He Hs]. split; [done|]. intros a Ha. by eapply (IH a (Hs a Ha)), Hw.
Qed.

(** A property that every completed run has of its calls is one of every call, if
    every call can be answered. *)
Section answered.
Context (answer : ∀ A, E A → A).

Lemma wp_some_run {R} (p : prog E R) tr Q : wp any_answer p tr Q → ∃ ext r, Q (tr ++ ext) r.
Proof.
  revert tr. induction p as [r|A e k IH]; intros tr; cbn; [exists [], r; by rewrite app_nil_r|].
  intros Hw. destruct (IH _ _ (Hw (answer A e) I)) as (ext & r & HQ). rewrite <- app_assoc in HQ. eauto.
Qed.

Lemma wp_safe legal P {R} (p : prog E R) tr :
  wp any_answer p tr (λ tr _, Forall (obs_call P) tr) → safe legal P p.
Proof.
  revert tr. induction p as [r|A e k IH]; intros tr; cbn; [done|]. intros Hw. split.
  - destruct (wp_some_run _ _ _ (Hw (answer A e) I)) as (ext & r & HF).
    apply Forall_app in HF as [HF _]. apply Forall_app in HF as [_ HF]. by inversion HF.
  - intros a _. by eapply IH, Hw.
Qed.
End answered.

Lemma safe_for_each legal P {S X} (body : S → X → prog E (result S)) l :
  (∀ s x, safe legal P (body s x)) → ∀ s, safe legal P (for_each body s l).
Proof.
  intros Hbody. induction l as [|x l IH]; intros s; [done|]. cbn [for_each].
  apply safe_bind; [apply Hbody|]. intros [s'|e]; [apply IH|done].
Qed.

Lemma safe_for_ret legal P {R S X} (body : S → X → prog E (R + S)) l :
  (∀ s x, safe legal P (body s x)) → ∀ s, safe legal P (for_ret body s l).
Proof.
  intros Hbody. induction l as [|x l IH]; intros s; [done|]. cbn [for_ret].
  apply safe_bind; [apply Hbody|]. intros [r|s']; [done|apply IH].
Qed.

Lemma safe_retry `{!Retry} legal P {A} (fn : prog E (result A)) : safe legal P fn → safe legal P (RetryOnConflict fn).
Proof.
  intros Hfn. destruct (RetryOnConflict_spec fn) as [n ->].
  induction n as [|n IH]; cbn [attempts]; (apply safe_bind; [done|]); intros [a|e]; try done; by destruct (IsConflict e).
Qed.
End safe.

(** Goes through a program made of the combinators above; leaves the calls. *)
Ltac safe_step :=
  lazymatch goal with
  | |- safe _ _ (Ret _) => exact I
  | |- safe _ _ (trigger _) => split; [|intros ? ?; exact I]
  | |- safe _ _ (try_bind (trigger _) _ _) => apply safe_try_call; [|intros ? ?]
  | |- safe _ _ (try_bind _ _ _) => apply safe_try; [|intros ?]
  | |- safe _ _ (trigger _ ≫= _) => apply safe_call; [|intros ? ?]
  | |- safe _ _ (_ ≫= _) => apply safe_bind; [|intros ?]
  | |- safe _ _ (for_each _ _ _) => apply safe_for_each; intros ? ?
  | |- safe _ _ (for_ret _ _ _) => apply safe_for_ret; intros ? ?
  | |- safe _ _ (RetryOnConflict _) => apply safe_retry
  | |- safe _ _ (match ?r with _ => _ end) => destruct r eqn:?
  | |- safe _ _ (let _ := _ in _) => cbv zeta
  end.

(** ** What a program achieves *)

Section achieves.
Context {E : Type → Type} {S : Type} (serves : S → ∀ A, E A → A → S → Prop).

(** Run alone, [p] is always answered, ends, and leaves [Q]. *)
Fixpoint achieves {R} (p : prog E R) (s : S) (Q : R → S → Prop) : Prop :=
  match p with
  | Ret r => Q r s
  | Vis e k => (∃ a s', serves s _ e a s') ∧ ∀ a s', serves s _ e a s' → achieves (k a) s' Q
  end.

Lemma achieves_mono {R} (p : prog E R) s (Q Q' : R → S → Prop) :
  (∀ r s, Q r s → Q' r s) → achieves p s Q → achieves p s Q'.
Proof.
  intros HQ. revert s. induction p as [r|A e k IH]; intros s; cbn; [apply HQ|]. intros [Ha Hk]. split; [done|]. eauto.
Qed.

Lemma achieves_bind {A B} (p : prog E A) (k : A → prog E B) s Q :
  achieves p s (λ a s', achieves (k a) s' Q) → achieves (p ≫= k) s Q.
Proof.
  revert s. induction p as [r|A' e k' IH]; intros s; [done|]. intros [Ha Hk]. split; [done|]. intros a s' Hs. by eapply IH, Hk.
Qed.

(** One call, answered by [a] only, up to [M]. *)
Lemma achieves_call {A B} (M : A → S → Prop) (e : E A) (k : A → prog E B) s Q :
  (∃ a s', serves s A e a s') → (∀ a s', serves s A e a s' → M a s') → (∀ a s', M a s' → achieves (k a) s' Q) →
  achieves (trigger e ≫= k) s Q.
Proof. intros Ha HM Hk. split; [done|]. intros a s' Hs. by apply Hk, HM. Qed.

Lemma achieves_try_call {A B} (M : A → S → Prop) (e : E (result A)) w (k : A → prog E (result B)) s Q :
  (∃ a s', serves s _ e a s') → (∀ a s', serves s _ e a s' → ∃ x, a = Ok x ∧ M x s') →
  (∀ a s', M a s' → achieves (k a) s' Q) → achieves (try_bind (trigger e) w k) s Q.
Proof. intros Ha HM Hk. split; [done|]. intros a s' Hs. destruct (HM a s' Hs) as (x & -> & Hx). by apply Hk. Qed.
End achieves.

(** ** The pool *)

Section pool.
Context {E : Type → Type} {S : Type}.
(** The programs that can be started, the answers of the environment with the
    state they leave, and the changes it makes by itself. *)
Context (program : prog E unit → Prop) (serves : S → ∀ A, E A → A → S → Prop) (changes : S → S → Prop).

Inductive step : list (prog E unit) * S → list (prog E unit) * S → Prop :=
| step_start p pool s : program p → step (pool, s) (pool ++ [p], s)
| step_call before {A} (e : E A) k after s a s' :
    serves s A e a s' → step (before ++ Vis e k :: after, s) (before ++ k a :: after, s')
| step_stop before p after s : step (before ++ p :: after, s) (before ++ after, s)
| step_change pool s s' : changes s s' → step (pool, s) (pool, s').

Definition reachable (s0 : S) (pool : list (prog E unit)) (s : S) : Prop := rtc step ([], s0) (pool, s).

(** What a program achieves against an environment that does not fail, it can
    achieve in the pool. *)
Lemma achieves_steps (healthy : S → ∀ A, E A → A → S → Prop) (p : prog E unit) before after s Q :
  (∀ s A e a s', healthy s A e a s' → serves s A e a s') → achieves healthy p s Q →
  ∃ s', Q tt s' ∧ rtc step (before ++ p :: after, s) (before ++ Ret tt :: after, s').
Proof.
  intros Hh. revert s. induction p as [[]|A e k IH]; intros s; cbn; [by eauto using rtc_refl|].
  intros [(a & s' & Ha) Hk]. destruct (IH a s' (Hk a s' Ha)) as (s'' & HQ & Hr). exists s''. split; [done|].
  eapply rtc_l; [|exact Hr]. constructor. auto.
Qed.

(** So is what it does against one that answers by a function. *)
Lemma run_steps (h : handler E S) (p : prog E unit) before after s :
  (∀ A e s, serves s A e (h A e s).1 (h A e s).2) →
  rtc step (before ++ p :: after, s) (before ++ Ret tt :: after, run_state h p s).
Proof.
  intros Hh. unfold run_state. revert s. induction p as [[]|A e k IH]; intros s; cbn; [by apply rtc_refl|].
  specialize (Hh A e s). destruct (h A e s) as [a s'] eqn:Ha. cbn in Hh. specialize (IH a s').
  destruct (run h (k a) s') as [[tr r] s'']. eapply rtc_l; [by constructor|exact IH].
Qed.

(** The first [n] calls of a program, and the rest of it. *)
Fixpoint advance (h : handler E S) (n : nat) (p : prog E unit) (s : S) : prog E unit * S :=
  match n, p with
  | Datatypes.S n, Vis e k => let '(a, s') := h _ e s in advance h n (k a) s'
  | _, _ => (p, s)
  end.

Lemma advance_steps (h : handler E S) n p before after s :
  (∀ A e s, serves s A e (h A e s).1 (h A e s).2) →
  rtc step (before ++ p :: after, s) (before ++ (advance h n p s).1 :: after, (advance h n p s).2).
Proof.
  intros Hh. revert p s. induction n as [|n IH]; intros p s; [by apply rtc_refl|].
  destruct p as [r|A e k]; [by apply rtc_refl|]. cbn. specialize (Hh A e s). destruct (h A e s) as [a s'] eqn:Ha.
  eapply rtc_l; [by constructor|apply IH].
Qed.

(** ** The rule *)

Context (later : S → S → Prop) `{!PreOrder later}.
Context (knows : S → legality E) (allowed : S → ∀ A, E A → Prop) (Inv : S → Prop).

(** What an answer says stays true. *)
Hypothesis knows_later : ∀ s s' A (e : E A) a, later s s' → knows s A e a → knows s' A e a.
(** The environment answers allowed calls truly, and keeps the invariant. *)
Hypothesis serves_ok : ∀ s A (e : E A) a s', Inv s → allowed s A e → serves s A e a s' → later s s' ∧ Inv s' ∧ knows s' A e a.
Hypothesis changes_ok : ∀ s s', Inv s → changes s s' → later s s' ∧ Inv s'.
(** Each program keeps to the allowed calls. *)
Hypothesis program_ok : ∀ p s, program p → safe (knows s) (allowed s) p.

(** The rest of a program keeps to them from now on. *)
Definition behaves (s : S) (p : prog E unit) : Prop := ∀ s', later s s' → safe (knows s') (allowed s') p.

Lemma behaves_later s s' p : later s s' → behaves s p → behaves s' p.
Proof. intros Hl Hp s'' Hl'. apply Hp. by etrans. Qed.

Lemma step_invariant c c' :
  step c c' → Inv c.2 ∧ Forall (behaves c.2) c.1 → Inv c'.2 ∧ Forall (behaves c'.2) c'.1.
Proof.
  intros [p pool s Hp|before A e k after s a s' Hs|before p after s|pool s s' Hc] [HI HF]; cbn in *.
  - split; [done|]. apply Forall_app. split; [done|]. constructor; [|done]. intros s' _. by apply program_ok.
  - apply Forall_app in HF as [HF1 HF2]. inversion HF2 as [|? ? Hp HF3]; subst.
    destruct (Hp s ltac:(done)) as [Ha _]. destruct (serves_ok _ _ _ _ _ HI Ha Hs) as (Hl & HI' & Hk).
    split; [done|]. apply Forall_app. split; [eapply Forall_impl; [exact HF1|]; eauto using behaves_later|].
    constructor; [|eapply Forall_impl; [exact HF3|]; eauto using behaves_later].
    intros s'' Hl'. destruct (Hp s'' ltac:(by etrans)) as [_ Hrest]. apply Hrest. eauto.
  - split; [done|]. apply Forall_app in HF as [HF1 HF2]. inversion HF2; subst. by apply Forall_app.
  - destruct (changes_ok _ _ HI Hc) as [Hl HI']. split; [done|]. eapply Forall_impl; [exact HF|]. eauto using behaves_later.
Qed.

Theorem pool_invariant s0 pool s : Inv s0 → reachable s0 pool s → Inv s.
Proof.
  intros H0 Hr. enough (Inv (pool, s).2 ∧ Forall (behaves (pool, s).2) (pool, s).1) by tauto.
  revert Hr. unfold reachable. apply (rtc_ind_r (λ c, Inv c.2 ∧ Forall (behaves c.2) c.1)).
  - by split.
  - intros c c' _ Hs IH. by eapply step_invariant.
Qed.
End pool.

(** ** Histories

    The same pool with what each program has seen: its calls so far with their
    answers.  [log] keeps what every program, running or not, had seen at each of
    its calls. *)

Section history.
Context {E : Type → Type} {S : Type}.
Context (program : prog E unit → Prop) (serves : S → ∀ A, E A → A → S → Prop) (changes : S → S → Prop).

Record history := { hs_pool : list (trace E * prog E unit); hs_log : list (trace E); hs_state : S }.

Inductive hstep : history → history → Prop :=
| hstep_start p pool log s :
    program p → hstep {| hs_pool := pool; hs_log := log; hs_state := s |} {| hs_pool := pool ++ [([], p)]; hs_log := log; hs_state := s |}
| hstep_call before tr {A} (e : E A) k after log s a s' :
    serves s A e a s' →
    hstep {| hs_pool := before ++ (tr, Vis e k) :: after; hs_log := log; hs_state := s |}
          {| hs_pool := before ++ (tr ++ [Ev e a], k a) :: after; hs_log := (tr ++ [Ev e a]) :: log; hs_state := s' |}
| hstep_stop before p after log s :
    hstep {| hs_pool := before ++ p :: after; hs_log := log; hs_state := s |} {| hs_pool := before ++ after; hs_log := log; hs_state := s |}
| hstep_change pool log s s' :
    changes s s' → hstep {| hs_pool := pool; hs_log := log; hs_state := s |} {| hs_pool := pool; hs_log := log; hs_state := s' |}.

Definition beginning (s0 : S) : history := {| hs_pool := []; hs_log := []; hs_state := s0 |}.
Definition happens (s0 : S) (h : history) : Prop := rtc hstep (beginning s0) h.

Definition plainly (h : history) : list (prog E unit) * S := ((hs_pool h).*2, hs_state h).

Lemma hstep_step h h' : hstep h h' → step program serves changes (plainly h) (plainly h').
Proof.
  intros [p pool log s Hp|before tr A e k after log s a s' Hs|before p after log s|pool log s s' Hc]; unfold plainly; cbn;
    rewrite ?fmap_app; by constructor.
Qed.

(** Every reachable state has a history, and a history reaches its state. *)
Lemma happens_reachable s0 h : happens s0 h → reachable program serves changes s0 (hs_pool h).*2 (hs_state h).
Proof. intros Hh. unfold reachable. change (rtc (step program serves changes) (plainly (beginning s0)) (plainly h)).
  eapply rtc_congruence; [|exact Hh]. intros x y. apply hstep_step. Qed.

Lemma step_hstep h c' : step program serves changes (plainly h) c' → ∃ h', hstep h h' ∧ plainly h' = c'.
Proof.
  destruct h as [pool log s]. intros Hs. remember (plainly _) as c eqn:Hc. revert Hc. unfold plainly. cbn.
  destruct Hs as [p pool' s' Hp|before A e k after s' a s'' Hs|before p after s'|pool' s' s'' Hc']; intros [= Hpool ->].
  - eexists. split; [by apply hstep_start|]. cbn. by rewrite fmap_app, Hpool.
  - symmetry in Hpool. apply fmap_app_inv in Hpool as (pool1 & pool2 & -> & Hp2 & ->).
    symmetry in Hp2. apply fmap_cons_inv in Hp2 as ([tr p] & pool3 & Hp & -> & ->). cbn in Hp. subst.
    eexists. split; [by eapply hstep_call|]. cbn. by rewrite fmap_app.
  - symmetry in Hpool. apply fmap_app_inv in Hpool as (pool1 & pool2 & -> & Hp2 & ->).
    symmetry in Hp2. apply fmap_cons_inv in Hp2 as ([tr p'] & pool3 & _ & -> & ->).
    eexists. split; [by eapply hstep_stop|]. cbn. by rewrite fmap_app.
  - eexists. split; [by eapply hstep_change|]. cbn. by rewrite Hpool.
Qed.

Lemma reachable_happens s0 pool s : reachable program serves changes s0 pool s → ∃ h, happens s0 h ∧ plainly h = (pool, s).
Proof.
  unfold reachable. apply (rtc_ind_r (λ c, ∃ h, happens s0 h ∧ plainly h = c)).
  { exists (beginning s0). split; [apply rtc_refl|done]. }
  intros c c' _ Hs (h & Hh & <-). destruct (step_hstep h c' Hs) as (h' & Hh' & <-). exists h'. split; [|done]. by eapply rtc_r.
Qed.

(** What is left of a program after some calls. *)
Inductive leaves : prog E unit → trace E → prog E unit → Prop :=
| leaves_all p : leaves p [] p
| leaves_call {A} (e : E A) k a tr q : leaves (k a) tr q → leaves (Vis e k) (Ev e a :: tr) q.

Lemma leaves_snoc p tr {A} (e : E A) k a : leaves p tr (Vis e k) → leaves p (tr ++ [Ev e a]) (k a).
Proof.
  remember (Vis e k) as q eqn:Hq. induction 1 as [p|A' e' k' a' tr q Hl IH]; subst; [by repeat constructor|].
  cbn. constructor. by apply IH.
Qed.

(** What is proved of its complete runs holds of one that goes on from here. *)
Lemma leaves_wp (answer : ∀ A, E A → A) p tr q (Q : trace E → unit → Prop) :
  leaves p tr q → wp any_answer p [] Q → ∃ ext r, Q (tr ++ ext) r.
Proof.
  intros Hl. cut (∀ pre, wp any_answer p pre Q → ∃ ext r, Q (pre ++ tr ++ ext) r); [intros Hc Hw; apply (Hc [] Hw)|].
  induction Hl as [p|A e k a tr q Hl IH]; intros pre Hw; [cbn; by apply (wp_some_run answer p)|].
  destruct (IH (pre ++ [Ev e a]) (Hw a I)) as (ext & r & HQ). exists ext, r. by rewrite <- app_assoc in HQ.
Qed.
End history.
