(* ===== verification/System.v ===== *)
(** * The whole system

    The controllers of [src/cmd/controller] and the workers of [src/cmd/worker]
    in both modes, run at the same time against one API server: any number of
    reconciliations, ticks and deliveries in flight, interleaved call by call,
    any of them killed at any point, while users create, edit and delete objects.

    The API server is modelled as what Kubernetes documents of it, for the two
    kinds by which a scan job is completed: a write needs the version it was
    read with; the status of a job is written by a status update and by nothing
    else; a read may be stale (the controllers read through a cache), so it is
    answered from any earlier state; any call may fail, and a write that fails for
    its client may have taken effect.  Calls of other kinds are answered in any
    way. *)

From stdpp Require Import prelude gmap strings list relations.
From Stdlib Require Import ZArith Lia.
From S2P Require Import Prelude Prog Conditions Meta Registry ScanJob NodeScanJob Filters StorageTypes Report RegistryClient Effects StatusUpdate RegistryAuth Messages ImageCatalog CreateCatalog GenerateSBOM ScanSBOM FailureHandlers Subscriber History ScanJobController VulnReportController Worker NodeWorker WorkloadScanController ImageWorkloads ControllerCache Interleaving.
Import ScanJob.
Open Scope Z_scope.

#[export] Instance NamespacedName_countable : Countable NamespacedName.
Proof.
  refine (inj_countable' (λ n, (nn_Namespace n, nn_Name n)) (λ p, {| nn_Namespace := p.1; nn_Name := p.2 |}) _). by intros [].
Defined.

(** ** The API server *)

(** The scan jobs and the vulnerability reports at one moment. *)
Record snapshot := { sn_jobs : gmap NamespacedName ScanJob; sn_reports : gmap NamespacedName VulnerabilityReport }.

(** The present state, and the ones before it. *)
Record kube := { kb_now : snapshot; kb_past : list snapshot }.

Definition was (c : kube) (s : snapshot) : Prop := s = kb_now c ∨ s ∈ kb_past c.
Definition becomes (c : kube) (s : snapshot) : kube := {| kb_now := s; kb_past := kb_now c :: kb_past c |}.
Definition jobs (c : kube) : gmap NamespacedName ScanJob := sn_jobs (kb_now c).
Definition with_jobs (c : kube) (m : gmap NamespacedName ScanJob) : kube :=
  becomes c {| sn_jobs := m; sn_reports := sn_reports (kb_now c) |}.

Section server.
Context `{!LabelSelectors}.

(** Which objects a list call selects; [index] gives the values of a field.  A
    limit is not used with these kinds. *)
Definition selected (index : string → list string) (m : ObjectMeta) (o : ListOption) : bool :=
  match o with
  | InNamespace ns => bool_decide (om_Namespace m = ns)
  | MatchingFields f v => bool_decide (v ∈ index f)
  | MatchingLabels k v => bool_decide (om_Labels m !! k = Some v)
  | MatchingLabelsSelector s => match LabelSelectorAsSelector s with Ok matches => matches (om_Labels m) | Err _ => false end
  | Limit _ => true
  end.

Definition job_index (j : ScanJob) (f : string) : list string :=
  if bool_decide (f = IndexScanJobMetadataUID) then index_ScanJob_uid j
  else if bool_decide (f = IndexScanJobSpecRegistry) then index_ScanJob_registry j else [].

Definition jobs_matching (s : snapshot) (opts : list ListOption) : list ScanJob :=
  filter (λ j, forallb (selected (job_index j) (sj_Meta j)) opts) (map_to_list (sn_jobs s)).*2.
Definition reports_matching (s : snapshot) (opts : list ListOption) : list ObjectMeta :=
  filter (λ m, forallb (selected (λ _, []) m) opts) (vr_Meta <$> (map_to_list (sn_reports s)).*2).

(** The same object: its name and its identity. *)
Definition same_object (m m' : ObjectMeta) : Prop := key_of m' = key_of m ∧ om_UID m' = om_UID m.

Definition empty_ScanJobStatus : ScanJobStatus := {|
  ss_Conditions := []; ss_ImagesCount := 0; ss_ScannedImagesCount := 0; ss_StartTime := None; ss_CompletionTime := None |}.

(** What a write leaves: the job as it is stored.  A new job has no status, and an
    identity no job had before. *)
Definition job_created (c : kube) (j : ScanJob) (c' : kube) : Prop :=
  jobs c !! key_of (sj_Meta j) = None ∧ sj_Status j = empty_ScanJobStatus ∧
  (∀ s key j', was c s → sn_jobs s !! key = Some j' → sj_UID j' ≠ sj_UID j) ∧
  c' = with_jobs c (<[key_of (sj_Meta j) := j]> (jobs c)).

(** The object itself: everything but the status. *)
Definition job_edited (c : kube) (key : NamespacedName) (j : ScanJob) (c' : kube) : Prop :=
  ∃ old, jobs c !! key = Some old ∧ same_object (sj_Meta old) (sj_Meta j) ∧ sj_Status j = sj_Status old ∧
    c' = with_jobs c (<[key := j]> (jobs c)).

(** The status, and a new version. *)
Definition job_status_written (c : kube) (o j : ScanJob) (c' : kube) : Prop :=
  ∃ old, jobs c !! key_of (sj_Meta o) = Some old ∧ om_UID (sj_Meta o) = om_UID (sj_Meta old) ∧
    om_ResourceVersion (sj_Meta o) = om_ResourceVersion (sj_Meta old) ∧
    same_object (sj_Meta old) (sj_Meta j) ∧ sj_Spec j = sj_Spec old ∧ sj_Status j = sj_Status o ∧
    c' = with_jobs c (<[key_of (sj_Meta o) := j]> (jobs c)).

Definition reports_changed (c c' : kube) : Prop := sn_jobs (kb_now c') = jobs c ∧ kb_past c' = kb_now c :: kb_past c.

(** An answer with the job it stored, or an error that may hide a write. *)
Definition wrote (effect : ScanJob → kube → Prop) (c : kube) (a : result ScanJob) (c' : kube) : Prop :=
  match a with Ok j => effect j c' | Err _ => c' = c ∨ ∃ j, effect j c' end.

Definition serves (c : kube) A (e : Eff A) : A → kube → Prop :=
  match e in Eff A return A → kube → Prop with
  | KGet k key =>
      match k return result (obj k) → kube → Prop with
      | KScanJob => λ a c', c' = c ∧ ∀ j, a = Ok j → ∃ s, was c s ∧ sn_jobs s !! key = Some j
      | KVulnerabilityReportMeta => λ a c', c' = c ∧ ∀ m, a = Ok m → ∃ s r, was c s ∧ sn_reports s !! key = Some r ∧ m = vr_Meta r
      | _ => λ _ c', c' = c
      end
  | KList k opts =>
      match k return result (list (obj k)) → kube → Prop with
      | KScanJob => λ a c', c' = c ∧ ∀ l, a = Ok l → ∃ s, was c s ∧ l ≡ₚ jobs_matching s opts
      | KVulnerabilityReportMeta => λ a c', c' = c ∧ ∀ l, a = Ok l → ∃ s, was c s ∧ l ≡ₚ reports_matching s opts
      | _ => λ _ c', c' = c
      end
  | KCreate k o =>
      match k return obj k → result (obj k) → kube → Prop with
      | KScanJob => λ _, wrote (job_created c) c
      | KVulnerabilityReport => λ _ _, reports_changed c
      | _ => λ _ _ c', c' = c
      end o
  | KUpdate k o =>
      match k return obj k → result (obj k) → kube → Prop with
      | KScanJob => λ o, wrote (job_edited c (key_of (sj_Meta o))) c
      | KVulnerabilityReport => λ _ _, reports_changed c
      | _ => λ _ _ c', c' = c
      end o
  | KStatusUpdate k o =>
      match k return obj k → result (obj k) → kube → Prop with
      | KScanJob => λ o, wrote (job_status_written c o) c
      | _ => λ _ _ c', c' = c
      end o
  | KPatch k base o =>
      match k return obj k → result (obj k) → kube → Prop with
      | KScanJob => λ o, wrote (job_edited c (key_of (sj_Meta o))) c
      | KVulnerabilityReport => λ _ _, reports_changed c
      | _ => λ _ _ c', c' = c
      end o
  | KDelete k o =>
      match k return obj k → result unit → kube → Prop with
      | KScanJob => λ o _ c', c' = c ∨ c' = with_jobs c (delete (key_of (sj_Meta o)) (jobs c))
      | KVulnerabilityReport => λ _ _, reports_changed c
      | _ => λ _ _ c', c' = c
      end o
  | KDeleteAllOf k =>
      match k return result unit → kube → Prop with
      | KScanJob => λ _ c', ∃ m, m ⊆ jobs c ∧ c' = with_jobs c m
      | KVulnerabilityReport => λ _, reports_changed c
      | _ => λ _ c', c' = c
      end
  | _ => λ _ c', c' = c
  end.

(** What other clients do: they create jobs, edit and delete them, and change
    reports in any way.  The status of a job is the program's own. *)
Inductive changes (c : kube) : kube → Prop :=
| job_appears j c' : job_created c j c' → changes c c'
| job_changes key j c' : job_edited c key j c' → changes c c'
| job_disappears key : changes c (with_jobs c (delete key (jobs c)))
| reports_change c' : reports_changed c c' → changes c c'.

(** ** What the program promises of a job *)

Section promise.
Context `{!StatusConditions}.

(** How many reports carried the label of a job, in a namespace. *)
Definition reports_of (s : snapshot) (ns uid : string) : Z :=
  Z.of_nat (length (reports_matching s [InNamespace ns; MatchingLabels LabelScanJobUIDKey uid])).

(** The reason recorded says that there was nothing to scan. *)
Definition marked_empty (j : ScanJob) : Prop :=
  c_Reason <$> FindStatusCondition (ss_Conditions (sj_Status j)) ConditionScanJobTypeComplete = Some ReasonScanJobNoImagesToScan.

(** Completed because every image was scanned: at some moment the reports of the
    job were as many as its images. *)
Definition completed_scanned (c : kube) (j : ScanJob) : Prop :=
  ss_ScannedImagesCount (sj_Status j) = ss_ImagesCount (sj_Status j) ∧
  ∃ s ns, was c s ∧ reports_of s ns (sj_UID j) = ss_ImagesCount (sj_Status j).

Definition job_ok (c : kube) (j : ScanJob) : Prop :=
  (∃ p, in_phase p j) ∧ (IsComplete j = true → marked_empty j ∨ completed_scanned c j).

(** In every state there was: the jobs keep the promise, and an identity belongs to
    one job. *)
Definition Inv (c : kube) : Prop :=
  ∀ s, was c s →
    (∀ key j, sn_jobs s !! key = Some j → key_of (sj_Meta j) = key ∧ job_ok c j) ∧
    (∀ key j key' j', sn_jobs s !! key = Some j → sn_jobs s !! key' = Some j' → sj_UID j = sj_UID j' → key = key').

(** History only grows. *)
Definition later (c c' : kube) : Prop := ∀ s, was c s → was c' s.

(** What an answer says of the cluster. *)
Definition good_job (c : kube) (a : result ScanJob) : Prop := ∀ j, a = Ok j → job_ok c j.

Definition knows (c : kube) A (e : Eff A) : A → Prop :=
  match e in Eff A return A → Prop with
  | KGet k _ | KCreate k _ | KUpdate k _ | KStatusUpdate k _ | KPatch k _ _ =>
      match k return result (obj k) → Prop with KScanJob => good_job c | _ => λ _, True end
  | KList k opts =>
      match k return result (list (obj k)) → Prop with
      | KScanJob => λ a, ∀ l, a = Ok l → ∃ s, was c s ∧ l ≡ₚ jobs_matching s opts ∧ Forall (job_ok c) l
      | KVulnerabilityReportMeta => λ a, ∀ l, a = Ok l → ∃ s, was c s ∧ l ≡ₚ reports_matching s opts
      | _ => λ _, True
      end
  | _ => λ _, True
  end.

(** What the program may write: the status of a job, if it keeps the promise. *)
Definition allowed (c : kube) A (e : Eff A) : Prop :=
  match e with
  | KStatusUpdate k o => match k return obj k → Prop with KScanJob => job_ok c | _ => λ _, True end o
  | _ => True
  end.

(** ** The promise is kept *)

#[export] Instance later_preorder : PreOrder later.
Proof. split; [by intros c s|]. intros c1 c2 c3 H12 H23 s Hs. auto. Qed.

Lemma later_becomes c s : later c (becomes c s).
Proof. intros s' [-> |Hs]; right; cbn; [left|by right]. Qed.

Lemma was_becomes c s s' : was (becomes c s) s' → s' = s ∨ was c s'.
Proof. intros [-> |Hs]; [by left|right]. cbn in Hs. apply elem_of_cons in Hs as [-> |Hs]; [by left|by right]. Qed.

Lemma job_ok_later c c' j : later c c' → job_ok c j → job_ok c' j.
Proof.
  intros Hl [Hp Hc]. split; [done|]. intros [He|(Hn & s & ns & Hs & Hr)]%Hc; [by left|right].
  split; [done|]. exists s, ns. auto.
Qed.

Lemma job_ok_same c j j' : sj_UID j' = sj_UID j → sj_Status j' = sj_Status j → job_ok c j → job_ok c j'.
Proof.
  unfold job_ok, in_phase, marked_empty, completed_scanned, IsPending, IsScheduled, IsInProgress, IsComplete, IsFailed.
  by intros -> ->.
Qed.

Lemma job_ok_phase c p j : in_phase p j → p ≠ Complete → job_ok c j.
Proof. intros Hp Hne. split; [by exists p|]. destruct Hp as (_ & _ & _ & -> & _). by case_bool_decide. Qed.

Lemma job_ok_new c j : sj_Status j = empty_ScanJobStatus → job_ok c j.
Proof.
  intros Hs. apply (job_ok_phase c Pending); [|done].
  unfold in_phase, IsPending, IsScheduled, IsInProgress, IsComplete, IsFailed, condition_true. by rewrite Hs; cbn; rewrite !Find_nil.
Qed.

Lemma Inv_job c s key j : Inv c → was c s → sn_jobs s !! key = Some j → key_of (sj_Meta j) = key ∧ job_ok c j.
Proof. intros HI Hs. by apply HI. Qed.

Lemma Inv_now c key j : Inv c → jobs c !! key = Some j → key_of (sj_Meta j) = key ∧ job_ok c j.
Proof. intros HI. apply Inv_job; [done|by left]. Qed.

Lemma Inv_unique c key j key' j' :
  Inv c → jobs c !! key = Some j → jobs c !! key' = Some j' → sj_UID j = sj_UID j' → key = key'.
Proof. intros HI. apply (HI (kb_now c)). by left. Qed.

(** A new state, each of whose jobs was there with the same identity, or is new. *)
Lemma Inv_becomes c s :
  Inv c → (∀ key j, sn_jobs s !! key = Some j → key_of (sj_Meta j) = key ∧ job_ok c j) →
  (∀ key j key' j', sn_jobs s !! key = Some j → sn_jobs s !! key' = Some j' → sj_UID j = sj_UID j' → key = key') →
  later c (becomes c s) ∧ Inv (becomes c s).
Proof.
  intros HI Hs Hu. split; [apply later_becomes|]. intros s' Hs'.
  assert ((∀ key j, sn_jobs s' !! key = Some j → key_of (sj_Meta j) = key ∧ job_ok c j) ∧
    ∀ key j key' j', sn_jobs s' !! key = Some j → sn_jobs s' !! key' = Some j' → sj_UID j = sj_UID j' → key = key') as [Hok ?].
  { apply was_becomes in Hs' as [-> |Hw]; [done|by apply HI]. }
  split; [|done]. intros key j [? ?]%Hok. split; [done|]. eapply job_ok_later; [apply later_becomes|done].
Qed.

(** Storing a job that keeps the promise, under an identity of its own. *)
Lemma Inv_insert c key j :
  Inv c → key_of (sj_Meta j) = key → job_ok c j → (∀ key' j', jobs c !! key' = Some j' → sj_UID j' = sj_UID j → key' = key) →
  let c' := with_jobs c (<[key := j]> (jobs c)) in later c c' ∧ Inv c' ∧ job_ok c' j.
Proof.
  intros HI Hk Hj Hu c'. destruct (Inv_becomes c {| sn_jobs := <[key := j]> (jobs c); sn_reports := sn_reports (kb_now c) |} HI) as [Hl HI'].
  - intros key' j' Hin. cbn in Hin. apply lookup_insert_Some in Hin as [[-> ->]|[_ Hin]]; [done|by eapply Inv_now].
  - intros key1 j1 key2 j2. cbn. rewrite !lookup_insert_Some.
    intros [[<- <-]|[? Hj1]] [[<- <-]|[? Hj2]] Heq; eauto using Inv_unique; symmetry; eauto.
  - split; [done|split; [done|]]. by eapply job_ok_later.
Qed.

Lemma Inv_replace c key old j :
  Inv c → jobs c !! key = Some old → key_of (sj_Meta j) = key → sj_UID j = sj_UID old → job_ok c j →
  let c' := with_jobs c (<[key := j]> (jobs c)) in later c c' ∧ Inv c' ∧ job_ok c' j.
Proof. intros HI Hold Hk Hu Hj. apply Inv_insert; [done|done|done|]. intros key' j' Hj' Heq. eapply Inv_unique; [done|done|done|congruence]. Qed.

Lemma Inv_subset c m : Inv c → m ⊆ jobs c → later c (with_jobs c m) ∧ Inv (with_jobs c m).
Proof.
  intros HI Hm. apply Inv_becomes; [done|..]; cbn.
  - intros key j Hj. eapply Inv_now; [done|]. by eapply lookup_weaken.
  - intros key j key' j' Hj Hj'. eapply Inv_unique; [done|..]; by eapply lookup_weaken.
Qed.

Lemma Inv_created c j c' : Inv c → job_created c j c' → later c c' ∧ Inv c' ∧ job_ok c' j.
Proof.
  intros HI (_ & Hs & Hnew & ->). apply Inv_insert; [done|done|by apply job_ok_new|].
  intros key' j' Hj' Heq. destruct (Hnew (kb_now c) key' j' ltac:(by left) Hj' Heq).
Qed.

Lemma Inv_edited c key j c' : Inv c → job_edited c key j c' → later c c' ∧ Inv c' ∧ job_ok c' j.
Proof.
  intros HI (old & Hold & [Hk Hu] & Hs & ->). destruct (Inv_now c key old HI Hold) as [Hk' Hok].
  eapply Inv_replace; [done|done|congruence|done|]. by eapply job_ok_same.
Qed.

Lemma Inv_status c o j c' : Inv c → job_ok c o → job_status_written c o j c' → later c c' ∧ Inv c' ∧ job_ok c' j.
Proof.
  intros HI Ho (old & Hold & Huid & _ & [Hk Hu] & _ & Hs & ->). destruct (Inv_now c _ old HI Hold) as [Hk' _].
  eapply Inv_replace; [done|done|congruence|done|]. eapply job_ok_same; [|done|exact Ho]. unfold sj_UID. congruence.
Qed.

Lemma Inv_reports c c' : Inv c → reports_changed c c' → later c c' ∧ Inv c'.
Proof.
  intros HI [Hj Hp]. destruct c' as [[m r] past]; cbn in *. subst. apply (Inv_becomes c {| sn_jobs := jobs c; sn_reports := r |} HI).
  - intros key j. by apply Inv_now.
  - intros key j key' j'. by apply Inv_unique.
Qed.

Lemma Inv_wrote (effect : ScanJob → kube → Prop) c a c' :
  Inv c → (∀ j c', effect j c' → later c c' ∧ Inv c' ∧ job_ok c' j) →
  wrote effect c a c' → later c c' ∧ Inv c' ∧ good_job c' a.
Proof.
  intros HI He. destruct a as [j|e]; cbn.
  - intros (Hl & HI' & Hj)%He. split_and!; try done. by intros ? [= <-].
  - intros [->|[j (Hl & HI' & _)%He]]; split_and!; done.
Qed.

Lemma changes_ok c c' : Inv c → changes c c' → later c c' ∧ Inv c'.
Proof.
  intros HI [j c'' Hc|key j c'' Hc|key|c'' Hc].
  - destruct (Inv_created _ _ _ HI Hc) as (? & ? & _). done.
  - destruct (Inv_edited _ _ _ _ HI Hc) as (? & ? & _). done.
  - apply Inv_subset; [done|apply delete_subseteq].
  - by apply Inv_reports.
Qed.

Lemma good_job_later c c' a : later c c' → good_job c a → good_job c' a.
Proof. intros Hl Ha j Hj. eapply job_ok_later; eauto. Qed.

Lemma knows_later c c' A (e : Eff A) a : later c c' → knows c A e a → knows c' A e a.
Proof.
  intros Hl. destruct e; try done; destruct k; try done; cbn; eauto using good_job_later; intros Ha l Hal.
  - destruct (Ha l Hal) as (s & Hs & Hp & Hok). exists s. split_and!; auto. eapply Forall_impl; [exact Hok|]. eauto using job_ok_later.
  - destruct (Ha l Hal) as (s & Hs & Hp). eauto.
Qed.

Lemma jobs_matching_ok c s opts l : Inv c → was c s → l ≡ₚ jobs_matching s opts → Forall (job_ok c) l.
Proof.
  intros HI Hs ->. apply Forall_forall. intros j [_ Hj]%list_elem_of_filter.
  apply list_elem_of_fmap in Hj as ([key j'] & -> & Hj%elem_of_map_to_list). by destruct (Inv_job c s key j' HI Hs Hj).
Qed.

Lemma serves_ok c A (e : Eff A) a c' :
  Inv c → allowed c A e → serves c A e a c' → later c c' ∧ Inv c' ∧ knows c' A e a.
Proof.
  intros HI Ha Hs. destruct e; try (cbn in Hs; subst; by split_and!); destruct k; cbn in Hs, Ha |- *;
    try (subst; by split_and!);
    try (destruct (Inv_reports _ _ HI Hs); by split_and!).
  - destruct Hs as [-> Hj]. split_and!; [done|done|]. intros j (s & Hs & Hin)%Hj. by destruct (Inv_job c s key j HI Hs Hin).
  - destruct Hs as [-> _]. by split_and!.
  - destruct Hs as [-> Hl]. split_and!; [done|done|]. intros l (s & Hs & Hin)%Hl. exists s. split_and!; [done|done|by eapply jobs_matching_ok].
  - destruct Hs as [-> Hl]. by split_and!.
  - eapply Inv_wrote; [done| |exact Hs]. intros j c''. by apply Inv_created.
  - eapply Inv_wrote; [done| |exact Hs]. intros j c''. by apply Inv_edited.
  - eapply Inv_wrote; [done| |exact Hs]. intros j c''. by apply Inv_status.
  - eapply Inv_wrote; [done| |exact Hs]. intros j c''. by apply Inv_edited.
  - destruct Hs as [-> | ->]; [by split_and!|]. destruct (Inv_subset c (delete (key_of (sj_Meta o)) (jobs c)) HI); [apply delete_subseteq|]. by split_and!.
  - destruct Hs as (m & Hm & ->). destruct (Inv_subset c m HI Hm). by split_and!.
Qed.

(** ** Each program keeps it *)

Lemma job_ok_op c j op : op_phase op ≠ Complete → job_ok c (exec j op).
Proof. intros Hop. eapply job_ok_phase; [apply exec_phase|done]. Qed.

Lemma MarkInProgress_ok c now reason msg j : job_ok c (MarkInProgress now reason msg j).
Proof. by apply (job_ok_op c j (OpInProgress now reason msg)). Qed.
Lemma MarkFailed_ok c now reason msg j : job_ok c (MarkFailed now reason msg j).
Proof. by apply (job_ok_op c j (OpFailed now reason msg)). Qed.
Lemma MarkScheduled_ok c reason msg j : job_ok c (MarkScheduled reason msg j).
Proof. by apply (job_ok_op c j (OpScheduled reason msg)). Qed.
Lemma InitializeConditions_ok c j : job_ok c (InitializeConditions j).
Proof. by apply (job_ok_op c j OpInitialize). Qed.

Lemma MarkComplete_empty_ok c now msg j : job_ok c (MarkComplete now ReasonScanJobNoImagesToScan msg j).
Proof.
  split; [exists Complete; apply (exec_phase j (OpComplete now _ _))|]. intros _. left.
  unfold marked_empty, MarkComplete, set_cond. cbn [with_Conditions sj_Status ss_Conditions].
  rewrite Find_Set_ne by done. by rewrite (Find_Set_eq _ {| c_Type := ConditionScanJobTypeComplete |}).
Qed.

(** The catalog handler's record of the images. *)
Lemma InProgress_counts_ok c images scanned now reason msg j : job_ok c (with_counts images scanned (MarkInProgress now reason msg j)).
Proof.
  apply (job_ok_phase c InProgress); [|done]. apply in_phase_with_counts, (exec_phase j (OpInProgress now reason msg)).
Qed.

(** The reconciler of reports: it counted the reports of the job. *)
Lemma progress_ok c now j (reports : list ObjectMeta) s ns :
  job_ok c j → was c s → reports ≡ₚ reports_matching s [InNamespace ns; MatchingLabels LabelScanJobUIDKey (sj_UID j)] →
  job_ok c (progress now (length reports) j).
Proof.
  intros [[p Hp] Hc] Hs Hr. destruct (IsFailed j) eqn:Hf.
  - rewrite progress_failed by done. destruct Hp as (H1 & H2 & H3 & H4 & H5). rewrite Hf in H5.
    symmetry in H5. apply bool_decide_eq_true in H5 as ->. by apply (job_ok_phase c Failed).
  - pose proof (progress_phase now (length reports) j Hf) as Hph. case_bool_decide as Hn; [|by eapply job_ok_phase].
    split; [by exists Complete|]. intros _. right. unfold completed_scanned, reports_of.
    assert (sj_UID (progress now (length reports) j) = sj_UID j ∧
      ss_ScannedImagesCount (sj_Status (progress now (length reports) j)) = Z.of_nat (length reports) ∧
      ss_ImagesCount (sj_Status (progress now (length reports) j)) = ss_ImagesCount (sj_Status j)) as (Hu & -> & ->).
    { unfold progress. repeat case_match; try done. unfold MarkInProgress; by destruct (ss_StartTime _). }
    split; [done|]. exists s, ns. rewrite Hu, <- Hr. done.
Qed.
End promise.
End server.

(** ** The programs *)

Section system.
Context `{!StatusConditions, !GoTime, !GoSort, !MapRange, !Retry, !ControllerUtil, !LabelSelectors, !Names, !Controllers, !CreateOrPatcher}.
Context `{!MediaTypes, !CEL, !X509, !Trivy, !YAML, !CreateOrUpdater, !Float64}.
Context `{!JSON Registry, !JSON CreateCatalogMessage, !JSON RescanRequest, !JSON NodeScanConfiguration, !JSON GenerateNodeSBOMMessage}.
Context `{!JSON GenerateSBOMMessage, !JSON ScanSBOMMessage, !JSON BaseMessage, !JSON (list trivyResult)}.
Context `{!JSON ScanNodeSBOMMessage, !JSON NodeBaseMessage}.
Context (cfg : Config) (targetDir : string).

(** A program that leaves the status of scan jobs alone. *)
Definition no_job_status A (e : Eff A) : Prop := match e with KStatusUpdate KScanJob _ => False | _ => True end.

Lemma only_safe c {R} (p : go R) : only no_job_status p → safe (knows c) (allowed c) p.
Proof.
  intros Hp. apply (wp_safe (λ A e, (refuse A e tt).1) _ _ _ []). eapply wp_mono; [|exact Hp]. intros tr r Htr.
  eapply Forall_impl; [exact Htr|]. intros [A e a] He. destruct e; try done. by destruct k.
Qed.

Lemma safe_calls c {R} (p : go R) : calls no_job_status p → safe (knows c) (allowed c) p.
Proof. intros Hp. by apply only_safe, calls_only. Qed.

Lemma registry_safe c t {R} (p : go R) : calls (registry_call t) p → safe (knows c) (allowed c) p.
Proof. intros Hp. eapply safe_calls, calls_mono, Hp. intros A e. by destruct e. Qed.

#[local] Hint Resolve Catalog_calls ListRepositoryContents_calls GetDescriptor_calls
  GetImageDetailsFromIndex_calls GetImageDetails_calls : registry.
Create HintDb promise.
#[local] Hint Resolve MarkInProgress_ok MarkFailed_ok MarkScheduled_ok InitializeConditions_ok MarkComplete_empty_ok
  InProgress_counts_ok : promise.

Ltac system_step :=
  first [safe_step | eapply registry_safe; solve [eauto with registry] | exact I | solve [cbn [allowed]; try case_match; eauto with promise]].

Lemma create_catalog_safe c data : safe (knows c) (allowed c) (CreateCatalog.Handle (cfg_InstallationNamespace cfg) data).
Proof.
  unfold CreateCatalog.Handle, start_once, create_catalog, catalog, complete_catalog, transportFromRegistry,
    process_reference, create_image, refToImages, multiArchRefToImages, singleArchRefToImages, index_entry,
    discoverRepositories, discover_one, discoverImages, deleteObsoleteImages, delete_image, finish_once, request_sbom,
    Resolve, readRef, readConfigMapKey, readSecretKey, BuildDockerConfigForRegistry, createDockerConfigJSON,
    RecordScanJobFinished.
  repeat system_step.
Qed.

Lemma scanjob_failure_safe c data errorMessage : safe (knows c) (allowed c) (ScanJob_HandleFailure data errorMessage).
Proof.
  unfold ScanJob_HandleFailure, fail_job, fail_once, update_once, failed, RecordScanJobFinished. repeat system_step.
Qed.

(** A job listed by its identity has it. *)
Lemma listed_job c uid j l :
  knows c (result (list ScanJob)) (KList KScanJob [MatchingFields IndexScanJobMetadataUID uid]) (Ok (j :: l)) →
  job_ok c j ∧ sj_UID j = uid.
Proof.
  intros Hl. destruct (Hl _ eq_refl) as (s & _ & Hp & Hok). inversion_clear Hok. split; [done|].
  assert (j ∈ jobs_matching s [MatchingFields IndexScanJobMetadataUID uid]) as Hin by (rewrite <- Hp; left).
  apply list_elem_of_filter in Hin as [Hsel _]. cbn in Hsel. rewrite andb_true_r in Hsel.
  apply bool_decide_unpack, list_elem_of_singleton in Hsel. done.
Qed.

Lemma vulnreport_system c req : safe (knows c) (allowed c) (VulnReportController.Reconcile req).
Proof.
  unfold VulnReportController.Reconcile, RecordScanJobFinished. repeat system_step. cbn [allowed].
  match goal with
  | Hj : knows _ _ (KList KScanJob _) (Ok (?j :: _)), Hr : knows _ _ (KList KVulnerabilityReportMeta _) (Ok _) |- _ =>
      destruct (listed_job _ _ _ _ Hj) as [Hok <-]; destruct (Hr _ eq_refl) as (s' & Hs & Hp)
  end.
  by eapply progress_ok.
Qed.

(** Keeps what each answer says. *)
Ltac wp_learn :=
  lazymatch goal with
  | |- wp _ (trigger _) _ _ => intros ? ?; cbn beta iota zeta
  | |- _ => wp_step
  end.

(** What is left of the job when its reconciliation writes the status. *)
Lemma reconcileScanJob_ok c j :
  job_ok c j → wp (knows c) (reconcileScanJob j) [] (λ _ r, job_ok c r.1).
Proof.
  intros Hj. unfold reconcileScanJob. apply wp_bind. eapply wp_mono; [|apply wp_true]. intros tr r _. cbv beta.
  repeat wp_learn; cbn [fst]; eauto with promise.
  match goal with Hs : SetControllerReference _ _ _ = _ |- _ => apply SetControllerReference_keeps in Hs as (_ & _ & Hu & _) end.
  by eapply job_ok_same.
Qed.

Lemma scanjob_system c req : safe (knows c) (allowed c) (ScanJobController.Reconcile req).
Proof.
  unfold ScanJobController.Reconcile. apply safe_call; [done|]. intros [j|e] _; [|by repeat safe_step].
  destruct (om_DeletionTimestamp _); [done|]. destruct (negb _); [done|]. cbv zeta.
  apply (safe_seq (λ r, job_ok c r.1)).
  - apply safe_calls. unfold reconcileScanJob, cleanupOldScanJobs, cleanup_history, delete_one. repeat calls_step; done.
  - apply reconcileScanJob_ok, InitializeConditions_ok.
  - intros [j' err] Hj. unfold RecordScanJobFinished. repeat safe_step; done.
Qed.

(** A pass of the controller. *)
Lemma pass_system c k req : safe (knows c) (allowed c) (pass k req).
Proof.
  assert (k ∈ registered true true) as Hk by (destruct k; cbn; set_solver).
  destruct (writes_jobs k) eqn:Hw.
  - destruct k; try done; cbn [pass]; (apply safe_bind; [|intros ?; exact I]); [apply scanjob_system|apply vulnreport_system].
  - apply only_safe. eapply only_mono, (pass_ok true true k req Hk). intros A e (_ & He & _). rewrite Hw in He. destruct e; try done. by destruct k0.
Qed.

(** A delivery to a worker. *)
Lemma consume_safe c handlers failureHandler config subject data :
  (∀ hd, handlers !! subject = Some hd → safe (knows c) (allowed c) (hd_Handle hd data)) →
  (∀ msg, safe (knows c) (allowed c) (fh_HandleFailure failureHandler data msg)) →
  safe (knows c) (allowed c) (consume handlers failureHandler config subject data).
Proof.
  intros Hh Hf. unfold consume, handleMessage, handleFailure, backoffDelay.
  repeat first [system_step | by apply Hf | by eapply Hh].
Qed.

Lemma quiet_safe c {R} (p : go R) : only quiet_call p → safe (knows c) (allowed c) p.
Proof. intros Hp. eapply only_safe, only_mono, Hp. intros A e []. destruct e; try done. Qed.
Lemma node_safe c {R} (p : go R) : only node_call p → safe (knows c) (allowed c) p.
Proof. intros Hp. eapply only_safe, only_mono, Hp. by intros A e []. Qed.

Lemma worker_system c subject data : safe (knows c) (allowed c) (on_message cfg subject data).
Proof.
  apply consume_safe; [|apply scanjob_failure_safe]. unfold registry_handlers.
  intros hd. rewrite !lookup_insert_Some, lookup_empty. intros [[_ <-]|[_ [[_ <-]|[_ [[_ <-]|[_ ?]]]]]]; [| | |done].
  - apply create_catalog_safe.
  - apply quiet_safe, generate_sbom_quiet.
  - apply quiet_safe, scan_sbom_quiet.
Qed.

Lemma node_worker_system c nodeName subject data : safe (knows c) (allowed c) (node_on_message cfg targetDir nodeName subject data).
Proof.
  apply consume_safe; [|intros msg; apply node_safe, node_failure_calls]. unfold node_handlers.
  intros hd. rewrite !lookup_insert_Some, lookup_empty. intros [[_ <-]|[_ [[_ <-]|[_ ?]]]]; [| |done].
  - apply node_safe, generate_node_calls.
  - apply node_safe, scan_node_calls.
Qed.

(** Everything the processes run: a pass of a reconciler or a runner of the
    controller, and a delivery to a worker of either mode. *)
Inductive program : prog Eff unit → Prop :=
| run_pass k req : program (pass k req)
| run_delivery subject data : program (_ ← on_message cfg subject data; Ret tt)
| run_node_delivery nodeName subject data : program (_ ← node_on_message cfg targetDir nodeName subject data; Ret tt).

Lemma program_ok p c : program p → safe (knows c) (allowed c) p.
Proof.
  intros [k req|subject data|nodeName subject data]; [apply pass_system|..]; (apply safe_bind; [|intros ?; exact I]);
    [apply worker_system|apply node_worker_system].
Qed.

(** The states the system goes through, from an empty cluster. *)
Definition empty_kube : kube := {| kb_now := {| sn_jobs := ∅; sn_reports := ∅ |}; kb_past := [] |}.
Definition always (Q : list (prog Eff unit) → kube → Prop) : Prop :=
  ∀ pool c, reachable program serves changes empty_kube pool c → Q pool c.

Lemma Inv_reachable : always (λ _, Inv).
Proof.
  intros pool c. apply (pool_invariant program serves changes later knows allowed Inv);
    eauto using knows_later, serves_ok, changes_ok, program_ok.
  intros s [-> |Hs]; [|by apply elem_of_nil in Hs]. cbn. split; intros ? ?; by rewrite lookup_empty.
Qed.

(** ** Completion *)

(** The version a writer read is the one stored. *)
Definition current (c : kube) (o : ScanJob) : Prop :=
  ∃ old, jobs c !! key_of (sj_Meta o) = Some old ∧ om_UID (sj_Meta o) = om_UID (sj_Meta old) ∧
    om_ResourceVersion (sj_Meta o) = om_ResourceVersion (sj_Meta old).

(** A server that answers, from the present state. *)
Definition prompt (c : kube) A (e : Eff A) : A → Prop :=
  match e in Eff A return A → Prop with
  | KGet k key =>
      match k return result (obj k) → Prop with
      | KScanJob => λ a, ∀ j, jobs c !! key = Some j → a = Ok j
      | KVulnerabilityReportMeta => λ a, ∀ r, sn_reports (kb_now c) !! key = Some r → a = Ok (vr_Meta r)
      | _ => λ _, True
      end
  | KList k opts =>
      match k return result (list (obj k)) → Prop with
      | KScanJob => λ a, ∃ l, a = Ok l ∧ l ≡ₚ jobs_matching (kb_now c) opts
      | KVulnerabilityReportMeta => λ a, ∃ l, a = Ok l ∧ l ≡ₚ reports_matching (kb_now c) opts
      | _ => λ _, True
      end
  | KStatusUpdate k o =>
      match k return obj k → result (obj k) → Prop with
      | KScanJob => λ o a, current c o → is_ok a = true
      | _ => λ _ _, True
      end o
  | _ => λ _, True
  end.
Definition healthy (c : kube) A (e : Eff A) (a : A) (c' : kube) : Prop := serves c A e a c' ∧ prompt c A e a.

Lemma healthy_get c key r a c' :
  sn_reports (kb_now c) !! key = Some r → healthy c _ (KGet KVulnerabilityReportMeta key) a c' ↔ a = Ok (vr_Meta r) ∧ c' = c.
Proof.
  intros Hr. split; [intros [[-> _] Ha]; by split; [apply Ha|]|]. intros [-> ->]. split; [split; [done|]|].
  - intros m [= <-]. exists (kb_now c), r. by split; [left|].
  - cbn. intros r'. by rewrite Hr; intros [= <-].
Qed.

Lemma healthy_list_jobs c opts a c' :
  healthy c _ (KList KScanJob opts) a c' ↔ c' = c ∧ ∃ l, a = Ok l ∧ l ≡ₚ jobs_matching (kb_now c) opts.
Proof.
  split; [by intros [[-> _] Hl]|]. intros [-> (l & -> & Hl)]. split; [split; [done|]|by exists l].
  intros l' [= <-]. exists (kb_now c). by split; [left|].
Qed.

Lemma healthy_list_reports c opts a c' :
  healthy c _ (KList KVulnerabilityReportMeta opts) a c' ↔ c' = c ∧ ∃ l, a = Ok l ∧ l ≡ₚ reports_matching (kb_now c) opts.
Proof.
  split; [by intros [[-> _] Hl]|]. intros [-> (l & -> & Hl)]. split; [split; [done|]|by exists l].
  intros l' [= <-]. exists (kb_now c). by split; [left|].
Qed.

Lemma healthy_status c o a c' :
  current c o → healthy c _ (KStatusUpdate KScanJob o) a c' ↔ ∃ j, a = Ok j ∧ job_status_written c o j c'.
Proof.
  intros Hc. split.
  - intros [Hs Ha]. specialize (Ha Hc). destruct a as [j|]; [|done]. eauto.
  - by intros (j & -> & Hj).
Qed.

Lemma healthy_status_some c o : current c o → ∃ a c', healthy c _ (KStatusUpdate KScanJob o) a c'.
Proof.
  intros Hc. pose proof Hc as (old & Hold & Hu & Hv).
  eexists (Ok {| sj_Meta := sj_Meta old; sj_Spec := sj_Spec old; sj_Status := sj_Status o |}), _.
  apply healthy_status; [done|]. eexists. split; [done|]. by exists old.
Qed.

(** The jobs listed by an identity: the one that has it. *)
Lemma listed_alone c key j l :
  Inv c → jobs c !! key = Some j → l ≡ₚ jobs_matching (kb_now c) [MatchingFields IndexScanJobMetadataUID (sj_UID j)] →
  ∃ rest, l = j :: rest.
Proof.
  intros HI Hj Hl.
  assert (∀ x, x ∈ l ↔ (∃ key', jobs c !! key' = Some x) ∧ sj_UID x = sj_UID j) as Hin.
  { intros x. rewrite Hl. unfold jobs_matching. rewrite list_elem_of_filter, list_elem_of_fmap. cbn. rewrite andb_true_r.
    split.
    - intros [Hu%bool_decide_unpack%list_elem_of_singleton ([key' x'] & -> & Hx%elem_of_map_to_list)]. eauto.
    - intros [[key' Hx] Hu]. split; [apply bool_decide_pack, list_elem_of_singleton; by symmetry|].
      exists (key', x). split; [done|]. by apply elem_of_map_to_list. }
  destruct l as [|x rest]; [exfalso; eapply not_elem_of_nil, Hin; eauto|].
  exists rest. f_equal. destruct (proj1 (Hin x) ltac:(left)) as [[key' Hx] Hu].
  pose proof (Inv_unique _ _ _ _ _ HI Hx Hj Hu) as ->. congruence.
Qed.

(** A state in which every image of a job has its report: the job is not
    finished, and the reports with its identity, [req] among them, are as many
    as its images. *)
Definition all_reported (c : kube) (key : NamespacedName) (j : ScanJob) (req : NamespacedName) : Prop :=
  jobs c !! key = Some j ∧ JobFinished j = false ∧
  (∃ r, sn_reports (kb_now c) !! req = Some r ∧ om_DeletionTimestamp (vr_Meta r) = None ∧
        om_Labels (vr_Meta r) !! LabelScanJobUIDKey = Some (sj_UID j)) ∧
  reports_of (kb_now c) (nn_Namespace req) (sj_UID j) = ss_ImagesCount (sj_Status j).

Definition completed (c : kube) (key : NamespacedName) (j : ScanJob) : Prop :=
  ∃ j', jobs c !! key = Some j' ∧ sj_UID j' = sj_UID j ∧ IsComplete j' = true ∧
    ss_ScannedImagesCount (sj_Status j') = ss_ImagesCount (sj_Status j).

(** The write that completes the job. *)
Lemma progress_written c key j now n j' c' :
  Inv c → jobs c !! key = Some j → IsFailed j = false → Z.of_nat n = ss_ImagesCount (sj_Status j) →
  job_status_written c (progress now n j) j' c' → completed c' key j.
Proof.
  intros HI Hj Hf Hn (old & Hold & _ & _ & [_ Hu] & _ & Hs & ->). destruct (Inv_now c key j HI Hj) as [Hk _].
  rewrite progress_meta, Hk in *. assert (old = j) as -> by congruence. exists j'. split; [by apply lookup_insert_eq|]. split; [done|].
  unfold IsComplete. rewrite Hs, progress_scanned. split; [|done].
  destruct (progress_phase now n j Hf) as (_ & _ & _ & HC & _). rewrite (bool_decide_true (Z.of_nat n = _)) in HC by done. exact HC.
Qed.

Lemma report_pass_completes c key j req :
  Inv c → all_reported c key j req → achieves healthy (pass VulnerabilityReportReconciler req) c (λ _ c', completed c' key j).
Proof.
  intros HI (Hj & [Hcp Hf]%orb_false_iff & (r & Hr & Hdel & Hlab) & Hn). cbn [pass]. apply achieves_bind.
  unfold VulnReportController.Reconcile.
  apply (achieves_call _ (λ a c', a = Ok (vr_Meta r) ∧ c' = c)).
  { exists (Ok (vr_Meta r)), c. by apply (healthy_get c req r). }
  { intros a c'. by apply (healthy_get c req r). }
  intros ? ? [-> ->]. cbv beta iota. rewrite Hdel, Hlab.
  apply (achieves_try_call _ (λ l c', c' = c ∧ ∃ rest, l = j :: rest)).
  { exists (Ok (jobs_matching (kb_now c) [MatchingFields IndexScanJobMetadataUID (sj_UID j)])), c. apply healthy_list_jobs. eauto. }
  { intros a c' [-> (l & -> & Hl)]%healthy_list_jobs. destruct (listed_alone c key j l HI Hj Hl) as [rest ->]. eauto. }
  intros ? ? [-> [rest ->]]. cbv beta iota. rewrite (Hcp : IsComplete j = false). cbv beta iota.
  apply (achieves_try_call _ (λ l c', c' = c ∧ Z.of_nat (length l) = ss_ImagesCount (sj_Status j))).
  { eexists (Ok _), c. apply healthy_list_reports. eauto. }
  { intros a c' [-> (l & -> & Hl)]%healthy_list_reports. exists l. split_and!; [done|done|]. by rewrite Hl. }
  intros reports ? [-> Hlen]. apply (achieves_call _ (λ _ c', c' = c)).
  { by exists 0, c. }
  { by intros now c' [-> _]. }
  intros now ? ->. cbv zeta.
  assert (current c (progress now (length reports) j)) as Hcur.
  { destruct (Inv_now c key j HI Hj) as [Hk _]. exists j. by rewrite progress_meta, Hk. }
  apply (achieves_try_call _ (λ _ c', completed c' key j)).
  { by apply healthy_status_some. }
  { intros a c' (j' & -> & Hw)%healthy_status; [|done]. exists j'. split; [done|]. by eapply progress_written. }
  intros updated c' Hdone. apply achieves_bind.
  apply (achieves_mono _ _ _ (λ _ c', completed c' key j)); [done|].
  unfold RecordScanJobFinished. repeat case_match; try done.
  split; [by exists tt, c'|]. by intros [] c'' [-> _].
Qed.

(** [C2] When every image has its report, the job gets done.  In every state the
    system can reach, if a job is not finished and the reports with its identity
    are as many as its images, then a pass of the reconciler for one of those
    reports, answered promptly by the API server, ends with the job stored as
    complete with all its images scanned; and the system can make the steps of
    that pass. *)
Theorem reported_jobs_complete :
  always (λ pool c, ∀ key j req, all_reported c key j req →
    achieves healthy (pass VulnerabilityReportReconciler req) c (λ _ c', completed c' key j) ∧
    ∃ c', completed c' key j ∧ rtc (step program serves changes) (pool, c) (pool ++ [Ret tt], c')).
Proof.
  intros pool c Hr key j req Hall. pose proof (report_pass_completes _ _ _ _ (Inv_reachable pool c Hr) Hall) as Ha.
  split; [done|].
  destruct (achieves_steps program serves changes healthy (pass VulnerabilityReportReconciler req) pool [] c (λ _ c', completed c' key j))
    as (c' & Hc & Hsteps); [by intros ? ? ? ? ? []|done|].
  exists c'. split; [done|]. eapply rtc_l; [apply step_start; constructor|exact Hsteps].
Qed.
End system.
