(* ===== verification/Completion.v ===== *)
(** * Why a job is complete

    The promise of the whole system about its results, for the processes of
    [System] and every interleaving of their calls: a job is complete because a
    catalog run found no image for it in its registry, or because all its images
    have their reports.  It is a promise about histories: [hs_log] holds what
    each delivery and reconciliation had been answered when it made a call. *)

From stdpp Require Import prelude gmap strings list relations.
From Stdlib Require Import ZArith Lia.
From S2P Require Import Prelude Prog Conditions Meta Registry ScanJob NodeScanJob Filters StorageTypes Report RegistryClient Effects StatusUpdate RegistryAuth Messages ImageCatalog CreateCatalog CatalogRun GenerateSBOM ScanSBOM FailureHandlers Subscriber History ScanJobController VulnReportController Worker NodeWorker WorkloadScanController ImageWorkloads ControllerCache Interleaving System.
Import ScanJob.
Open Scope Z_scope.

Section completion.
Context `{!StatusConditions, !GoTime, !GoSort, !MapRange, !Retry, !ControllerUtil, !LabelSelectors, !Names, !Controllers, !CreateOrPatcher}.
Context `{!MediaTypes, !CEL, !X509, !Trivy, !YAML, !CreateOrUpdater, !Float64}.
Context `{!JSON Registry, !JSON CreateCatalogMessage, !JSON RescanRequest, !JSON NodeScanConfiguration, !JSON GenerateNodeSBOMMessage}.
Context `{!JSON GenerateSBOMMessage, !JSON ScanSBOMMessage, !JSON BaseMessage, !JSON (list trivyResult)}.
Context `{!JSON ScanNodeSBOMMessage, !JSON NodeBaseMessage}.
Context (cfg : Config) (targetDir : string).

(** ** An empty catalog *)

(** What a program was answered until now shows that a registry has nothing to
    scan: it read a job with the snapshot of the registry, it listed the images of
    that registry, and the registry showed it no container image for a wanted
    platform. *)
Definition nothing_found (tr : trace Eff) : Prop :=
  ∃ job registry existing, job ∈ omap seen_job tr ∧ snapshot_of job registry ∧ cataloged registry existing [] tr.

(** The status of the job was written, for this job, by a run that had found
    nothing. *)
Definition completed_empty (log : list (trace Eff)) (j : ScanJob) : Prop :=
  ∃ tr o a, tr ++ [Ev (KStatusUpdate KScanJob o) a] ∈ log ∧ sj_UID o = sj_UID j ∧ sj_Status o = sj_Status j ∧ nothing_found tr.

(** ** The writes of each program *)

Definition patched (o : obs Eff) : option ScanJob :=
  match ev_patch KScanJob o with Some (_, Ok j) => Some j | _ => None end.

(** A status that says there was nothing to scan is only written by a program that
    found nothing, or back to the job it was read from. *)
Definition justified (tr : trace Eff) : Prop :=
  ∀ pre o a post, tr = pre ++ Ev (KStatusUpdate KScanJob o) a :: post → IsComplete o = true → marked_empty o →
    nothing_found pre ∨ ∃ j, j ∈ omap patched pre ∧ sj_UID j = sj_UID o ∧ sj_Status j = sj_Status o.

Definition never_empty A (e : Eff A) : Prop :=
  match e with KStatusUpdate k o => match k return obj k → Prop with KScanJob => λ o, IsComplete o = true → ¬ marked_empty o | _ => λ _, True end o
  | _ => True end.

Lemma justified_app tr1 tr2 :
  justified tr1 →
  (∀ pre o a post, tr2 = pre ++ Ev (KStatusUpdate KScanJob o) a :: post → IsComplete o = true → marked_empty o →
     nothing_found (tr1 ++ pre) ∨ ∃ j, j ∈ omap patched (tr1 ++ pre) ∧ sj_UID j = sj_UID o ∧ sj_Status j = sj_Status o) →
  justified (tr1 ++ tr2).
Proof.
  intros H1' H2' pre o a post Htr Hc Hm. apply app_eq_inv in Htr as [(k & -> & Hk)|(k & -> & Hk)].
  - destruct k as [|x k]; cbn in Hk; [|injection Hk as <- ->; apply (H1' pre o a k); [reflexivity|done|done]].
    rewrite <- Hk in H2'. specialize (H2' [] o a post eq_refl Hc Hm). by rewrite !app_nil_r in H2'.
  - by eapply H2'.
Qed.

Lemma never_justified tr1 tr2 : justified tr1 → Forall (obs_call never_empty) tr2 → justified (tr1 ++ tr2).
Proof.
  intros H1' Hf. apply justified_app; [done|]. intros pre o a post -> Hc Hm.
  apply Forall_app in Hf as [_ Hf]. inversion Hf as [|? ? Hn]; subst. by destruct (Hn Hc).
Qed.

Lemma justified_nil : justified [].
Proof. intros pre o a post Htr. by destruct pre. Qed.

Lemma never_program {R} (p : go R) : only never_empty p → wp any_answer p [] (λ tr _, justified tr).
Proof. apply wp_mono. intros tr r Htr. apply (never_justified []); [apply justified_nil|done]. Qed.

Lemma no_status_never {R} (p : go R) : only no_job_status p → only never_empty p.
Proof. apply only_mono. intros A e. destruct e; try done. by destruct k. Qed.

Lemma phase_never (p : Phase) (o : ScanJob) : in_phase p o → p ≠ Complete → IsComplete o = true → ¬ marked_empty o.
Proof. intros (_ & _ & _ & HC & _) Hp. rewrite HC. by rewrite bool_decide_false. Qed.

(** *** The catalog handler *)

Lemma ending_recorded ref registry existing images job tr r :
  ending ref registry existing images job tr r → Forall (λ w, recorded images w.1) (omap ev_status_update tr).
Proof.
  assert (∀ fin, finished ref images fin → Forall (λ w, recorded images w.1) (omap ev_status_update fin)) as Hfin.
  { intros fin [_ Hf]. eapply Forall_impl; [exact Hf|]. by intros ? []. }
  intros [dels e [Hd _]|dels fin r' [Hd _] Hf _|dels fin reqs o p r' [Hd _] Hf _ Ht _]; rewrite ?omap_app;
    destruct (deleting_quiet _ Hd) as (_ & -> & _); [constructor|by apply Hfin|].
  destruct (telling_quiet _ Ht) as [_ ->]. rewrite app_nil_r. by apply Hfin.
Qed.

Lemma handled_justified data tr r n : handled data tr r → justified (Ev MsgMetadata n :: tr).
Proof.
  assert (∀ tr, Forall (λ w, in_phase InProgress w.1) (omap ev_status_update tr) → Forall (obs_call never_empty) tr) as Hip.
  { clear. induction tr as [|[A e a] tr IH]; [constructor|]. intros Hw. destruct e; try (constructor; [done|by apply IH]).
    destruct k; try (constructor; [done|by apply IH]). inversion Hw as [|? ? Hj]; subst. constructor; [|by apply IH].
    exact (phase_never InProgress o Hj ltac:(done)). }
  change (Ev MsgMetadata n :: ?l) with ([Ev MsgMetadata n] ++ l).
  assert (∀ l, Forall (obs_call never_empty) l → justified ([Ev MsgMetadata n] ++ l)) as Hnever.
  { intros l Hl. apply (never_justified []); [apply justified_nil|]. by constructor. }
  intros [tr' r' _ _ Hw _|msg job registry start prepare found existing images finish after r' Hm Hst Hsn Hpre Hf Hc He Ha]; [by apply Hnever, Hip|].
  pose proof Hst as (Hstc & Hstw & Hlast). specialize (Hlast _ eq_refl).
  replace ([Ev MsgMetadata n] ++ start ++ prepare ++ found ++ finish ++ after)
    with (([Ev MsgMetadata n] ++ start ++ prepare ++ found) ++ (finish ++ after)) by (by rewrite <- !app_assoc).
  apply justified_app.
  - apply Hnever. apply Hip. rewrite !omap_app. destruct (searching_quiet _ (preparing_searching _ Hpre)) as (_ & _ & ->).
    destruct (searching_quiet _ Hf) as (_ & _ & ->). rewrite !app_nil_r. eapply Forall_impl; [exact Hstw|]. by intros ? [].
  - intros pre o a post Heq Hcomp _. left.
    assert (recorded images o) as Hrec.
    { pose proof (ending_recorded _ _ _ _ _ _ _ He) as Hr. rewrite Forall_forall in Hr. apply (Hr (o, a)).
      destruct (searching_quiet _ (preparing_searching _ Ha)) as (_ & _ & E). rewrite <- (app_nil_r (omap _ finish)), <- E, <- omap_app, Heq, omap_app.
      apply elem_of_app. right. by left. }
    unfold recorded in Hrec. destruct (decide (images = [])) as [->|Hne].
    2: { destruct Hrec as [(_ & _ & _ & HC & _) _]. by rewrite Hcomp in HC. }
    assert (Forall (obs_call (λ A e, ending_call A e ∨ preparing A e)) pre) as Hq.
    { assert (Forall (obs_call (λ A e, ending_call A e ∨ preparing A e)) (finish ++ after)) as Hall.
      { apply Forall_app. split; [eapply Forall_impl; [apply (ending_calls _ _ _ _ _ _ _ He)|]; intros [A e x]; by left|].
        eapply Forall_impl; [exact Ha|]. intros [A e x]. by right. }
      rewrite Heq in Hall. by apply Forall_app in Hall as [? _]. }
    exists job, registry, existing. split; [|split; [done|]].
    + rewrite <- !app_assoc. cbn [app]. change (omap seen_job (Ev MsgMetadata n :: ?l)) with (omap seen_job l).
      rewrite omap_app. apply elem_of_app. left. by eapply last_Some_elem_of.
    + rewrite <- !app_assoc. rewrite (app_assoc start), (app_assoc [_]). apply cataloged_frame; [| |done].
      * destruct (finishing_quiet _ Hstc) as (E1 & E2 & E3 & _).
        destruct (preparing_quiet registry ([Ev MsgMetadata n] ++ prepare)) as (E4 & E5 & E6 & _); [by constructor|].
        rewrite !omap_app in *. by rewrite E1, E2, E3.
      * split_and!; (eapply omap_calls; [|exact Hq]); intros A e x [[He'|[He'|He']]|He']; destruct e; try done; by destruct k.
Qed.

Lemma failure_never data errorMessage : only never_empty (ScanJob_HandleFailure data errorMessage).
Proof.
  apply calls_only. unfold ScanJob_HandleFailure, fail_job, fail_once, update_once, failed, RecordScanJobFinished. repeat calls_step; try done.
  all: exact (phase_never Failed _ (exec_phase _ (OpFailed _ _ _)) ltac:(done)).
Qed.

(** *** Deliveries *)

Lemma wp_justified {A B} (p : go A) (k : A → go B) tr0 :
  wp any_answer p tr0 (λ tr _, justified tr) → (∀ a, only never_empty (k a)) →
  wp any_answer (p ≫= k) tr0 (λ tr _, justified tr).
Proof.
  intros Hp Hk. eapply wp_cut; [exact Hp|]. intros tr a Htr. eapply wp_frame; [apply Hk|]. intros ext r. by apply never_justified.
Qed.

Lemma quiet_never {R} (p : go R) : only quiet_call p → only never_empty p.
Proof. intros Hp. eapply no_status_never, only_mono, Hp. intros A e []. by destruct e. Qed.

Lemma handle_justified subject data n :
  wp any_answer (handleMessage (registry_handlers cfg) subject data) [Ev MsgMetadata n] (λ tr _, justified tr).
Proof.
  assert (justified [Ev MsgMetadata n]) as H1'.
  { apply (never_justified []); [apply justified_nil|by repeat constructor]. }
  unfold handleMessage. destruct (registry_handlers cfg !! subject) as [hd|] eqn:Hh; [|done].
  assert (only never_empty (hd_Handle hd data) ∨ hd_Handle hd data = CreateCatalog.Handle (cfg_InstallationNamespace cfg) data) as [Hn| ->].
  { unfold registry_handlers in Hh. rewrite !lookup_insert_Some, lookup_empty in Hh.
    destruct Hh as [[_ <-]|[_ [[_ <-]|[_ [[_ <-]|[_ ?]]]]]]; [by right|left; apply quiet_never, generate_sbom_quiet|
      left; apply quiet_never, scan_sbom_quiet|done]. }
  - apply wp_justified; [|intros [[]|]; constructor]. eapply wp_frame; [exact Hn|]. intros ext r. by apply never_justified.
  - apply wp_justified; [|intros [[]|]; constructor]. eapply wp_frame; [apply Handle_handled|]. intros ext r. apply handled_justified.
Qed.

Lemma delivery_justified subject data : wp any_answer (on_message cfg subject data) [] (λ tr _, justified tr).
Proof.
  unfold on_message, consume. intros [n|e] _; cbn [app].
  - eapply wp_justified; [apply handle_justified|]. intros r. destruct (panicked r); [constructor|]. destruct r as [[]|e]; [by apply calls_only|].
    unfold handleFailure. case_bool_decide.
    + apply only_bind; [apply failure_never|]. intros r. destruct (panicked r); [constructor|by apply calls_only].
    + apply calls_only. unfold backoffDelay. repeat calls_step; exact I.
  - intros a _. apply (never_justified []); [apply justified_nil|by repeat constructor].
Qed.

Lemma node_delivery_justified nodeName subject data :
  wp any_answer (node_on_message cfg targetDir nodeName subject data) [] (λ tr _, justified tr).
Proof.
  apply never_program, no_status_never. unfold node_on_message, consume, handleMessage, handleFailure.
  assert (∀ R (p : go R), only node_call p → only no_job_status p) as Hnode.
  { intros R p. apply only_mono. by intros A e []. }
  apply only_bind; [by apply calls_only|]. intros [n|e]; [|by apply calls_only]. apply only_bind.
  { destruct (_ !! subject) as [hd|] eqn:Hs; [|constructor]. apply only_try; [|by constructor]. apply Hnode. revert Hs. unfold node_handlers.
    rewrite !lookup_insert_Some, lookup_empty. intros [[_ <-]|[_ [[_ <-]|[_ ?]]]]; [apply generate_node_calls|apply scan_node_calls|done]. }
  intros r. destruct (panicked r); [constructor|]. destruct r as [[]|e]; [by apply calls_only|]. case_bool_decide.
  - apply only_bind; [apply Hnode, node_failure_calls|]. intros r. destruct (panicked r); [constructor|by apply calls_only].
  - apply calls_only. unfold backoffDelay. repeat calls_step; exact I.
Qed.

(** *** The controller *)

Lemma progress_never now n j : IsComplete j = false → IsComplete (progress now n j) = true → ¬ marked_empty (progress now n j).
Proof.
  intros Hj Hc. destruct (IsFailed j) eqn:Hf.
  { rewrite progress_failed in Hc by done. change (IsComplete j = true) in Hc. congruence. }
  pose proof (progress_phase now n j Hf) as Hp. case_bool_decide as Hn; [|exact (phase_never InProgress _ Hp ltac:(done) Hc)].
  unfold marked_empty, progress. rewrite (Hf : IsFailed (with_counts _ _ j) = false). cbn [negb]. rewrite bool_decide_true by done.
  unfold MarkComplete, set_cond. cbn [with_Conditions sj_Status ss_Conditions].
  rewrite Find_Set_ne by done. by rewrite (Find_Set_eq _ {| c_Type := ConditionScanJobTypeComplete |}).
Qed.

Lemma vulnreport_never req : only never_empty (VulnReportController.Reconcile req).
Proof.
  apply calls_only. unfold VulnReportController.Reconcile, RecordScanJobFinished. repeat calls_step; try done. intros Hc. by apply progress_never.
Qed.

(** The job the reconciler of jobs writes back: not complete, or as it was patched. *)
Definition not_complete_or_patched (tr : trace Eff) (j : ScanJob) : Prop := IsComplete j = false ∨ j ∈ omap patched tr.

Lemma reconcileScanJob_writes j tr0 :
  IsComplete j = false →
  wp any_answer (reconcileScanJob j) tr0 (λ tr r, not_complete_or_patched tr r.1 ∧ ∃ ext, tr = tr0 ++ ext ∧ Forall (obs_call never_empty) ext).
Proof.
  intros Hj. assert (calls never_empty (reconcileScanJob j)) as Hcalls.
  { unfold reconcileScanJob, cleanupOldScanJobs, cleanup_history, delete_one. repeat calls_step; done. }
  apply wp_conj; [|by apply wp_calls].
  unfold reconcileScanJob. apply wp_bind. eapply wp_mono; [|apply wp_true]. intros tr r _. cbv beta.
  repeat wp_step; cbn [wp fst]; try (left; first [exact Hj | exact (proj1 (proj2 (proj2 (proj2 (exec_phase _ (OpFailed _ _ _))))))
    | exact (proj1 (proj2 (proj2 (proj2 (exec_phase _ (OpScheduled _ _))))))]).
  right. rewrite omap_app. apply elem_of_app. right. by left.
Qed.

Lemma scanjob_justified req : wp any_answer (ScanJobController.Reconcile req) [] (λ tr _, justified tr).
Proof.
  assert (∀ l, Forall (obs_call never_empty) l → justified l) as Hnever.
  { intros l. apply (never_justified []), justified_nil. }
  unfold ScanJobController.Reconcile. apply wp_bind. intros [j|e] _; cbn [app wp]; [|destruct (IsNotFound e); apply Hnever; by repeat constructor].
  destruct (om_DeletionTimestamp _); [apply Hnever; by repeat constructor|].
  destruct (negb _); [apply Hnever; by repeat constructor|]. cbv zeta.
  eapply wp_cut; [apply reconcileScanJob_writes; exact (proj1 (proj2 (proj2 (proj2 (exec_phase j OpInitialize)))))|].
  intros tr [j' err] [Hj' (ext & -> & Hext)]. cbn [fst] in Hj'.
  apply wp_try. intros a _.
  assert (justified (([Ev (KGet KScanJob req) (Ok j)] ++ ext) ++ [Ev (KStatusUpdate KScanJob j') a])) as Hw.
  { apply justified_app; [apply Hnever; by constructor|]. intros pre o b post Heq Hc Hm. right.
    destruct pre as [|x pre]; [|by destruct pre]. injection Heq as Heq _.
    assert (o = j') as -> by (by inversion Heq; simplify_eq). rewrite app_nil_r.
    destruct Hj' as [Hj'|Hj']; [congruence|]. by exists j'. }
  destruct a as [updated|e]; cbn [wp]; [|done]. eapply wp_frame; [|intros x r; apply never_justified; exact Hw].
  apply calls_only. unfold RecordScanJobFinished. repeat calls_step; done.
Qed.

Lemma pass_justified k req : wp any_answer (pass k req) [] (λ tr _, justified tr).
Proof.
  assert (k ∈ registered true true) as Hk by (destruct k; cbn; set_solver).
  destruct (writes_jobs k) eqn:Hw.
  - destruct k; try done; cbn [pass]; apply wp_justified; try (intros ?; constructor); [apply scanjob_justified|].
    apply never_program, vulnreport_never.
  - apply never_program, no_status_never. eapply only_mono, (pass_ok true true k req Hk). intros A e (_ & He & _). rewrite Hw in He.
    destruct e; try done. by destruct k0.
Qed.

Lemma program_justified p : program cfg targetDir p → wp any_answer p [] (λ tr _, justified tr).
Proof.
  intros [k req|subject data|nodeName subject data]; [apply pass_justified|..]; (apply wp_justified; [|intros ?; constructor]);
    [apply delivery_justified|apply node_delivery_justified].
Qed.

(** ** Histories *)

Abbreviation hist := (@history Eff kube).
Definition happened (h : hist) : Prop := happens (program cfg targetDir) serves changes empty_kube h.
Definition throughout (Q : hist → Prop) : Prop := ∀ h, happened h → Q h.

(** Every state the system can reach is the end of a history. *)
Lemma always_happened Q : throughout (λ h, Q (hs_pool h).*2 (hs_state h)) → always cfg targetDir Q.
Proof.
  intros HQ pool c Hr. destruct (reachable_happens _ _ _ _ _ _ Hr) as (h & Hh & [= <- <-]). by apply HQ.
Qed.

(** A job that says there was nothing to scan has a run that found nothing. *)
Definition explained (log : list (trace Eff)) (j : ScanJob) : Prop := IsComplete j = true → marked_empty j → completed_empty log j.

Record accounted (h : hist) : Prop := {
  ac_stored : ∀ s key j, was (hs_state h) s → sn_jobs s !! key = Some j → explained (hs_log h) j;
  ac_pool : Forall (λ tp, (∃ p, program cfg targetDir p ∧ leaves p tp.1 tp.2) ∧ Forall (explained (hs_log h)) (omap patched tp.1)) (hs_pool h)
}.

Lemma completed_empty_same log j j' :
  sj_UID j' = sj_UID j → sj_Status j' = sj_Status j → completed_empty log j → completed_empty log j'.
Proof. intros Hu Hs (tr & o & a & ? & ? & ? & ?). exists tr, o, a. split_and!; congruence. Qed.

Lemma explained_same log j j' : sj_UID j' = sj_UID j → sj_Status j' = sj_Status j → explained log j → explained log j'.
Proof.
  intros Hu Hs He. unfold explained, IsComplete, marked_empty. rewrite Hs. intros Hc Hm. eapply completed_empty_same; [done..|]. by apply He.
Qed.

Lemma explained_more log log' j : log ⊆ log' → explained log j → explained log' j.
Proof. intros Hl He Hc Hm. destruct (He Hc Hm) as (tr & o & a & ? & ?). exists tr, o, a. auto. Qed.

(** A new state keeps every job explained if each of its jobs was there, is new or
    was written as one that is. *)
Lemma stored_becomes log c c' :
  (∀ s key j, was c s → sn_jobs s !! key = Some j → explained log j) →
  (∀ s, was c' s → was c s ∨ ∀ key j, sn_jobs s !! key = Some j →
     (∃ key' old, jobs c !! key' = Some old ∧ sj_UID j = sj_UID old ∧ sj_Status j = sj_Status old) ∨
     sj_Status j = empty_ScanJobStatus ∨ explained log j) →
  ∀ s key j, was c' s → sn_jobs s !! key = Some j → explained log j.
Proof.
  intros Hc Hs s key j Hw Hj. destruct (Hs s Hw) as [Hw'|Hnew]; [by eapply Hc|].
  destruct (Hnew key j Hj) as [(key' & old & Hold & Hu & Hst)|[Hst|He]]; [..|done].
  - eapply explained_same; [done|done|]. eapply Hc; [by left|done].
  - intros HC. exfalso. revert HC. unfold IsComplete, condition_true. rewrite Hst. cbn. by rewrite Find_nil.
Qed.

(** The states a write makes. *)
Definition extends (c c' : kube) (P : ScanJob → Prop) : Prop :=
  ∀ s, was c' s → was c s ∨ ∀ key j, sn_jobs s !! key = Some j →
    (∃ key' old, jobs c !! key' = Some old ∧ sj_UID j = sj_UID old ∧ sj_Status j = sj_Status old) ∨
    sj_Status j = empty_ScanJobStatus ∨ P j.

Lemma extends_jobs c m P :
  (∀ key j, m !! key = Some j → jobs c !! key = Some j ∨
     (∃ key' old, jobs c !! key' = Some old ∧ sj_UID j = sj_UID old ∧ sj_Status j = sj_Status old) ∨ sj_Status j = empty_ScanJobStatus ∨ P j) →
  extends c (with_jobs c m) P.
Proof. intros Hm s [-> |?]%was_becomes; [right|by left]. intros key j Hj. destruct (Hm key j Hj) as [?|?]; [left; eauto|done]. Qed.

Lemma extends_insert c key j P :
  (∃ old, jobs c !! key = Some old ∧ sj_UID j = sj_UID old ∧ sj_Status j = sj_Status old) ∨ sj_Status j = empty_ScanJobStatus ∨ P j →
  extends c (with_jobs c (<[key := j]> (jobs c))) P.
Proof.
  intros Hj. apply extends_jobs. intros key' j' [[<- <-]|[_ Hl]]%lookup_insert_Some; [right|by left].
  destruct Hj as [(old & ? & ?)|Hj]; [left; eauto|by right].
Qed.

Lemma extends_same c P : extends c c P.
Proof. intros s Hs. by left. Qed.

Lemma extends_created c j c' P : job_created c j c' → extends c c' P.
Proof. intros (_ & Hs & _ & ->). apply extends_insert. auto. Qed.
Lemma extends_edited c key j c' P : job_edited c key j c' → extends c c' P.
Proof. intros (old & Hold & [_ Hu] & Hs & ->). apply extends_insert. eauto. Qed.
Lemma extends_written c o j c' (P : ScanJob → Prop) :
  job_status_written c o j c' → (∀ j', sj_UID j' = sj_UID o → sj_Status j' = sj_Status o → P j') → extends c c' P.
Proof.
  intros (old & _ & Hu & _ & [_ Hu'] & _ & Hs & ->) HP. apply extends_insert. right. right. apply HP; [|done]. unfold sj_UID. congruence.
Qed.
Lemma extends_subset c m P : m ⊆ jobs c → extends c (with_jobs c m) P.
Proof. intros Hm. apply extends_jobs. intros key j Hj. left. by eapply lookup_weaken. Qed.
Lemma extends_reports c c' P : reports_changed c c' → extends c c' P.
Proof.
  intros [Hj Hp]. destruct c' as [[m r] past]; cbn in *. subst. intros s [-> |Hs].
  - right. intros key j Hin. left. exists key, j. done.
  - left. cbn in Hs. apply elem_of_cons in Hs as [-> |?]; [by left|by right].
Qed.
Lemma extends_wrote (effect : ScanJob → kube → Prop) c a c' P :
  (∀ j c', effect j c' → extends c c' P) → wrote effect c a c' → extends c c' P.
Proof. intros He. destruct a as [j|e]; cbn; [apply He|]. intros [-> |[j Hj]]; [apply extends_same|by eapply He]. Qed.

Lemma changes_extends c c' P : changes c c' → extends c c' P.
Proof.
  intros [j c'' Hc|key j c'' Hc|key|c'' Hc];
    eauto using extends_created, extends_edited, extends_reports. apply extends_subset, delete_subseteq.
Qed.

(** The status update is the only call that can store a new status. *)
Lemma serves_extends c A (e : Eff A) a c' (P : ScanJob → Prop) :
  serves c A e a c' →
  (∀ o, obs_call (λ A e, match e with KStatusUpdate k x => match k return obj k → Prop with KScanJob => eq o | _ => λ _, False end x | _ => False end) (Ev e a) →
     ∀ j', sj_UID j' = sj_UID o → sj_Status j' = sj_Status o → P j') →
  extends c c' P.
Proof.
  intros Hs HP. destruct e; try (cbn in Hs; subst; apply extends_same); destruct k; cbn in Hs; try (subst; apply extends_same);
    try (by apply extends_reports); try (destruct Hs as [-> _]; apply extends_same).
  - eapply extends_wrote; [|exact Hs]. intros j c''. apply extends_created.
  - eapply extends_wrote; [|exact Hs]. intros j c''. apply extends_edited.
  - eapply extends_wrote; [|exact Hs]. intros j c'' Hj. eapply extends_written; [exact Hj|]. by apply HP.
  - eapply extends_wrote; [|exact Hs]. intros j c''. apply extends_edited.
  - destruct Hs as [-> | ->]; [apply extends_same|apply extends_subset, delete_subseteq].
  - destruct Hs as (m & Hm & ->). by apply extends_subset.
Qed.

Lemma patched_explained log c A (e : Eff A) a c' :
  (∀ s key j, was c s → sn_jobs s !! key = Some j → explained log j) → serves c A e a c' →
  Forall (explained log) (omap patched [Ev e a]).
Proof.
  intros Hst Hs. destruct e; try constructor. destruct k; try constructor. destruct a as [j|e]; [|constructor].
  apply Forall_singleton. destruct Hs as (old & Hold & [_ Hu] & Hj & _). eapply explained_same; [done|done|]. eapply Hst; [by left|done].
Qed.

Lemma accounted_call before tr A (e : Eff A) k after log c a c' :
  serves c A e a c' →
  accounted {| hs_pool := before ++ (tr, Vis e k) :: after; hs_log := log; hs_state := c |} →
  accounted {| hs_pool := before ++ (tr ++ [Ev e a], k a) :: after; hs_log := (tr ++ [Ev e a]) :: log; hs_state := c' |}.
Proof.
  intros Hs [Hst Hpool]. cbn in *.
  assert (log ⊆ (tr ++ [Ev e a]) :: log) as Hlog by set_solver.
  assert (∀ s key j, was c s → sn_jobs s !! key = Some j → explained ((tr ++ [Ev e a]) :: log) j) as Hst'.
  { intros. eapply explained_more; [done|]. by eapply Hst. }
  apply Forall_app in Hpool as [Hb Hpool]. apply Forall_cons in Hpool as [[(p & Hp & Hl) Hpat] Ha]. cbn in Hl, Hpat.
  assert (∀ l, Forall (explained log) l → Forall (explained ((tr ++ [Ev e a]) :: log)) l) as Hmore.
  { intros l Hl'. eapply Forall_impl; [exact Hl'|]. intros j. by apply explained_more. }
  split; cbn.
  - apply (stored_becomes _ c); [done|]. apply (serves_extends _ _ _ _ _ _ Hs). intros o Ho.
    destruct e; try done. destruct k0; try done. cbn in Ho. subst o0. intros j' Hu Hj' Hc Hm.
    assert (IsComplete o = true ∧ marked_empty o) as [Hco Hmo].
    { unfold IsComplete, marked_empty in *. by rewrite <- Hj'. }
    apply (leaves_snoc p tr (KStatusUpdate KScanJob o) k a) in Hl.
    destruct (leaves_wp (λ A e, (refuse A e tt).1) _ _ _ _ Hl (program_justified p Hp)) as (ext & [] & Hq).
    rewrite <- app_assoc in Hq. destruct (Hq tr o a ext eq_refl Hco Hmo) as [Hn|(j & Hj & Huj & Hsj)].
    + exists tr, o, a. split_and!; try done. left.
    + apply (completed_empty_same _ j); [congruence|congruence|].
      rewrite Forall_forall in Hpat. apply (explained_more log); [done|by apply Hpat|..]; unfold IsComplete, marked_empty in *; by rewrite Hsj.
  - apply Forall_app. split; [|constructor].
    + eapply Forall_impl; [exact Hb|]. intros tp [? ?]. auto.
    + cbn. split; [exists p; split; [done|by apply leaves_snoc]|]. rewrite omap_app. apply Forall_app. split; [by apply Hmore|].
      by eapply patched_explained.
    + eapply Forall_impl; [exact Ha|]. intros tp [? ?]. auto.
Qed.

Lemma accounted_step h h' : hstep (program cfg targetDir) serves changes h h' → accounted h → accounted h'.
Proof.
  intros [p pool log c Hp|before tr A e k after log c a c' Hs|before p after log c|pool log c c' Hc] Hac; [|by eapply accounted_call|..];
    destruct Hac as [Hst Hpool]; cbn in *; split; cbn; try done.
  - apply Forall_app. split; [done|]. apply Forall_singleton. split; [|constructor]. exists p. split; [done|constructor].
  - apply Forall_app in Hpool as [Hb Ha]. inversion Ha; subst. by apply Forall_app.
  - eapply stored_becomes; [exact Hst|]. by apply changes_extends.
Qed.

Lemma happened_accounted h : happened h → accounted h.
Proof.
  unfold happened, happens. apply (rtc_ind_r accounted).
  - split; [|constructor]. intros s key j [-> |Hs]; [cbn; by rewrite lookup_empty|by apply elem_of_nil in Hs].
  - intros h1 h2 _ Hs. by apply accounted_step.
Qed.

(** [C1] The promise of the whole system.  In every history of the controllers and
    the workers, however their calls are interleaved, whatever fails, is stale or
    is killed, and whatever users do to jobs and reports: every job in the cluster
    is in exactly one phase; and a job that is complete is so because its status
    was written by a run that had been shown no image to scan (it had read a job
    with the snapshot of the registry, had listed that registry's images, and no
    answer of the registry showed a container image for a wanted platform), or
    because its scanned images are as many as its images and so were, at some
    moment, the reports that carry its identity. *)
Theorem completed_jobs_complete :
  throughout (λ h, ∀ key j, jobs (hs_state h) !! key = Some j →
    (∃ p, in_phase p j) ∧ (IsComplete j = true → completed_empty (hs_log h) j ∨ completed_scanned (hs_state h) j)).
Proof.
  intros h Hh key j Hj. pose proof (happens_reachable _ _ _ _ _ Hh) as Hr.
  destruct (Inv_now _ key j (Inv_reachable cfg targetDir _ _ Hr) Hj) as [_ [Hp Hc]]. split; [done|].
  intros Hcj. destruct (Hc Hcj) as [Hm|?]; [left|by right].
  destruct (happened_accounted _ Hh) as [Hst _]. exact (Hst (kb_now (hs_state h)) key j ltac:(by left) Hj Hcj Hm).
Qed.
End completion.
