(* ===== verification/SystemSample.v ===== *)
(** * A run of the whole system

    From an empty cluster: a user creates a scan job, the worker catalogs one
    image for it, the report of the image appears, and the reconciler completes
    the job.  The states the theorems of [System] speak of are states the system
    reaches. *)

From stdpp Require Import prelude gmap strings list relations.
From Stdlib Require Import ZArith Lia.
From S2P Require Import Prelude Prog Conditions Meta Registry ScanJob NodeScanJob Filters StorageTypes Report RegistryClient Effects StatusUpdate RegistryAuth Messages ImageCatalog CreateCatalog GenerateSBOM ScanSBOM FailureHandlers Subscriber History ScanJobController VulnReportController Worker NodeWorker WorkloadScanController ImageWorkloads ControllerCache Interleaving System.
Import ScanJob.
Open Scope Z_scope.

(** ** The cluster *)

Definition sample_key : NamespacedName := {| nn_Namespace := "default"; nn_Name := "job" |}.
Definition sample_uid := "0b7c".

(** The job as the user's request is stored, with the snapshot of its registry. *)
Definition sample_job : ScanJob := {|
  sj_Meta := {| om_Name := "job"; om_GenerateName := ""; om_Namespace := "default"; om_UID := sample_uid;
    om_ResourceVersion := "1"; om_Generation := 1; om_CreationTimestamp := 0; om_DeletionTimestamp := None; om_Labels := ∅;
    om_Annotations := {[ AnnotationScanJobRegistryKey := "snapshot" ]}; om_OwnerReferences := [] |};
  sj_Spec := {| sp_Registry := "reg"; sp_Repositories := [] |}; sj_Status := empty_ScanJobStatus |}.

(** The message that asks for its catalog. *)
Definition sample_message : JSON CreateCatalogMessage :=
  {| Marshal := λ _, Err (errors_New "unsupported");
     Unmarshal := λ _, Ok {| ccm_ScanJob := {| o_Name := "job"; o_Namespace := "default"; o_UID := sample_uid |} |} |}.

(** One image, for one platform. *)
Definition sample_manifest : IndexManifest := {|
  ix_ArtifactType := "";
  ix_Manifests := [{| ie_Digest := "sha256:aa"; ie_Platform := Some (linux "amd64") |}] |}.
Definition sample_index : Descriptor := {|
  ds_MediaType := "index";
  ds_ParseIndexManifest := Ok sample_manifest;
  ds_ParseManifest := Err (errors_New "not a manifest");
  ds_ImageIndex := Ok {| cx_IndexManifest := Ok sample_manifest; cx_Digest := Ok "sha256:ii" |} |}.

(** ** Its servers *)

Definition refused : error := apierror ReasonNotFound "refused".

(** The job the status of [o] is stored in, if it is the version [o] was read at. *)
Definition store_status (c : kube) (o : ScanJob) : result ScanJob * kube :=
  match jobs c !! key_of (sj_Meta o) with
  | Some old =>
      if bool_decide (om_UID (sj_Meta o) = om_UID (sj_Meta old) ∧ om_ResourceVersion (sj_Meta o) = om_ResourceVersion (sj_Meta old))
      then let j := {| sj_Meta := sj_Meta old; sj_Spec := sj_Spec old; sj_Status := sj_Status o |} in
           (Ok j, with_jobs c (<[key_of (sj_Meta o) := j]> (jobs c)))
      else (Err (apierror ReasonConflict "the object has been modified"), c)
  | None => (Err refused, c)
  end.

Lemma store_status_serves c o : wrote (job_status_written c o) c (store_status c o).1 (store_status c o).2.
Proof.
  unfold store_status. destruct (jobs c !! key_of (sj_Meta o)) as [old|] eqn:Hold; [|by left].
  case_bool_decide as Hv; [|by left]. destruct Hv as [? ?]. by exists old.
Qed.

(** The state after a write that is not served here. *)
Definition untouched (k : kind) (c : kube) : kube :=
  match k with KVulnerabilityReport => becomes c (kb_now c) | _ => c end.

(** An API server that serves jobs and reports and creates images, a registry with one tag,
    and a broker. *)
Definition sample_server `{!LabelSelectors} : handler Eff kube := λ A e c,
  match e in Eff A return A * kube with
  | KGet k key =>
      (match k return result (obj k) with
       | KScanJob => match jobs c !! key with Some j => Ok j | None => Err refused end
       | KVulnerabilityReportMeta => match sn_reports (kb_now c) !! key with Some r => Ok (vr_Meta r) | None => Err refused end
       | _ => Err refused end, c)
  | KList k opts =>
      (match k return result (list (obj k)) with
       | KScanJob => Ok (jobs_matching (kb_now c) opts)
       | KVulnerabilityReportMeta => Ok (reports_matching (kb_now c) opts)
       | _ => Ok [] end, c)
  | KCreate k o => (match k return obj k → result (obj k) with KImage => λ o, Ok o | _ => λ _, Err refused end o, untouched k c)
  | KStatusUpdate k o =>
      match k return obj k → result (obj k) * kube with
      | KScanJob => store_status c
      | _ => λ _, (Err refused, c)
      end o
  | KUpdate k _ | KPatch k _ _ => (Err refused, untouched k c)
  | KDelete k _ => (Err refused, untouched k c)
  | KDeleteAllOf k => (Err refused, match k with KScanJob => with_jobs c (jobs c) | _ => untouched k c end)
  | MsgMetadata => (Ok 1, c)
  | RemoteTags _ _ => (Ok [Ok ["v1"]], c)
  | RemoteGet _ _ => (Ok sample_index, c)
  | RemoteIndexImage _ _ _ => (Ok shared_image, c)
  | NewPuller _ | MsgInProgress | MsgAck | PublishMsg _ _ _ | NewTagEvaluator => (Ok tt, c)
  | e => ((refuse _ e tt).1, c)
  end.

Section sample.
Context `{!GoTime, !GoSort, !LabelSelectors, !Controllers, !CreateOrPatcher}.
Context `{!Trivy, !YAML, !CreateOrUpdater, !Float64}.
Context `{!JSON RescanRequest, !JSON NodeScanConfiguration, !JSON GenerateNodeSBOMMessage}.
Context `{!JSON ScanSBOMMessage, !JSON BaseMessage, !JSON (list trivyResult)}.
Context `{!JSON ScanNodeSBOMMessage, !JSON NodeBaseMessage}.
Context (cfg : Config) (targetDir : string) (content : VulnerabilityReport).
#[local] Existing Instances meta_conditions append_ControllerUtil plain_Names plain_MediaTypes toy_CEL insertion_order DefaultRetry
  snapshot_JSON sample_message request_JSON.
#[local] Instance no_certificates : X509 := {| AppendCertsFromPEM := λ _, false |}.

(** It answers as the API server may. *)
Lemma sample_server_serves A (e : Eff A) c : serves c A e (sample_server A e c).1 (sample_server A e c).2.
Proof.
  destruct e; try done; destruct k; try done; cbn; try (by split); try (by left).
  - split; [done|]. intros j. destruct (jobs c !! key) eqn:Hj; [|done]. intros [= ->]. exists (kb_now c). by split; [left|].
  - split; [done|]. intros m. destruct (sn_reports (kb_now c) !! key) as [r|] eqn:Hr; [|done]. intros [= <-].
    exists (kb_now c), r. by split; [left|].
  - split; [done|]. intros l [= <-]. exists (kb_now c). by split; [left|].
  - split; [done|]. intros l [= <-]. exists (kb_now c). by split; [left|].
  - apply store_status_serves.
  - exists (jobs c). by split.
Qed.

(** ** The run *)

Definition created : kube := with_jobs empty_kube (<[sample_key := sample_job]> (jobs empty_kube)).
Definition deliver (subject data : string) : prog Eff unit := _ ← on_message cfg subject data; Ret tt.
Definition cataloged : kube := run_state sample_server (deliver CreateCatalogSubject "") created.

Lemma cataloged_job :
  (λ j, (ss_ImagesCount (sj_Status j), JobFinished j, sj_UID j)) <$> jobs cataloged !! sample_key = Some (1, false, sample_uid).
Proof. vm_compute. reflexivity. Qed.

Definition report_key : NamespacedName := {| nn_Namespace := "default"; nn_Name := "aa" |}.
Definition sample_report : VulnerabilityReport := {|
  vr_Meta := new_meta "aa" "" "default" {[ LabelScanJobUIDKey := sample_uid ]} ∅;
  vr_ImageMetadata := vr_ImageMetadata content; vr_Report := vr_Report content |}.
Definition reported : kube := becomes cataloged {| sn_jobs := jobs cataloged; sn_reports := {[ report_key := sample_report ]} |}.

Lemma reported_count : reports_of (kb_now reported) "default" sample_uid = 1.
Proof. vm_compute. reflexivity. Qed.

(** The steps up to the report. *)
Lemma reported_reachable :
  reachable (program cfg targetDir) serves changes empty_kube [Ret tt] reported.
Proof.
  eapply rtc_l; [apply step_change, (job_appears _ sample_job created)|].
  { split_and!; [done|done| |done]. intros s key j [-> |Hs]; [|by apply elem_of_nil in Hs]. cbn. by rewrite lookup_empty. }
  eapply rtc_l; [apply (step_start _ _ _ (deliver CreateCatalogSubject "")); constructor|].
  etrans; [apply (run_steps _ serves changes sample_server _ [] [] created sample_server_serves)|].
  apply rtc_once, step_change, reports_change. by split.
Qed.

Lemma jobs_becomes c m r : jobs (becomes c {| sn_jobs := m; sn_reports := r |}) = m.
Proof. done. Qed.
Lemma reports_becomes c m r : sn_reports (kb_now (becomes c {| sn_jobs := m; sn_reports := r |})) = r.
Proof. done. Qed.

(** Every image has its report, in a state the system reaches. *)
Lemma all_reported_reachable :
  ∃ j, ss_ImagesCount (sj_Status j) = 1 ∧ all_reported reported sample_key j report_key.
Proof.
  pose proof cataloged_job as (j & Hj & [= Hn Hf Hu])%fmap_Some. exists j. split; [by symmetry|]. split_and!.
  - unfold reported. rewrite jobs_becomes. exact Hj.
  - by symmetry.
  - exists sample_report. unfold reported. rewrite reports_becomes. split_and!; [apply lookup_singleton_eq|reflexivity|].
    rewrite <- Hu. apply lookup_singleton_eq.
  - rewrite <- Hu, <- Hn. apply reported_count.
Qed.

(** The whole system completes a job: from an empty cluster it reaches a state with
    a complete job of one image, completed because that image was scanned. *)
Theorem system_completes_a_job :
  ∃ pool c j, reachable (program cfg targetDir) serves changes empty_kube pool c ∧
    jobs c !! sample_key = Some j ∧ IsComplete j = true ∧ ss_ScannedImagesCount (sj_Status j) = 1.
Proof.
  destruct all_reported_reachable as (j & Hn & Hall).
  pose proof (report_pass_completes _ _ _ _ (Inv_reachable cfg targetDir _ _ reported_reachable) Hall) as Ha.
  destruct (achieves_steps (program cfg targetDir) serves changes healthy (pass VulnerabilityReportReconciler report_key)
    [Ret tt] [] reported (λ _ c', completed c' sample_key j)) as (c & (j' & Hj & _ & Hc & Hs) & Hsteps); [by intros ? ? ? ? ? []|done|].
  exists ([Ret tt] ++ [Ret tt]), c, j'. split_and!; [|done|done|by rewrite Hs].
  unfold reachable. etrans; [apply reported_reachable|]. eapply rtc_l; [apply step_start; constructor|exact Hsteps].
Qed.

(** ** A completion undone

    The message is delivered a second time (its first acknowledgement was lost) and
    the second delivery is about to record the images when the job completes. *)

Definition interrupted : prog Eff unit * kube := advance sample_server 16 (deliver CreateCatalogSubject "") cataloged.
Definition reported_late : kube :=
  becomes interrupted.2 {| sn_jobs := jobs interrupted.2; sn_reports := {[ report_key := sample_report ]} |}.
Definition finished : kube := run_state sample_server (pass VulnerabilityReportReconciler report_key) reported_late.
Definition undone : kube := run_state sample_server interrupted.1 finished.

Lemma finished_reachable :
  reachable (program cfg targetDir) serves changes empty_kube [Ret tt; interrupted.1; Ret tt] finished.
Proof.
  eapply rtc_l; [apply step_change, (job_appears _ sample_job created)|].
  { split_and!; [done|done| |done]. intros s key j [-> |Hs]; [|by apply elem_of_nil in Hs]. cbn. by rewrite lookup_empty. }
  eapply rtc_l; [apply (step_start _ _ _ (deliver CreateCatalogSubject "")); constructor|].
  etrans; [apply (run_steps _ serves changes sample_server _ [] [] created sample_server_serves)|].
  eapply rtc_l; [apply (step_start _ _ _ (deliver CreateCatalogSubject "")); constructor|].
  etrans; [apply (advance_steps _ serves changes sample_server 16 _ [Ret tt] [] cataloged sample_server_serves)|].
  eapply rtc_l; [apply step_change, (reports_change _ reported_late); by split|].
  eapply rtc_l; [apply (step_start _ _ _ (pass VulnerabilityReportReconciler report_key)); constructor|].
  apply (run_steps _ serves changes sample_server _ [Ret tt; interrupted.1] [] reported_late sample_server_serves).
Qed.

Lemma finished_job :
  (λ j, (IsComplete j, sj_UID j)) <$> jobs finished !! sample_key = Some (true, sample_uid).
Proof. vm_compute. reflexivity. Qed.

Lemma undone_job :
  (λ j, (IsComplete j, IsInProgress j, ss_ScannedImagesCount (sj_Status j), ss_ImagesCount (sj_Status j), sj_UID j)) <$>
    jobs undone !! sample_key = Some (false, true, 0, 1, sample_uid) ∧ reports_of (kb_now undone) "default" sample_uid = 1.
Proof. vm_compute. by split. Qed.

(** A job that is complete can go back to in progress.  The catalog handler looks at
    the phase of the job when it starts and not when it records the images: when
    a message is delivered twice and the job completes during the second
    delivery, the job is in progress again with no image scanned, although every
    image has its report. *)
Theorem completion_undone :
  ∃ pool c j pool' c' j',
    reachable (program cfg targetDir) serves changes empty_kube pool c ∧
    jobs c !! sample_key = Some j ∧ IsComplete j = true ∧
    rtc (step (program cfg targetDir) serves changes) (pool, c) (pool', c') ∧
    jobs c' !! sample_key = Some j' ∧ sj_UID j' = sj_UID j ∧ IsComplete j' = false ∧ IsInProgress j' = true ∧
    ss_ScannedImagesCount (sj_Status j') = 0 ∧
    reports_of (kb_now c') "default" (sj_UID j') = ss_ImagesCount (sj_Status j').
Proof.
  pose proof finished_job as (j & Hj & [= Hc Hu])%fmap_Some.
  pose proof undone_job as [(j' & Hj' & [= Hc' Hi Hs Hn Hu'])%fmap_Some Hrep].
  exists [Ret tt; interrupted.1; Ret tt], finished, j, [Ret tt; Ret tt; Ret tt], undone, j'.
  split; [apply finished_reachable|]. split; [exact Hj|]. split; [by rewrite Hc|]. split; [|split_and!; congruence].
  apply (run_steps _ serves changes sample_server interrupted.1 [Ret tt] [Ret tt] finished sample_server_serves).
Qed.
End sample.
